(* ===== verification/_CoqProject ===== *)
-Q . S2P
Prelude.v
Uint256.v
Bitwise256.v
Limbs.v
Arith256.v
Division256.v
ModArith.v
Primes.v
AffineCurve.v
Keccak.v
Secp256k1.v
SecpField.v
SecpCurve.v
SecpSpec.v
Hashes.v
HashSpec.v
Bn254.v
BnTower.v
BnCurve.v
BnPairing.v
Bls12.v
BlsSpec.v
Mpt.v
Frame.v
Stepper.v
StepperSpec.v
StepperRefine.v
StateTrie.v
StateTrieSpec.v
Trie.v
TrieSpec.v
StateRoot.v
StateRootSpec.v
RlpFacts.v
StorageProof.v
StorageProofSpec.v
BlockTypes.v
GasMath.v
Mempool.v
MempoolSpec.v
SeqQueues.v
Retryable.v
BatchRlp.v
BatchSpec.v
TxRlp.v
TxDecode.v
TxDecodeSpec.v
TxDecodeTyped.v
CallContext.v
CallEnv.v
HostSpec.v
CallSpec.v
Precompiles.v
PrecompileSpec.v
ReceiptTrie.v
ReceiptSpec.v
BlockProcessor.v
Sequencer.v
BlockSpec.v
SequencerSpec.v
BlockProps.v
EvmProps.v
StateProps.v
SeqProps.v
CryptoProps.v
TxProps.v
NodeProps.v
PrecompileProps.v
