(* ===== verification/Prelude.v ===== *)
(** * crypto55: a verification library for the execution engine of an L2 rollup

    The repository is a Go implementation of a rollup node: 256-bit words, Keccak
    and Merkle Patricia encodings, an EVM interpreter, a journaled world state
    with its tries, message calls, block processing, and a sequencer with its
    pool, queues, tickets and batches. The development is a shallow embedding of
    that code with the theorems that make each part correct. Go is modelled as
    follows: an unsigned integer of [w] bits is a [Z] with its wrap-around written
    out; a slice is a list of [Z] bytes; a map is a [gmap], its iteration an
    arbitrary enumeration passed as an argument; a function that can fail returns
    [outcome E A]: [Ok], [Err], [Panic] (a run-time panic: index, slice or division)
    or [OutOfFuel] (the bound of the model is exhausted, which the theorems
    exclude wherever the code terminates).

    ** Files, from the bottom up

    - this file: machine words, bytes, lists, the [outcome] monad, the shared
      tactics and hints.
    - [Uint256], [Bitwise256], [Limbs], [Arith256], [Division256]:
      [src/pkg/evm256/]. A word is a record of four limbs; [toZ] is its value, and
      each operation is proved to compute its function of the values. [Limbs] is
      the theory of little-endian limb lists that multiplication and Knuth's
      division share.
    - [ModArith], [Primes], [AffineCurve]: congruences, powers and inverses modulo
      a prime; the primes of the three curves with their certificates; the affine
      group law of a short Weierstrass curve, the specification of the points.
    - [Keccak], [Mpt]: [src/pkg/c2crypto/keccak.go], [mpt.go]. The unrolled
      permutation equals the five-step reference; RLP and node encodings.
    - [Secp256k1]: [src/pkg/c2crypto/secp256k1.go], the whole file. [SecpField]:
      limbs and residues. [SecpCurve]: the Jacobian formulas refine the affine law.
      [SecpSpec]: the recovery equations.
    - [Hashes], [Bn254], [Bls12], [Precompiles]: [src/pkg/c2block/precompiles.go]:
      the hash functions, the curve bn254 with its tower of fields and its pairing,
      the points of bls12-381, and the ten contracts. [HashSpec]: the rounds of
      BLAKE2 by rows, sizes of digests. [BnTower]: the tower as polynomials.
      [BnCurve]: the group law. [BnPairing]: the Miller loop and the order of its
      points. [BlsSpec]: decompression and the verification of openings.
      [PrecompileSpec]: price, answer and refusals of each contract; it discharges
      [PrecompileLaws].
    - [Frame], [Stepper]: [src/pkg/c2evm/]: one instruction of the interpreter
      over an interface [StateAccessor]. [StepperSpec]: frame invariant, gas and
      exceptional halts of every opcode. [StepperRefine]: the arithmetic opcodes
      refine an integer specification, jumps, PUSH, DUP, SWAP, memory.
    - [StateTrie]: accounts, storage and journal of
      [src/pkg/statetrie/account.go] and [state_trie.go]. [StateTrieSpec]: the
      journal refines saved copies of the state.
    - [Trie], [StateRoot]: the arena trie and the state root, [arena.go] and
      [state_trie.go]. [TrieSpec], [StateRootSpec]: insertion is map insertion,
      tries are canonical, the root depends on the contents only.
    - [RlpFacts]: what every RLP decoder of the repository shares.
    - [StorageProof], [StorageProofSpec]: [storage_proof.go].
    - [BlockTypes]: the records of [src/pkg/c2block/types.go].
    - [TxRlp], [TxDecode]: the encoders and decoders of
      [src/pkg/c2block/tx_decode.go]. [TxDecodeSpec]: decoding an encoding, type by
      type. [TxDecodeTyped]: what the decoder returns on any input.
    - [CallContext]: [src/pkg/c2block/call_context.go], the whole file: [run] is a
      message call, [exec_one] one round of its loop, [execHost] the host opcodes.
      [CallEnv]: what a step may do to the environment ([steps], [restored]).
      [HostSpec]: rules for the part of a host opcode that works on the frame.
      [CallSpec]: the contract of one opcode, of the loop and of [run], by
      induction on the call depth; the callee is used through its contract.
    - [ReceiptTrie], [ReceiptSpec]: blooms, receipts and their trie, from
      [src/pkg/c2block/block_processor.go]; the trie refines the one of [Trie].
    - [BlockProcessor], [BlockSpec]: fees, transactions and blocks, the same file.
    - [GasMath], [Retryable]: [src/pkg/c2seq/retryable.go]; [Mempool],
      [MempoolSpec]: [mempool.go]; [SeqQueues]: the queues of [timeboost.go] and
      [sequencer.go]; [BatchRlp], [BatchSpec]: [batch_poster.go].
    - [Sequencer], [SequencerSpec]: [src/pkg/c2seq/sequencer.go]: what is collected
      from the queues, the selection among it, and the production of a block.
    - [EvmProps], [StateProps], [BlockProps], [SeqProps], [CryptoProps], [TxProps],
      [NodeProps], [PrecompileProps]: the properties, with a witness each that
      evaluates the model on a concrete input.

    ** Interfaces

    The interpreter knows the state through [StateAccessor] and its laws
    ([StateAccessorLaws]): [Stepper] is verified against them, and [CallSpec]
    discharges them for the state bound to a call. A message call knows the
    precompiled contracts as a function with the laws [PrecompileLaws], which
    [PrecompileSpec] discharges for the contracts of the repository.

    ** Bounds

    A loop that is not structural takes fuel, computed by the function that
    enters it and proved sufficient: a frame runs at most as many rounds as it
    has gas, because every opcode but the halting ones costs at least one unit;
    calls nest at most 1024 deep; a node of a decoded list is shorter than the
    list; Knuth's and the trie's loops are bounded by their operands. The only
    loop without a bound is the one of the storage proof verifier, whose
    divergence is a theorem.

    ** What the theorems show

    [EvmProps]: a step never panics, never increases gas, and halts cleanly; the
    arithmetic is exact; the interpreter terminates. [StateProps]: reverting is
    exact; the root is deterministic; proofs bind values up to Keccak
    collisions. [BlockProps]: a call is sound in gas, value, logs and depth, is
    undone when it fails, terminates, and is pure when read-only; a transaction
    and a block create no value when fees and balances fit in 256 bits, and a
    refused one changes nothing; the receipts root commits to the receipts.
    [SeqProps]: the pool's batches, tickets, queues and the payload of batches.
    [NodeProps]: a block is the greedy selection among exactly what the queues
    yield. [CryptoProps]: key recovery follows its equations and the curve its
    group law. [TxProps]: decoding inverts encoding, is typed on every input, and
    the signed hash commits to the transaction. [PrecompileProps]: prices,
    answers and refusals of the contracts.

    The theorems and lemmas that show a defect of the code are among them: a proof
    that hangs the verifier, a log, a receipt, a raw transaction and a pairing that
    panic, a fee that wraps and mints, a batch that cannot be read back, a pairing
    that refuses the real twist, an evaluation that accepts false claims.

    ** Not modelled

    Mutexes (every operation is taken as atomic), the reuse of buffers and of the
    byte zone of the arena (values are copied, so no aliasing is expressed), JSON,
    HTTP, peer-to-peer and command-line code ([src/pkg/c2rpc], [c2web], [cmd]),
    the one-step witnesses ([onestep]), the test drivers ([c2torture]), the Brotli
    decoder ([src/pkg/c2crypto/brotli.go]), the timing of operations. *)

From Stdlib Require Export ZArith Lia.
From stdpp Require Export prelude gmap list sorting countable.

#[global] Open Scope Z_scope.
#[global] Set Default Goal Selector "!".

(** ** Machine words: Go's [uint64] as [Z] in [0, 2^64)

    The functions of [math/bits] are the ones of the Go standard library; the
    operators [+], [-], [*], [<<] of [uint64] are the [Z] ones followed by
    [u64]. *)

Abbreviation B64 := 18446744073709551616.

Definition u64 (z : Z) : Z := z mod B64.
Definition u32 (z : Z) : Z := z mod 4294967296.
Definition u8 (z : Z) : Z := z mod 256.

Definition is_u64 (z : Z) : Prop := 0 <= z < B64.
Definition is_u32 (z : Z) : Prop := 0 <= z < 4294967296.
Definition is_byte (z : Z) : Prop := 0 <= z < 256.

(** [bits.Add64], [bits.Sub64], [bits.Mul64]: value and carry/borrow. *)
Definition Add64 (x y carry : Z) : Z * Z :=
  ((x + y + carry) mod B64, (x + y + carry) / B64).
Definition Sub64 (x y borrow : Z) : Z * Z :=
  ((x - y - borrow) mod B64, if x <? y + borrow then 1 else 0).
Definition Mul64 (x y : Z) : Z * Z := ((x * y) / B64, (x * y) mod B64).

(** [bits.Div64 hi lo y] panics when [y <= hi]; every use in the code is
    guarded by the normalisation of the divisor, which the division proofs
    establish. *)
Definition Div64 (hi lo y : Z) : Z * Z :=
  ((hi * B64 + lo) / y, (hi * B64 + lo) mod y).

Definition LeadingZeros64 (x : Z) : Z := if x =? 0 then 64 else 63 - Z.log2 x.
Definition RotateLeft64 (x k : Z) : Z :=
  Z.lor (u64 (Z.shiftl x k)) (Z.shiftr x (64 - k)).

Definition not64 (x : Z) : Z := B64 - 1 - x.
Definition shl64 (x s : Z) : Z := u64 (Z.shiftl x s).
Definition shr64 (x s : Z) : Z := Z.shiftr x s.
Definition add64 (x y : Z) : Z := u64 (x + y).
Definition sub64 (x y : Z) : Z := u64 (x - y).
Definition mul64 (x y : Z) : Z := u64 (x * y).

(** Go's [int] is a 64-bit two's complement integer. *)
Definition i64 (z : Z) : Z :=
  let r := z mod B64 in if r <? 9223372036854775808 then r else r - B64.

(** ** Results of Go functions

    A call returns a value, returns an [error], panics (out-of-range index or
    slice, explicit [panic]) or, for a loop run with bounded fuel, has not
    finished yet. *)

Inductive outcome (E A : Type) : Type :=
  | Ok (a : A)
  | Err (e : E)
  | Panic
  | OutOfFuel.

Arguments Ok {E A} a.
Arguments Err {E A} e.
Arguments Panic {E A}.
Arguments OutOfFuel {E A}.

#[export] Instance outcome_ret E : MRet (outcome E) := fun A => Ok.
#[export] Instance outcome_bind E : MBind (outcome E) := fun A B f m =>
  match m with
  | Ok a => f a
  | Err e => Err e
  | Panic => Panic
  | OutOfFuel => OutOfFuel
  end.

Definition is_ok {E A} (m : outcome E A) : bool :=
  match m with Ok _ => true | _ => false end.

Lemma bind_ok {E A B} (m : outcome E A) (f : A -> outcome E B) b :
  mbind f m = Ok b -> exists a, m = Ok a /\ f a = Ok b.
Proof. destruct m; simpl; intros; try discriminate; eauto. Qed.

(** Case analysis on the [Ok] result of a chain of binds. *)
Ltac inv_bind H :=
  repeat match type of H with
  | mbind _ _ = Ok _ =>
      let a := fresh "r" in let E := fresh "E" in
      apply bind_ok in H as (a & E & H)
  end.

(** [lia] after replacing divisions and remainders by their equations. *)
Ltac dlia := Z.to_euclidean_division_equations; lia.

(** Case analysis on one integer test of the goal or of a hypothesis. *)
Ltac case_test a b t :=
  match t with
  | Z.ltb => destruct (Z.ltb_spec a b)
  | Z.leb => destruct (Z.leb_spec a b)
  | Z.eqb => destruct (Z.eqb_spec a b)
  | Nat.ltb => destruct (Nat.ltb_spec a b)
  | Nat.leb => destruct (Nat.leb_spec a b)
  | Nat.eqb => destruct (Nat.eqb_spec a b)
  end.
Ltac ztest :=
  match goal with
  | |- context [?t ?a ?b] => case_test a b t
  | H : context [?t ?a ?b] |- _ => case_test a b t
  end.
Ltac gtest := match goal with |- context [?t ?a ?b] => case_test a b t end.

(** ** Lists as Go slices of bytes *)

Abbreviation bytes := (list Z).

(** Indexing [l !!! i] gives 0 outside the bounds, where Go would panic; the
    lemmas that use it carry the bounds. *)
#[export] Instance Z_inhabited_zero : Inhabited Z := populate 0.

(** [zeros n]: a freshly made slice. *)
Definition zeros (n : nat) : bytes := replicate n 0.

(** [buf[lo:hi]] for indices in range. *)
Definition slice {A} (l : list A) (lo hi : nat) : list A := take (hi - lo) (drop lo l).

(** Indexing and slicing with Go's bounds checks. *)
Definition go_index {E} (b : bytes) (i : Z) : outcome E Z :=
  if (0 <=? i) && (i <? Z.of_nat (length b)) then Ok (b !!! Z.to_nat i) else Panic.
Definition go_slice {E A} (b : list A) (lo hi : Z) : outcome E (list A) :=
  if (0 <=? lo) && (lo <=? hi) && (hi <=? Z.of_nat (length b))
  then Ok (slice b (Z.to_nat lo) (Z.to_nat hi)) else Panic.

(** [copy(dst[off:], src)] for a source that fits. *)
Definition copy_at {A} (dst : list A) (off : nat) (src : list A) : list A :=
  take off dst ++ take (length dst - off) src ++ drop (off + length src) dst.

(** Big-endian value of a byte string ([binary.BigEndian.Uint64] on 8 bytes). *)
Definition be_val (l : bytes) : Z := foldl (fun acc b => acc * 256 + b) 0 l.

(** The [n] low bytes of [z], most significant first. *)
Fixpoint be_bytes (n : nat) (z : Z) : bytes :=
  match n with
  | O => []
  | S n => be_bytes n (z / 256) ++ [z mod 256]
  end.

Definition bytes_ok (l : bytes) : Prop := Forall is_byte l.

Create HintDb word.

(** ** Lemmas on words *)

Lemma u64_range z : is_u64 (u64 z).
Proof. apply Z.mod_pos_bound. lia. Qed.

Lemma u64_small z : is_u64 z -> u64 z = z.
Proof. apply Z.mod_small. Qed.

Lemma Add64_spec x y c :
  let '(s, c') := Add64 x y c in s + B64 * c' = x + y + c /\ is_u64 s.
Proof.
  unfold Add64, is_u64. pose proof (Z.div_mod (x + y + c) B64 ltac:(lia)).
  pose proof (Z.mod_pos_bound (x + y + c) B64). lia.
Qed.

Lemma Add64_carry x y c :
  is_u64 x -> is_u64 y -> 0 <= c <= 1 -> 0 <= (Add64 x y c).2 <= 1.
Proof.
  unfold Add64, is_u64; simpl; intros. split.
  - apply Z.div_pos; lia.
  - apply Z.lt_succ_r, Z.div_lt_upper_bound; lia.
Qed.

Lemma Sub64_spec x y b :
  is_u64 x -> is_u64 y -> 0 <= b <= 1 ->
  let '(d, b') := Sub64 x y b in
  d - B64 * b' = x - y - b /\ is_u64 d /\ 0 <= b' <= 1.
Proof.
  unfold Sub64, is_u64. intros.
  pose proof (Z.div_mod (x - y - b) B64 ltac:(lia)).
  pose proof (Z.mod_pos_bound (x - y - b) B64).
  destruct (Z.ltb_spec x (y + b)); lia.
Qed.

Lemma Mul64_spec x y :
  is_u64 x -> is_u64 y ->
  let '(hi, lo) := Mul64 x y in
  B64 * hi + lo = x * y /\ is_u64 lo /\ 0 <= hi <= B64 - 2.
Proof.
  unfold Mul64, is_u64. intros.
  pose proof (Z.div_mod (x * y) B64 ltac:(lia)).
  pose proof (Z.mod_pos_bound (x * y) B64).
  assert (x * y <= (B64 - 1) * (B64 - 1)) by nia.
  assert (0 <= x * y) by nia.
  assert (0 <= x * y / B64) by (apply Z.div_pos; lia). lia.
Qed.

(** Bits above the width of a word are clear. *)
Lemma testbit_high w x n : 0 <= w -> 0 <= x < 2 ^ w -> w <= n -> Z.testbit x n = false.
Proof.
  intros Hw Hx Hn. rewrite <- (Z.mod_small x (2 ^ w)) by done.
  apply Z.mod_pow2_bits_high. lia.
Qed.

Lemma u64_testbit_high x n : is_u64 x -> 64 <= n -> Z.testbit x n = false.
Proof. intros Hx. apply testbit_high; [lia | exact Hx]. Qed.

Lemma u64_testbit z n : Z.testbit (u64 z) n = (n <? 64) && Z.testbit z n.
Proof.
  unfold u64. destruct (Z.ltb_spec n 64); simpl.
  - destruct (decide (0 <= n)).
    + change B64 with (2 ^ 64). by rewrite Z.mod_pow2_bits_low.
    + rewrite !Z.testbit_neg_r by lia. done.
  - change B64 with (2 ^ 64). rewrite Z.mod_pow2_bits_high; [done | lia].
Qed.

(** A non-negative number all of whose bits from [w] on are clear fits in [w] bits. *)
Lemma bits_bound w x :
  0 <= w -> 0 <= x -> (forall n, w <= n -> Z.testbit x n = false) -> x < 2 ^ w.
Proof.
  intros Hw Hx Hb. destruct (decide (x = 0)) as [->|].
  - apply Z.pow_pos_nonneg; lia.
  - apply Z.log2_lt_pow2; [lia|].
    destruct (decide (w <= Z.log2 x)); [|lia].
    specialize (Hb (Z.log2 x) ltac:(lia)). rewrite Z.bit_log2 in Hb; [done|lia].
Qed.

Lemma lor_u64 x y : is_u64 x -> is_u64 y -> is_u64 (Z.lor x y).
Proof.
  intros Hx Hy. split; [apply Z.lor_nonneg; split; apply Hx || apply Hy|].
  change B64 with (2 ^ 64).
  apply bits_bound; [lia | apply Z.lor_nonneg; split; apply Hx || apply Hy |].
  intros n Hn. by rewrite Z.lor_spec, !u64_testbit_high.
Qed.

Lemma land_u64_l x y : is_u64 x -> 0 <= y -> is_u64 (Z.land x y).
Proof.
  intros Hx Hy. split; [apply Z.land_nonneg; lia|].
  change B64 with (2 ^ 64).
  apply bits_bound; [lia | apply Z.land_nonneg; lia |].
  intros n Hn. by rewrite Z.land_spec, u64_testbit_high.
Qed.

Lemma land_u64 x y : is_u64 x -> is_u64 y -> is_u64 (Z.land x y).
Proof. intros Hx [Hy _]. by apply land_u64_l. Qed.

Lemma lxor_u64 x y : is_u64 x -> is_u64 y -> is_u64 (Z.lxor x y).
Proof.
  intros Hx Hy.
  assert (0 <= Z.lxor x y) by (apply Z.lxor_nonneg; unfold is_u64 in *; lia).
  split; [done|]. change B64 with (2 ^ 64). apply bits_bound; [lia | done |].
  intros n Hn. by rewrite Z.lxor_spec, !u64_testbit_high.
Qed.

Lemma lor_disjoint_add a b k :
  0 <= k -> 0 <= a < 2 ^ k -> Z.lor a (2 ^ k * b) = a + 2 ^ k * b.
Proof.
  intros Hk Ha.
  assert (Z.land a (2 ^ k * b) = 0) as Hz.
  { apply Z.bits_inj'. intros n Hn.
    rewrite Z.land_spec, Z.bits_0, Z.mul_comm, Z.mul_pow2_bits by lia.
    destruct (Z.ltb_spec n k).
    - rewrite (Z.testbit_neg_r b) by lia. apply andb_false_r.
    - by rewrite (testbit_high k a) by lia. }
  by rewrite Z.add_nocarry_lxor, Z.lxor_lor.
Qed.

Lemma not64_u64 x : is_u64 x -> is_u64 (not64 x).
Proof. unfold is_u64, not64. lia. Qed.

Lemma not64_testbit x n :
  is_u64 x -> 0 <= n < 64 -> Z.testbit (not64 x) n = negb (Z.testbit x n).
Proof.
  intros Hx Hn. unfold not64.
  replace (B64 - 1 - x) with (u64 (Z.lnot x)).
  - rewrite u64_testbit, Z.lnot_spec by lia.
    destruct (Z.ltb_spec n 64); [done|lia].
  - unfold u64, Z.lnot, is_u64 in *. rewrite <- (Z_mod_plus_full _ 1).
    rewrite Z.mod_small; lia.
Qed.

Lemma shr64_u64 x s : is_u64 x -> 0 <= s -> is_u64 (shr64 x s).
Proof.
  intros [Hx Hx'] Hs. unfold shr64, is_u64. rewrite Z.shiftr_div_pow2 by done.
  assert (0 < 2 ^ s) by (apply Z.pow_pos_nonneg; lia).
  split; [apply Z.div_pos; lia|]. apply Z.div_lt_upper_bound; nia.
Qed.

Lemma shr64_div x s : 0 <= s -> shr64 x s = x / 2 ^ s.
Proof. apply Z.shiftr_div_pow2. Qed.

Lemma shl64_mul x s : 0 <= s -> shl64 x s = (x * 2 ^ s) mod B64.
Proof. intros. unfold shl64, u64. by rewrite Z.shiftl_mul_pow2. Qed.

#[export] Hint Resolve u64_range lor_u64 land_u64 lxor_u64 not64_u64 shr64_u64 : word.

(** ** Lemmas on byte strings *)

Lemma length_be_bytes n z : length (be_bytes n z) = n.
Proof. revert z; induction n; intros; simpl; [done|]. rewrite length_app, IHn. simpl. lia. Qed.

Lemma be_val_acc l a :
  foldl (fun acc b => acc * 256 + b) a l = a * 256 ^ Z.of_nat (length l) + be_val l.
Proof.
  unfold be_val. induction l as [|b l IH] using rev_ind; [simpl; lia|].
  rewrite !foldl_app, length_app. simpl. rewrite IH, Nat2Z.inj_add.
  change (Z.of_nat 1) with 1. rewrite Z.pow_add_r by lia. lia.
Qed.

Lemma be_val_app l1 l2 : be_val (l1 ++ l2) = be_val l1 * 256 ^ Z.of_nat (length l2) + be_val l2.
Proof. unfold be_val at 1. rewrite foldl_app. apply be_val_acc. Qed.

Lemma be_val_snoc l b : be_val (l ++ [b]) = be_val l * 256 + b.
Proof. unfold be_val. by rewrite foldl_app. Qed.

Lemma be_val_cons b l : be_val (b :: l) = b * 256 ^ Z.of_nat (length l) + be_val l.
Proof. change (b :: l) with ([b] ++ l). by rewrite be_val_app. Qed.

Lemma be_val_zeros n l : be_val (zeros n ++ l) = be_val l.
Proof. induction n; simpl; [done|]. unfold be_val in *. simpl. apply IHn. Qed.

Lemma be_val_bytes n z : be_val (be_bytes n z) = z mod 256 ^ Z.of_nat n.
Proof.
  revert z. induction n as [|n IH]; intros z.
  - simpl. by rewrite Z.mod_1_r.
  - rewrite Nat2Z.inj_succ, Z.pow_succ_r by lia. simpl be_bytes.
    assert (0 < 256 ^ Z.of_nat n) by (apply Z.pow_pos_nonneg; lia).
    rewrite be_val_snoc, IH, (Z.rem_mul_r z) by lia. lia.
Qed.

Lemma be_val_range l : bytes_ok l -> 0 <= be_val l < 256 ^ Z.of_nat (length l).
Proof.
  induction l as [|b l IH] using rev_ind; intros Hl.
  - simpl. unfold be_val. simpl. lia.
  - apply Forall_app in Hl as [Hl Hb]. rewrite Forall_singleton in Hb.
    unfold is_byte in Hb. specialize (IH Hl). rewrite be_val_snoc, length_app.
    simpl length. rewrite Nat2Z.inj_add. change (Z.of_nat 1) with 1.
    rewrite Z.pow_add_r, Z.pow_1_r by lia. lia.
Qed.

Lemma be_bytes_ok n z : bytes_ok (be_bytes n z).
Proof.
  revert z. induction n; intros z; simpl; [constructor|].
  apply Forall_app. split; [apply IHn|]. constructor; [|constructor].
  apply Z.mod_pos_bound. lia.
Qed.

Lemma be_bytes_val l : bytes_ok l -> be_bytes (length l) (be_val l) = l.
Proof.
  induction l as [|b l IH] using rev_ind; intros Hl; [done|].
  apply Forall_app in Hl as [Hl Hb]. rewrite Forall_singleton in Hb.
  unfold is_byte in Hb. rewrite length_app, Nat.add_comm. simpl be_bytes.
  rewrite be_val_snoc. rewrite Z.div_add_l by lia. rewrite (Z.div_small b) by lia.
  rewrite Z.add_0_r, IH by done. f_equal. f_equal.
  rewrite Z.add_comm, Z.mod_add, Z.mod_small by lia. done.
Qed.

Lemma be_val_inj l1 l2 :
  bytes_ok l1 -> bytes_ok l2 -> length l1 = length l2 -> be_val l1 = be_val l2 -> l1 = l2.
Proof.
  intros H1 H2 Hl Hv. rewrite <- (be_bytes_val l1), <- (be_bytes_val l2) by done.
  by rewrite Hl, Hv.
Qed.

Lemma length_zeros n : length (zeros n) = n.
Proof. apply length_replicate. Qed.

Lemma zeros_ok n : bytes_ok (zeros n).
Proof. apply Forall_replicate. unfold is_byte. lia. Qed.

Lemma length_slice {A} (l : list A) lo hi :
  (lo <= hi <= length l)%nat -> length (slice l lo hi) = (hi - lo)%nat.
Proof. intros. unfold slice. rewrite length_take, length_drop. lia. Qed.

Lemma length_copy_at {A} (dst : list A) off src :
  (off <= length dst)%nat -> length (copy_at dst off src) = length dst.
Proof.
  intros. unfold copy_at. rewrite !length_app, !length_take, length_drop. lia.
Qed.

Lemma go_slice_ok {E A} (b : list A) lo hi :
  0 <= lo <= hi -> hi <= Z.of_nat (length b) ->
  @go_slice E A b lo hi = Ok (slice b (Z.to_nat lo) (Z.to_nat hi)).
Proof. intros ? ?. unfold go_slice. do 3 (gtest; [|lia]). done. Qed.

Lemma go_index_ok {E} b i : 0 <= i < Z.of_nat (length b) -> @go_index E b i = Ok (b !!! Z.to_nat i).
Proof. intros ?. unfold go_index. gtest; [|lia]. gtest; [done|lia]. Qed.

Lemma slice_mid {A} (a b c : list A) : slice (a ++ b ++ c) (length a) (length a + length b) = b.
Proof.
  unfold slice. rewrite drop_app_length. replace (length a + length b - length a)%nat with (length b) by lia.
  apply take_app_length.
Qed.

Lemma slice_to_end {A} (a b : list A) : slice (a ++ b) (length a) (length (a ++ b)) = b.
Proof. rewrite length_app. rewrite <- (app_nil_r b) at 1. rewrite slice_mid. done. Qed.

Lemma slice_copy_at {A} (dst : list A) off src :
  (off + length src <= length dst)%nat ->
  slice (copy_at dst off src) off (off + length src) = src.
Proof.
  intros. unfold slice, copy_at.
  rewrite drop_app_length' by (rewrite length_take; lia).
  rewrite (take_ge src) by lia. apply take_app_length'. lia.
Qed.

Lemma bytes_ok_take n l : bytes_ok l -> bytes_ok (take n l).
Proof. apply Forall_take. Qed.
Lemma bytes_ok_drop n l : bytes_ok l -> bytes_ok (drop n l).
Proof. apply Forall_drop. Qed.
Lemma bytes_ok_app l1 l2 : bytes_ok l1 -> bytes_ok l2 -> bytes_ok (l1 ++ l2).
Proof. intros. by apply Forall_app. Qed.
Lemma bytes_ok_slice l lo hi : bytes_ok l -> bytes_ok (slice l lo hi).
Proof. intros. by apply bytes_ok_take, bytes_ok_drop. Qed.
Lemma bytes_ok_copy_at d off s : bytes_ok d -> bytes_ok s -> bytes_ok (copy_at d off s).
Proof. intros. unfold copy_at. repeat apply bytes_ok_app; auto using bytes_ok_take, bytes_ok_drop. Qed.

#[export] Hint Resolve be_bytes_ok zeros_ok bytes_ok_take bytes_ok_drop bytes_ok_app
  bytes_ok_slice bytes_ok_copy_at : word.
