(* ===== verification/Uint256.v ===== *)
(** * 256-bit words: [pkg/evm256/uint256.go]

    [Uint256] is the Go array [[4]uint64], least significant limb first. The
    meaning of a word is the integer [toZ]; [u256_ok] says that every limb is a
    [uint64] and is the invariant every operation of the package preserves. *)

From S2P Require Import Prelude.

(** ** Data and operations *)

Record Uint256 := U256 { w0 : Z; w1 : Z; w2 : Z; w3 : Z }.

#[export] Instance Uint256_eq_dec : EqDecision Uint256.
Proof. solve_decision. Defined.

#[export] Instance Uint256_countable : Countable Uint256.
Proof.
  refine (inj_countable' (fun u => (w0 u, w1 u, w2 u, w3 u))
            (fun '(a, b, c, d) => U256 a b c d) _).
  by intros [].
Defined.

Definition zero256 : Uint256 := U256 0 0 0 0.

(** [z[i]] for an index in range. *)
Definition limb (z : Uint256) (i : nat) : Z :=
  match i with
  | 0%nat => w0 z
  | 1%nat => w1 z
  | 2%nat => w2 z
  | 3%nat => w3 z
  | _ => 0
  end.

Definition FromU64 (v : Z) : Uint256 := U256 v 0 0 0.

Definition FromBytesBE (b : bytes) : Uint256 :=
  let n := length b in
  let buf := if (32 <=? n)%nat then drop (n - 32) b else zeros (32 - n) ++ b in
  U256 (be_val (slice buf 24 32)) (be_val (slice buf 16 24))
       (be_val (slice buf 8 16)) (be_val (slice buf 0 8)).

Definition BytesBE (z : Uint256) : bytes :=
  be_bytes 8 (w3 z) ++ be_bytes 8 (w2 z) ++ be_bytes 8 (w1 z) ++ be_bytes 8 (w0 z).

Definition IsZero (z : Uint256) : bool :=
  Z.lor (Z.lor (Z.lor (w0 z) (w1 z)) (w2 z)) (w3 z) =? 0.

Definition Eq (a b : Uint256) : bool :=
  (w0 a =? w0 b) && (w1 a =? w1 b) && (w2 a =? w2 b) && (w3 a =? w3 b).

Fixpoint Cmp_loop (i : nat) (a b : Uint256) : Z :=
  match i with
  | O => 0
  | S i =>
      if limb a i <? limb b i then -1
      else if limb b i <? limb a i then 1
      else Cmp_loop i a b
  end.

Definition Cmp (a b : Uint256) : Z := Cmp_loop 4 a b.

Definition isNeg (z : Uint256) : bool := negb (shr64 (w3 z) 63 =? 0).

(** ** Meaning *)

Abbreviation B256 :=
  115792089237316195423570985008687907853269984665640564039457584007913129639936.

Definition u256_ok (z : Uint256) : Prop :=
  is_u64 (w0 z) /\ is_u64 (w1 z) /\ is_u64 (w2 z) /\ is_u64 (w3 z).

Definition toZ (z : Uint256) : Z :=
  w0 z + B64 * (w1 z + B64 * (w2 z + B64 * w3 z)).

(** Two's complement reading of a word. *)
Definition toSZ (z : Uint256) : Z :=
  if toZ z <? B256 / 2 then toZ z else toZ z - B256.

Definition ofZ (z : Z) : Uint256 :=
  U256 (z mod B64) (z / B64 mod B64) (z / B64 / B64 mod B64) (z / B64 / B64 / B64 mod B64).

(** Case analysis of a word into its limbs, with the ranges in the context. *)
Ltac destruct_u256 z :=
  let a := fresh "a" in let b := fresh "b" in let c := fresh "c" in let d := fresh "d" in
  destruct z as [a b c d]; unfold u256_ok in *; cbn [w0 w1 w2 w3] in *.

(** ** Lemmas *)

Lemma toZ_range z : u256_ok z -> 0 <= toZ z < B256.
Proof. unfold u256_ok, toZ, is_u64. lia. Qed.

Lemma toZ_inj a b : u256_ok a -> u256_ok b -> toZ a = toZ b -> a = b.
Proof. destruct a, b. unfold u256_ok, toZ, is_u64; simpl. intros. f_equal; lia. Qed.

Lemma zero256_ok : u256_ok zero256.
Proof. unfold u256_ok, is_u64; simpl; lia. Qed.

Lemma FromU64_ok v : is_u64 v -> u256_ok (FromU64 v).
Proof. unfold u256_ok, is_u64; simpl; lia. Qed.

Lemma toZ_FromU64 v : toZ (FromU64 v) = v.
Proof. unfold toZ; simpl. lia. Qed.

Lemma ofZ_ok z : u256_ok (ofZ z).
Proof. unfold u256_ok, ofZ, is_u64; simpl. repeat split; apply Z.mod_pos_bound; lia. Qed.

Lemma toZ_ofZ z : toZ (ofZ z) = z mod B256.
Proof.
  unfold toZ, ofZ; simpl.
  change B256 with (B64 * (B64 * (B64 * B64))).
  rewrite (Z.rem_mul_r z) by lia. rewrite (Z.rem_mul_r (z / B64)) by lia.
  rewrite (Z.rem_mul_r (z / B64 / B64)) by lia. lia.
Qed.

Lemma ofZ_toZ z : u256_ok z -> ofZ (toZ z) = z.
Proof.
  intros H. apply toZ_inj; [apply ofZ_ok | done |].
  rewrite toZ_ofZ. apply Z.mod_small. by apply toZ_range.
Qed.

Lemma limb_ok z i : u256_ok z -> is_u64 (limb z i).
Proof.
  intros (H0 & H1 & H2 & H3). destruct i as [|[|[|[|i]]]]; simpl; try assumption. unfold is_u64; lia.
Qed.

Lemma IsZero_spec z : u256_ok z -> IsZero z = (toZ z =? 0).
Proof.
  intros H. unfold IsZero.
  destruct (Z.eqb_spec (Z.lor (Z.lor (Z.lor (w0 z) (w1 z)) (w2 z)) (w3 z)) 0) as [E|E].
  - apply Z.lor_eq_0_iff in E as [E E3]. apply Z.lor_eq_0_iff in E as [E E2].
    apply Z.lor_eq_0_iff in E as [E0 E1]. symmetry. apply Z.eqb_eq.
    unfold toZ. lia.
  - symmetry. apply Z.eqb_neq. intros HZ. apply E. unfold toZ, u256_ok, is_u64 in *.
    assert (w0 z = 0 /\ w1 z = 0 /\ w2 z = 0 /\ w3 z = 0) as (-> & -> & -> & ->) by lia.
    done.
Qed.

Lemma IsZero_zero z : u256_ok z -> IsZero z = true <-> z = zero256.
Proof.
  intros H. rewrite IsZero_spec, Z.eqb_eq by done. split; [|by intros ->].
  intros E. apply toZ_inj; [done | apply zero256_ok | done].
Qed.

Lemma Eq_spec a b : Eq a b = bool_decide (a = b).
Proof.
  destruct a, b. unfold Eq; simpl.
  case_bool_decide as E; [injection E as -> -> -> ->; by rewrite !Z.eqb_refl|].
  apply not_true_is_false. rewrite !andb_true_iff, !Z.eqb_eq.
  intros [[[-> ->] ->] ->]. by destruct E.
Qed.

Lemma Eq_toZ a b : u256_ok a -> u256_ok b -> Eq a b = (toZ a =? toZ b).
Proof.
  intros. rewrite Eq_spec. case_bool_decide as E.
  - subst. by rewrite Z.eqb_refl.
  - symmetry. apply Z.eqb_neq. eauto using toZ_inj.
Qed.

Lemma Cmp_compare a b :
  u256_ok a -> u256_ok b ->
  Cmp a b = match toZ a ?= toZ b with Lt => -1 | Datatypes.Eq => 0 | Gt => 1 end.
Proof.
  intros Ha Hb. unfold Cmp. destruct_u256 a. destruct_u256 b. unfold is_u64 in *.
  cbn [Cmp_loop limb w0 w1 w2 w3].
  destruct (Z.compare_spec (toZ (U256 a0 b0 c d)) (toZ (U256 a b1 c0 d0))) as [H|H|H];
    unfold toZ in H; cbn [w0 w1 w2 w3] in H;
    repeat (gtest; try lia).
Qed.

Lemma Cmp_lt a b : u256_ok a -> u256_ok b -> (Cmp a b <? 0) = (toZ a <? toZ b).
Proof.
  intros. rewrite Cmp_compare by done. unfold Z.ltb. by destruct (toZ a ?= toZ b).
Qed.

Lemma Cmp_gt a b : u256_ok a -> u256_ok b -> (0 <? Cmp a b) = (toZ b <? toZ a).
Proof.
  intros. rewrite Cmp_compare by done. unfold Z.ltb. rewrite (Z.compare_antisym (toZ a)).
  by destruct (toZ a ?= toZ b).
Qed.

Lemma isNeg_spec z : u256_ok z -> isNeg z = (B256 / 2 <=? toZ z).
Proof.
  intros H. unfold isNeg. rewrite shr64_div by lia. unfold u256_ok, is_u64, toZ in *.
  change (2 ^ 63) with 9223372036854775808.
  change (B256 / 2) with (9223372036854775808 * (B64 * (B64 * B64))).
  destruct (Z.leb_spec 9223372036854775808 (w3 z)) as [L|L].
  - assert (w3 z / 9223372036854775808 = 1) as -> by dlia.
    symmetry. apply Z.leb_le. lia.
  - assert (w3 z / 9223372036854775808 = 0) as -> by dlia.
    symmetry. apply Z.leb_gt. lia.
Qed.

Lemma toSZ_neg z : u256_ok z -> toSZ z = if isNeg z then toZ z - B256 else toZ z.
Proof.
  intros. rewrite isNeg_spec by done. unfold toSZ.
  destruct (Z.ltb_spec (toZ z) (B256 / 2)), (Z.leb_spec (B256 / 2) (toZ z)); lia.
Qed.

(** *** Byte strings *)

Lemma length_BytesBE z : length (BytesBE z) = 32%nat.
Proof. unfold BytesBE. by rewrite !length_app, !length_be_bytes. Qed.

Lemma BytesBE_ok z : bytes_ok (BytesBE z).
Proof. unfold BytesBE. auto with word. Qed.

Lemma be_val_BytesBE z : u256_ok z -> be_val (BytesBE z) = toZ z.
Proof.
  intros (H0 & H1 & H2 & H3). unfold BytesBE, toZ, is_u64 in *.
  rewrite !be_val_app, !length_app, !length_be_bytes, !be_val_bytes.
  change (256 ^ Z.of_nat 8) with B64. rewrite !Z.mod_small by done.
  change (256 ^ Z.of_nat (8 + (8 + 8))) with (B64 * (B64 * B64)).
  change (256 ^ Z.of_nat (8 + 8)) with (B64 * B64). lia.
Qed.

Lemma slice_app_l {A} (l k : list A) lo hi :
  (lo <= hi)%nat -> (hi <= length l)%nat -> slice (l ++ k) lo hi = slice l lo hi.
Proof.
  intros. unfold slice. rewrite drop_app_le by lia. rewrite take_app_le; [done|].
  rewrite length_drop. lia.
Qed.

Lemma split_at_eq {A} (l : list A) n :
  l = take n l ++ drop n l.
Proof. symmetry. apply take_drop. Qed.

Lemma be_val_quarters l :
  length l = 32%nat ->
  be_val l = be_val (slice l 24 32) + B64 * (be_val (slice l 16 24)
             + B64 * (be_val (slice l 8 16) + B64 * be_val (slice l 0 8))).
Proof.
  intros Hl. unfold slice. simpl Nat.sub. rewrite drop_0.
  rewrite (take_ge (drop 24 l)) by (rewrite length_drop; lia).
  rewrite (split_at_eq l 8) at 1. rewrite (split_at_eq (drop 8 l) 8) at 1.
  rewrite drop_drop. rewrite (split_at_eq (drop (8 + 8) l) 8) at 1. rewrite drop_drop.
  rewrite !be_val_app, !length_app, !length_take, !length_drop, Hl.
  change (256 ^ Z.of_nat (8 `min` (32 - 8) + (8 `min` (32 - (8 + 8)) + (32 - (8 + 8 + 8)))))
    with (B64 * B64 * B64).
  change (256 ^ Z.of_nat (8 `min` (32 - (8 + 8)) + (32 - (8 + 8 + 8)))) with (B64 * B64).
  change (256 ^ Z.of_nat (32 - (8 + 8 + 8))) with B64.
  simpl Nat.add. lia.
Qed.

(** The 32 bytes [FromBytesBE] reads: the last 32, or all of them left-padded. *)
Lemma toZ_FromBytesBE b : toZ (FromBytesBE b) = be_val (drop (length b - 32) b).
Proof.
  unfold FromBytesBE, toZ; cbn [w0 w1 w2 w3].
  destruct (Nat.leb_spec 32 (length b)) as [Hn|Hn].
  - rewrite <- be_val_quarters; [done|]. rewrite length_drop. lia.
  - rewrite <- be_val_quarters by (rewrite length_app, length_zeros; lia).
    rewrite be_val_zeros. replace (length b - 32)%nat with 0%nat by lia. by rewrite drop_0.
Qed.

Lemma slice_be_range l lo hi :
  bytes_ok l -> (hi - lo <= 8)%nat -> is_u64 (be_val (slice l lo hi)).
Proof.
  intros Hl Hn. assert (bytes_ok (slice l lo hi)) as Hs by auto with word.
  apply be_val_range in Hs. unfold is_u64.
  assert (length (slice l lo hi) <= 8)%nat.
  { unfold slice. rewrite length_take. lia. }
  assert (256 ^ Z.of_nat (length (slice l lo hi)) <= 256 ^ 8) by (apply Z.pow_le_mono_r; lia).
  change (256 ^ 8) with B64 in *. lia.
Qed.

Lemma FromBytesBE_ok b : bytes_ok b -> u256_ok (FromBytesBE b).
Proof.
  intros H. unfold FromBytesBE, u256_ok; cbn [w0 w1 w2 w3].
  assert (bytes_ok (if (32 <=? length b)%nat then drop (length b - 32) b
                    else zeros (32 - length b) ++ b)) by (gtest; auto with word).
  split_and!; apply slice_be_range; auto; lia.
Qed.

Lemma BytesBE_be_bytes z : u256_ok z -> BytesBE z = be_bytes 32 (toZ z).
Proof.
  intros H. apply be_val_inj; [apply BytesBE_ok | apply be_bytes_ok | |].
  - by rewrite length_BytesBE, length_be_bytes.
  - rewrite be_val_BytesBE, be_val_bytes by done. symmetry. apply Z.mod_small.
    apply toZ_range in H. exact H.
Qed.

(** Round trip of the byte codec, both ways. *)
Lemma FromBytesBE_BytesBE z : u256_ok z -> FromBytesBE (BytesBE z) = z.
Proof.
  intros H. apply toZ_inj; [apply FromBytesBE_ok, BytesBE_ok | done |].
  rewrite toZ_FromBytesBE, length_BytesBE, drop_0. by apply be_val_BytesBE.
Qed.

Lemma BytesBE_FromBytesBE b :
  bytes_ok b -> length b = 32%nat -> BytesBE (FromBytesBE b) = b.
Proof.
  intros Hb Hl. rewrite BytesBE_be_bytes by by apply FromBytesBE_ok.
  rewrite toZ_FromBytesBE, Hl, drop_0, <- Hl. by apply be_bytes_val.
Qed.

#[export] Hint Resolve zero256_ok FromU64_ok ofZ_ok limb_ok BytesBE_ok FromBytesBE_ok : word.
