(* ===== verification/Bitwise256.v ===== *)
(** * Comparisons, logic and shifts on 256-bit words: [pkg/evm256/bitwise.go]

    The Go functions write through an [out] pointer after copying their inputs,
    so aliasing of [out] with an argument is harmless and each is modelled as a
    function returning the word written. *)

From S2P Require Import Prelude Uint256.

(** ** Operations *)

Definition Lt256 (a b : Uint256) : bool := Cmp a b <? 0.
Definition Gt256 (a b : Uint256) : bool := 0 <? Cmp a b.

Definition Slt256 (a b : Uint256) : bool :=
  let na := isNeg a in
  let nb := isNeg b in
  if negb (Bool.eqb na nb) then na else Cmp a b <? 0.

Definition Sgt256 (a b : Uint256) : bool :=
  let na := isNeg a in
  let nb := isNeg b in
  if negb (Bool.eqb na nb) then nb else 0 <? Cmp a b.

Definition And256 (a b : Uint256) : Uint256 :=
  U256 (Z.land (w0 a) (w0 b)) (Z.land (w1 a) (w1 b))
       (Z.land (w2 a) (w2 b)) (Z.land (w3 a) (w3 b)).

Definition Or256 (a b : Uint256) : Uint256 :=
  U256 (Z.lor (w0 a) (w0 b)) (Z.lor (w1 a) (w1 b))
       (Z.lor (w2 a) (w2 b)) (Z.lor (w3 a) (w3 b)).

Definition Xor256 (a b : Uint256) : Uint256 :=
  U256 (Z.lxor (w0 a) (w0 b)) (Z.lxor (w1 a) (w1 b))
       (Z.lxor (w2 a) (w2 b)) (Z.lxor (w3 a) (w3 b)).

Definition Not256 (a : Uint256) : Uint256 :=
  U256 (not64 (w0 a)) (not64 (w1 a)) (not64 (w2 a)) (not64 (w3 a)).

Definition Byte256 (i : Z) (x : Uint256) : Uint256 :=
  if i <? 32 then
    let idx := 31 - i in
    let wi := shr64 idx 3 in
    let sh := Z.land idx 7 * 8 in
    U256 (Z.land (shr64 (limb x (Z.to_nat wi)) sh) 0xff) 0 0 0
  else zero256.

Definition shiftGE256 (shift : Uint256) : bool :=
  negb (Z.lor (Z.lor (w1 shift) (w2 shift)) (w3 shift) =? 0) || (256 <=? w0 shift).

(** [lo]/[hi] of the shift loops: the limb at an [int] index, or the fill. *)
Definition limb_or (fill : Z) (v : Uint256) (src : Z) : Z :=
  if (0 <=? src) && (src <? 4) then limb v (Z.to_nat src) else fill.

Definition Shl_limb (v : Uint256) (wsh bsh i : Z) : Z :=
  let lo := limb_or 0 v (i - wsh) in
  let hi := limb_or 0 v (i - wsh - 1) in
  if bsh =? 0 then lo else Z.lor (shl64 lo bsh) (shr64 hi (64 - bsh)).

Definition Shl256 (s v : Uint256) : Uint256 :=
  if shiftGE256 s then zero256
  else
    let wsh := w0 s / 64 in
    let bsh := w0 s mod 64 in
    U256 (Shl_limb v wsh bsh 0) (Shl_limb v wsh bsh 1)
         (Shl_limb v wsh bsh 2) (Shl_limb v wsh bsh 3).

(** The loop body shared by [Shr256] (fill 0) and [Sar256] (sign fill). *)
Definition Shr_limb (fill : Z) (v : Uint256) (wsh bsh i : Z) : Z :=
  let lo := limb_or fill v (i + wsh) in
  let hi := limb_or fill v (i + wsh + 1) in
  if bsh =? 0 then lo else Z.lor (shr64 lo bsh) (shl64 hi (64 - bsh)).

Definition Shr256 (s v : Uint256) : Uint256 :=
  if shiftGE256 s then zero256
  else
    let wsh := w0 s / 64 in
    let bsh := w0 s mod 64 in
    U256 (Shr_limb 0 v wsh bsh 0) (Shr_limb 0 v wsh bsh 1)
         (Shr_limb 0 v wsh bsh 2) (Shr_limb 0 v wsh bsh 3).

Definition Sar256 (s v : Uint256) : Uint256 :=
  let fill := if isNeg v then B64 - 1 else 0 in
  if shiftGE256 s then U256 fill fill fill fill
  else
    let wsh := w0 s / 64 in
    let bsh := w0 s mod 64 in
    U256 (Shr_limb fill v wsh bsh 0) (Shr_limb fill v wsh bsh 1)
         (Shr_limb fill v wsh bsh 2) (Shr_limb fill v wsh bsh 3).

(** ** Bits of a word *)

Lemma testbit_limbs a b n :
  is_u64 a ->
  Z.testbit (a + B64 * b) n = if n <? 64 then Z.testbit a n else Z.testbit b (n - 64).
Proof.
  intros Ha. destruct (decide (n < 0)).
  { gtest; [|lia]. by rewrite !Z.testbit_neg_r by lia. }
  unfold is_u64 in Ha. gtest.
  - rewrite <- (Z.mod_pow2_bits_low (a + B64 * b) 64) by lia.
    change (2 ^ 64) with B64. rewrite Z.mul_comm, Z.mod_add, Z.mod_small; [done|lia|lia].
  - replace b with ((a + B64 * b) / 2 ^ 64) at 2.
    + rewrite Z.div_pow2_bits by lia. f_equal. lia.
    + change (2 ^ 64) with B64. dlia.
Qed.

Lemma limb_or_testbit z src m :
  u256_ok z -> 0 <= m < 64 ->
  Z.testbit (limb_or 0 z src) m = Z.testbit (toZ z) (64 * src + m).
Proof.
  intros (H0 & H1 & H2 & H3) Hm. unfold limb_or, toZ.
  destruct (Z.leb_spec 0 src); [|rewrite (Z.testbit_neg_r _ (64 * src + m)) by lia; apply Z.bits_0].
  rewrite !testbit_limbs by assumption.
  destruct (Z.ltb_spec src 4); simpl.
  - assert (src = 0 \/ src = 1 \/ src = 2 \/ src = 3) as [->|[->|[->| ->]]] by lia;
      simpl; repeat (gtest; try lia); f_equal; lia.
  - repeat (gtest; try lia). rewrite (u64_testbit_high (w3 z)) by (assumption || lia).
    apply Z.bits_0.
Qed.

(** A word is determined by its bits, limb by limb. *)
Lemma toZ_testbit z n :
  u256_ok z -> 0 <= n ->
  Z.testbit (toZ z) n = Z.testbit (limb_or 0 z (n / 64)) (n mod 64).
Proof.
  intros Hz Hn. rewrite limb_or_testbit by (done || apply Z.mod_pos_bound; lia).
  f_equal. apply Z.div_mod. lia.
Qed.

Lemma toZ_bits z x :
  u256_ok z ->
  (forall i m, 0 <= i < 4 -> 0 <= m < 64 ->
     Z.testbit (limb z (Z.to_nat i)) m = Z.testbit x (64 * i + m)) ->
  toZ z = x mod B256.
Proof.
  intros Hz Hb. apply Z.bits_inj'. intros n Hn. rewrite toZ_testbit by done.
  change B256 with (2 ^ 256). unfold limb_or.
  assert (0 <= n / 64) by dlia. assert (0 <= n mod 64 < 64) by dlia.
  destruct (Z.leb_spec 0 (n / 64)); [|lia].
  destruct (Z.ltb_spec (n / 64) 4); simpl.
  - rewrite Hb by lia. rewrite Z.mod_pow2_bits_low by dlia. f_equal. dlia.
  - rewrite Z.mod_pow2_bits_high by dlia. apply Z.bits_0.
Qed.

Lemma toZ_limb_testbit z i m :
  u256_ok z -> 0 <= i < 4 -> 0 <= m < 64 ->
  Z.testbit (toZ z) (64 * i + m) = Z.testbit (limb z (Z.to_nat i)) m.
Proof.
  intros Hz Hi Hm. rewrite <- limb_or_testbit by done. unfold limb_or.
  destruct (Z.leb_spec 0 i), (Z.ltb_spec i 4); simpl; done || lia.
Qed.

Lemma limb_bool_op (f : Z -> Z -> Z) a b c d e g h k i :
  0 <= i < 4 ->
  limb (U256 (f a e) (f b g) (f c h) (f d k)) (Z.to_nat i)
  = f (limb (U256 a b c d) (Z.to_nat i)) (limb (U256 e g h k) (Z.to_nat i)).
Proof.
  intros. assert (i = 0 \/ i = 1 \/ i = 2 \/ i = 3) as [->|[->|[->| ->]]] by lia; done.
Qed.

Lemma And256_ok a b : u256_ok a -> u256_ok b -> u256_ok (And256 a b).
Proof. intros (? & ? & ? & ?) (? & ? & ? & ?). split_and!; simpl; auto with word. Qed.

Lemma Or256_ok a b : u256_ok a -> u256_ok b -> u256_ok (Or256 a b).
Proof. intros (? & ? & ? & ?) (? & ? & ? & ?). split_and!; simpl; auto with word. Qed.

Lemma Xor256_ok a b : u256_ok a -> u256_ok b -> u256_ok (Xor256 a b).
Proof. intros (? & ? & ? & ?) (? & ? & ? & ?). split_and!; simpl; auto with word. Qed.

Lemma Not256_ok a : u256_ok a -> u256_ok (Not256 a).
Proof. intros (? & ? & ? & ?). split_and!; simpl; auto with word. Qed.

(** The bitwise operators act on the integers as Rocq's. *)
Section BoolOps.
Context (f : Z -> Z -> Z) (fb : bool -> bool -> bool).
Hypothesis f_bits : forall x y n, Z.testbit (f x y) n = fb (Z.testbit x n) (Z.testbit y n).
Hypothesis f_nonneg : forall x y, 0 <= x -> 0 <= y -> 0 <= f x y.

Lemma bool_op_spec a b :
  let r := U256 (f (w0 a) (w0 b)) (f (w1 a) (w1 b)) (f (w2 a) (w2 b)) (f (w3 a) (w3 b)) in
  fb false false = false ->
  u256_ok a -> u256_ok b -> u256_ok r -> toZ r = f (toZ a) (toZ b).
Proof.
  intros r H0 Ha Hb Hr.
  pose proof (toZ_range a Ha) as Ra. pose proof (toZ_range b Hb) as Rb.
  rewrite <- (Z.mod_small (f (toZ a) (toZ b)) B256).
  - apply toZ_bits; [done|]. intros i m Hi Hm. unfold r.
    rewrite limb_bool_op, !f_bits by done. rewrite !toZ_limb_testbit by done.
    by destruct a, b.
  - split; [by apply f_nonneg; lia|]. change B256 with (2 ^ 256).
    apply bits_bound; [lia | by apply f_nonneg; lia |]. intros n Hn.
    rewrite f_bits, !(testbit_high 256); done || lia.
Qed.
End BoolOps.

Lemma toZ_And256 a b :
  u256_ok a -> u256_ok b -> toZ (And256 a b) = Z.land (toZ a) (toZ b).
Proof.
  intros. apply (bool_op_spec Z.land andb Z.land_spec);
    [intros; apply Z.land_nonneg; lia | done | done | done | by apply And256_ok].
Qed.

Lemma toZ_Or256 a b :
  u256_ok a -> u256_ok b -> toZ (Or256 a b) = Z.lor (toZ a) (toZ b).
Proof.
  intros. apply (bool_op_spec Z.lor orb Z.lor_spec);
    [intros; apply Z.lor_nonneg; lia | done | done | done | by apply Or256_ok].
Qed.

Lemma toZ_Xor256 a b :
  u256_ok a -> u256_ok b -> toZ (Xor256 a b) = Z.lxor (toZ a) (toZ b).
Proof.
  intros. apply (bool_op_spec Z.lxor xorb Z.lxor_spec);
    [intros; apply Z.lxor_nonneg; lia | done | done | done | by apply Xor256_ok].
Qed.

Lemma toZ_Not256 a : u256_ok a -> toZ (Not256 a) = B256 - 1 - toZ a.
Proof. intros. unfold toZ, Not256, not64; cbn [w0 w1 w2 w3]. lia. Qed.

(** ** Comparisons *)

(** Signed order is the order of the two's complement readings. *)
Lemma Slt256_spec a b : u256_ok a -> u256_ok b -> Slt256 a b = (toSZ a <? toSZ b).
Proof.
  intros Ha Hb. unfold Slt256. rewrite !toSZ_neg, Cmp_lt by done.
  pose proof (toZ_range a Ha). pose proof (toZ_range b Hb).
  pose proof (isNeg_spec a Ha) as Na. pose proof (isNeg_spec b Hb) as Nb.
  change (B256 / 2) with
    57896044618658097711785492504343953926634992332820282019728792003956564819968 in *.
  destruct (isNeg a), (isNeg b); simpl; symmetry in Na, Nb;
    rewrite ?Z.leb_le, ?Z.leb_gt in Na, Nb; repeat gtest; lia || done.
Qed.

Lemma Sgt256_spec a b : u256_ok a -> u256_ok b -> Sgt256 a b = (toSZ b <? toSZ a).
Proof.
  intros Ha Hb. rewrite <- (Slt256_spec b a) by done. unfold Sgt256, Slt256.
  rewrite Cmp_gt, Cmp_lt by done. by destruct (isNeg a), (isNeg b).
Qed.

(** ** BYTE *)

Lemma land_ones_mod x n k : 0 <= n -> k = 2 ^ n - 1 -> Z.land x k = x mod 2 ^ n.
Proof. intros Hn ->. rewrite <- Z.land_ones by done. by rewrite Z.ones_equiv, Z.sub_1_r. Qed.

Lemma Byte256_spec i x :
  u256_ok x -> 0 <= i ->
  u256_ok (Byte256 i x) /\
  toZ (Byte256 i x) = if i <? 32 then toZ x / 256 ^ (31 - i) mod 256 else 0.
Proof.
  intros Hx Hi. unfold Byte256. gtest; [|by split; [apply zero256_ok|]].
  set (w := shr64 (31 - i) 3). set (sh := Z.land (31 - i) 7 * 8).
  assert (w = (31 - i) / 8) as Hw by (unfold w; by rewrite shr64_div).
  assert (sh = (31 - i) mod 8 * 8) as Hsh
    by (unfold sh; by rewrite (land_ones_mod _ 3)).
  assert (0 <= w < 4) by dlia. assert (0 <= sh <= 56) by dlia.
  set (l := limb x (Z.to_nat w)). assert (is_u64 l) by (by apply limb_ok).
  rewrite (land_ones_mod _ 8) by lia. change (2 ^ 8) with 256.
  pose proof (Z.mod_pos_bound (shr64 l sh) 256 ltac:(lia)) as R.
  split; [unfold u256_ok, is_u64; simpl; lia|].
  unfold toZ at 1; cbn [w0 w1 w2 w3]. rewrite Z.add_0_r.
  apply Z.bits_inj'. intros n Hn. change 256 with (2 ^ 8).
  rewrite <- Z.pow_mul_r by lia.
  destruct (Z.ltb_spec n 8).
  - rewrite !Z.mod_pow2_bits_low by lia. rewrite Z.div_pow2_bits by lia.
    unfold shr64. rewrite Z.shiftr_spec by lia. unfold l.
    rewrite <- toZ_limb_testbit by (done || lia). f_equal. dlia.
  - by rewrite !Z.mod_pow2_bits_high by lia.
Qed.

(** ** Shifts *)

Lemma shiftGE256_spec s : u256_ok s -> shiftGE256 s = (256 <=? toZ s).
Proof.
  intros (H0 & H1 & H2 & H3). unfold shiftGE256, toZ, is_u64 in *.
  destruct (Z.eqb_spec (Z.lor (Z.lor (w1 s) (w2 s)) (w3 s)) 0) as [E|E]; simpl.
  - apply Z.lor_eq_0_iff in E as [E E3]. apply Z.lor_eq_0_iff in E as [E1 E2].
    f_equal. lia.
  - symmetry. apply Z.leb_le. assert (w1 s <> 0 \/ w2 s <> 0 \/ w3 s <> 0); [|lia].
    destruct (decide (w1 s = 0)) as [E1|]; [|tauto].
    destruct (decide (w2 s = 0)) as [E2|]; [|tauto].
    destruct (decide (w3 s = 0)) as [E3|]; [|tauto]. by rewrite E1, E2, E3 in E.
Qed.

Lemma shift_small s : u256_ok s -> shiftGE256 s = false -> toZ s = w0 s /\ 0 <= w0 s < 256.
Proof.
  intros Hs E. rewrite shiftGE256_spec, Z.leb_gt in E by done.
  unfold toZ, u256_ok, is_u64 in *. lia.
Qed.

Lemma limb_or_u64 fill v i : is_u64 fill -> u256_ok v -> is_u64 (limb_or fill v i).
Proof. intros. unfold limb_or. destruct (_ && _); auto with word. Qed.

Lemma shl64_u64 x s : is_u64 (shl64 x s).
Proof. apply u64_range. Qed.

Lemma Shl_limb_ok v wsh bsh i : u256_ok v -> 0 <= bsh < 64 -> is_u64 (Shl_limb v wsh bsh i).
Proof.
  intros Hv Hb. assert (is_u64 0) by (unfold is_u64; lia).
  unfold Shl_limb. gtest; [by apply limb_or_u64|].
  apply lor_u64; [apply shl64_u64|]. apply shr64_u64; [by apply limb_or_u64|lia].
Qed.

Lemma shl64_testbit x s m : 0 <= s -> 0 <= m < 64 -> Z.testbit (shl64 x s) m = Z.testbit x (m - s).
Proof.
  intros. unfold shl64. rewrite u64_testbit, Z.shiftl_spec by lia.
  destruct (Z.ltb_spec m 64); [done|lia].
Qed.

Lemma shr64_testbit x s m : 0 <= m -> Z.testbit (shr64 x s) m = Z.testbit x (m + s).
Proof. intros. unfold shr64. by rewrite Z.shiftr_spec by lia. Qed.

Lemma Shl_limb_testbit v wsh bsh i m :
  u256_ok v -> 0 <= bsh < 64 -> 0 <= m < 64 ->
  Z.testbit (Shl_limb v wsh bsh i) m = Z.testbit (toZ v) (64 * i + m - (64 * wsh + bsh)).
Proof.
  intros Hv Hb Hm. unfold Shl_limb. gtest.
  - rewrite limb_or_testbit by done. f_equal. lia.
  - rewrite Z.lor_spec, shl64_testbit, shr64_testbit by lia.
    assert (is_u64 0) by (unfold is_u64; lia).
    destruct (Z.ltb_spec m bsh).
    + rewrite (Z.testbit_neg_r (limb_or _ _ _)) by lia. simpl.
      rewrite limb_or_testbit by (done || lia). f_equal. lia.
    + rewrite (u64_testbit_high (limb_or 0 v (i - wsh - 1))) by (apply limb_or_u64; done) || lia.
      rewrite orb_false_r, limb_or_testbit by (done || lia). f_equal. lia.
Qed.

Lemma Shl256_spec s v :
  u256_ok s -> u256_ok v ->
  u256_ok (Shl256 s v) /\
  toZ (Shl256 s v) = if toZ s <? 256 then (toZ v * 2 ^ toZ s) mod B256 else 0.
Proof.
  intros Hs Hv. unfold Shl256. destruct (shiftGE256 s) eqn:E.
  - rewrite shiftGE256_spec, Z.leb_le in E by done.
    destruct (Z.ltb_spec (toZ s) 256); [lia|]. split; [apply zero256_ok|done].
  - apply shift_small in E as [-> Hb]; [|done]. destruct (Z.ltb_spec (w0 s) 256); [|lia].
    set (r := U256 _ _ _ _).
    assert (u256_ok r) as Hr.
    { unfold r, u256_ok; cbn [w0 w1 w2 w3]; split_and!; apply Shl_limb_ok; try done; dlia. }
    split; [done|]. apply toZ_bits; [done|]. intros i m Hi Hm.
    rewrite Z.mul_pow2_bits by lia.
    transitivity (Z.testbit (Shl_limb v (w0 s / 64) (w0 s mod 64) i) m).
    { assert (i = 0 \/ i = 1 \/ i = 2 \/ i = 3) as [->|[->|[->| ->]]] by lia; done. }
    rewrite Shl_limb_testbit by (done || dlia). f_equal. dlia.
Qed.

(** Right shifts: the loop reads the fill above the word. *)
Section ShrLimb.
Context (fill x : Z) (v : Uint256).
Hypothesis Hv : u256_ok v.
Hypothesis Hfill : is_u64 fill.
Hypothesis Hx : forall i m, 0 <= i -> 0 <= m < 64 ->
  Z.testbit (limb_or fill v i) m = Z.testbit x (64 * i + m).

Lemma Shr_limb_ok wsh bsh i : 0 <= bsh < 64 -> is_u64 (Shr_limb fill v wsh bsh i).
Proof.
  intros Hb. unfold Shr_limb. gtest; [by apply limb_or_u64|].
  apply lor_u64; [|apply shl64_u64]. apply shr64_u64; [by apply limb_or_u64|lia].
Qed.

Lemma Shr_limb_testbit wsh bsh i m :
  0 <= wsh -> 0 <= bsh < 64 -> 0 <= i -> 0 <= m < 64 ->
  Z.testbit (Shr_limb fill v wsh bsh i) m = Z.testbit x (64 * i + m + (64 * wsh + bsh)).
Proof.
  intros Hw Hb Hi Hm. unfold Shr_limb. gtest.
  - rewrite Hx by lia. f_equal. lia.
  - rewrite Z.lor_spec, shl64_testbit, shr64_testbit by lia.
    destruct (Z.ltb_spec (m + bsh) 64).
    + rewrite (Z.testbit_neg_r (limb_or fill v (i + wsh + 1))) by lia.
      rewrite orb_false_r, Hx by lia. f_equal. lia.
    + rewrite (u64_testbit_high (limb_or fill v (i + wsh)))
        by (apply limb_or_u64; done) || lia.
      simpl. rewrite Hx by lia. f_equal. lia.
Qed.

Lemma Shr_spec n :
  0 <= n < 256 ->
  let r := U256 (Shr_limb fill v (n / 64) (n mod 64) 0) (Shr_limb fill v (n / 64) (n mod 64) 1)
                (Shr_limb fill v (n / 64) (n mod 64) 2) (Shr_limb fill v (n / 64) (n mod 64) 3) in
  u256_ok r /\ toZ r = (x / 2 ^ n) mod B256.
Proof.
  intros Hn r.
  assert (u256_ok r) as Hr
    by (unfold r, u256_ok; cbn [w0 w1 w2 w3]; split_and!; apply Shr_limb_ok; dlia).
  split; [done|]. apply toZ_bits; [done|]. intros i m Hi Hm.
  rewrite Z.div_pow2_bits by lia.
  transitivity (Z.testbit (Shr_limb fill v (n / 64) (n mod 64) i) m).
  { assert (i = 0 \/ i = 1 \/ i = 2 \/ i = 3) as [->|[->|[->| ->]]] by lia; done. }
  rewrite Shr_limb_testbit by dlia. f_equal. dlia.
Qed.
End ShrLimb.

Lemma Shr256_spec s v :
  u256_ok s -> u256_ok v ->
  u256_ok (Shr256 s v) /\
  toZ (Shr256 s v) = if toZ s <? 256 then toZ v / 2 ^ toZ s else 0.
Proof.
  intros Hs Hv. unfold Shr256. destruct (shiftGE256 s) eqn:E.
  - rewrite shiftGE256_spec, Z.leb_le in E by done.
    destruct (Z.ltb_spec (toZ s) 256); [lia|]. split; [apply zero256_ok|done].
  - apply shift_small in E as [-> Hb]; [|done]. destruct (Z.ltb_spec (w0 s) 256); [|lia].
    destruct (Shr_spec 0 (toZ v) v Hv ltac:(unfold is_u64; lia)
      (fun i m _ Hm => limb_or_testbit v i m Hv Hm) (w0 s) Hb) as [Hr E].
    split; [done|]. rewrite E. apply Z.mod_small. pose proof (toZ_range v Hv).
    assert (0 < 2 ^ w0 s) by (apply Z.pow_pos_nonneg; lia).
    split; [apply Z.div_pos; lia|]. apply Z.div_lt_upper_bound; nia.
Qed.

Lemma toSZ_range v : u256_ok v -> - (B256 / 2) <= toSZ v < B256 / 2.
Proof. intros H. apply toZ_range in H. unfold toSZ. gtest; dlia. Qed.

Lemma toSZ_unique v x :
  u256_ok v -> toZ v = x mod B256 -> - (B256 / 2) <= x < B256 / 2 -> toSZ v = x.
Proof.
  intros Hv E Hx. unfold toSZ. rewrite E.
  change (B256 / 2) with
    57896044618658097711785492504343953926634992332820282019728792003956564819968 in *.
  gtest; dlia.
Qed.

Definition sign_fill (v : Uint256) : Z := if isNeg v then B64 - 1 else 0.

Lemma toSZ_shift_testbit v i m :
  u256_ok v -> 0 <= i -> 0 <= m < 64 ->
  Z.testbit (limb_or (sign_fill v) v i) m = Z.testbit (toSZ v) (64 * i + m).
Proof.
  intros Hv Hi Hm. pose proof (toZ_range v Hv) as R.
  rewrite toSZ_neg by done. unfold sign_fill, limb_or.
  destruct (Z.leb_spec 0 i); [|lia]. destruct (Z.ltb_spec i 4); cbn [andb].
  - rewrite <- toZ_limb_testbit by done.
    destruct (isNeg v); [|done]. set (n := 64 * i + m). assert (n < 256) by lia.
    rewrite <- (Z.mod_pow2_bits_low (toZ v) 256 n) by lia.
    rewrite <- (Z.mod_pow2_bits_low (toZ v - B256) 256 n) by lia.
    f_equal. change (2 ^ 256) with B256.
    rewrite <- (Z_mod_plus_full (toZ v - B256) 1 B256). f_equal. lia.
  - destruct (isNeg v).
    + replace (toZ v - B256) with (Z.lnot (B256 - 1 - toZ v)) by (unfold Z.lnot; lia).
      rewrite Z.lnot_spec, (testbit_high 256 (B256 - 1 - toZ v)) by (change (2 ^ 256) with B256; lia).
      change (B64 - 1) with (Z.ones 64). by rewrite Z.ones_spec_low by lia.
    + rewrite (testbit_high 256 (toZ v)) by (change (2 ^ 256) with B256; lia). apply Z.bits_0.
Qed.

(** SAR is the floor division of the signed value, for every shift. *)
Lemma Sar256_spec s v :
  u256_ok s -> u256_ok v ->
  u256_ok (Sar256 s v) /\ toSZ (Sar256 s v) = toSZ v / 2 ^ toZ s.
Proof.
  intros Hs Hv. unfold Sar256. fold (sign_fill v).
  pose proof (toSZ_range v Hv) as R.
  assert (is_u64 (sign_fill v)) as Hf by (unfold sign_fill, is_u64; destruct (isNeg v); lia).
  destruct (shiftGE256 s) eqn:E.
  - rewrite shiftGE256_spec, Z.leb_le in E by done.
    assert (B256 <= 2 ^ toZ s) by (change B256 with (2 ^ 256); apply Z.pow_le_mono_r; lia).
    split; [by split_and!|]. rewrite (toSZ_neg v), isNeg_spec in * by done.
    unfold sign_fill. rewrite isNeg_spec by done. pose proof (toZ_range v Hv).
    destruct (Z.leb_spec (B256 / 2) (toZ v)).
    + transitivity (-1); [done|]. apply (Z.div_unique _ _ _ (toZ v - B256 + 2 ^ toZ s)); [|lia].
      change (B256 / 2) with
        57896044618658097711785492504343953926634992332820282019728792003956564819968 in *.
      lia.
    + rewrite Z.div_small by lia. done.
  - apply shift_small in E as [-> Hb]; [|done].
    destruct (Shr_spec (sign_fill v) (toSZ v) v Hv Hf
      (fun i m Hi Hm => toSZ_shift_testbit v i m Hv Hi Hm) (w0 s) Hb) as [Hr E].
    split; [done|]. apply toSZ_unique; [done..|].
    assert (0 < 2 ^ w0 s) by (apply Z.pow_pos_nonneg; lia).
    split; [apply Z.div_le_lower_bound | apply Z.div_lt_upper_bound]; nia.
Qed.

#[export] Hint Resolve And256_ok Or256_ok Xor256_ok Not256_ok : word.
