(* ===== verification/Limbs.v ===== *)
(** * Little-endian limb arrays

    Go's [[4]uint64], [[8]uint64] and [[9]uint64] scratch arrays of the
    multi-word routines, as lists of limbs, with their value [lval] and the
    lemmas on reading and updating one limb that the carry and borrow chains
    share. *)

From S2P Require Import Prelude Uint256.

Definition limbs (z : Uint256) : list Z := [w0 z; w1 z; w2 z; w3 z].
Definition of_limbs (l : list Z) : Uint256 := U256 (l !!! 0%nat) (l !!! 1%nat) (l !!! 2%nat) (l !!! 3%nat).

Definition limbs_ok (l : list Z) : Prop := Forall is_u64 l.

Fixpoint lval (l : list Z) : Z :=
  match l with
  | [] => 0
  | x :: l => x + B64 * lval l
  end.

(** [Bp n] is the weight of limb [n]. *)
Definition Bp (n : nat) : Z := B64 ^ Z.of_nat n.

Lemma Bp_0 : Bp 0 = 1.
Proof. done. Qed.
Lemma Bp_S n : Bp (S n) = B64 * Bp n.
Proof. unfold Bp. rewrite Nat2Z.inj_succ, Z.pow_succ_r; lia. Qed.
Lemma Bp_add m n : Bp (m + n) = Bp m * Bp n.
Proof. unfold Bp. rewrite Nat2Z.inj_add, Z.pow_add_r; lia. Qed.
Lemma Bp_pos n : 0 < Bp n.
Proof. unfold Bp. apply Z.pow_pos_nonneg; lia. Qed.

Lemma lval_app l k : lval (l ++ k) = lval l + Bp (length l) * lval k.
Proof. induction l as [|x l IH]; cbn [app lval length]; [rewrite Bp_0; lia|]. rewrite IH, Bp_S. ring. Qed.

Lemma lval_range l : limbs_ok l -> 0 <= lval l < Bp (length l).
Proof.
  induction 1 as [|x l Hx Hl IH]; cbn [lval length]; [rewrite Bp_0; lia|].
  rewrite Bp_S. unfold is_u64 in Hx. lia.
Qed.

Lemma lval_limbs z : lval (limbs z) = toZ z.
Proof. unfold toZ; cbn [limbs lval]. lia. Qed.

Lemma limbs_ok_limbs z : u256_ok z -> limbs_ok (limbs z).
Proof. intros (?&?&?&?). unfold limbs_ok, limbs. rewrite !Forall_cons_iff. auto. Qed.

Lemma length_limbs z : length (limbs z) = 4%nat.
Proof. done. Qed.

Lemma limbs_lookup z i : (i < 4)%nat -> limbs z !!! i = limb z i.
Proof. intros. destruct i as [|[|[|[|i]]]]; done || lia. Qed.

Lemma limbs_of_limbs l : length l = 4%nat -> limbs (of_limbs l) = l.
Proof. intros. by destruct l as [|? [|? [|? [|? [|]]]]]. Qed.

Lemma toZ_of_limbs l : (length l = 4)%nat -> toZ (of_limbs l) = lval l.
Proof. intros. by rewrite <- lval_limbs, limbs_of_limbs. Qed.

Lemma of_limbs_ok l : limbs_ok l -> length l = 4%nat -> u256_ok (of_limbs l).
Proof.
  intros H Hl. destruct l as [|a [|b [|c [|d [|]]]]]; try done.
  unfold limbs_ok in H. rewrite !Forall_cons_iff in H. destruct H as (?&?&?&?&_). by split_and!.
Qed.

Lemma lookup_total_ok l i : limbs_ok l -> is_u64 (l !!! i).
Proof.
  intros H. destruct (l !! i) as [x|] eqn:E.
  - rewrite (list_lookup_total_correct _ _ _ E). by eapply Forall_lookup_1 in E.
  - rewrite list_lookup_total_alt, E. unfold is_u64; simpl. lia.
Qed.

Lemma insert_ok l i x : limbs_ok l -> is_u64 x -> limbs_ok (<[i:=x]> l).
Proof. intros. by apply Forall_insert. Qed.

Lemma lval_insert l i x :
  (i < length l)%nat -> lval (<[i:=x]> l) = lval l + Bp i * (x - l !!! i).
Proof.
  revert i; induction l as [|y l IH]; intros i Hi; [simpl in Hi; lia|].
  destruct i as [|i].
  - cbn. rewrite Bp_0. lia.
  - change (<[S i:=x]> (y :: l)) with (y :: <[i:=x]> l).
    change ((y :: l) !!! S i) with (l !!! i).
    cbn [lval]. rewrite IH by (simpl in Hi; lia). rewrite Bp_S. ring.
Qed.

Lemma lookup_insert_limb (l : list Z) i x : (i < length l)%nat -> <[i:=x]> l !!! i = x.
Proof. intros. by rewrite list_lookup_total_insert_eq. Qed.

Lemma lookup_insert_limb_ne (l : list Z) i j x : i <> j -> <[i:=x]> l !!! j = l !!! j.
Proof. intros. by rewrite list_lookup_total_insert_ne. Qed.

(** The value of limbs [lo .. lo+n-1]. *)
Definition lsub (l : list Z) (lo n : nat) : Z := lval (take n (drop lo l)).

Lemma lsub_0 l lo : lsub l lo 0 = 0.
Proof. unfold lsub. by rewrite take_0. Qed.

Lemma take_S_total (l : list Z) n : (n < length l)%nat -> take (S n) l = take n l ++ [l !!! n].
Proof. intros. apply take_S_r. by apply list_lookup_lookup_total_lt. Qed.

Lemma drop_total (l : list Z) lo n : drop lo l !!! n = l !!! (lo + n)%nat.
Proof. by rewrite !list_lookup_total_alt, lookup_drop. Qed.

Lemma lsub_S_r l lo n :
  (lo + n < length l)%nat -> lsub l lo (S n) = lsub l lo n + Bp n * l !!! (lo + n)%nat.
Proof.
  intros. unfold lsub. rewrite take_S_total by (rewrite length_drop; lia).
  rewrite lval_app, length_take, length_drop, drop_total. cbn [lval].
  replace (n `min` (length l - lo))%nat with n by lia. lia.
Qed.

Lemma lsub_last l n :
  (1 <= n <= length l)%nat -> lsub l 0 n = lsub l 0 (n - 1) + Bp (n - 1) * l !!! (n - 1)%nat.
Proof.
  intros. pose proof (lsub_S_r l 0 (n - 1) ltac:(lia)) as E. simpl (0 + (n - 1))%nat in E.
  rewrite <- E. f_equal. lia.
Qed.

Lemma lsub_range l lo n : limbs_ok l -> 0 <= lsub l lo n < Bp n.
Proof.
  intros H. unfold lsub.
  pose proof (lval_range (take n (drop lo l)) ltac:(by apply Forall_take, Forall_drop)) as R.
  assert (Bp (length (take n (drop lo l))) <= Bp n); [|lia].
  unfold Bp. apply Z.pow_le_mono_r; [lia|]. rewrite length_take. lia.
Qed.

Lemma lsub_insert_ge l lo n i x : (lo + n <= i)%nat -> lsub (<[i:=x]> l) lo n = lsub l lo n.
Proof.
  intros. unfold lsub. f_equal. rewrite drop_insert_ge by lia. apply take_insert_ge. lia.
Qed.

Lemma lsub_insert_lt l lo n i x : (i < lo)%nat -> lsub (<[i:=x]> l) lo n = lsub l lo n.
Proof. intros. unfold lsub. by rewrite drop_insert_lt. Qed.

Lemma lval_split l n : (n <= length l)%nat -> lval l = lsub l 0 n + Bp n * lval (drop n l).
Proof.
  intros. unfold lsub. rewrite drop_0. rewrite <- (take_drop n l) at 1.
  rewrite lval_app, length_take. do 2 f_equal. f_equal. lia.
Qed.

Lemma lsub_all l : lsub l 0 (length l) = lval l.
Proof. unfold lsub. by rewrite drop_0, firstn_all. Qed.

Lemma lsub_S_l l lo n :
  (lo < length l)%nat -> lsub l lo (S n) = l !!! lo + B64 * lsub l (S lo) n.
Proof.
  intros. unfold lsub. rewrite (drop_S l (l !!! lo) lo); [done|].
  by apply list_lookup_lookup_total_lt.
Qed.

Lemma lsub_ext l l' lo n :
  length l = length l' -> (forall k, (lo <= k < lo + n)%nat -> l !!! k = l' !!! k) ->
  lsub l lo n = lsub l' lo n.
Proof.
  intros Hl. revert lo. induction n as [|n IH]; intros lo Hk; [by rewrite !lsub_0|].
  destruct (decide (lo < length l)%nat).
  - rewrite !lsub_S_l by lia. rewrite Hk by lia. rewrite (IH (S lo)); [done|]. intros. apply Hk. lia.
  - unfold lsub. rewrite !drop_ge by lia. done.
Qed.

Lemma lsub_add l lo m n :
  (lo + m <= length l)%nat -> lsub l lo (m + n) = lsub l lo m + Bp m * lsub l (lo + m) n.
Proof.
  revert lo. induction m as [|m IH]; intros lo Hlo.
  - rewrite lsub_0, Bp_0, Nat.add_0_r. simpl Nat.add. lia.
  - simpl Nat.add. rewrite !lsub_S_l, IH, Bp_S by lia.
    replace (S lo + m)%nat with (lo + S m)%nat by lia. lia.
Qed.

Lemma lsub_1 l lo : (lo < length l)%nat -> lsub l lo 1 = l !!! lo.
Proof. intros. rewrite lsub_S_l, lsub_0 by done. lia. Qed.

Lemma list_eq_total (l l' : list Z) :
  length l = length l' -> (forall k, (k < length l)%nat -> l !!! k = l' !!! k) -> l = l'.
Proof.
  intros Hl Hk. apply list_eq_same_length with (length l); [done|done|].
  intros i x y Hi Hx Hy. rewrite <- (list_lookup_total_correct _ _ _ Hx),
    <- (list_lookup_total_correct _ _ _ Hy). by apply Hk.
Qed.

(** [map f (seq 0 n)] is the array built by a counting loop. *)
Lemma lookup_total_map_seq (f : nat -> Z) n i :
  (i < n)%nat -> map f (seq 0 n) !!! i = f i.
Proof.
  intros. apply list_lookup_total_correct. change (map f) with (fmap (M := list) f).
  rewrite list_lookup_fmap, lookup_seq_lt by done. done.
Qed.

Lemma lsub_zero_tail l m n :
  (m <= n)%nat -> (n <= length l)%nat -> (forall k, (m <= k < n)%nat -> l !!! k = 0) ->
  lsub l 0 n = lsub l 0 m.
Proof.
  intros Hm Hn Hz. induction n as [|n IH]; [by replace m with 0%nat by lia|].
  destruct (decide (m = S n)) as [->|]; [done|].
  rewrite lsub_S_r by lia. simpl Nat.add. rewrite Hz by lia. rewrite IH; [lia..|]. intros. apply Hz. lia.
Qed.

Lemma carry_zero a M x : 0 < M -> 0 <= a < M -> 0 <= a + M * x < M -> x = 0.
Proof. intros. nia. Qed.
