(* ===== verification/Arith256.v ===== *)
(** * Ring operations on 256-bit words: [pkg/evm256/arith.go]

    Addition, subtraction, multiplication, negation, exponentiation and sign
    extension; division is in Division256. Each operation is related to the
    integers through [toZ]. *)

From S2P Require Import Prelude Uint256 Bitwise256 Limbs.

(** ** Operations *)

Definition addCarry (a b : Uint256) : Uint256 * Z :=
  let '(r0, c) := Add64 (w0 a) (w0 b) 0 in
  let '(r1, c) := Add64 (w1 a) (w1 b) c in
  let '(r2, c) := Add64 (w2 a) (w2 b) c in
  let '(r3, c) := Add64 (w3 a) (w3 b) c in
  (U256 r0 r1 r2 r3, c).

Definition Add256 (a b : Uint256) : Uint256 := fst (addCarry a b).

Definition Sub256 (a b : Uint256) : Uint256 :=
  let '(r0, br) := Sub64 (w0 a) (w0 b) 0 in
  let '(r1, br) := Sub64 (w1 a) (w1 b) br in
  let '(r2, br) := Sub64 (w2 a) (w2 b) br in
  let '(r3, _) := Sub64 (w3 a) (w3 b) br in
  U256 r0 r1 r2 r3.

(** The inner loop of [mul512]: [n] columns from [j], row [i]. *)
Fixpoint mul_row (ai : Z) (b : Uint256) (i j n : nat) (p : list Z) (carry : Z) : list Z * Z :=
  match n with
  | O => (p, carry)
  | S n =>
      let '(hi, lo) := Mul64 ai (limb b j) in
      let '(s, c1) := Add64 (p !!! (i + j)%nat) lo 0 in
      let '(s2, c2) := Add64 s carry 0 in
      mul_row ai b i (S j) n (<[(i + j)%nat := s2]> p) (fst (Add64 hi c1 c2))
  end.

(** The outer loop: [n] rows from [i]. *)
Fixpoint mul_rows (a b : Uint256) (i n : nat) (p : list Z) : list Z :=
  match n with
  | O => p
  | S n =>
      let '(p, carry) := mul_row (limb a i) b i 0 4 p 0 in
      mul_rows a b (S i) n (<[(i + 4)%nat := carry]> p)
  end.

Definition mul512 (a b : Uint256) : list Z := mul_rows a b 0 4 (replicate 8 0).

Definition Mul256 (a b : Uint256) : Uint256 := of_limbs (mul512 a b).

Definition shr1 (x : Uint256) : Uint256 :=
  U256 (Z.lor (shr64 (w0 x) 1) (shl64 (w1 x) 63))
       (Z.lor (shr64 (w1 x) 1) (shl64 (w2 x) 63))
       (Z.lor (shr64 (w2 x) 1) (shl64 (w3 x) 63))
       (shr64 (w3 x) 1).

Definition neg256 (x : Uint256) : Uint256 :=
  let '(r0, c) := Add64 (not64 (w0 x)) 0 1 in
  let '(r1, c) := Add64 (not64 (w1 x)) 0 c in
  let '(r2, c) := Add64 (not64 (w2 x)) 0 c in
  let '(r3, _) := Add64 (not64 (w3 x)) 0 c in
  U256 r0 r1 r2 r3.

Definition abs256 (x : Uint256) : Uint256 := if isNeg x then neg256 x else x.

(** The square-and-multiply loop [for !IsZero(&e)]; 256 iterations shift out
    every bit of [e] ([Exp_loop_spec]), so [Exp256] never meets [None]. *)
Fixpoint Exp_loop (fuel : nat) (r b e : Uint256) : option Uint256 :=
  if IsZero e then Some r
  else match fuel with
  | O => None
  | S fuel =>
      let r := if negb (Z.land (w0 e) 1 =? 0) then Mul256 r b else r in
      Exp_loop fuel r (Mul256 b b) (shr1 e)
  end.

Definition Exp256 (base exp : Uint256) : Uint256 :=
  default zero256 (Exp_loop 256 (U256 1 0 0 0) base exp).

(** One iteration of the limb loop of [SignExtend256]. *)
Definition SignExtend_limb (xx : Uint256) (wi keep sign i : Z) : Z :=
  if i <? wi then limb xx (Z.to_nat i)
  else if i =? wi then
    if negb (sign =? 0) then Z.lor (limb xx (Z.to_nat i)) (not64 keep)
    else Z.land (limb xx (Z.to_nat i)) keep
  else if negb (sign =? 0) then B64 - 1 else 0.

Definition SignExtend256 (b : Z) (x : Uint256) : Uint256 :=
  if 31 <=? b then x
  else
    let t := add64 (mul64 b 8) 7 in
    let wi := shr64 t 6 in
    let bi := Z.land t 63 in
    let sign := Z.land (shr64 (limb x (Z.to_nat wi)) bi) 1 in
    let keep := if bi =? 63 then B64 - 1 else sub64 (shl64 1 (bi + 1)) 1 in
    U256 (SignExtend_limb x wi keep sign 0) (SignExtend_limb x wi keep sign 1)
         (SignExtend_limb x wi keep sign 2) (SignExtend_limb x wi keep sign 3).

(** ** Addition and subtraction *)

(** Run the carry chain of a goal: each [Add64]/[Sub64] is replaced by its
    equation. *)
Ltac carry_step :=
  match goal with
  | |- context [Add64 ?x ?y ?c] =>
      let H := fresh "H" in let s := fresh "s" in let c' := fresh "c" in
      let K := fresh "K" in
      pose proof (Add64_spec x y c) as H;
      assert (0 <= snd (Add64 x y c) <= 1) as K
        by (apply Add64_carry; unfold is_u64 in *; lia);
      destruct (Add64 x y c) as [s c']; cbn [snd] in K
  | |- context [Sub64 ?x ?y ?c] =>
      let H := fresh "H" in let s := fresh "s" in let c' := fresh "c" in
      pose proof (Sub64_spec x y c ltac:(assumption) ltac:(assumption) ltac:(lia)) as H;
      destruct (Sub64 x y c) as [s c']
  end.

Lemma addCarry_spec a b :
  u256_ok a -> u256_ok b ->
  let '(r, c) := addCarry a b in
  u256_ok r /\ 0 <= c <= 1 /\ toZ r + B256 * c = toZ a + toZ b.
Proof.
  intros (A0 & A1 & A2 & A3) (C0 & C1 & C2 & C3). unfold addCarry.
  do 4 carry_step. unfold toZ, u256_ok; cbn [w0 w1 w2 w3].
  change B256 with (B64 * (B64 * (B64 * B64))). intuition lia.
Qed.

Lemma Add256_spec a b :
  u256_ok a -> u256_ok b ->
  u256_ok (Add256 a b) /\ toZ (Add256 a b) = (toZ a + toZ b) mod B256.
Proof.
  intros Ha Hb. pose proof (addCarry_spec a b Ha Hb) as H. unfold Add256.
  destruct (addCarry a b) as [r c]; cbn [fst]. destruct H as (Hr & Hc & E).
  split; [done|]. apply (Z.mod_unique_pos _ _ c); [by apply toZ_range | lia].
Qed.

Lemma Sub256_spec a b :
  u256_ok a -> u256_ok b ->
  u256_ok (Sub256 a b) /\ toZ (Sub256 a b) = (toZ a - toZ b) mod B256.
Proof.
  intros (A0 & A1 & A2 & A3) (C0 & C1 & C2 & C3). unfold Sub256.
  do 4 carry_step. destruct H, H0, H1, H2.
  assert (u256_ok (U256 s s0 s1 s2)) as Hr by (unfold u256_ok; cbn [w0 w1 w2 w3]; tauto).
  split; [done|]. apply (Z.mod_unique_pos _ _ (- c2)); [by apply toZ_range|].
  unfold toZ; cbn [w0 w1 w2 w3]. change B256 with (B64 * (B64 * (B64 * B64))). lia.
Qed.

Lemma neg256_spec x :
  u256_ok x -> u256_ok (neg256 x) /\ toZ (neg256 x) = (- toZ x) mod B256.
Proof.
  intros (A0 & A1 & A2 & A3). unfold neg256, not64.
  do 4 carry_step.
  assert (u256_ok (U256 s s0 s1 s2)) as Hr by (unfold u256_ok; cbn [w0 w1 w2 w3]; tauto).
  split; [done|]. apply (Z.mod_unique_pos _ _ (c2 - 1)); [by apply toZ_range|].
  unfold toZ; cbn [w0 w1 w2 w3]. change B256 with (B64 * (B64 * (B64 * B64))). lia.
Qed.

(** [abs256] gives the absolute value of the signed reading. *)
Lemma abs256_spec x :
  u256_ok x -> u256_ok (abs256 x) /\ toZ (abs256 x) = Z.abs (toSZ x).
Proof.
  intros Hx. pose proof (toZ_range x Hx). unfold abs256. rewrite toSZ_neg by done.
  destruct (isNeg x) eqn:E; [|split; [done|lia]].
  destruct (neg256_spec x Hx) as [Hn En]. split; [done|]. rewrite En.
  rewrite isNeg_spec, Z.leb_le in E by done.
  change (B256 / 2) with
    57896044618658097711785492504343953926634992332820282019728792003956564819968 in *.
  symmetry. apply (Z.mod_unique_pos _ _ (-1)); lia.
Qed.

(** ** Multiplication *)

(** One column step: value and carry never overflow. *)
Lemma mul_step_spec ai bj pij carry :
  is_u64 ai -> is_u64 bj -> is_u64 pij -> is_u64 carry ->
  let '(hi, lo) := Mul64 ai bj in
  let '(s, c1) := Add64 pij lo 0 in
  let '(s2, c2) := Add64 s carry 0 in
  let c' := fst (Add64 hi c1 c2) in
  is_u64 s2 /\ is_u64 c' /\ s2 + B64 * c' = pij + ai * bj + carry.
Proof.
  intros Ha Hb Hp Hc. pose proof (Mul64_spec ai bj Ha Hb) as M.
  destruct (Mul64 ai bj) as [hi lo]. destruct M as (M & Hlo & Hhi).
  do 2 carry_step. destruct H as [H Hs], H0 as [H0 Hs0]. cbn [fst Add64].
  unfold is_u64 in *.
  assert (hi + c + c0 < B64) by nia.
  rewrite Z.mod_small by lia. lia.
Qed.

Lemma mul_row_spec ai b i n : forall j p carry,
  is_u64 ai -> u256_ok b -> limbs_ok p -> is_u64 carry -> (i + j + n <= length p)%nat ->
  (j + n <= 4)%nat ->
  let '(p', c') := mul_row ai b i j n p carry in
  limbs_ok p' /\ length p' = length p /\ is_u64 c' /\
  (forall k, (i + j + n <= k)%nat -> p' !!! k = p !!! k) /\
  lval p' + Bp (i + j + n) * c'
    = lval p + Bp (i + j) * (carry + ai * lsub (limbs b) j n).
Proof.
  induction n as [|n IH]; intros j p carry Ha Hb Hp Hc Hlen Hj; cbn [mul_row].
  - split_and!; try done. rewrite lsub_0, Nat.add_0_r. lia.
  - pose proof (mul_step_spec ai (limb b j) (p !!! (i + j)%nat) carry Ha
      (limb_ok b j Hb) (lookup_total_ok _ _ Hp) Hc) as St.
    destruct (Mul64 _ _) as [hi lo]. destruct (Add64 (p !!! (i + j)%nat) lo 0) as [s c1].
    destruct (Add64 s carry 0) as [s2 c2]. destruct St as (Hs2 & Hc' & St).
    set (c' := fst (Add64 hi c1 c2)) in *. set (p1 := <[(i + j)%nat:=s2]> p).
    specialize (IH (S j) p1 c' Ha Hb (insert_ok _ _ _ Hp Hs2) Hc'
      ltac:(unfold p1; rewrite length_insert; lia) ltac:(lia)).
    destruct (mul_row ai b i (S j) n p1 c') as [p' cf].
    destruct IH as (I1 & I2 & I3 & I4 & I5). unfold p1 in *.
    rewrite length_insert in I2. split_and!; try done.
    { intros k Hk. rewrite I4 by lia. apply lookup_insert_limb_ne. lia. }
    replace (i + j + S n)%nat with (i + S j + n)%nat by lia. rewrite I5.
    rewrite lval_insert by lia. replace (i + S j)%nat with (S (i + j))%nat by lia.
    rewrite Bp_S. rewrite <- (limbs_lookup b j) in St by lia.
    rewrite (lsub_S_l (limbs b) j n) by (rewrite length_limbs; lia). nia.
Qed.

Lemma mul_rows_spec a b n : forall i p,
  u256_ok a -> u256_ok b -> limbs_ok p -> (length p = 8)%nat -> (i + n = 4)%nat ->
  (forall k, (i + 4 <= k)%nat -> p !!! k = 0) ->
  limbs_ok (mul_rows a b i n p) /\ length (mul_rows a b i n p) = 8%nat /\
  lval (mul_rows a b i n p) = lval p + Bp i * lsub (limbs a) i n * toZ b.
Proof.
  induction n as [|n IH]; intros i p Ha Hb Hp Hl Hi Hz; cbn [mul_rows].
  - split_and!; try done. rewrite lsub_0. lia.
  - pose proof (mul_row_spec (limb a i) b i 4 0 p 0 (limb_ok _ _ Ha) Hb Hp
      ltac:(unfold is_u64; lia) ltac:(lia) ltac:(lia)) as R.
    destruct (mul_row (limb a i) b i 0 4 p 0) as [p1 c].
    destruct R as (R1 & R2 & R3 & R4 & R5).
    destruct (IH (S i) (<[(i + 4)%nat:=c]> p1) Ha Hb) as (I1 & I2 & I3); try done || lia.
    { by apply insert_ok. }
    { rewrite length_insert. lia. }
    { intros k Hk. rewrite lookup_insert_limb_ne, R4, Hz by lia. done. }
    split_and!; try done. rewrite I3, lval_insert, R4, Hz by lia.
    rewrite !Nat.add_0_r in R5. fold (limbs b) in R5.
    assert (lsub (limbs b) 0 4 = toZ b) as Eb.
    { rewrite <- lval_limbs. apply (lsub_all (limbs b)). }
    rewrite Eb in R5. rewrite <- (limbs_lookup a i) in R5 by lia.
    rewrite (lsub_S_l (limbs a) i n) by (rewrite length_limbs; lia).
    rewrite Bp_S. nia.
Qed.

(** The schoolbook product is the exact 512-bit product. *)
Lemma mul512_spec a b :
  u256_ok a -> u256_ok b ->
  limbs_ok (mul512 a b) /\ length (mul512 a b) = 8%nat /\
  lval (mul512 a b) = toZ a * toZ b.
Proof.
  intros Ha Hb. destruct (mul_rows_spec a b 4 0 (replicate 8 0) Ha Hb) as (H1 & H2 & H3).
  { apply Forall_replicate. unfold is_u64; lia. }
  { done. }
  { done. }
  { intros k _. rewrite list_lookup_total_alt.
    destruct (replicate 8 0 !! k) eqn:E; [|done]. by apply lookup_replicate_1 in E as [-> _]. }
  split_and!; [done|done|]. unfold mul512. rewrite H3.
  change (lsub (limbs a) 0 4) with (lsub (limbs a) 0 (length (limbs a))).
  rewrite lsub_all, lval_limbs, Bp_0. cbn [lval replicate]. lia.
Qed.

Lemma of_limbs_low l : limbs_ok l -> length l = 8%nat ->
  u256_ok (of_limbs l) /\ toZ (of_limbs l) = lval l mod B256.
Proof.
  intros Hok Hl. destruct l as [|a [|b [|c [|d l]]]]; try done.
  unfold limbs_ok in Hok. rewrite !Forall_cons_iff in Hok.
  destruct Hok as (A & B & C & D & _).
  assert (u256_ok (U256 a b c d)) as Hw by (by split_and!).
  split; [done|]. apply (Z.mod_unique_pos _ _ (lval l)); [apply (toZ_range _ Hw)|].
  unfold toZ; cbn. lia.
Qed.

Lemma Mul256_spec a b :
  u256_ok a -> u256_ok b ->
  u256_ok (Mul256 a b) /\ toZ (Mul256 a b) = (toZ a * toZ b) mod B256.
Proof.
  intros Ha Hb. destruct (mul512_spec a b Ha Hb) as (H1 & H2 & H3).
  unfold Mul256. rewrite <- H3. by apply of_limbs_low.
Qed.

(** ** Exponentiation *)

Lemma shr1_limb x y : is_u64 x -> is_u64 y ->
  is_u64 (Z.lor (shr64 x 1) (shl64 y 63)) /\
  Z.lor (shr64 x 1) (shl64 y 63) = x / 2 + 9223372036854775808 * (y mod 2).
Proof.
  intros Hx Hy. split; [apply lor_u64; [by apply shr64_u64 | apply shl64_u64]|].
  rewrite shr64_div by lia. rewrite shl64_mul by lia.
  replace ((y * 2 ^ 63) mod B64) with (2 ^ 63 * (y mod 2)).
  - change 9223372036854775808 with (2 ^ 63). unfold is_u64 in *. apply lor_disjoint_add; [lia|].
    change (2 ^ 1) with 2. change (2 ^ 63) with 9223372036854775808. dlia.
  - change B64 with (2 ^ 63 * 2). rewrite (Z.mul_comm y), Z.mul_mod_distr_l by lia. done.
Qed.

Lemma shr1_spec x : u256_ok x -> u256_ok (shr1 x) /\ toZ (shr1 x) = toZ x / 2.
Proof.
  intros (H0 & H1 & H2 & H3). unfold shr1.
  destruct (shr1_limb (w0 x) (w1 x) H0 H1) as [O0 E0].
  destruct (shr1_limb (w1 x) (w2 x) H1 H2) as [O1 E1].
  destruct (shr1_limb (w2 x) (w3 x) H2 H3) as [O2 E2].
  split; [split_and!; try done; by apply shr64_u64|].
  unfold toZ; cbn [w0 w1 w2 w3]. rewrite E0, E1, E2, shr64_div by lia.
  change (2 ^ 1) with 2. dlia.
Qed.

Lemma odd_land1 x : Z.land x 1 = x mod 2.
Proof. by rewrite (land_ones_mod _ 1). Qed.

Lemma Exp_loop_spec fuel : forall r b e,
  u256_ok r -> u256_ok b -> u256_ok e -> toZ e < 2 ^ Z.of_nat fuel ->
  exists x, Exp_loop fuel r b e = Some x /\ u256_ok x /\
            toZ x = (toZ r * toZ b ^ toZ e) mod B256.
Proof.
  induction fuel as [|fuel IH]; intros r b e Hr Hb He Hf; cbn [Exp_loop];
    rewrite IsZero_spec by done; pose proof (toZ_range e He) as Re;
    destruct (Z.eqb_spec (toZ e) 0) as [E0|E0].
  1, 3: exists r; rewrite E0, Z.pow_0_r, Z.mul_1_r; split_and!; [done..|];
    symmetry; by apply Z.mod_small, toZ_range.
  { change (2 ^ Z.of_nat 0) with 1 in Hf. lia. }
  destruct (shr1_spec e He) as [Oe Ee]. destruct (Mul256_spec b b Hb Hb) as [Obb Ebb].
  rewrite Nat2Z.inj_succ, Z.pow_succ_r in Hf by lia.
  set (r' := if negb (Z.land (w0 e) 1 =? 0) then Mul256 r b else r).
  assert (u256_ok r' /\ toZ r' mod B256 = (toZ r * toZ b ^ (toZ e mod 2)) mod B256) as [Hr' Er'].
  { unfold r'. rewrite odd_land1.
    assert (w0 e mod 2 = toZ e mod 2) as -> by (unfold toZ; dlia).
    assert (toZ e mod 2 = 0 \/ toZ e mod 2 = 1) as [-> | ->] by dlia; cbn [Z.eqb negb].
    - rewrite Z.pow_0_r, Z.mul_1_r. split; [exact Hr|reflexivity].
    - destruct (Mul256_spec r b Hr Hb) as [Ho ->]. split; [exact Ho|].
      rewrite Z.mod_mod, Z.pow_1_r by lia. reflexivity. }
  destruct (IH r' (Mul256 b b) (shr1 e)) as (x & Ex & Hx & Vx); [done..|rewrite Ee; dlia|].
  exists x. split_and!; [done..|]. rewrite Vx, Ee, Ebb.
  rewrite <- Z.mul_mod_idemp_l, Er', Z.mul_mod_idemp_l by lia.
  rewrite <- Zmult_mod_idemp_r.
  rewrite Z.mod_pow_l, Zmult_mod_idemp_r. f_equal.
  rewrite <- Z.pow_2_r, <- Z.pow_mul_r by dlia. rewrite <- Z.mul_assoc, <- Z.pow_add_r by dlia.
  do 2 f_equal. dlia.
Qed.

Lemma Exp256_spec b e :
  u256_ok b -> u256_ok e ->
  is_Some (Exp_loop 256 (U256 1 0 0 0) b e) /\
  u256_ok (Exp256 b e) /\ toZ (Exp256 b e) = toZ b ^ toZ e mod B256.
Proof.
  intros Hb He.
  destruct (Exp_loop_spec 256 (FromU64 1) b e) as (x & Ex & Hx & Vx).
  - apply FromU64_ok. unfold is_u64; lia.
  - done.
  - done.
  - change (2 ^ Z.of_nat 256) with B256. by apply toZ_range.
  - unfold Exp256. change (U256 1 0 0 0) with (FromU64 1). rewrite Ex.
    split_and!; [by eexists | done |]. change (default zero256 (Some x)) with x. by rewrite Vx, toZ_FromU64, Z.mul_1_l.
Qed.

(** ** SIGNEXTEND *)

(** The reference: the low [b+1] bytes of [x] read as a signed integer. *)
Definition sign_extend_ref (b x : Z) : Z :=
  let m := 256 ^ (b + 1) in
  let y := x mod m in
  if y <? m / 2 then y else y - m.

Lemma sign_extend_ref_testbit t x n :
  0 <= t -> 0 <= n ->
  let m := 2 ^ (t + 1) in
  Z.testbit (if x mod m <? m / 2 then x mod m else x mod m - m) n
  = if n <=? t then Z.testbit x n else Z.testbit x t.
Proof.
  intros Ht Hn m. assert (0 < m) as Hm by (apply Z.pow_pos_nonneg; lia).
  assert (m = 2 * 2 ^ t) as Em by (unfold m; rewrite Z.pow_add_r by lia; lia).
  assert (0 < 2 ^ t) as Hp by (apply Z.pow_pos_nonneg; lia).
  assert (m / 2 = 2 ^ t) as -> by (rewrite Em; dlia).
  pose proof (Z.mod_pos_bound x m Hm) as R.
  assert (Z.testbit x t = negb (x mod m <? 2 ^ t)) as Hs.
  { rewrite <- (Z.mod_pow2_bits_low x (t + 1)) by lia. fold m.
    destruct (Z.ltb_spec (x mod m) (2 ^ t)); simpl.
    - apply (testbit_high t); lia.
    - apply Z.testbit_true; [lia|].
      assert (x mod m / 2 ^ t = 1) as ->; [|done].
      symmetry. apply (Z.div_unique_pos _ _ _ (x mod m - 2 ^ t)); lia. }
  destruct (Z.leb_spec n t).
  - rewrite <- (Z.mod_pow2_bits_low x (t + 1) n) by lia. fold m.
    destruct (x mod m <? 2 ^ t); [done|].
    rewrite <- (Z.mod_pow2_bits_low (x mod m - m) (t + 1) n) by lia. fold m.
    f_equal. replace (x mod m - m) with (x mod m + (-1) * m) by lia.
    rewrite Z.mod_add by lia. apply Z.mod_mod. lia.
  - rewrite Hs. destruct (Z.ltb_spec (x mod m) (2 ^ t)); simpl.
    + apply (testbit_high t); lia.
    + replace (x mod m - m) with (Z.lnot (m - 1 - x mod m)) by (unfold Z.lnot; lia).
      rewrite Z.lnot_spec, (testbit_high (t + 1)) by (fold m; lia). done.
Qed.

Lemma SignExtend_limb_testbit x t i m :
  u256_ok x -> 0 <= t < 256 -> 0 <= i < 4 -> 0 <= m < 64 ->
  let wi := t / 64 in
  let bi := t mod 64 in
  let sign := Z.land (shr64 (limb x (Z.to_nat wi)) bi) 1 in
  let keep := if bi =? 63 then B64 - 1 else sub64 (shl64 1 (bi + 1)) 1 in
  is_u64 (SignExtend_limb x wi keep sign i) /\
  Z.testbit (SignExtend_limb x wi keep sign i) m
  = if 64 * i + m <=? t then Z.testbit (toZ x) (64 * i + m) else Z.testbit (toZ x) t.
Proof.
  intros Hx Ht Hi Hm wi bi sign keep.
  assert (0 <= wi < 4) by (unfold wi; dlia). assert (0 <= bi < 64) by (unfold bi; dlia).
  assert (t = 64 * wi + bi) as Et by (unfold wi, bi; dlia).
  assert (keep = Z.ones (bi + 1)) as Hk.
  { unfold keep. destruct (Z.eqb_spec bi 63) as [->|]; [done|].
    unfold sub64, shl64. rewrite Z.ones_equiv, Z.shiftl_1_l.
    assert (2 ^ (bi + 1) <= 2 ^ 63) by (apply Z.pow_le_mono_r; lia).
    assert (0 < 2 ^ (bi + 1)) by (apply Z.pow_pos_nonneg; lia).
    change (2 ^ 63) with 9223372036854775808 in *.
    rewrite !u64_small; unfold is_u64; rewrite ?u64_small; unfold is_u64; lia. }
  assert (is_u64 keep) as Ok.
  { rewrite Hk, Z.ones_equiv. assert (2 ^ (bi + 1) <= 2 ^ 64) by (apply Z.pow_le_mono_r; lia).
    assert (0 < 2 ^ (bi + 1)) by (apply Z.pow_pos_nonneg; lia).
    change (2 ^ 64) with B64 in *. unfold is_u64. lia. }
  assert (is_u64 (limb x (Z.to_nat i))) as Oi by by apply limb_ok.
  assert (sign = Z.b2z (Z.testbit (toZ x) t)) as Hs.
  { unfold sign. rewrite odd_land1. rewrite Et, toZ_limb_testbit by done.
    unfold shr64. rewrite <- Z.bit0_mod, Z.shiftr_spec by lia. f_equal. }
  unfold SignExtend_limb. rewrite Hs.
  destruct (Z.ltb_spec i wi); [|destruct (Z.eqb_spec i wi) as [->|]].
  - split; [done|]. rewrite <- toZ_limb_testbit by done.
    destruct (Z.leb_spec (64 * i + m) t); [done|lia].
  - rewrite !toZ_limb_testbit by done.
    destruct (Z.testbit (toZ x) t) eqn:Eb; simpl negb; cbv iota.
    + split; [by apply lor_u64; auto with word|].
      rewrite Z.lor_spec, not64_testbit, Hk by done.
      destruct (Z.leb_spec (64 * wi + m) t).
      * rewrite Z.ones_spec_low by lia. apply orb_false_r.
      * rewrite Z.ones_spec_high by lia. apply orb_true_r.
    + split; [by apply land_u64|]. rewrite Z.land_spec, Hk.
      destruct (Z.leb_spec (64 * wi + m) t).
      * rewrite Z.ones_spec_low by lia. apply andb_true_r.
      * rewrite Z.ones_spec_high by lia. apply andb_false_r.
  - destruct (Z.leb_spec (64 * i + m) t); [lia|].
    destruct (Z.testbit (toZ x) t) eqn:Eb; simpl negb; cbv iota.
    + split; [unfold is_u64; lia|]. change (B64 - 1) with (Z.ones 64).
      by rewrite Z.ones_spec_low by lia.
    + split; [unfold is_u64; lia|]. apply Z.bits_0.
Qed.

Lemma SignExtend256_spec b x :
  u256_ok x -> is_u64 b ->
  u256_ok (SignExtend256 b x) /\
  toZ (SignExtend256 b x) = (if b <? 31 then sign_extend_ref b (toZ x) else toZ x) mod B256.
Proof.
  intros Hx Hb. unfold is_u64 in Hb. unfold SignExtend256.
  destruct (Z.leb_spec 31 b).
  { destruct (Z.ltb_spec b 31); [lia|]. split; [done|]. symmetry. by apply Z.mod_small, toZ_range. }
  destruct (Z.ltb_spec b 31); [|lia].
  set (t := add64 (mul64 b 8) 7).
  assert (t = 8 * b + 7) as Ht
    by (unfold t, add64, mul64; rewrite !u64_small; unfold is_u64; rewrite ?u64_small;
        unfold is_u64; lia).
  assert (shr64 t 6 = t / 64) as -> by (by rewrite shr64_div).
  assert (Z.land t 63 = t mod 64) as -> by (by rewrite (land_ones_mod _ 6)).
  set (sign := Z.land _ 1). set (keep := if t mod 64 =? 63 then _ else _).
  set (r := U256 _ _ _ _).
  assert (forall i m, 0 <= i < 4 -> 0 <= m < 64 ->
    is_u64 (SignExtend_limb x (t / 64) keep sign i) /\
    Z.testbit (SignExtend_limb x (t / 64) keep sign i) m
    = if 64 * i + m <=? t then Z.testbit (toZ x) (64 * i + m) else Z.testbit (toZ x) t) as HL
    by (intros; apply SignExtend_limb_testbit; done || lia).
  assert (u256_ok r) as Hr.
  { unfold r, u256_ok; cbn [w0 w1 w2 w3]; split_and!;
      (eapply (fun i H => proj1 (HL i 0 H ltac:(lia))); lia). }
  split; [done|]. apply toZ_bits; [done|]. intros i m Hi Hm.
  transitivity (Z.testbit (SignExtend_limb x (t / 64) keep sign i) m).
  { assert (i = 0 \/ i = 1 \/ i = 2 \/ i = 3) as [->|[->|[->| ->]]] by lia; done. }
  rewrite (proj2 (HL i m Hi Hm)). unfold sign_extend_ref.
  replace (256 ^ (b + 1)) with (2 ^ (t + 1))
    by (rewrite Ht; change 256 with (2 ^ 8); rewrite <- Z.pow_mul_r by lia; f_equal; lia).
  rewrite sign_extend_ref_testbit by lia. done.
Qed.
