(* ===== verification/Division256.v ===== *)
(** * Division: [udivrem] and its callers in [pkg/evm256/arith.go]

    Knuth's Algorithm D with Moeller-Granlund reciprocals, exactly as the code
    runs it: normalisation, one quotient limb per step with at most one
    correction by the three-limb test and at most one add-back, then
    de-normalisation of the remainder. [udivrem_spec] shows that it is integer
    division; DIV, MOD, SDIV, SMOD, ADDMOD and MULMOD follow. *)

From S2P Require Import Prelude Uint256 Bitwise256 Limbs Arith256.

(** ** Operations *)

Fixpoint addToUn_loop (un : list Z) (j : nat) (dn : list Z) (i n : nat) (carry : Z) : list Z * Z :=
  match n with
  | O => (un, carry)
  | S n =>
      let '(s, carry) := Add64 (un !!! (j + i)%nat) (dn !!! i) carry in
      addToUn_loop (<[(j + i)%nat := s]> un) j dn (S i) n carry
  end.

Definition addToUn (un : list Z) (j : nat) (dn : list Z) (n : nat) : list Z * Z :=
  addToUn_loop un j dn 0 n 0.

Fixpoint subMulToUn_loop (un : list Z) (j : nat) (dn : list Z) (i n : nat) (m borrow : Z) : list Z * Z :=
  match n with
  | O => (un, borrow)
  | S n =>
      let '(s, c1) := Sub64 (un !!! (j + i)%nat) borrow 0 in
      let '(ph, pl) := Mul64 (dn !!! i) m in
      let '(t, c2) := Sub64 s pl 0 in
      subMulToUn_loop (<[(j + i)%nat := t]> un) j dn (S i) n m (add64 (add64 ph c1) c2)
  end.

Definition subMulToUn (un : list Z) (j : nat) (dn : list Z) (n : nat) (m : Z) : list Z * Z :=
  subMulToUn_loop un j dn 0 n m 0.

Definition reciprocal2by1 (d : Z) : Z := fst (Div64 (not64 d) (B64 - 1) d).

Definition udivrem2by1 (uh ul d reciprocal : Z) : Z * Z :=
  let '(qh, ql) := Mul64 reciprocal uh in
  let '(ql, carry) := Add64 ql ul 0 in
  let '(qh, _) := Add64 qh uh carry in
  let qh := add64 qh 1 in
  let r := sub64 ul (mul64 qh d) in
  let '(qh, r) := if ql <? r then (sub64 qh 1, add64 r d) else (qh, r) in
  if d <=? r then (add64 qh 1, sub64 r d) else (qh, r).

(** [for n > 0 && l[n-1] == 0 { n-- }] *)
Fixpoint sig_len (n : nat) (l : list Z) : nat :=
  match n with
  | O => O
  | S n' => if l !!! n' =? 0 then sig_len n' l else n
  end.

(** Limb [i] of [l << shift]. *)
Definition norm_limb (shift : Z) (l : list Z) (i : nat) : Z :=
  if shift =? 0 then l !!! i
  else match i with
  | O => shl64 (l !!! 0%nat) shift
  | S i' => Z.lor (shl64 (l !!! i) shift) (shr64 (l !!! i') (64 - shift))
  end.

Definition norm_dn (shift : Z) (d : list Z) (dLen : nat) : list Z :=
  map (fun i => if (i <? dLen)%nat then norm_limb shift d i else 0) (seq 0 4).

Definition norm_un (shift : Z) (u : list Z) (uLen : nat) : list Z :=
  map (fun i => if (i <? uLen)%nat then norm_limb shift u i
                else if (i =? uLen)%nat && negb (shift =? 0)
                then shr64 (u !!! (uLen - 1)%nat) (64 - shift) else 0) (seq 0 9).

(** One-limb divisor: [n] steps, from limb [n-1] down. *)
Fixpoint div1_loop (n : nat) (un : list Z) (d rec : Z) (quot : list Z) (r : Z) : list Z * Z :=
  match n with
  | O => (quot, r)
  | S j =>
      let '(q, r) := udivrem2by1 r (un !!! j) d rec in
      div1_loop j un d rec (<[j := q]> quot) r
  end.

(** The quotient digit estimate of one step. *)
Definition qhat_estimate (u2 u1 u0 dh dl rec : Z) : Z :=
  if dh <=? u2 then B64 - 1
  else
    let '(qhat, rhat) := udivrem2by1 u2 u1 dh rec in
    let '(ph, pl) := Mul64 qhat dl in
    if (rhat <? ph) || ((ph =? rhat) && (u0 <? pl)) then sub64 qhat 1 else qhat.

Definition knuth_step (j dLen : nat) (dn : list Z) (rec : Z) (un : list Z) : list Z * Z :=
  let u2 := un !!! (j + dLen)%nat in
  let u1 := un !!! (j + dLen - 1)%nat in
  let u0 := un !!! (j + dLen - 2)%nat in
  let qhat := qhat_estimate u2 u1 u0 (dn !!! (dLen - 1)%nat) (dn !!! (dLen - 2)%nat) rec in
  let '(un, borrow) := subMulToUn un j dn dLen qhat in
  let un := <[(j + dLen)%nat := sub64 u2 borrow]> un in
  if u2 <? borrow then
    let '(un, carry) := addToUn un j dn dLen in
    (<[(j + dLen)%nat := add64 (un !!! (j + dLen)%nat) carry]> un, sub64 qhat 1)
  else (un, qhat).

(** The main loop: [n] quotient digits, from digit [n-1] down. *)
Fixpoint knuth_loop (n dLen : nat) (dn : list Z) (rec : Z) (quot un : list Z) : list Z * list Z :=
  match n with
  | O => (quot, un)
  | S j =>
      let '(un, q) := knuth_step j dLen dn rec un in
      knuth_loop j dLen dn rec (<[j := q]> quot) un
  end.

(** De-normalised remainder. *)
Definition denorm_rem (shift : Z) (un : list Z) (dLen : nat) : list Z :=
  map (fun i =>
    if (i <? dLen)%nat then
      if shift =? 0 then un !!! i
      else if (i <? dLen - 1)%nat
      then Z.lor (shr64 (un !!! i) shift) (shl64 (un !!! S i) (64 - shift))
      else shr64 (un !!! i) shift
    else 0) (seq 0 4).

Definition udivrem (quot u : list Z) (uLenIn : nat) (d : Uint256) : list Z * Uint256 :=
  let d := limbs d in
  let dLen := sig_len 4 d in
  if (dLen =? 0)%nat then (quot, zero256)
  else
    let uLen := sig_len (if (8 <? uLenIn)%nat then 8%nat else uLenIn) u in
    if (uLen =? 0)%nat then (quot, zero256)
    else if (uLen <? dLen)%nat then
      (quot, of_limbs (map (fun i => if (i <? uLen)%nat then u !!! i else 0) (seq 0 4)))
    else
      let shift := LeadingZeros64 (d !!! (dLen - 1)%nat) in
      let dn := norm_dn shift d dLen in
      let un := norm_un shift u uLen in
      if (dLen =? 1)%nat then
        let '(quot, r) := div1_loop uLen un (dn !!! 0%nat) (reciprocal2by1 (dn !!! 0%nat))
                            quot (un !!! uLen) in
        (quot, U256 (shr64 r shift) 0 0 0)
      else
        let rec := reciprocal2by1 (dn !!! (dLen - 1)%nat) in
        let '(quot, un) := knuth_loop (uLen - dLen + 1) dLen dn rec quot un in
        (quot, of_limbs (denorm_rem shift un dLen)).

Definition remLimbs (num : list Z) (nlimbs : nat) (m : Uint256) : Uint256 :=
  snd (udivrem (replicate 8 0) num nlimbs m).

Definition divmod256 (n d : Uint256) : Uint256 * Uint256 :=
  let '(quot, r) := udivrem (replicate 8 0) (limbs n ++ replicate 4 0) 4 d in
  (of_limbs quot, r).

Definition Div256 (a b : Uint256) : Uint256 :=
  if IsZero b then zero256 else fst (divmod256 a b).

Definition Mod256 (a b : Uint256) : Uint256 :=
  if IsZero b then zero256 else snd (divmod256 a b).

Definition SDiv256 (a b : Uint256) : Uint256 :=
  if IsZero b then zero256
  else
    let q := fst (divmod256 (abs256 a) (abs256 b)) in
    if negb (Bool.eqb (isNeg a) (isNeg b)) then neg256 q else q.

Definition SMod256 (a b : Uint256) : Uint256 :=
  if IsZero b then zero256
  else
    let r := snd (divmod256 (abs256 a) (abs256 b)) in
    if isNeg a then neg256 r else r.

Definition AddMod256 (a b m : Uint256) : Uint256 :=
  if IsZero m then zero256
  else
    let '(sum, c) := addCarry a b in
    remLimbs (limbs sum ++ [c; 0; 0; 0]) 5 m.

Definition MulMod256 (a b m : Uint256) : Uint256 :=
  if IsZero m then zero256 else remLimbs (mul512 a b) 8 m.

(** Concrete runs, one per branch: the add-back, the [u2 >= dh] estimate, a
    one-limb divisor and a short dividend. *)
Example ex_udivrem_addback :
  let a := ofZ (2 ^ 255 + 3) in let b := ofZ (2 ^ 191 + 2 ^ 128 - 1) in
  (toZ (Div256 a b), toZ (Mod256 a b)) = ((2 ^ 255 + 3) / (2 ^ 191 + 2 ^ 128 - 1), (2 ^ 255 + 3) mod (2 ^ 191 + 2 ^ 128 - 1)).
Proof. vm_compute. reflexivity. Qed.

Example ex_udivrem_one_limb : toZ (Div256 (ofZ (B256 - 1)) (ofZ 7)) = (B256 - 1) / 7.
Proof. vm_compute. reflexivity. Qed.

Example ex_mulmod_max :
  toZ (MulMod256 (ofZ (B256 - 1)) (ofZ (B256 - 1)) (ofZ (B256 - 189))) = ((B256 - 1) * (B256 - 1)) mod (B256 - 189).
Proof. vm_compute. reflexivity. Qed.

(** ** The two-by-one division step *)

Definition normalised (d : Z) : Prop := B64 / 2 <= d < B64.

Lemma reciprocal2by1_spec d :
  normalised d ->
  let v := reciprocal2by1 d in
  is_u64 v /\ exists k, 1 <= k <= d /\ d * (B64 + v) + k = B64 * B64.
Proof.
  intros Hd. unfold normalised in Hd. change (B64 / 2) with 9223372036854775808 in Hd.
  unfold reciprocal2by1, Div64, not64; cbn [fst].
  set (n := (B64 - 1 - d) * B64 + (B64 - 1)).
  pose proof (Z.div_mod n d ltac:(lia)). pose proof (Z.mod_pos_bound n d ltac:(lia)).
  split.
  - split; [apply Z.div_pos; lia|]. apply Z.div_lt_upper_bound; unfold n; nia.
  - exists (n mod d + 1). unfold n in *. lia.
Qed.

(** [Div64] is called within its precondition: the high word is below [d]. *)
Lemma reciprocal2by1_no_panic d : normalised d -> not64 d < d.
Proof. unfold normalised, not64. change (B64 / 2) with 9223372036854775808. lia. Qed.

(** The candidate remainder of the estimate [q1 + 1] (Moeller-Granlund). *)
Lemma mg_bounds d v k uh ul q1 q0 :
  normalised d -> 1 <= k <= d -> d * (B64 + v) + k = B64 * B64 ->
  0 <= uh < d -> is_u64 ul -> is_u64 q0 ->
  q1 * B64 + q0 = v * uh + uh * B64 + ul ->
  let r := uh * B64 + ul - (q1 + 1) * d in
  - d <= r /\ q0 + 1 - B64 <= r /\ (r < B64 - d \/ r < q0).
Proof.
  intros Hd Hk Ev Huh Hul Hq0 Eq r. unfold normalised, is_u64 in *.
  change (B64 / 2) with 9223372036854775808 in Hd.
  assert (B64 * r = k * uh + (B64 - d) * ul + d * q0 - B64 * d) as Er by (unfold r; nia).
  assert (0 <= k * uh <= d * (d - 1)) by nia.
  assert (0 <= (B64 - d) * ul <= (B64 - d) * (B64 - 1)) by nia.
  assert (B64 * r >= d * (q0 - B64)) as L by nia.
  split_and!.
  - nia.
  - assert (B64 * r > B64 * (q0 - B64)) by nia. lia.
  - assert (B64 * r < (B64 - d) * (B64 - d) + d * q0) as U by nia.
    destruct (Z.lt_ge_cases q0 (B64 - d)); [left|right]; nia.
Qed.

Lemma udivrem2by1_spec uh ul d :
  normalised d -> 0 <= uh < d -> is_u64 ul ->
  let '(q, r) := udivrem2by1 uh ul d (reciprocal2by1 d) in
  q * d + r = uh * B64 + ul /\ 0 <= r < d /\ is_u64 q.
Proof.
  intros Hd Huh Hul.
  destruct (reciprocal2by1_spec d Hd) as (Hv & k & Hk & Ek).
  set (v := reciprocal2by1 d) in *. unfold udivrem2by1.
  assert (is_u64 uh) as Huh' by (unfold normalised, is_u64 in *; lia).
  pose proof (Mul64_spec v uh Hv Huh') as M. destruct (Mul64 v uh) as [qh ql].
  destruct M as (M & Hql & Hqh). pose proof (Add64_spec ql ul 0) as A1.
  destruct (Add64 ql ul 0) as [q0 c]. destruct A1 as [A1 Hq0].
  assert (0 <= c <= 1) as Hc by (unfold is_u64 in *; lia).
  unfold Add64. set (q1 := qh + uh + c).
  assert (q1 * B64 + q0 = v * uh + uh * B64 + ul) as Eq by (unfold q1; lia).
  destruct (mg_bounds d v k uh ul q1 q0 Hd Hk Ek Huh Hul Hq0 Eq) as (L1 & L2 & U).
  set (r := uh * B64 + ul - (q1 + 1) * d) in *.
  unfold normalised, is_u64 in *. change (B64 / 2) with 9223372036854775808 in Hd.
  assert (uh * (B64 + v) <= (d - 1) * (B64 + v)) by (apply Z.mul_le_mono_nonneg_r; lia).
  assert (0 <= q1 < B64) as Hq1 by lia.
  rewrite (Z.mod_small q1) by done.
  assert (sub64 ul (mul64 (add64 q1 1) d) = r mod B64) as ->.
  { unfold sub64, mul64, add64, u64. rewrite Zmult_mod_idemp_l, Zminus_mod_idemp_r. unfold r. rewrite <- (Z_mod_plus_full (ul - _) uh). f_equal. lia. }
  assert (add64 q1 1 = (q1 + 1) mod B64) as -> by done.
  assert (0 <= (q1 + 1) * d + r < d * B64) as W by (unfold r; lia).
  destruct (Z.lt_ge_cases r 0) as [Hneg|Hpos].
  - assert (r mod B64 = r + B64) as -> by (symmetry; apply (Z.mod_unique_pos _ _ (-1)); lia).
    destruct (Z.ltb_spec q0 (r + B64)); [|lia].
    assert (add64 (r + B64) d = r + d) as ->
      by (unfold add64, u64; symmetry; apply (Z.mod_unique_pos _ _ 1); lia).
    assert (sub64 ((q1 + 1) mod B64) 1 = q1) as ->.
    { unfold sub64, u64. rewrite Zminus_mod_idemp_l.
      replace (q1 + 1 - 1) with q1 by lia. by apply Z.mod_small. }
    destruct (Z.leb_spec d (r + d)); [lia|]. split_and!; unfold r in *; lia.
  - assert (q1 + 1 < B64) as Hq by (apply (Z.mul_lt_mono_pos_r d); lia).
    rewrite (Z.mod_small r), (Z.mod_small (q1 + 1)) by lia.
    destruct (Z.ltb_spec q0 r).
    + assert (sub64 (q1 + 1) 1 = q1) as -> by (unfold sub64; rewrite u64_small; unfold is_u64; lia).
      assert (add64 r d = r + d) as -> by (unfold add64; rewrite u64_small; unfold is_u64; lia).
      destruct (Z.leb_spec d (r + d)); [|lia].
      assert (sub64 (r + d) d = r) as -> by (unfold sub64; rewrite u64_small; unfold is_u64; lia).
      assert (add64 q1 1 = q1 + 1) as -> by (unfold add64; rewrite u64_small; unfold is_u64; lia).
      split_and!; unfold r in *; lia.
    + destruct (Z.leb_spec d r).
      * assert (sub64 r d = r - d) as -> by (unfold sub64; rewrite u64_small; unfold is_u64; lia).
        assert (q1 + 2 < B64) by (apply (Z.mul_lt_mono_pos_r d); lia).
        assert (add64 (q1 + 1) 1 = q1 + 2) as -> by (unfold add64; rewrite u64_small; unfold is_u64; lia).
        split_and!; unfold r in *; lia.
      * split_and!; unfold r in *; lia.
Qed.

(** ** Carry and borrow chains over the dividend window *)

Lemma addToUn_loop_spec j dn n : forall un i carry,
  limbs_ok un -> limbs_ok dn -> 0 <= carry <= 1 ->
  (j + i + n <= length un)%nat -> (i + n <= length dn)%nat ->
  let '(un', c') := addToUn_loop un j dn i n carry in
  limbs_ok un' /\ length un' = length un /\ 0 <= c' <= 1 /\
  (forall k, (k < j + i \/ j + i + n <= k)%nat -> un' !!! k = un !!! k) /\
  lsub un' (j + i) n + Bp n * c' = lsub un (j + i) n + lsub dn i n + carry.
Proof.
  induction n as [|n IH]; intros un i carry Hun Hdn Hc Hl Hi; cbn [addToUn_loop].
  - rewrite !lsub_0, Bp_0. split_and!; try done; lia.
  - pose proof (Add64_spec (un !!! (j + i)%nat) (dn !!! i) carry) as A.
    pose proof (Add64_carry _ _ carry (lookup_total_ok un (j + i) Hun)
      (lookup_total_ok dn i Hdn) Hc) as Ac.
    destruct (Add64 _ _ carry) as [s c]. cbn [snd] in Ac. destruct A as [A Hs].
    specialize (IH (<[(j + i)%nat:=s]> un) (S i) c (insert_ok _ _ _ Hun Hs) Hdn Ac
      ltac:(rewrite length_insert; lia) ltac:(lia)).
    destruct (addToUn_loop _ _ _ _ _ _) as [un' c'].
    destruct IH as (I1 & I2 & I3 & I4 & I5). rewrite length_insert in I2.
    split_and!; try done || lia.
    { intros k Hk. rewrite I4 by lia. apply lookup_insert_limb_ne. lia. }
    replace (j + S i)%nat with (S (j + i)) in * by lia.
    rewrite lsub_insert_lt in I5 by lia.
    rewrite !lsub_S_l by lia. rewrite Bp_S.
    rewrite I4, lookup_insert_limb by lia. lia.
Qed.

Lemma subMulToUn_loop_spec j dn m n : forall un i borrow,
  limbs_ok un -> limbs_ok dn -> is_u64 m -> is_u64 borrow ->
  (j + i + n <= length un)%nat -> (i + n <= length dn)%nat ->
  let '(un', b') := subMulToUn_loop un j dn i n m borrow in
  limbs_ok un' /\ length un' = length un /\ is_u64 b' /\
  (forall k, (k < j + i \/ j + i + n <= k)%nat -> un' !!! k = un !!! k) /\
  lsub un' (j + i) n - Bp n * b' = lsub un (j + i) n - m * lsub dn i n - borrow.
Proof.
  induction n as [|n IH]; intros un i borrow Hun Hdn Hm Hb Hl Hi; cbn [subMulToUn_loop].
  - rewrite !lsub_0, Bp_0. split_and!; try done; lia.
  - assert (is_u64 (un !!! (j + i)%nat)) as Hu by by apply lookup_total_ok.
    assert (is_u64 (dn !!! i)) as Hd by by apply lookup_total_ok.
    pose proof (Sub64_spec _ borrow 0 Hu Hb ltac:(lia)) as S1.
    destruct (Sub64 (un !!! (j + i)%nat) borrow 0) as [s c1]. destruct S1 as (S1 & Hs & Hc1).
    pose proof (Mul64_spec _ m Hd Hm) as M.
    destruct (Mul64 (dn !!! i) m) as [ph pl]. destruct M as (M & Hpl & Hph).
    pose proof (Sub64_spec s pl 0 Hs Hpl ltac:(lia)) as S2.
    destruct (Sub64 s pl 0) as [t c2]. destruct S2 as (S2 & Ht & Hc2).
    assert (0 <= dn !!! i * m <= (B64 - 1) * (B64 - 1)) as Hp by (unfold is_u64 in *; nia).
    assert (add64 (add64 ph c1) c2 = ph + c1 + c2) as ->.
    { unfold is_u64 in *. unfold add64. rewrite !u64_small; unfold is_u64; rewrite ?u64_small;
        unfold is_u64; lia. }
    assert (is_u64 (ph + c1 + c2)) as Hb' by (unfold is_u64 in *; lia).
    specialize (IH (<[(j + i)%nat:=t]> un) (S i) _ (insert_ok _ _ _ Hun Ht) Hdn Hm Hb'
      ltac:(rewrite length_insert; lia) ltac:(lia)).
    destruct (subMulToUn_loop _ _ _ _ _ _ _) as [un' b'].
    destruct IH as (I1 & I2 & I3 & I4 & I5). rewrite length_insert in I2.
    split_and!; try done.
    { intros k Hk. rewrite I4 by lia. apply lookup_insert_limb_ne. lia. }
    replace (j + S i)%nat with (S (j + i)) in * by lia.
    rewrite lsub_insert_lt in I5 by lia.
    rewrite !lsub_S_l by lia. rewrite Bp_S.
    rewrite I4, lookup_insert_limb by lia. lia.
Qed.

(** ** The quotient digit estimate (Knuth, vol. 2, 4.3.1, Theorem B, with the
    three-limb test): never below the digit and at most one above it. *)

Lemma qhat_estimate_spec u2 u1 u0 dh dl P Wl Dl :
  normalised dh -> is_u64 u2 -> is_u64 u1 -> is_u64 u0 -> is_u64 dl ->
  0 <= Wl < P -> 0 <= Dl < P ->
  let W := (u2 * (B64 * B64) + u1 * B64 + u0) * P + Wl in
  let D := (dh * B64 + dl) * P + Dl in
  W < D * B64 ->
  let qhat := qhat_estimate u2 u1 u0 dh dl (reciprocal2by1 dh) in
  is_u64 qhat /\ W / D <= qhat <= W / D + 1.
Proof.
  intros Hdh Hu2 Hu1 Hu0 Hdl HWl HDl W D HW qhat.
  pose proof Hdh as Hdh'. unfold normalised in Hdh'.
  change (B64 / 2) with 9223372036854775808 in Hdh'.
  set (V := u2 * (B64 * B64) + u1 * B64 + u0) in *.
  set (E := dh * B64 + dl) in *.
  assert (B64 <= E) as HE by (unfold E, is_u64 in *; lia).
  assert (0 <= V) as HV0 by (unfold V, is_u64 in *; lia).
  assert (0 < E * P) by (apply Z.mul_pos_pos; lia).
  assert (0 <= V * P) by (apply Z.mul_nonneg_nonneg; lia).
  assert (0 < D) as HD by (unfold D; lia).
  assert (0 <= W) as HW0 by (unfold W; lia).
  pose proof (Z.div_mod W D ltac:(lia)) as Eq. pose proof (Z.mod_pos_bound W D HD) as Er.
  pose proof (Z.div_pos W D HW0 HD) as Hq0.
  pose proof (Z.div_lt_upper_bound W D B64 HD HW) as Hq1.
  set (q := W / D) in *. set (r := W mod D) in *.
  assert (0 <= q * Dl) by (apply Z.mul_nonneg_nonneg; lia).
  assert (q * E <= V) as HqE.
  { assert (q * E < V + 1); [|lia]. apply (Z.mul_lt_mono_pos_r P); [lia|].
    unfold W, D in *. lia. }
  assert (D <= (E + 1) * P) as HDE by (unfold D; lia).
  assert ((E + 1) * P <= (dh + 1) * B64 * P)
    by (apply Z.mul_le_mono_nonneg_r; unfold E, is_u64 in *; lia).
  assert (V * P <= W) by (unfold W; lia).
  unfold qhat, qhat_estimate. destruct (Z.leb_spec dh u2).
  - split; [unfold is_u64; lia|]. split; [lia|].
    assert ((B64 - 2) * (dh + 1) * (B64 * P) <= dh * B64 * (B64 * P))
      by (apply Z.mul_le_mono_nonneg_r; lia).
    assert (dh * B64 * B64 * P <= V * P)
      by (apply Z.mul_le_mono_nonneg_r; unfold V, is_u64 in *; lia).
    assert (B64 - 2 < q + 1); [|lia]. apply (Z.mul_lt_mono_pos_r D); lia.
  - pose proof (udivrem2by1_spec u2 u1 dh Hdh ltac:(unfold is_u64 in *; lia) Hu1) as S.
    destruct (udivrem2by1 u2 u1 dh (reciprocal2by1 dh)) as [qh rh].
    destruct S as (S & Hrh & Hqh).
    pose proof (Mul64_spec qh dl Hqh Hdl) as M.
    destruct (Mul64 qh dl) as [ph pl]. destruct M as (M & Hpl & Hph).
    assert (V - qh * E = rh * B64 + u0 - qh * dl) as HV by (unfold V, E; lia).
    assert ((rh <? ph) || ((ph =? rh) && (u0 <? pl)) = (V <? qh * E)) as ->.
    { unfold is_u64 in *. destruct (Z.ltb_spec rh ph), (Z.eqb_spec ph rh), (Z.ltb_spec u0 pl),
        (Z.ltb_spec V (qh * E)); cbn [orb andb]; reflexivity || lia. }
    destruct (Z.ltb_spec V (qh * E)) as [Hlt|Hge].
    + assert (q < qh) as Hlo by (apply (Z.mul_lt_mono_pos_r E); lia).
      assert (sub64 qh 1 = qh - 1) as ->
        by (unfold sub64, is_u64 in *; rewrite u64_small; unfold is_u64; lia).
      split; [unfold is_u64 in *; lia|]. split; [lia|].
      assert (qh * dh * B64 * P <= V * P)
        by (apply Z.mul_le_mono_nonneg_r; unfold V, is_u64 in *; lia).
      assert (qh - 2 < q + 1); [|lia].
      destruct (Z.le_gt_cases qh 2); [lia|].
      assert ((qh - 2) * (dh + 1) * (B64 * P) <= qh * dh * (B64 * P))
        by (apply Z.mul_le_mono_nonneg_r; unfold is_u64 in *; lia).
      assert ((qh - 2) * D <= (qh - 2) * ((dh + 1) * B64 * P))
        by (apply Z.mul_le_mono_nonneg_l; lia).
      apply (Z.mul_lt_mono_pos_r D); lia.
    + assert (0 <= q * dl) by (apply Z.mul_nonneg_nonneg; unfold is_u64 in *; lia).
      split; [done|]. split.
      * assert (q * dh <= u2 * B64 + u1) by (unfold V, E, is_u64 in *; lia).
        assert (q < qh + 1); [|lia]. apply (Z.mul_lt_mono_pos_r dh); lia.
      * assert (qh - 1 < q + 1); [|lia].
        destruct (Z.le_gt_cases qh 0); [lia|].
        assert ((qh - 1) * (E + 1) * P <= V * P)
          by (apply Z.mul_le_mono_nonneg_r; unfold is_u64 in *; lia).
        assert ((qh - 1) * D <= (qh - 1) * ((E + 1) * P))
          by (apply Z.mul_le_mono_nonneg_l; lia).
        apply (Z.mul_lt_mono_pos_r D); lia.
Qed.

(** ** One step of the main loop *)

Lemma knuth_step_spec j n dn un :
  (2 <= n)%nat -> (n <= length dn)%nat -> limbs_ok dn -> normalised (dn !!! (n - 1)%nat) ->
  limbs_ok un -> (j + n < length un)%nat ->
  let D := lsub dn 0 n in
  let W := lsub un j (S n) in
  W < D * B64 ->
  let '(un', q) := knuth_step j n dn (reciprocal2by1 (dn !!! (n - 1)%nat)) un in
  limbs_ok un' /\ length un' = length un /\ is_u64 q /\
  q = W / D /\ lsub un' j n = W mod D /\
  (forall k, (k < j)%nat -> un' !!! k = un !!! k).
Proof.
  intros Hn Hnd Hdn Hnorm Hun Hj D W HW. unfold knuth_step.
  set (u2 := un !!! (j + n)%nat). set (dh := dn !!! (n - 1)%nat) in *.
  set (qhat := qhat_estimate _ _ _ _ _ _).
  assert (W = lsub un j n + Bp n * u2) as EW by (unfold W; by rewrite lsub_S_r by lia).
  pose proof (lsub_range dn 0 n Hdn) as RD. fold D in RD.
  assert (is_u64 qhat /\ W / D <= qhat <= W / D + 1) as [Hq Hqb].
  { destruct n as [|[|m]]; [lia|lia|].
    pose proof (lsub_range un j m Hun) as Rw. pose proof (lsub_range dn 0 m Hdn) as Rd.
    pose proof (qhat_estimate_spec u2 (un !!! (j + S m)%nat) (un !!! (j + m)%nat) dh
      (dn !!! m) (Bp m) (lsub un j m) (lsub dn 0 m) Hnorm) as Q.
    unfold qhat. replace (j + S (S m) - 1)%nat with (j + S m)%nat by lia.
    replace (j + S (S m) - 2)%nat with (j + m)%nat by lia.
    replace (S (S m) - 2)%nat with m by lia.
    assert (W = (u2 * (B64 * B64) + un !!! (j + S m)%nat * B64 + un !!! (j + m)%nat) * Bp m
            + lsub un j m) as EW'.
    { rewrite EW. rewrite !lsub_S_r by lia. rewrite !Bp_S. ring. }
    assert (D = (dh * B64 + dn !!! m) * Bp m + lsub dn 0 m) as ED'.
    { unfold D, dh. rewrite !lsub_S_r by lia. rewrite !Bp_S.
      replace (S (S m) - 1)%nat with (S m) by lia. simpl Nat.add. ring. }
    rewrite EW', ED' in HW |- *. apply Q; first [exact HW | assumption | by apply lookup_total_ok]. }
  pose proof (lsub_range un j (S n) Hun) as RW. fold W in RW.
  assert (0 < D) as HD by lia.
  pose proof (Z.div_pos W D ltac:(lia) HD) as Hq0.
  pose proof (Z.div_mod W D ltac:(lia)) as Eq. pose proof (Z.mod_pos_bound W D HD) as Er.
  pose proof (Bp_pos n) as HB.
  pose proof (subMulToUn_loop_spec j dn qhat n un 0 0 Hun Hdn Hq ltac:(unfold is_u64; lia)
    ltac:(lia) ltac:(lia)) as S. unfold subMulToUn.
  destruct (subMulToUn_loop un j dn 0 n qhat 0) as [un1 b].
  destruct S as (S1 & S2 & S3 & S4 & S5). rewrite Nat.add_0_r in S4, S5. fold D in S5.
  assert (is_u64 u2) as Hu2 by by apply lookup_total_ok.
  pose proof (lsub_range un1 j n S1) as R1.
  destruct (Z.ltb_spec u2 b) as [Hlt|Hge].
  - assert (qhat = W / D + 1) as Hqq.
    { assert (qhat <> W / D); [|lia]. intros E. rewrite <- E in Eq.
      assert (Bp n * (u2 - b) <= Bp n * (-1)) by (apply Z.mul_le_mono_nonneg_l; lia). lia. }
    unfold addToUn. set (un2 := <[(j + n)%nat:=sub64 u2 b]> un1).
    pose proof (addToUn_loop_spec j dn n un2 0 0
      ltac:(apply insert_ok; [done | apply u64_range]) Hdn ltac:(lia)
      ltac:(unfold un2; rewrite length_insert; lia) ltac:(lia)) as A.
    destruct (addToUn_loop un2 j dn 0 n 0) as [un3 c]. destruct A as (A1 & A2 & A3 & A4 & A5).
    rewrite Nat.add_0_r in A4, A5. fold D in A5. unfold un2 in A2, A5.
    rewrite length_insert in A2. rewrite lsub_insert_ge in A5 by lia.
    pose proof (lsub_range un3 j n A1) as R3.
    assert (u2 - b + c = 0) as Z0.
    { apply (carry_zero (lsub un3 j n) (Bp n)); [done|done|].
      rewrite Hqq in S5. assert (lsub un3 j n + Bp n * (u2 - b + c) = W mod D) as ->; lia. }
    split_and!.
    + apply insert_ok; [done | apply u64_range].
    + rewrite length_insert. lia.
    + apply u64_range.
    + rewrite Hqq. unfold sub64. rewrite u64_small; [lia|].
      unfold is_u64 in *. lia.
    + rewrite lsub_insert_ge by lia. rewrite Hqq in S5.
      assert (b = u2 + c) as -> by lia. lia.
    + intros k Hk. rewrite lookup_insert_limb_ne, A4 by lia. unfold un2.
      rewrite lookup_insert_limb_ne, S4 by lia. done.
  - assert (qhat = W / D) as Hqq.
    { assert (qhat < W / D + 1); [|lia]. apply (Z.mul_lt_mono_pos_l D); [done|].
      assert (0 <= Bp n * (u2 - b)) by (apply Z.mul_nonneg_nonneg; lia). lia. }
    assert (u2 - b = 0) as Z0.
    { apply (carry_zero (lsub un1 j n) (Bp n)); [done|done|].
      rewrite Hqq in S5. assert (lsub un1 j n + Bp n * (u2 - b) = W mod D) as ->; lia. }
    split_and!.
    + apply insert_ok; [done | apply u64_range].
    + rewrite length_insert. lia.
    + done.
    + done.
    + rewrite lsub_insert_ge by lia. rewrite Hqq in S5. assert (b = u2) as -> by lia. lia.
    + intros k Hk. rewrite lookup_insert_limb_ne, S4 by lia. done.
Qed.

Lemma knuth_loop_spec n dn k : forall quot un,
  (2 <= n)%nat -> (n <= length dn)%nat -> limbs_ok dn -> normalised (dn !!! (n - 1)%nat) ->
  limbs_ok un -> limbs_ok quot -> (k + n <= length un)%nat -> (k <= length quot)%nat ->
  let D := lsub dn 0 n in
  lsub un k n < D ->
  let '(quot', un') := knuth_loop k n dn (reciprocal2by1 (dn !!! (n - 1)%nat)) quot un in
  limbs_ok quot' /\ length quot' = length quot /\ limbs_ok un' /\ length un' = length un /\
  (forall i, (k <= i)%nat -> quot' !!! i = quot !!! i) /\
  lsub un 0 (k + n) = D * lsub quot' 0 k + lsub un' 0 n /\ lsub un' 0 n < D.
Proof.
  induction k as [|j IH]; intros quot un Hn Hnd Hdn Hnorm Hun Hquot Hl Hlq D HD;
    cbn [knuth_loop].
  { rewrite lsub_0. change (0 + n)%nat with n. split_and!; done || lia. }
  pose proof (lsub_range un (S j) n Hun) as Rj.
  assert (lsub un j (S n) < D * B64) as HW.
  { rewrite lsub_S_l by lia. pose proof (lookup_total_ok un j Hun) as Hu. unfold is_u64 in Hu. lia. }
  pose proof (knuth_step_spec j n dn un Hn Hnd Hdn Hnorm Hun ltac:(lia) HW) as S.
  destruct (knuth_step j n dn _ un) as [un1 q]. destruct S as (S1 & S2 & S3 & S4 & S5 & S6).
  fold D in S4, S5.
  assert (0 < D) as HD0 by lia.
  pose proof (Z.mod_pos_bound (lsub un j (S n)) D HD0) as Rm.
  specialize (IH (<[j:=q]> quot) un1 Hn Hnd Hdn Hnorm S1 (insert_ok _ _ _ Hquot S3)
    ltac:(lia) ltac:(rewrite length_insert; lia) ltac:(rewrite S5; lia)).
  destruct (knuth_loop j n dn _ _ un1) as [quot' un'].
  destruct IH as (I1 & I2 & I3 & I4 & I5 & I6 & I7). rewrite length_insert in I2.
  split_and!; try done || lia.
  { intros i Hi. rewrite I5 by lia. apply lookup_insert_limb_ne. lia. }
  replace (S j + n)%nat with (j + S n)%nat by lia.
  rewrite (lsub_S_r quot') by lia. simpl (0 + j)%nat.
  rewrite I5, lookup_insert_limb by lia.
  rewrite lsub_add in I6 by lia. rewrite lsub_add by lia. simpl (0 + j)%nat in *.
  rewrite S5 in I6. rewrite (lsub_ext un1 un 0 j) in I6 by (done || intros; apply S6; lia).
  rewrite S4. pose proof (Z.div_mod (lsub un j (S n)) D ltac:(lia)) as Eq.
  fold D in I6. set (q' := lsub un j (S n) / D) in *. rewrite Eq. lia.
Qed.

Lemma div1_loop_spec d un n : forall quot r,
  normalised d -> limbs_ok un -> limbs_ok quot -> (n <= length un)%nat ->
  (n <= length quot)%nat -> 0 <= r < d ->
  let '(quot', r') := div1_loop n un d (reciprocal2by1 d) quot r in
  limbs_ok quot' /\ length quot' = length quot /\
  (forall i, (n <= i)%nat -> quot' !!! i = quot !!! i) /\
  lsub un 0 n + Bp n * r = d * lsub quot' 0 n + r' /\ 0 <= r' < d.
Proof.
  induction n as [|j IH]; intros quot r Hd Hun Hquot Hl Hlq Hr; cbn [div1_loop].
  { rewrite !lsub_0, Bp_0. split_and!; done || lia. }
  pose proof (udivrem2by1_spec r (un !!! j) d Hd Hr (lookup_total_ok _ _ Hun)) as S.
  destruct (udivrem2by1 r (un !!! j) d (reciprocal2by1 d)) as [q r1].
  destruct S as (S1 & S2 & S3).
  specialize (IH (<[j:=q]> quot) r1 Hd Hun (insert_ok _ _ _ Hquot S3) ltac:(lia)
    ltac:(rewrite length_insert; lia) S2).
  destruct (div1_loop j un d _ _ r1) as [quot' r'].
  destruct IH as (I1 & I2 & I3 & I4 & I5). rewrite length_insert in I2.
  split_and!; try done || lia.
  { intros i Hi. rewrite I3 by lia. apply lookup_insert_limb_ne. lia. }
  rewrite !lsub_S_r by lia. simpl (0 + j)%nat. rewrite I3, lookup_insert_limb by lia.
  rewrite Bp_S. assert (Bp j * (q * d + r1) = Bp j * (r * B64 + un !!! j)) by (by rewrite S1).
  lia.
Qed.

(** ** Normalisation *)

Lemma sig_len_spec n l :
  let m := sig_len n l in
  (m <= n)%nat /\ (forall k, (m <= k < n)%nat -> l !!! k = 0) /\
  ((0 < m)%nat -> l !!! (m - 1)%nat <> 0).
Proof.
  induction n as [|n IH]; cbn [sig_len]; [split_and!; lia|].
  destruct (Z.eqb_spec (l !!! n) 0) as [E|E].
  - destruct IH as (I1 & I2 & I3). split_and!; [lia| |done].
    intros k Hk. destruct (decide (k = n)) as [->|]; [done|]. apply I2. lia.
  - split_and!; [lia|lia|]. intros _. by rewrite Nat.sub_1_r.
Qed.

(** The bits shifted out of limb [k-1]. *)
Definition hi_part (s : Z) (l : list Z) (k : nat) : Z :=
  match k with O => 0 | S k => l !!! k / 2 ^ (64 - s) end.

Lemma pow2_split s : 0 <= s < 64 -> 2 ^ s * 2 ^ (64 - s) = B64 /\ 0 < 2 ^ s /\ 0 < 2 ^ (64 - s).
Proof.
  intros. rewrite <- Z.pow_add_r by lia. replace (s + (64 - s)) with 64 by lia.
  split_and!; [done | apply Z.pow_pos_nonneg; lia..].
Qed.

Lemma shl64_split x s :
  is_u64 x -> 0 <= s < 64 ->
  shl64 x s = 2 ^ s * (x mod 2 ^ (64 - s)) /\
  shl64 x s + B64 * (x / 2 ^ (64 - s)) = 2 ^ s * x.
Proof.
  intros Hx Hs. destruct (pow2_split s Hs) as (E & H1 & H2).
  assert (shl64 x s = 2 ^ s * (x mod 2 ^ (64 - s))) as ->.
  { rewrite shl64_mul by lia. rewrite <- E, Z.mul_comm. by rewrite Z.mul_mod_distr_l by lia. }
  split; [done|]. pose proof (Z.div_mod x (2 ^ (64 - s)) ltac:(lia)) as D.
  rewrite <- E. rewrite D at 3. ring.
Qed.

Lemma hi_part_u64 s l k : limbs_ok l -> 0 <= s < 64 -> 0 <= hi_part s l k < 2 ^ s.
Proof.
  intros Hl Hs. destruct (pow2_split s Hs) as (E & H1 & H2).
  destruct k as [|k]; simpl; [lia|].
  pose proof (lookup_total_ok l k Hl) as Hx. unfold is_u64 in Hx.
  split; [apply Z.div_pos; lia | apply Z.div_lt_upper_bound; lia].
Qed.

Lemma norm_limb_spec s l i :
  limbs_ok l -> 0 <= s < 64 ->
  is_u64 (norm_limb s l i) /\
  norm_limb s l i + B64 * hi_part s l (S i) = 2 ^ s * l !!! i + hi_part s l i.
Proof.
  intros Hl Hs. pose proof (lookup_total_ok l i Hl) as Hx.
  pose proof (hi_part_u64 s l i Hl Hs) as Hh.
  destruct (shl64_split (l !!! i) s Hx Hs) as [E1 E2].
  assert (norm_limb s l i = shl64 (l !!! i) s + hi_part s l i) as ->.
  { unfold norm_limb. destruct (Z.eqb_spec s 0) as [->|Hs0].
    - change (2 ^ 0) with 1 in *. assert (hi_part 0 l i = 0) as -> by lia.
      rewrite E1, Z.add_0_r, Z.mul_1_l. symmetry. by apply Z.mod_small.
    - destruct i as [|i]; [simpl; lia|]. rewrite shr64_div by lia.
      cbn [hi_part] in *. rewrite E1, Z.lor_comm.
      rewrite lor_disjoint_add by lia. lia. }
  cbn [hi_part] in *. split; [|lia].
  pose proof (Z.mod_pos_bound (l !!! i) (2 ^ (64 - s)) ltac:(lia)) as Hm.
  destruct (pow2_split s Hs) as (E & H1 & H2). unfold is_u64.
  assert (2 ^ s * (l !!! i mod 2 ^ (64 - s)) <= 2 ^ s * (2 ^ (64 - s) - 1))
    by (apply Z.mul_le_mono_nonneg_l; lia). lia.
Qed.

Lemma norm_lsub s l N k :
  limbs_ok l -> 0 <= s < 64 -> (k <= length l)%nat -> (k <= length N)%nat ->
  (forall i, (i < k)%nat -> N !!! i = norm_limb s l i) ->
  lsub N 0 k + Bp k * hi_part s l k = 2 ^ s * lsub l 0 k.
Proof.
  intros Hl Hs Hkl HkN Hi. induction k as [|k IH].
  - rewrite !lsub_0. simpl. lia.
  - rewrite !lsub_S_r by lia. simpl (0 + k)%nat. rewrite Bp_S.
    rewrite Hi by lia. specialize (IH ltac:(lia) ltac:(lia) ltac:(intros; apply Hi; lia)).
    destruct (norm_limb_spec s l k Hl Hs) as [_ E].
    assert (Bp k * (norm_limb s l k + B64 * hi_part s l (S k))
            = Bp k * (2 ^ s * l !!! k + hi_part s l k)) by (by rewrite E).
    lia.
Qed.

Lemma LeadingZeros64_spec x :
  0 < x < B64 ->
  let s := LeadingZeros64 x in 0 <= s < 64 /\ B64 / 2 <= x * 2 ^ s < B64.
Proof.
  intros Hx s. unfold s, LeadingZeros64. destruct (Z.eqb_spec x 0); [lia|].
  pose proof (Z.log2_spec x ltac:(lia)) as [L1 L2].
  assert (0 <= Z.log2 x < 64).
  { split; [apply Z.log2_nonneg|]. apply Z.log2_lt_pow2; [lia|]. apply Hx. }
  split; [lia|].
  assert (2 ^ Z.log2 x * 2 ^ (63 - Z.log2 x) = 2 ^ 63) as E1
    by (rewrite <- Z.pow_add_r by lia; f_equal; lia).
  assert (2 ^ Z.succ (Z.log2 x) * 2 ^ (63 - Z.log2 x) = 2 ^ 64) as E2
    by (rewrite <- Z.pow_add_r by lia; f_equal; lia).
  change (B64 / 2) with (2 ^ 63). change B64 with (2 ^ 64).
  rewrite <- E1, <- E2. assert (0 < 2 ^ (63 - Z.log2 x)) by (apply Z.pow_pos_nonneg; lia).
  split; [apply Z.mul_le_mono_nonneg_r | apply Z.mul_lt_mono_pos_r]; lia.
Qed.

Lemma map_seq_ok (f : nat -> Z) n : (forall i, is_u64 (f i)) -> limbs_ok (map f (seq 0 n)).
Proof.
  intros H. change (map f) with (fmap (M := list) f). apply Forall_fmap, Forall_true. exact H.
Qed.

Lemma norm_dn_spec s d n :
  limbs_ok d -> length d = 4%nat -> (1 <= n <= 4)%nat -> 0 <= s < 64 ->
  B64 / 2 <= d !!! (n - 1)%nat * 2 ^ s < B64 ->
  let dn := norm_dn s d n in
  limbs_ok dn /\ length dn = 4%nat /\ normalised (dn !!! (n - 1)%nat) /\
  lsub dn 0 n = 2 ^ s * lsub d 0 n.
Proof.
  intros Hd Hl Hn Hs Hnorm dn.
  assert (forall i, (i < n)%nat -> dn !!! i = norm_limb s d i) as Hi.
  { intros i Hi. unfold dn, norm_dn. rewrite lookup_total_map_seq by lia.
    by destruct (Nat.ltb_spec i n); [|lia]. }
  assert (limbs_ok dn) as Hok.
  { apply map_seq_ok. intros i. destruct (i <? n)%nat; [|unfold is_u64; lia].
    by apply norm_limb_spec. }
  destruct (pow2_split s Hs) as (E & H1 & H2).
  assert (hi_part s d n = 0) as Hz.
  { destruct n as [|m]; [lia|]. simpl in *. rewrite Nat.sub_0_r in Hnorm.
    pose proof (lookup_total_ok d m Hd) as Hm. unfold is_u64 in Hm.
    apply Z.div_small. split; [lia|]. apply (Z.mul_lt_mono_pos_r (2 ^ s)); lia. }
  split_and!; [done | by unfold dn, norm_dn; rewrite length_map, length_seq | |].
  - split; [|by apply lookup_total_ok]. rewrite Hi by lia.
    destruct (norm_limb_spec s d (n - 1) Hd Hs) as [_ En].
    replace (S (n - 1)) with n in En by lia. rewrite Hz in En.
    pose proof (hi_part_u64 s d (n - 1) Hd Hs). lia.
  - pose proof (norm_lsub s d dn n Hd Hs ltac:(lia)
      ltac:(unfold dn, norm_dn; rewrite length_map, length_seq; lia) Hi) as EN.
    rewrite Hz in EN. lia.
Qed.

Lemma norm_un_spec s u m :
  limbs_ok u -> length u = 8%nat -> (1 <= m <= 8)%nat -> 0 <= s < 64 ->
  let un := norm_un s u m in
  limbs_ok un /\ length un = 9%nat /\ 0 <= un !!! m < 2 ^ s /\
  lsub un 0 (S m) = 2 ^ s * lsub u 0 m.
Proof.
  intros Hu Hl Hm Hs un.
  assert (forall i, (i < m)%nat -> un !!! i = norm_limb s u i) as Hi.
  { intros i Hi. unfold un, norm_un. rewrite lookup_total_map_seq by lia.
    by destruct (Nat.ltb_spec i m); [|lia]. }
  assert (un !!! m = hi_part s u m) as Hm'.
  { unfold un, norm_un. rewrite lookup_total_map_seq by lia.
    destruct (Nat.ltb_spec m m); [lia|]. rewrite Nat.eqb_refl.
    destruct m as [|m]; [lia|]. cbn [hi_part andb]. rewrite Nat.sub_1_r.
    destruct (Z.eqb_spec s 0) as [->|]; cbn [negb andb].
    - pose proof (lookup_total_ok u m Hu). symmetry. by apply Z.div_small.
    - by rewrite shr64_div by lia. }
  assert (length un = 9%nat) as Hlen by (unfold un, norm_un; by rewrite length_map, length_seq).
  split_and!; [|done| |  |].
  - apply map_seq_ok. intros i. destruct (i <? m)%nat; [by apply norm_limb_spec|].
    destruct (_ && _); [|unfold is_u64; lia].
    apply shr64_u64; [by apply lookup_total_ok | lia].
  - rewrite Hm'. by apply hi_part_u64.
  - rewrite Hm'. by apply hi_part_u64.
  - rewrite lsub_S_r by lia. simpl (0 + m)%nat. rewrite Hm'.
    apply norm_lsub; done || lia.
Qed.

(** ** De-normalisation of the remainder *)

Lemma denorm_limb s x y :
  is_u64 x -> is_u64 y -> 0 < s < 64 ->
  is_u64 (Z.lor (shr64 x s) (shl64 y (64 - s))) /\
  2 ^ s * Z.lor (shr64 x s) (shl64 y (64 - s)) + x mod 2 ^ s = x + B64 * (y mod 2 ^ s).
Proof.
  intros Hx Hy Hs. split.
  { apply lor_u64; [apply shr64_u64; done || lia | apply u64_range]. }
  destruct (pow2_split s ltac:(lia)) as (E & H1 & H2).
  destruct (shl64_split y (64 - s) Hy ltac:(lia)) as [E1 _].
  replace (64 - (64 - s)) with s in E1 by lia.
  rewrite E1, shr64_div by lia. unfold is_u64 in Hx.
  rewrite lor_disjoint_add.
  - pose proof (Z.div_mod x (2 ^ s) ltac:(lia)). rewrite <- E. lia.
  - lia.
  - split; [apply Z.div_pos; lia | apply Z.div_lt_upper_bound; lia].
Qed.

Lemma denorm_rem_spec s un n x :
  limbs_ok un -> (1 <= n <= 4)%nat -> (n <= length un)%nat -> 0 <= s < 64 ->
  lsub un 0 n = 2 ^ s * x ->
  u256_ok (of_limbs (denorm_rem s un n)) /\ toZ (of_limbs (denorm_rem s un n)) = x.
Proof.
  intros Hun Hn Hl Hs Hx. set (R := denorm_rem s un n).
  destruct (pow2_split s Hs) as (E & H1 & H2).
  assert (length R = 4%nat) as HR by (unfold R, denorm_rem; by rewrite length_map, length_seq).
  assert (limbs_ok R) as HRok.
  { apply map_seq_ok. intros i. pose proof (lookup_total_ok un i Hun).
    destruct (i <? n)%nat; [|unfold is_u64; lia]. destruct (Z.eqb_spec s 0); [done|].
    destruct (i <? n - 1)%nat.
    - apply lor_u64; [apply shr64_u64; done || lia | apply u64_range].
    - apply shr64_u64; done || lia. }
  assert (forall i, (S i < n)%nat ->
    2 ^ s * R !!! i + un !!! i mod 2 ^ s = un !!! i + B64 * (un !!! S i mod 2 ^ s)) as Hlow.
  { intros i Hi. unfold R, denorm_rem. rewrite lookup_total_map_seq by lia.
    destruct (Nat.ltb_spec i n), (Nat.ltb_spec i (n - 1)); try lia.
    destruct (Z.eqb_spec s 0) as [->|].
    - change (2 ^ 0) with 1. rewrite !Z.mod_1_r. lia.
    - apply denorm_limb; try by apply lookup_total_ok. lia. }
  assert (2 ^ s * R !!! (n - 1)%nat + un !!! (n - 1)%nat mod 2 ^ s = un !!! (n - 1)%nat) as Htop.
  { unfold R, denorm_rem. rewrite lookup_total_map_seq by lia.
    destruct (Nat.ltb_spec (n - 1) n), (Nat.ltb_spec (n - 1) (n - 1)); try lia.
    destruct (Z.eqb_spec s 0) as [->|].
    - change (2 ^ 0) with 1. rewrite Z.mod_1_r. lia.
    - rewrite shr64_div by lia. symmetry. apply Z.div_mod. lia. }
  assert (forall k, (k <= n - 1)%nat ->
    2 ^ s * lsub R 0 k + un !!! 0%nat mod 2 ^ s = lsub un 0 k + Bp k * (un !!! k mod 2 ^ s)) as Hk.
  { induction k as [|k IH]; intros Hk; [rewrite !lsub_0, Bp_0; lia|].
    rewrite !lsub_S_r by lia. simpl (0 + k)%nat. rewrite Bp_S.
    specialize (IH ltac:(lia)). specialize (Hlow k ltac:(lia)).
    assert (Bp k * (2 ^ s * R !!! k + un !!! k mod 2 ^ s)
            = Bp k * (un !!! k + B64 * (un !!! S k mod 2 ^ s))) by (by rewrite Hlow).
    lia. }
  assert (2 ^ s * lsub R 0 n + un !!! 0%nat mod 2 ^ s = lsub un 0 n) as Hall.
  { specialize (Hk (n - 1)%nat ltac:(lia)).
    rewrite (lsub_last R), (lsub_last un) by lia.
    assert (Bp (n - 1) * (2 ^ s * R !!! (n - 1)%nat + un !!! (n - 1)%nat mod 2 ^ s)
            = Bp (n - 1) * un !!! (n - 1)%nat) by (by rewrite Htop).
    lia. }
  assert (un !!! 0%nat mod 2 ^ s = 0) as Hz.
  { pose proof (Z.mod_pos_bound (un !!! 0%nat) (2 ^ s) H1).
    assert (2 ^ s * (x - lsub R 0 n) = un !!! 0%nat mod 2 ^ s) as Ez by lia.
    rewrite <- Ez in *. assert (x - lsub R 0 n = 0) as ->; [|lia].
    apply (carry_zero 0 (2 ^ s)); lia. }
  assert (lsub R 0 n = x) as Hfin by (apply (Z.mul_cancel_l _ _ (2 ^ s)); lia).
  split; [by apply of_limbs_ok|]. rewrite toZ_of_limbs by done.
  rewrite <- Hfin, <- lsub_all, HR. apply lsub_zero_tail; [lia|lia|].
  intros k Hk4. unfold R, denorm_rem. rewrite lookup_total_map_seq by lia.
  destruct (Nat.ltb_spec k n); [lia|done].
Qed.

(** ** [udivrem] is integer division *)

(** The result relation: [quot] and [rem] divide [u] by [d]. *)
Definition divides (u d : Z) (quot : list Z) (rem : Uint256) : Prop :=
  limbs_ok quot /\ length quot = 8%nat /\ u256_ok rem /\
  lval quot = u / d /\ toZ rem = u mod d.

Lemma divides_intro u d quot rem k :
  limbs_ok quot -> length quot = 8%nat -> u256_ok rem -> (k <= 8)%nat ->
  (forall i, (k <= i)%nat -> quot !!! i = replicate 8 0 !!! i) ->
  u = d * lsub quot 0 k + toZ rem -> toZ rem < d -> divides u d quot rem.
Proof.
  intros Hq Hl Hr Hk Hz E Hlt. pose proof (toZ_range rem Hr).
  assert (lval quot = lsub quot 0 k) as Ev.
  { rewrite <- lsub_all, Hl. apply lsub_zero_tail; [lia|lia|].
    intros i Hi. rewrite Hz by lia. apply lookup_total_replicate_2. lia. }
  split_and!; [done|done|done| |].
  - rewrite Ev. apply (Z.div_unique_pos _ _ _ (toZ rem)); lia.
  - apply (Z.mod_unique_pos _ _ (lsub quot 0 k)); lia.
Qed.

Lemma udivrem_short u n :
  limbs_ok u -> (n < 4)%nat -> (n <= length u)%nat ->
  let rem := of_limbs (map (fun i => if (i <? n)%nat then u !!! i else 0) (seq 0 4)) in
  u256_ok rem /\ toZ rem = lsub u 0 n.
Proof.
  intros Hu Hn Hl. set (R := map _ _).
  assert (length R = 4%nat) as HR by (unfold R; by rewrite length_map, length_seq).
  assert (limbs_ok R) as HRok.
  { apply map_seq_ok. intros i. destruct (i <? n)%nat; [by apply lookup_total_ok|].
    unfold is_u64; lia. }
  split; [by apply of_limbs_ok|].
  rewrite toZ_of_limbs by done. rewrite <- lsub_all, HR.
  rewrite (lsub_zero_tail R n 4); [|lia|lia|].
  - assert (forall k, (k <= n)%nat -> lsub R 0 k = lsub u 0 k) as Hk; [|by apply Hk].
    induction k as [|k IH]; intros Hk; [done|]. rewrite !lsub_S_r, IH by lia.
    simpl (0 + k)%nat. unfold R. rewrite lookup_total_map_seq by lia.
    by destruct (Nat.ltb_spec k n); [|lia].
  - intros k Hk. unfold R. rewrite lookup_total_map_seq by lia.
    by destruct (Nat.ltb_spec k n); [lia|].
Qed.

(** The two division loops, on a divisor [D] of [n] significant limbs and a
    dividend [u] of [m >= n] limbs. *)
Section Normalised.
Context (D u : list Z) (n : nat).
Hypothesis HD : limbs_ok D.
Hypothesis HDlen : length D = 4%nat.
Hypothesis Hu : limbs_ok u.
Hypothesis Hulen : length u = 8%nat.
Hypothesis Hn : (1 <= n <= 4)%nat.
Hypothesis Htop : D !!! (n - 1)%nat <> 0.

Lemma top_pos : 0 < D !!! (n - 1)%nat < B64.
Proof. pose proof (lookup_total_ok D (n - 1) HD) as H. unfold is_u64 in H. lia. Qed.

Lemma divisor_lower k : (1 <= k <= n)%nat -> Bp (k - 1) <= Bp (n - 1) * D !!! (n - 1)%nat.
Proof.
  intros Hk. pose proof top_pos. pose proof (Bp_pos (k - 1)).
  assert (Bp (k - 1) <= Bp (n - 1)) by (unfold Bp; apply Z.pow_le_mono_r; lia).
  rewrite <- (Z.mul_1_r (Bp (k - 1))). apply Z.mul_le_mono_nonneg; lia.
Qed.

Lemma short_lt k : (k < n)%nat -> lsub u 0 k < lsub D 0 n.
Proof.
  intros Hk. pose proof (divisor_lower (S k) ltac:(lia)) as L. rewrite Nat.sub_1_r in L.
  simpl pred in L. rewrite (lsub_last D) by lia.
  pose proof (lsub_range D 0 (n - 1) HD). pose proof (lsub_range u 0 k Hu). lia.
Qed.

Context (m : nat).
Hypothesis Hm : (n <= m <= 8)%nat.

Let s := LeadingZeros64 (D !!! (n - 1)%nat).
Let dn := norm_dn s D n.
Let un := norm_un s u m.

Lemma udivrem_one_limb :
  n = 1%nat ->
  let '(quot, r) := div1_loop m un (dn !!! 0%nat) (reciprocal2by1 (dn !!! 0%nat))
                      (replicate 8 0) (un !!! m) in
  divides (lsub u 0 m) (lsub D 0 n) quot (U256 (shr64 r s) 0 0 0).
Proof.
  intros E1. destruct (LeadingZeros64_spec _ top_pos) as [Hs Hnorm]. fold s in Hs, Hnorm.
  destruct (pow2_split s Hs) as (E & P1 & P2).
  destruct (norm_dn_spec s D n HD HDlen Hn Hs Hnorm) as (A1 & A2 & A3 & A4).
  destruct (norm_un_spec s u m Hu Hulen ltac:(lia) Hs) as (U1 & U2 & U3 & U4).
  fold dn in A1, A2, A3, A4. fold un in U1, U2, U3, U4.
  pose proof top_pos as Hd. rewrite E1 in A3, A4, Hd |- *. simpl (1 - 1)%nat in A3, Hd.
  rewrite (lsub_1 dn 0) in A4 by lia. rewrite (lsub_1 D 0) in * by lia.
  assert (2 ^ s * 1 <= 2 ^ s * D !!! 0%nat) by (apply Z.mul_le_mono_nonneg_l; lia).
  pose proof (div1_loop_spec (dn !!! 0%nat) un m (replicate 8 0) (un !!! m) A3 U1
    ltac:(apply Forall_replicate; unfold is_u64; lia)
    ltac:(lia) ltac:(rewrite length_replicate; lia) ltac:(lia)) as L.
  destruct (div1_loop m un _ _ _ _) as [quot r]. destruct L as (L1 & L2 & L3 & L4 & L5).
  rewrite lsub_S_r in U4 by lia. simpl (0 + m)%nat in U4. rewrite length_replicate in L2.
  set (x := lsub u 0 m - D !!! 0%nat * lsub quot 0 m) in *.
  assert (r = 2 ^ s * x) as Er by (unfold x; lia).
  assert (shr64 r s = x) as Ex
    by (rewrite shr64_div, Er, Z.mul_comm by lia; apply Z.div_mul; lia).
  assert (0 <= x < D !!! 0%nat) as Hx.
  { rewrite Er, A4 in L5. split; [|apply (Z.mul_lt_mono_pos_l (2 ^ s)); lia].
    apply (Z.mul_le_mono_pos_l 0 x (2 ^ s)); lia. }
  rewrite Ex. change (U256 x 0 0 0) with (FromU64 x).
  apply (divides_intro _ _ _ _ m); rewrite ?toZ_FromU64;
    [done|done|apply FromU64_ok; unfold is_u64; lia|lia|done|unfold x; lia|lia].
Qed.

Lemma udivrem_many_limbs :
  (2 <= n)%nat ->
  let '(quot, un') := knuth_loop (m - n + 1) n dn (reciprocal2by1 (dn !!! (n - 1)%nat))
                        (replicate 8 0) un in
  divides (lsub u 0 m) (lsub D 0 n) quot (of_limbs (denorm_rem s un' n)).
Proof.
  intros Hn2. destruct (LeadingZeros64_spec _ top_pos) as [Hs Hnorm]. fold s in Hs, Hnorm.
  destruct (pow2_split s Hs) as (E & P1 & P2).
  destruct (norm_dn_spec s D n HD HDlen Hn Hs Hnorm) as (A1 & A2 & A3 & A4).
  destruct (norm_un_spec s u m Hu Hulen ltac:(lia) Hs) as (U1 & U2 & U3 & U4).
  fold dn in A1, A2, A3, A4. fold un in U1, U2, U3, U4.
  assert (lsub un (m - n + 1) n = lsub un (m - n + 1) (n - 1) + Bp (n - 1) * un !!! m) as Ew.
  { pose proof (lsub_S_r un (m - n + 1) (n - 1) ltac:(lia)) as Ew.
    replace (S (n - 1)) with n in Ew by lia. rewrite Ew. do 3 f_equal. lia. }
  assert (lsub un (m - n + 1) n < lsub dn 0 n) as Hinv.
  { pose proof (lsub_range un (m - n + 1) (n - 1) U1) as Rw.
    assert (Bp (n - 1) * un !!! m <= Bp (n - 1) * (2 ^ s - 1))
      by (apply Z.mul_le_mono_nonneg_l; lia).
    rewrite Ew, A4, (lsub_last D) by lia. pose proof (divisor_lower n ltac:(lia)).
    pose proof (lsub_range D 0 (n - 1) HD).
    assert (2 ^ s * Bp (n - 1) <= 2 ^ s * (lsub D 0 (n - 1) + Bp (n - 1) * D !!! (n - 1)%nat))
      by (apply Z.mul_le_mono_nonneg_l; lia).
    lia. }
  pose proof (knuth_loop_spec n dn (m - n + 1) (replicate 8 0) un Hn2 ltac:(lia) A1 A3
    U1 ltac:(apply Forall_replicate; unfold is_u64; lia) ltac:(lia)
    ltac:(rewrite length_replicate; lia) Hinv) as L.
  destruct (knuth_loop _ _ _ _ _ _) as [quot un'].
  destruct L as (L1 & L2 & L3 & L4 & L5 & L6 & L7). rewrite length_replicate in L2.
  replace (m - n + 1 + n)%nat with (S m) in L6 by lia. rewrite U4, A4 in L6. rewrite A4 in L7.
  set (q := lsub quot 0 (m - n + 1)) in *.
  destruct (denorm_rem_spec s un' n (lsub u 0 m - lsub D 0 n * q) L3 Hn ltac:(lia) Hs)
    as [R1 R2]; [lia|].
  apply (divides_intro _ _ _ _ (m - n + 1)); rewrite ?R2;
    [done|done|done|lia|done|fold q; lia|apply (Z.mul_lt_mono_pos_l (2 ^ s)); lia].
Qed.
End Normalised.

Lemma udivrem_spec u nIn d :
  limbs_ok u -> length u = 8%nat -> u256_ok d -> toZ d <> 0 -> (nIn <= 8)%nat ->
  let '(quot, rem) := udivrem (replicate 8 0) u nIn d in
  divides (lsub u 0 nIn) (toZ d) quot rem.
Proof.
  intros Hu Hl Hd Hd0 HnIn. unfold udivrem.
  destruct (Nat.ltb_spec 8 nIn) as [|_]; [lia|].
  pose proof (limbs_ok_limbs d Hd) as HD. pose proof (length_limbs d) as HDlen.
  rewrite <- lval_limbs in *. set (D := limbs d) in *.
  destruct (sig_len_spec 4 D) as (N1 & N2 & N3). destruct (sig_len_spec nIn u) as (M1 & M2 & M3).
  set (n := sig_len 4 D) in *. set (m := sig_len nIn u) in *.
  assert (lval D = lsub D 0 n) as ED by (rewrite <- lsub_all, HDlen; apply lsub_zero_tail; done || lia).
  assert (lsub u 0 nIn = lsub u 0 m) as EU by (apply lsub_zero_tail; done || lia).
  rewrite EU, ED in *.
  assert (limbs_ok (replicate 8 0)) as H0 by (apply Forall_replicate; unfold is_u64; lia).
  pose proof (lsub_range D 0 n HD) as RD.
  destruct (Nat.eqb_spec n 0) as [E0|E0]; [by rewrite E0, lsub_0 in Hd0|].
  specialize (N3 ltac:(lia)).
  destruct (Nat.eqb_spec m 0) as [Em|Em].
  { rewrite Em, lsub_0. apply (divides_intro _ _ _ _ 0); rewrite ?lsub_0;
      change (toZ zero256) with 0; done || lia. }
  destruct (Nat.ltb_spec m n) as [Hmn|Hmn].
  { destruct (udivrem_short u m Hu ltac:(lia) ltac:(lia)) as [R1 R2].
    apply (divides_intro _ _ _ _ 0); rewrite ?R2, ?lsub_0; try done; [lia|lia|].
    apply short_lt; done || lia. }
  destruct (Nat.eqb_spec n 1) as [E1|E1].
  - pose proof (udivrem_one_limb D u n HD HDlen Hu Hl ltac:(lia) N3 m ltac:(lia) E1) as L.
    rewrite E1 in L |- *. simpl (1 - 1)%nat in *. by destruct (div1_loop _ _ _ _ _ _).
  - pose proof (udivrem_many_limbs D u n HD HDlen Hu Hl ltac:(lia) N3 m ltac:(lia) ltac:(lia)) as L.
    by destruct (knuth_loop _ _ _ _ _ _).
Qed.

(** ** The exported operations *)

Lemma divmod256_spec a b :
  u256_ok a -> u256_ok b -> toZ b <> 0 ->
  let '(q, r) := divmod256 a b in
  u256_ok q /\ u256_ok r /\ toZ q = toZ a / toZ b /\ toZ r = toZ a mod toZ b.
Proof.
  intros Ha Hb Hb0. unfold divmod256. set (u := limbs a ++ replicate 4 0).
  assert (limbs_ok u) as Hu.
  { apply Forall_app. split; [by apply limbs_ok_limbs|].
    apply Forall_replicate. unfold is_u64; lia. }
  pose proof (udivrem_spec u 4 b Hu eq_refl Hb Hb0 ltac:(lia)) as S.
  destruct (udivrem (replicate 8 0) u 4 b) as [quot r].
  change (lsub u 0 4) with (lval (limbs a)) in S. rewrite lval_limbs in S.
  destruct S as (S1 & S2 & S3 & S4 & S5).
  destruct (of_limbs_low quot S1 S2) as [O1 O2].
  split_and!; [done|done| |done]. rewrite O2, S4. apply Z.mod_small.
  pose proof (toZ_range a Ha). pose proof (toZ_range b Hb).
  split; [apply Z.div_pos; lia|]. apply Z.div_lt_upper_bound; nia.
Qed.

Lemma remLimbs_spec num n m :
  limbs_ok num -> length num = 8%nat -> u256_ok m -> toZ m <> 0 -> (n <= 8)%nat ->
  u256_ok (remLimbs num n m) /\ toZ (remLimbs num n m) = lsub num 0 n mod toZ m.
Proof.
  intros Hn Hl Hm H0 Hn8. pose proof (udivrem_spec num n m Hn Hl Hm H0 Hn8) as S.
  unfold remLimbs. destruct (udivrem _ _ _ _) as [q r]. cbn [snd].
  by destruct S as (_ & _ & S3 & _ & S5).
Qed.

Lemma IsZero_false z : u256_ok z -> IsZero z = false -> toZ z <> 0.
Proof. intros Hz. rewrite IsZero_spec by done. apply Z.eqb_neq. Qed.

Lemma IsZero_true z : u256_ok z -> IsZero z = true -> toZ z = 0.
Proof. intros Hz. rewrite IsZero_spec by done. apply Z.eqb_eq. Qed.

Lemma Div256_spec a b :
  u256_ok a -> u256_ok b ->
  u256_ok (Div256 a b) /\ toZ (Div256 a b) = toZ a / toZ b.
Proof.
  intros Ha Hb. unfold Div256. destruct (IsZero b) eqn:E.
  - rewrite (IsZero_true b Hb E), Z.div_0_r. split; [apply zero256_ok|done].
  - pose proof (divmod256_spec a b Ha Hb (IsZero_false b Hb E)) as S.
    destruct (divmod256 a b). cbn [fst]. by destruct S as (? & ? & ? & ?).
Qed.

(** MOD by zero is zero in the code, where [Z.modulo] is the identity. *)
Lemma Mod256_spec a b :
  u256_ok a -> u256_ok b ->
  u256_ok (Mod256 a b) /\
  toZ (Mod256 a b) = if toZ b =? 0 then 0 else toZ a mod toZ b.
Proof.
  intros Ha Hb. unfold Mod256. rewrite <- IsZero_spec by done. destruct (IsZero b) eqn:E.
  - split; [apply zero256_ok|done].
  - pose proof (divmod256_spec a b Ha Hb (IsZero_false b Hb E)) as S.
    destruct (divmod256 a b). cbn [snd]. by destruct S as (? & ? & ? & ?).
Qed.

(** Sign and magnitude of the signed reading. *)
Lemma toSZ_sign_abs a :
  u256_ok a -> toSZ a = if isNeg a then - Z.abs (toSZ a) else Z.abs (toSZ a).
Proof.
  intros Ha. pose proof (toZ_range a Ha). rewrite toSZ_neg by done.
  destruct (isNeg a); lia.
Qed.

Lemma toSZ_zero b : u256_ok b -> toSZ b = 0 <-> toZ b = 0.
Proof.
  intros Hb. pose proof (toZ_range b Hb). pose proof (isNeg_spec b Hb) as N.
  rewrite toSZ_neg by done.
  change (B256 / 2) with
    57896044618658097711785492504343953926634992332820282019728792003956564819968 in N.
  destruct (isNeg b); lia.
Qed.

Lemma signed_quot (na nb : bool) x y X Y :
  x = (if na then - X else X) -> y = (if nb then - Y else Y) -> 0 <= X -> 0 < Y ->
  Z.quot x y = if negb (Bool.eqb na nb) then - (X / Y) else X / Y.
Proof.
  intros -> -> HX HY. rewrite <- Z.quot_div_nonneg by lia.
  destruct na, nb; cbn [Bool.eqb negb];
    rewrite ?Z.quot_opp_opp, ?Z.quot_opp_l, ?Z.quot_opp_r by lia; reflexivity.
Qed.

Lemma signed_rem (na nb : bool) x y X Y :
  x = (if na then - X else X) -> y = (if nb then - Y else Y) -> 0 <= X -> 0 < Y ->
  Z.rem x y = if na then - (X mod Y) else X mod Y.
Proof.
  intros -> -> HX HY. rewrite <- Z.rem_mod_nonneg by lia.
  destruct na, nb; rewrite ?Z.rem_opp_opp, ?Z.rem_opp_l, ?Z.rem_opp_r by lia; reflexivity.
Qed.

(** Apply a conditional negation to a magnitude. *)
Lemma cond_neg_spec (c : bool) q :
  u256_ok q ->
  let r := if c then neg256 q else q in
  u256_ok r /\ toZ r = (if c then - toZ q else toZ q) mod B256.
Proof.
  intros Hq r. unfold r. destruct c; [by apply neg256_spec|].
  split; [done|]. symmetry. by apply Z.mod_small, toZ_range.
Qed.

(** Truncated signed division; [MIN / -1] wraps to [MIN]. *)
Lemma SDiv256_spec a b :
  u256_ok a -> u256_ok b ->
  u256_ok (SDiv256 a b) /\ toZ (SDiv256 a b) = Z.quot (toSZ a) (toSZ b) mod B256.
Proof.
  intros Ha Hb. destruct (abs256_spec a Ha) as [Oa Ea]. destruct (abs256_spec b Hb) as [Ob Eb].
  unfold SDiv256. destruct (IsZero b) eqn:E.
  { apply IsZero_true, toSZ_zero in E; [|done|done]. split; [apply zero256_ok|].
    rewrite E. by assert (Z.quot (toSZ a) 0 = 0) as -> by by destruct (toSZ a). }
  assert (toSZ b <> 0) as Hb0 by (rewrite toSZ_zero by done; by apply IsZero_false).
  pose proof (divmod256_spec _ _ Oa Ob ltac:(rewrite Eb; lia)) as S.
  destruct (divmod256 (abs256 a) (abs256 b)) as [q r]. destruct S as (Oq & _ & Eq & _).
  cbn [fst]. rewrite Ea, Eb in Eq.
  destruct (cond_neg_spec (negb (Bool.eqb (isNeg a) (isNeg b))) q Oq) as [O1 ->].
  split; [done|]. f_equal. rewrite Eq.
  symmetry. apply signed_quot; [by apply toSZ_sign_abs..|lia|lia].
Qed.

(** The remainder has the sign of the dividend. *)
Lemma SMod256_spec a b :
  u256_ok a -> u256_ok b ->
  u256_ok (SMod256 a b) /\
  toZ (SMod256 a b) = (if toZ b =? 0 then 0 else Z.rem (toSZ a) (toSZ b)) mod B256.
Proof.
  intros Ha Hb. destruct (abs256_spec a Ha) as [Oa Ea]. destruct (abs256_spec b Hb) as [Ob Eb].
  unfold SMod256. rewrite <- IsZero_spec by done. destruct (IsZero b) eqn:E.
  { split; [apply zero256_ok|done]. }
  assert (toSZ b <> 0) as Hb0 by (rewrite toSZ_zero by done; by apply IsZero_false).
  pose proof (divmod256_spec _ _ Oa Ob ltac:(rewrite Eb; lia)) as S.
  destruct (divmod256 (abs256 a) (abs256 b)) as [q r]. destruct S as (_ & Or & _ & Er).
  cbn [snd]. rewrite Ea, Eb in Er.
  destruct (cond_neg_spec (isNeg a) r Or) as [O1 ->].
  split; [done|]. f_equal. rewrite Er.
  symmetry. apply (signed_rem _ (isNeg b)); [by apply toSZ_sign_abs..|lia|lia].
Qed.

(** ADDMOD and MULMOD reduce the unbounded sum and product. *)
Lemma AddMod256_spec a b m :
  u256_ok a -> u256_ok b -> u256_ok m ->
  u256_ok (AddMod256 a b m) /\
  toZ (AddMod256 a b m) = if toZ m =? 0 then 0 else (toZ a + toZ b) mod toZ m.
Proof.
  intros Ha Hb Hm. unfold AddMod256. rewrite <- IsZero_spec by done.
  destruct (IsZero m) eqn:E; [split; [apply zero256_ok|done]|].
  pose proof (addCarry_spec a b Ha Hb) as S. destruct (addCarry a b) as [sum c].
  destruct S as (Os & Hc & Es).
  assert (limbs_ok (limbs sum ++ [c; 0; 0; 0])) as Hl.
  { apply Forall_app. split; [by apply limbs_ok_limbs|].
    rewrite !Forall_cons_iff. unfold is_u64. split_and!; lia || constructor. }
  destruct (remLimbs_spec _ 5 m Hl eq_refl Hm (IsZero_false m Hm E) ltac:(lia)) as [O1 ->].
  split; [done|]. f_equal. rewrite <- Es.
  unfold lsub, toZ. cbn [limbs app take drop lval firstn skipn].
  change B256 with (B64 * (B64 * (B64 * B64))). lia.
Qed.

Lemma MulMod256_spec a b m :
  u256_ok a -> u256_ok b -> u256_ok m ->
  u256_ok (MulMod256 a b m) /\
  toZ (MulMod256 a b m) = if toZ m =? 0 then 0 else (toZ a * toZ b) mod toZ m.
Proof.
  intros Ha Hb Hm. unfold MulMod256. rewrite <- IsZero_spec by done.
  destruct (IsZero m) eqn:E; [split; [apply zero256_ok|done]|].
  destruct (mul512_spec a b Ha Hb) as (M1 & M2 & M3).
  destruct (remLimbs_spec _ 8 m M1 M2 Hm (IsZero_false m Hm E) ltac:(lia)) as [O1 ->].
  split; [done|]. by rewrite <- M2, lsub_all, M3.
Qed.
