(* ===== verification/ModArith.v ===== *)
(** * Arithmetic modulo a number

    Congruences, powers and inverses modulo [N], and Pocklington's primality
    criterion: what the proofs about elliptic curves and big integers share. *)

From S2P Require Import Prelude.
From Stdlib Require Import Zdivisibility Zcong Zmod.ZmodInv.
From Bignums Require Import BigN.

(** ** Congruences *)

Definition cong (N a b : Z) : Prop := a mod N = b mod N.

Notation "a =[ N ]= b" := (cong N a b) (at level 70, N at level 9, format "a  =[ N ]=  b").

Section cong.
  Context (N : Z).

#[export] Instance cong_equiv : Equivalence (cong N).
Proof. split; [done|by intros ? ? ?|unfold cong; intros ? ? ? -> ->; done]. Qed.

#[export] Instance cong_add : Proper (cong N ==> cong N ==> cong N) Z.add.
Proof. unfold cong. intros a b H c d H'. by rewrite Zplus_mod, H, H', <- Zplus_mod. Qed.
#[export] Instance cong_sub : Proper (cong N ==> cong N ==> cong N) Z.sub.
Proof. unfold cong. intros a b H c d H'. by rewrite Zminus_mod, H, H', <- Zminus_mod. Qed.
#[export] Instance cong_mul : Proper (cong N ==> cong N ==> cong N) Z.mul.
Proof. unfold cong. intros a b H c d H'. by rewrite Zmult_mod, H, H', <- Zmult_mod. Qed.
#[export] Instance cong_opp : Proper (cong N ==> cong N) Z.opp.
Proof. intros a b H. rewrite <- !Z.sub_0_l. by rewrite H. Qed.

#[export] Instance cong_decision a b : Decision (a =[N]= b).
Proof. unfold cong. apply _. Defined.

Lemma cong_mod a : a mod N =[N]= a.
Proof. apply Zmod_mod. Qed.

Lemma cong_eq a b : a = b -> a =[N]= b.
Proof. by intros ->. Qed.

Lemma cong_self : N =[N]= 0.
Proof. unfold cong. by rewrite Z_mod_same_full, Zmod_0_l. Qed.

Lemma cong_sub_0 a b : a =[N]= b <-> a - b =[N]= 0.
Proof.
  split; intros H; [by rewrite H, Z.sub_diag|].
  replace a with (a - b + b) by lia. rewrite H. by rewrite Z.add_0_l.
Qed.

Lemma cong_divide a : 0 < N -> a =[N]= 0 <-> (N | a).
Proof. unfold cong. intros HN. rewrite Zmod_0_l. apply Z.mod_divide. lia. Qed.

(** Two residues that are congruent are equal. *)
Lemma cong_small a b : 0 <= a < N -> 0 <= b < N -> a =[N]= b -> a = b.
Proof. unfold cong. intros Ha Hb H. by rewrite !Z.mod_small in H. Qed.

(** A combination of one or two congruences. *)
Lemma cong_comb1 x y u a b : a =[N]= b -> x - y = u * (a - b) -> x =[N]= y.
Proof. intros H E. apply cong_sub_0. rewrite E, H, Z.sub_diag. by rewrite Z.mul_0_r. Qed.

Lemma cong_comb2 x y u a b v c d :
  a =[N]= b -> c =[N]= d -> x - y = u * (a - b) + v * (c - d) -> x =[N]= y.
Proof. intros H H' E. apply cong_sub_0. rewrite E, H, H', !Z.sub_diag. by rewrite !Z.mul_0_r. Qed.

Lemma cong_pow a b n : 0 <= n -> a =[N]= b -> a ^ n =[N]= b ^ n.
Proof.
  intros Hn H. pattern n. apply natlike_ind; [by rewrite !Z.pow_0_r| |done].
  intros k Hk IH. rewrite !Z.pow_succ_r by done. by apply cong_mul.
Qed.

(** A unit can be cancelled. *)
Lemma cong_cancel a b u v : u * v =[N]= 1 -> u * a =[N]= u * b -> a =[N]= b.
Proof.
  intros Hu H. rewrite <- (Z.mul_1_l a), <- (Z.mul_1_l b), <- Hu.
  rewrite (Z.mul_comm u v), <- !Z.mul_assoc. by rewrite H.
Qed.
End cong.

(** ** Powers *)

(** [b ^ e mod m] by repeated squaring, from the most significant bit. *)
Fixpoint pow_pos_mod (m b : Z) (e : positive) : Z :=
  match e with
  | xH => b mod m
  | xO e => let r := pow_pos_mod m b e in (r * r) mod m
  | xI e => let r := pow_pos_mod m b e in (r * r mod m * b) mod m
  end.

Definition pow_mod (m b e : Z) : Z :=
  match e with Zpos e => pow_pos_mod m b e | _ => 1 mod m end.

Lemma pow_pos_mod_spec m b e : pow_pos_mod m b e = b ^ Zpos e mod m.
Proof.
  induction e as [e IH|e IH|]; cbn [pow_pos_mod].
  - rewrite IH. replace (Zpos e~1) with (Zpos e + Zpos e + 1) by lia. rewrite !Z.pow_add_r, Z.pow_1_r by lia.
    by rewrite <- Zmult_mod, Zmult_mod_idemp_l.
  - rewrite IH. replace (Zpos e~0) with (Zpos e + Zpos e) by lia. rewrite Z.pow_add_r by lia.
    by rewrite <- Zmult_mod.
  - by rewrite Z.pow_1_r.
Qed.

Lemma pow_mod_spec m b e : 0 <= e -> pow_mod m b e = b ^ e mod m.
Proof. destruct e as [|e|e]; intros He; [done|apply pow_pos_mod_spec|lia]. Qed.

(** The same computation on machine integers, for the certificates. *)
Fixpoint big_pow_mod (m b : BigN.t) (e : positive) : BigN.t :=
  match e with
  | xH => BigN.modulo b m
  | xO e => BigN.modulo (BigN.square (big_pow_mod m b e)) m
  | xI e => BigN.modulo (BigN.mul (BigN.modulo (BigN.square (big_pow_mod m b e)) m) b) m
  end.

Definition fast_pow_mod (m b e : Z) : Z :=
  match e with Zpos e => BigN.to_Z (big_pow_mod (BigN.of_N (Z.to_N m)) (BigN.of_N (Z.to_N b)) e) | _ => 1 mod m end.

Lemma big_pow_mod_spec m b e :
  BigN.to_Z (big_pow_mod m b e) = pow_pos_mod (BigN.to_Z m) (BigN.to_Z b) e.
Proof.
  induction e as [e IH|e IH|]; cbn [pow_pos_mod big_pow_mod];
    rewrite ?BigN.spec_modulo, ?BigN.spec_mul, ?BigN.spec_modulo, ?BigN.spec_square, ?IH; reflexivity.
Qed.

Lemma fast_pow_mod_spec m b e : 0 <= m -> 0 <= b -> fast_pow_mod m b e = pow_mod m b e.
Proof.
  intros Hm Hb. destruct e as [|e|e]; [done| |done]. cbn [fast_pow_mod pow_mod].
  by rewrite big_pow_mod_spec, !BigN.spec_of_N, !Z2N.id.
Qed.

Fixpoint prodZ (l : list Z) : Z := match l with [] => 1 | x :: l => x * prodZ l end.

(** ** Inverses: [big.Int.ModInverse]

    The inverse in [0, n), or nil when there is none. *)

Definition mod_inverse (g n : Z) : option Z := if Z.gcd g n =? 1 then Some (Z.invmod g n) else None.

Lemma mod_inverse_spec g n i : 2 <= n -> mod_inverse g n = Some i -> 0 <= i < n /\ i * g =[n]= 1.
Proof.
  unfold mod_inverse. intros Hn. destruct (Z.eqb_spec (Z.gcd g n) 1) as [Hg|]; [|done]. intros [= <-]. split.
  - unfold Z.invmod. apply Z.mod_pos_bound. lia.
  - unfold cong. rewrite Z.mod_1_l by lia. by apply Z.invmod_coprime.
Qed.

Lemma mod_inverse_prime g n : Z.prime n -> ~ (n | g) -> exists i, mod_inverse g n = Some i.
Proof.
  intros Hn Hg. unfold mod_inverse. rewrite Z.gcd_comm, (Z.coprime_prime_l n g Hn Hg). by eexists.
Qed.

(** Modulo a prime, exactly the multiples of the prime have no inverse. *)
Lemma mod_inverse_cases g n : Z.prime n ->
  match mod_inverse g n with
  | Some i => 0 <= i < n /\ i * g =[n]= 1 /\ ~ g =[n]= 0
  | None => g =[n]= 0
  end.
Proof.
  intros Hn. pose proof (Z.prime_ge_2 n Hn) as H2. destruct (mod_inverse g n) as [i|] eqn:Ei.
  - apply mod_inverse_spec in Ei as [Hi Ei]; [|done]. split; [done|]. split; [done|]. intros H.
    rewrite H, Z.mul_0_r in Ei. apply cong_small in Ei; lia.
  - destruct (decide (g =[n]= 0)) as [|Hg]; [done|]. exfalso.
    destruct (mod_inverse_prime g n Hn) as [j Ej]; [|by rewrite Ej in Ei].
    intros Hd. apply Hg. by apply cong_divide; [lia|].
Qed.

(** Fermat's little theorem, and the inverse it gives. *)
Lemma fermat p a : Z.prime p -> ~ (p | a) -> a ^ (p - 1) =[p]= 1.
Proof.
  intros Hp Ha. pose proof (Z.prime_ge_2 p Hp) as Hp2. unfold cong. rewrite Z.mod_1_l by lia.
  rewrite Z.sub_1_r. apply Z.fermat_nz; [done|]. intros H. apply Ha, Z.mod_divide; [lia|done].
Qed.

Lemma fermat_inverse p a : Z.prime p -> ~ (p | a) -> a * a ^ (p - 2) =[p]= 1.
Proof.
  intros Hp Ha. pose proof (Z.prime_ge_2 p Hp) as Hp2. rewrite <- (fermat p a Hp Ha).
  replace (p - 1) with (Z.succ (p - 2)) by lia. by rewrite Z.pow_succ_r by lia.
Qed.

(** ** Primality *)

Lemma prime_divisor n : 1 < n -> exists r, Z.prime r /\ (r | n).
Proof.
  induction (Z.lt_wf 1 n) as [n _ IH]. intros Hn.
  destruct (decide (Exists (fun d => n mod d = 0) (seqZ 2 (n - 2)))) as [H|H].
  - apply Exists_exists in H as (d & Hd & Hm). apply list_elem_of_In, elem_of_seqZ in Hd.
    destruct (IH d) as (r & Hr & Hrd); [lia|lia|]. exists r. split; [done|].
    etransitivity; [exact Hrd|]. apply Z.mod_divide; [lia|done].
  - exists n. split; [|apply Z.divide_refl]. split; [done|]. intros d Hd Hdn. apply H, Exists_exists.
    exists d. split; [apply list_elem_of_In, elem_of_seqZ; lia|]. by apply Z.mod_divide; [lia|].
Qed.

(** A number whose prime divisors are all larger than its square root is prime. *)
Lemma prime_from_divisors n : 1 < n -> (forall r, Z.prime r -> (r | n) -> n < r * r) -> Z.prime n.
Proof.
  intros Hn H. split; [done|]. intros d Hd [m Hm].
  assert (forall s, 1 < s -> s * s <= n -> (s | n) -> False) as Hs.
  { intros s Hs1 Hs2 Hsn. destruct (prime_divisor s Hs1) as (r & Hr & Hrs).
    assert (r <= s) by (apply Z.divide_pos_le; [lia|done]). pose proof (Z.prime_ge_2 r Hr).
    pose proof (H r Hr ltac:(by etransitivity; [exact Hrs|])). nia. }
  assert (1 < m) by nia. destruct (Z.le_gt_cases d m).
  - apply (Hs d); [lia|nia|by exists m].
  - apply (Hs m); [lia|nia|exists d; lia].
Qed.

(** One line of a certificate: [q] divides the order of [a] modulo every prime divisor of [n]. *)
Definition pock_line (n : Z) (l : Z * Z) : bool :=
  let '(q, a) := l in
  (0 <=? a) && ((n - 1) mod q =? 0) && (fast_pow_mod n a (n - 1) =? 1) &&
  (Z.gcd (fast_pow_mod n a ((n - 1) / q) - 1) n =? 1).

Lemma pock_line_spec n q a r :
  2 <= n -> Z.prime q -> pock_line n (q, a) = true -> Z.prime r -> (r | n) -> (q | r - 1).
Proof.
  intros Hn Hq. unfold pock_line. rewrite !andb_true_iff, Z.leb_le, !Z.eqb_eq. intros [[[Ha H1] H2] H3] Hr Hrn.
  rewrite fast_pow_mod_spec in H2, H3 by lia.
  pose proof (Z.prime_ge_2 q Hq) as Hq2. pose proof (Z.prime_ge_2 r Hr) as Hr2.
  set (e := (n - 1) / q) in *. assert (n - 1 = q * e) as He by (unfold e; dlia).
  assert (0 <= e) as He0 by nia.
  rewrite pow_mod_spec in H2 by lia. rewrite pow_mod_spec in H3 by done.
  assert (forall x y, x =[n]= y -> x =[r]= y) as Hnr.
  { intros x y Hxy. apply (proj2 (cong_sub_0 r x y)), (proj2 (cong_divide r (x - y) ltac:(lia))). etransitivity; [exact Hrn|].
    apply (cong_divide n); [lia|]. exact (proj1 (cong_sub_0 n x y) Hxy). }
  set (b := a ^ e) in *.
  assert (b ^ q =[r]= 1) as Hb.
  { apply Hnr. unfold b. rewrite <- Z.pow_mul_r, Z.mul_comm, <- He by lia. unfold cong.
    by rewrite H2, Z.mod_1_l by lia. }
  assert (~ (r | b - 1)) as Hb1.
  { intros Hd. assert (r | Z.gcd (b mod n - 1) n) as Hg.
    { apply Z.gcd_greatest; [|done]. apply (proj1 (cong_divide r _ ltac:(lia))).
      apply (proj1 (cong_sub_0 r _ _)). rewrite <- (proj2 (cong_sub_0 r b 1)).
      - apply Hnr, cong_mod.
      - by apply cong_divide; [lia|]. }
    rewrite H3 in Hg. apply Z.divide_pos_le in Hg; lia. }
  assert (~ (r | b)) as Hrb.
  { intros Hd. apply (proj2 (cong_divide r b ltac:(lia))) in Hd.
    apply (cong_pow r _ _ q ltac:(lia)) in Hd. rewrite Hb, Z.pow_0_l in Hd by lia.
    apply cong_small in Hd; lia. }
  destruct (Z.eq_dec ((r - 1) mod q) 0) as [Hz|Hz]; [by apply Z.mod_divide; [lia|]|].
  exfalso. apply Hb1, (proj1 (cong_divide r (b - 1) ltac:(lia))), (proj1 (cong_sub_0 r b 1)).
  assert (Z.coprime q (r - 1)) as Hc.
  { apply Z.coprime_prime_l; [done|]. intros Hd. apply Hz. by apply Z.mod_divide; [lia|]. }
  set (k := Z.invmod q (r - 1)). pose proof (fermat r b Hr Hrb) as Hf.
  destruct (Z.eq_dec r 2) as [E|Hr3]; 
    [rewrite E in Hf |- *; change (2 - 1) with 1 in Hf; by rewrite Z.pow_1_r in Hf|].
  assert (0 <= k) as Hk by (apply Z.mod_pos_bound; lia).
  pose proof (Z.invmod_coprime q (r - 1) ltac:(lia) Hc) as Hkq. fold k in Hkq.
  set (m := (k * q) / (r - 1)). assert (q * k = (r - 1) * m + 1 /\ 0 <= m) as [Hm Hm0].
  { split; [|apply Z.div_pos; [by apply Z.mul_nonneg_nonneg; lia|lia]].
    pose proof (Z.div_mod (k * q) (r - 1) ltac:(lia)) as E. rewrite Hkq in E. fold m in E. lia. }
  transitivity (b ^ (q * k)).
  - rewrite Hm, Z.pow_add_r, Z.pow_1_r, Z.pow_mul_r by nia.
    transitivity (1 ^ m * b); [by rewrite Z.pow_1_l, Z.mul_1_l|]. apply cong_mul; [|done].
    symmetry. by apply cong_pow.
  - rewrite Z.pow_mul_r by lia. transitivity (1 ^ k); [by apply cong_pow|by rewrite Z.pow_1_l].
Qed.

Lemma prime_product_divides qs m :
  Forall Z.prime qs -> NoDup qs -> Forall (fun q => (q | m)) qs -> (prodZ qs | m).
Proof.
  induction qs as [|q qs IH]; intros Hp Hn Hd; cbn [prodZ]; [apply Z.divide_1_l|].
  inversion Hp as [|? ? Hq Hps]; subst. apply list.NoDup_cons in Hn as [Hnq Hns].
  inversion Hd as [|? ? Hqm Hds]; subst. destruct (IH Hps Hns Hds) as [k ->].
  apply Z.divide_prime_mul in Hqm as [Hk|Hk]; [|exfalso|done].
  - destruct Hk as [j ->]. exists j. lia.
  - clear -Hk Hps Hnq Hq. induction qs as [|x qs IH]; cbn [prodZ] in Hk.
    + apply Z.divide_pos_le in Hk; [|lia]. by pose proof (Z.prime_ge_2 q Hq); lia.
    + inversion Hps as [|? ? Hx Hps']; subst. apply not_elem_of_cons in Hnq as [Hqx Hnq].
      apply Z.divide_prime_mul in Hk as [Hk|Hk]; [| |done]; [|by apply IH].
      by apply Z.divide_prime_prime in Hk.
Qed.

(** Pocklington's criterion: distinct primes that divide [n - 1], with a witness each, whose
    product exceeds the square root of [n]. *)
Definition pock_check (n : Z) (cert : list (Z * Z)) : bool :=
  (2 <=? n) && forallb (pock_line n) cert && bool_decide (NoDup (map fst cert)) &&
  (n <? prodZ (map fst cert) * prodZ (map fst cert)).

Lemma pocklington n cert : pock_check n cert = true -> Forall Z.prime (map fst cert) -> Z.prime n.
Proof.
  unfold pock_check. rewrite !andb_true_iff, Z.leb_le, Z.ltb_lt, bool_decide_eq_true, forallb_forall.
  intros [[[Hn Hl] Hd] Hs] Hp. apply prime_from_divisors; [lia|]. intros r Hr Hrn.
  assert (prodZ (map fst cert) | r - 1) as Hdiv.
  { apply prime_product_divides; [done|done|]. apply Stdlib.Lists.List.Forall_forall. intros q Hq.
    apply in_map_iff in Hq as ([q' a] & <- & Hin). apply (pock_line_spec n q' a r); [done| |by apply Hl|done|done].
    rewrite Stdlib.Lists.List.Forall_forall in Hp. apply Hp, in_map_iff. by exists (q', a). }
  pose proof (Z.prime_ge_2 r Hr). apply Z.divide_pos_le in Hdiv; [|lia].
  assert (0 <= prodZ (map fst cert)); [|nia].
  clear -Hp. induction (map fst cert) as [|x l IH]; cbn [prodZ]; [lia|].
  inversion Hp as [|? ? Hx Hps]; subst. specialize (IH Hps). pose proof (Z.prime_ge_2 x Hx). nia.
Qed.

(** Trial division, for small numbers. *)
Definition trial_check (n : Z) : bool :=
  (2 <=? n) && forallb (fun d => negb (n mod d =? 0)) (seqZ 2 (Z.sqrt n - 1)).

Lemma trial_division n : trial_check n = true -> Z.prime n.
Proof.
  unfold trial_check. rewrite andb_true_iff, Z.leb_le, forallb_forall. intros [Hn Hd].
  apply prime_from_divisors; [lia|]. intros r Hr Hrn. pose proof (Z.prime_ge_2 r Hr) as Hr2.
  destruct (Z.lt_ge_cases n (r * r)) as [|Hle]; [done|]. exfalso.
  apply Z.sqrt_le_square in Hle; [|lia|lia].
  specialize (Hd r). rewrite negb_true_iff, Z.eqb_neq in Hd. apply Hd.
  - apply list_elem_of_In, elem_of_seqZ. lia.
  - by apply Z.mod_divide; [lia|].
Qed.

(** A chain of certificates: the factors used are below 3000 or come earlier in the chain. *)
Definition known_prime (known : list Z) (l : Z * Z) : bool :=
  if existsb (Z.eqb (fst l)) known then true else if fst l <? 3000 then trial_check (fst l) else false.

Fixpoint chain_check (known : list Z) (l : list (Z * list (Z * Z))) : bool :=
  match l with
  | [] => true
  | (n, cert) :: l => forallb (known_prime known) cert && pock_check n cert && chain_check (n :: known) l
  end.

Lemma chain_prime_known known l : Forall Z.prime known -> chain_check known l = true -> Forall Z.prime (map fst l).
Proof.
  revert known. induction l as [|[n cert] l IH]; intros known Hk; cbn [chain_check map fst]; [constructor|].
  rewrite !andb_true_iff, forallb_forall. intros [[Hc Hp] Hl].
  assert (Z.prime n) as Hn; [|constructor; [exact Hn|by apply (IH (n :: known)); [constructor|]]].
  apply (pocklington n cert Hp), Stdlib.Lists.List.Forall_forall. intros q Hq.
  apply in_map_iff in Hq as (l' & <- & Hin). specialize (Hc l' Hin). unfold known_prime in Hc.
  destruct (existsb _ known) eqn:H.
  - apply existsb_exists in H as (q & Hq & E). apply Z.eqb_eq in E as ->.
    by apply (proj1 (Stdlib.Lists.List.Forall_forall _ known) Hk).
  - destruct (fst l' <? 3000); [by apply trial_division|done].
Qed.

Lemma chain_prime l n : chain_check [] l = true -> In n (map fst l) -> Z.prime n.
Proof.
  intros H Hn. pose proof (chain_prime_known [] l (List.Forall_nil _) H) as Hl.
  by apply (proj1 (Stdlib.Lists.List.Forall_forall _ _) Hl).
Qed.
