(* ===== verification/Primes.v ===== *)
(** * Primes

    The primes of the elliptic curves, by chains of certificates: the factors that
    one certificate uses are small or certified before it. *)

From S2P Require Import Prelude ModArith.
From Stdlib Require Import Zdivisibility.

(** The field and the order of secp256k1. *)
Abbreviation fp := 115792089237316195423570985008687907853269984665640564039457584007908834671663.
Abbreviation fn := 115792089237316195423570985008687907852837564279074904382605163141518161494337.
(** The base field of bn254. *)
Abbreviation bnP := 21888242871839275222246405745257275088696311157297823662689037894645226208583.
(** The base field of bls12-381. *)
Abbreviation bls_prime :=
  4002409555221667393417789825735904156556882819939007885332058136124031650490837864442687629129015664037894272559787.

Lemma prime_fp : Z.prime fp.
Proof.
  apply (chain_prime 
      [(107590001, [(53, 2); (29, 2); (7, 2)]);
       (20113, [(419, 2)]);
       (1206781, [(20113, 2)]);
       (7240687, [(1206781, 2)]);
       (96557, [(239, 2); (101, 2)]);
       (255515944373312847190720520512484175977, [(107590001, 2); (7240687, 2); (96557, 2)]);
       (205115282021455665897114700593932402728804164701536103180137503955397371, [(255515944373312847190720520512484175977, 2)]);
       (115792089237316195423570985008687907853269984665640564039457584007908834671663, [(205115282021455665897114700593932402728804164701536103180137503955397371, 2)])]).
  - vm_compute. reflexivity.
  - cbn [map fst In]. do 7 right. left. reflexivity.
Qed.

Lemma prime_fn : Z.prime fn.
Proof.
  apply (chain_prime 
      [(1627771, [(1871, 2)]);
       (297159362677, [(1627771, 2)]);
       (28181, [(1409, 2)]);
       (545358713, [(28181, 2)]);
       (29047611873442575647497758179, [(297159362677, 2); (545358713, 2)]);
       (341948486974166000522343609283189, [(29047611873442575647497758179, 2)]);
       (9349, [(41, 2); (19, 2)]);
       (44706919, [(9349, 2)]);
       (120233, [(113, 2); (19, 2)]);
       (174723607534414371449, [(44706919, 2); (120233, 2)]);
       (115792089237316195423570985008687907852837564279074904382605163141518161494337, [(341948486974166000522343609283189, 2); (174723607534414371449, 2)])]).
  - vm_compute. reflexivity.
  - cbn [map fst In]. do 10 right. left. reflexivity.
Qed.

Lemma prime_bnP : Z.prime bnP.
Proof.
  apply (chain_prime 
      [(3557, [(127, 2)]);
       (1263766531, [(3557, 2); (911, 2)]);
       (35385462869, [(1263766531, 2)]);
       (2480874801745591, [(35385462869, 2)]);
       (13327, [(2221, 2)]);
       (173171039, [(13327, 2)]);
       (13427688667394608761327070753331941386769, [(2480874801745591, 2); (173171039, 2)]);
       (21888242871839275222246405745257275088696311157297823662689037894645226208583, [(13427688667394608761327070753331941386769, 2)])]).
  - vm_compute. reflexivity.
  - cbn [map fst In]. do 7 right. left. reflexivity.
Qed.

Lemma prime_bls : Z.prime bls_prime.
Proof.
  apply (chain_prime 
      [(421987, [(1327, 2)]);
       (13090036741, [(421987, 2)]);
       (755057, [(1151, 2)]);
       (3819663927398918131021, [(13090036741, 2); (755057, 2)]);
       (1125266252156850182658904441386709967, [(3819663927398918131021, 2)]);
       (15778400344354997994418419698270088123916926905054652752758194827714659, [(1125266252156850182658904441386709967, 2)]);
       (4002409555221667393417789825735904156556882819939007885332058136124031650490837864442687629129015664037894272559787, [(15778400344354997994418419698270088123916926905054652752758194827714659, 2)])]).
  - vm_compute. reflexivity.
  - cbn [map fst In]. do 6 right. left. reflexivity.
Qed.
