(* ===== verification/AffineCurve.v ===== *)
(** * The group law of a short Weierstrass curve

    The affine chord-and-tangent law of [y^2 = x^3 + b] over the integers modulo a
    prime [p], the specification of the curves of [Secp256k1] and [Bn254]. *)

From S2P Require Import Prelude ModArith.
From Stdlib Require Import Zdivisibility Zcong.

(** ** The affine law *)

(** [None] is the point at infinity. *)
Abbreviation apoint := (option (Z * Z)).

Section law.
  Context (p b : Z).

Definition inv_p (x : Z) : Z := Z.invmod x p.

(** The third point of the line of slope [m] through [(x1, y1)] and a point of abscissa [x2], reflected. *)
Definition chord (m x1 y1 x2 : Z) : Z * Z :=
  let x3 := (m * m - x1 - x2) mod p in (x3, (m * (x1 - x3) - y1) mod p).

Definition ec_double (P : apoint) : apoint :=
  match P with
  | None => None
  | Some (x, y) => if y =? 0 then None else Some (chord (3 * x * x * inv_p (2 * y)) x y x)
  end.

Definition ec_add (P Q : apoint) : apoint :=
  match P, Q with
  | None, _ => Q
  | _, None => P
  | Some (x1, y1), Some (x2, y2) =>
      if x1 =? x2 then if y1 =? y2 then ec_double P else None
      else Some (chord ((y2 - y1) * inv_p (x2 - x1)) x1 y1 x2)
  end.

Fixpoint ec_mul_pos (e : positive) (P : apoint) : apoint :=
  match e with
  | xH => P
  | xO e => ec_double (ec_mul_pos e P)
  | xI e => ec_add (ec_double (ec_mul_pos e P)) P
  end.

Definition ec_mul (k : Z) (P : apoint) : apoint := match k with Zpos e => ec_mul_pos e P | _ => None end.

Definition on_curve (P : apoint) : Prop :=
  match P with
  | None => True
  | Some (x, y) => 0 <= x < p /\ 0 <= y < p /\ y * y =[p]= x * x * x + b
  end.

(** ** The law stays on the curve *)

Context (p_prime : Z.prime p) (p_odd : 2 < p).

Lemma inv_p_spec x : ~ (p | x) -> inv_p x * x =[p]= 1.
Proof.
  intros Hx. unfold inv_p, cong. rewrite (Z.mod_1_l p) by lia. apply Z.invmod_prime; [exact p_prime|]. intros H. apply Hx.
  apply Z.mod_divide; [lia|exact H].
Qed.

Lemma not_divide_small x : 0 < Z.abs x < p -> ~ (p | x).
Proof.
  intros Hx Hd. apply Z.divide_abs_r, Z.divide_pos_le in Hd; lia.
Qed.

Lemma not_divide_mul x y : ~ (p | x) -> ~ (p | y) -> ~ (p | x * y).
Proof. intros Ha Hb H. apply (Z.divide_prime_mul _ _ _ p_prime) in H. tauto. Qed.

Lemma not_divide_2 : ~ (p | 2).
Proof. apply not_divide_small. lia. Qed.

Lemma not_divide_double y : 0 < y < p -> ~ (p | 2 * y).
Proof.
  intros Hy Hd. apply (Z.divide_prime_mul _ _ _ p_prime) in Hd as [Hd|Hd]; apply Z.divide_pos_le in Hd; lia.
Qed.

Lemma chord_range m x1 y1 x2 : let '(x3, y3) := chord m x1 y1 x2 in 0 <= x3 < p /\ 0 <= y3 < p.
Proof. unfold chord. split; apply Z.mod_pos_bound; lia. Qed.

(** The same point and the same inverse, from congruences. *)
Lemma chord_eq m m' x1 y1 x2 x3 y3 :
  0 <= x3 < p -> 0 <= y3 < p -> m =[p]= m' -> x3 =[p]= m * m - x1 - x2 -> y3 =[p]= m * (x1 - x3) - y1 ->
  chord m' x1 y1 x2 = (x3, y3).
Proof.
  intros H3 H4 Hm Hx Hy. unfold chord.
  assert ((m' * m' - x1 - x2) mod p = x3) as ->.
  { apply (cong_small p); [apply Z.mod_pos_bound; lia|exact H3|]. by rewrite cong_mod, Hx, Hm. }
  f_equal. apply (cong_small p); [apply Z.mod_pos_bound; lia|exact H4|]. by rewrite cong_mod, Hy, Hm.
Qed.

Lemma inv_p_eq x x' i : x =[p]= x' -> 0 <= i < p -> i * x =[p]= 1 -> i = inv_p x'.
Proof.
  intros Hx Hi E. apply (cong_small p); [exact Hi|unfold inv_p, Z.invmod; apply Z.mod_pos_bound; lia|].
  apply (cong_cancel p _ _ x' i); [by rewrite <- Hx, Z.mul_comm|]. rewrite (Z.mul_comm x' i), (Z.mul_comm x' (inv_p x')).
  rewrite inv_p_spec; [by rewrite <- Hx|]. rewrite <- cong_divide by lia. intros H0.
  rewrite Hx, H0, Z.mul_0_r in E. apply cong_small in E; lia.
Qed.

(** A line meets the curve in a third point, when it is tangent or a chord. *)
Lemma tangent_on_curve x y i x3 y3 :
  y * y =[p]= x * x * x + b -> i * (2 * y) =[p]= 1 ->
  x3 =[p]= (3 * x * x * i) * (3 * x * x * i) - x - x -> y3 =[p]= (3 * x * x * i) * (x - x3) - y ->
  y3 * y3 =[p]= x3 * x3 * x3 + b.
Proof.
  intros Hc Hi Hx Hy. set (m := 3 * x * x * i) in *.
  transitivity ((m * (x - x3) - y) * (m * (x - x3) - y)); [by apply cong_mul|].
  assert (x3 * x3 * x3 + b - (m * (x - x3) - y) * (m * (x - x3) - y) =
    (x3 - x) * (x3 - x) * (x3 - (m * m - x - x)) - (y * y - (x * x * x + b)) + (3 * x * x - 2 * m * y) * (x3 - x)) as E by ring.
  apply cong_sub_0. replace (_ - (x3 * x3 * x3 + b)) with
    (- ((x3 - x) * (x3 - x) * (x3 - (m * m - x - x)) - (y * y - (x * x * x + b)) + (3 * x * x - 2 * m * y) * (x3 - x))) by lia.
  assert (3 * x * x - 2 * m * y =[p]= 0) as Hm.
  { apply (cong_comb1 p _ _ (- (3 * x * x)) (i * (2 * y)) 1); [done|]. unfold m. ring. }
  rewrite Hm, Hc, Hx. apply cong_eq. ring.
Qed.

Lemma chord_on_curve x1 y1 x2 y2 i x3 y3 :
  y1 * y1 =[p]= x1 * x1 * x1 + b -> y2 * y2 =[p]= x2 * x2 * x2 + b -> i * (x2 - x1) =[p]= 1 ->
  x3 =[p]= ((y2 - y1) * i) * ((y2 - y1) * i) - x1 - x2 -> y3 =[p]= ((y2 - y1) * i) * (x1 - x3) - y1 ->
  y3 * y3 =[p]= x3 * x3 * x3 + b.
Proof.
  intros Hc1 Hc2 Hi Hx Hy. set (m := (y2 - y1) * i) in *.
  transitivity ((m * (x1 - x3) - y1) * (m * (x1 - x3) - y1)); [by apply cong_mul|].
  (* The cubic minus the line squared is a linear polynomial of slope [a], zero at [x1] and [x2]. *)
  set (X := m * m - x1 - x2) in *. set (a := - 2 * m * (y1 - m * x1) - (x1 * x2 + X * (x1 + x2))).
  assert (m * (x2 - x1) + y1 =[p]= y2) as Hm.
  { apply (cong_comb1 p _ _ (y2 - y1) (i * (x2 - x1)) 1); [done|]. unfold m. ring. }
  assert (a =[p]= 0) as Ha.
  { apply (cong_cancel p a 0 (x2 - x1) i); [by rewrite Z.mul_comm|]. rewrite Z.mul_0_r.
    assert ((x2 - x1) * a = (x2 * x2 * x2 + b - (m * (x2 - x1) + y1) * (m * (x2 - x1) + y1)) + (y1 * y1 - (x1 * x1 * x1 + b)))
      as -> by (unfold a, X; ring).
    rewrite Hm, Hc1, Hc2. apply cong_eq. ring. }
  assert ((m * (x1 - X) - y1) * (m * (x1 - X) - y1) - (X * X * X + b) =
    y1 * y1 - (x1 * x1 * x1 + b) - a * (X - x1)) as E by (unfold a, X; ring).
  rewrite Hx. apply cong_sub_0. rewrite E, Ha, Hc1. apply cong_eq. ring.
Qed.

Lemma ec_double_curve P : on_curve P -> on_curve (ec_double P).
Proof.
  destruct P as [[x y]|]; [|done]. cbn [on_curve ec_double]. intros (Hx & Hy & Hc).
  destruct (Z.eqb_spec y 0) as [|Hn]; [done|]. pose proof (chord_range (3 * x * x * inv_p (2 * y)) x y x) as Hr.
  unfold chord in *. destruct Hr as [Hr1 Hr2]. split; [done|]. split; [done|].
  apply (tangent_on_curve x y (inv_p (2 * y))); [done|apply inv_p_spec, not_divide_double; lia|apply cong_mod|].
  rewrite cong_mod. reflexivity.
Qed.

Lemma ec_add_curve P Q : on_curve P -> on_curve Q -> on_curve (ec_add P Q).
Proof.
  destruct P as [[x1 y1]|]; [|done]. destruct Q as [[x2 y2]|]; [|done]. intros HP HQ. cbn [ec_add].
  destruct (Z.eqb_spec x1 x2) as [->|Hx]; [destruct (y1 =? y2); [by apply ec_double_curve|done]|].
  destruct HP as (Hx1 & Hy1 & Hc1), HQ as (Hx2 & Hy2 & Hc2).
  pose proof (chord_range ((y2 - y1) * inv_p (x2 - x1)) x1 y1 x2) as Hr.
  unfold chord in *. destruct Hr as [Hr1 Hr2]. split; [done|]. split; [done|].
  apply (chord_on_curve x1 y1 x2 y2 (inv_p (x2 - x1))); [done|done|apply inv_p_spec, not_divide_small; lia|apply cong_mod|].
  rewrite cong_mod. reflexivity.
Qed.

Lemma ec_mul_curve k P : on_curve P -> on_curve (ec_mul k P).
Proof.
  intros HP. destruct k as [|e|e]; [done| |done]. cbn [ec_mul].
  induction e; cbn [ec_mul_pos]; auto using ec_add_curve, ec_double_curve.
Qed.

(** Multiplication, one bit at a time from the most significant one. *)
Lemma ec_mul_bit k d P : 0 <= k -> 0 <= d < 2 ->
  ec_mul (2 * k + d) P = if d =? 1 then ec_add (ec_double (ec_mul k P)) P else ec_double (ec_mul k P).
Proof.
  intros Hk Hd. assert (d = 0 \/ d = 1) as [->| ->] by lia; destruct k as [|k|k]; try lia; done.
Qed.

(** ** Multiplication from the low bit

    The sum of the doubles of [P] that the bits of [k] select. *)
Fixpoint ec_sum_bits (k : positive) (R P : apoint) : apoint :=
  match k with
  | xH => ec_add R P
  | xO k => ec_sum_bits k R (ec_double P)
  | xI k => ec_sum_bits k (ec_add R P) (ec_double P)
  end.

Definition ec_scale (k : Z) (P : apoint) : apoint := match k with Zpos k => ec_sum_bits k None P | _ => None end.

Lemma ec_sum_bits_curve k R P : on_curve R -> on_curve P -> on_curve (ec_sum_bits k R P).
Proof.
  revert R P. induction k as [k IH|k IH|]; intros R P HR HP; cbn [ec_sum_bits]; auto using ec_add_curve, ec_double_curve.
Qed.

Lemma ec_scale_curve k P : on_curve P -> on_curve (ec_scale k P).
Proof. intros HP. destruct k as [|k|k]; [exact I|by apply ec_sum_bits_curve|exact I]. Qed.
End law.
