(* ===== verification/Keccak.v ===== *)
(** * Keccak-256: [pkg/c2crypto/keccak.go]

    [KeccakF1600] is the unrolled permutation of the source, two rounds per
    iteration with every lane in a local variable; it is shown equal to the
    permutation written with the theta, rho, pi, chi and iota steps of the
    standard. The sponge ([keccakSponge]) absorbs, pads and squeezes as the code
    does. *)

From S2P Require Import Prelude.

(** ** The permutation as the code runs it *)

Definition keccakRC : list Z :=
  [0x0000000000000001; 0x0000000000008082; 0x800000000000808A;
   0x8000000080008000; 0x000000000000808B; 0x0000000080000001;
   0x8000000080008081; 0x8000000000008009; 0x000000000000008A;
   0x0000000000000088; 0x0000000080008009; 0x000000008000000A;
   0x000000008000808B; 0x800000000000008B; 0x8000000000008089;
   0x8000000000008003; 0x8000000000008002; 0x8000000000000080;
   0x000000000000800A; 0x800000008000000A; 0x8000000080008081;
   0x8000000000008080; 0x0000000080000001; 0x8000000080008008].

(** The body of [for round := 0; round < 24; round += 2]. *)
Definition keccak_two_rounds (rc0 rc1 : Z) (st : list Z) : list Z :=
  match st with
  | [aba; abe; abi; abo; abu; aga; age; agi; ago; agu; aka; ake; aki; ako; aku; ama; ame; ami; amo; amu; asa; ase; asi; aso; asu] =>
      let bca := Z.lxor (Z.lxor (Z.lxor (Z.lxor aba aga) aka) ama) asa in
      let bce := Z.lxor (Z.lxor (Z.lxor (Z.lxor abe age) ake) ame) ase in
      let bci := Z.lxor (Z.lxor (Z.lxor (Z.lxor abi agi) aki) ami) asi in
      let bco := Z.lxor (Z.lxor (Z.lxor (Z.lxor abo ago) ako) amo) aso in
      let bcu := Z.lxor (Z.lxor (Z.lxor (Z.lxor abu agu) aku) amu) asu in
      let da := Z.lxor bcu (RotateLeft64 bce 1) in
      let de := Z.lxor bca (RotateLeft64 bci 1) in
      let di := Z.lxor bce (RotateLeft64 bco 1) in
      let do_ := Z.lxor bci (RotateLeft64 bcu 1) in
      let du := Z.lxor bco (RotateLeft64 bca 1) in
      let aba := Z.lxor aba da in
      let bca := aba in
      let age := Z.lxor age de in
      let bce := RotateLeft64 age 44 in
      let aki := Z.lxor aki di in
      let bci := RotateLeft64 aki 43 in
      let amo := Z.lxor amo do_ in
      let bco := RotateLeft64 amo 21 in
      let asu := Z.lxor asu du in
      let bcu := RotateLeft64 asu 14 in
      let eba := Z.lxor (Z.lxor bca (Z.land (not64 bce) bci)) rc0 in
      let ebe := Z.lxor bce (Z.land (not64 bci) bco) in
      let ebi := Z.lxor bci (Z.land (not64 bco) bcu) in
      let ebo := Z.lxor bco (Z.land (not64 bcu) bca) in
      let ebu := Z.lxor bcu (Z.land (not64 bca) bce) in
      let abo := Z.lxor abo do_ in
      let bca := RotateLeft64 abo 28 in
      let agu := Z.lxor agu du in
      let bce := RotateLeft64 agu 20 in
      let aka := Z.lxor aka da in
      let bci := RotateLeft64 aka 3 in
      let ame := Z.lxor ame de in
      let bco := RotateLeft64 ame 45 in
      let asi := Z.lxor asi di in
      let bcu := RotateLeft64 asi 61 in
      let ega := Z.lxor bca (Z.land (not64 bce) bci) in
      let ege := Z.lxor bce (Z.land (not64 bci) bco) in
      let egi := Z.lxor bci (Z.land (not64 bco) bcu) in
      let ego := Z.lxor bco (Z.land (not64 bcu) bca) in
      let egu := Z.lxor bcu (Z.land (not64 bca) bce) in
      let abe := Z.lxor abe de in
      let bca := RotateLeft64 abe 1 in
      let agi := Z.lxor agi di in
      let bce := RotateLeft64 agi 6 in
      let ako := Z.lxor ako do_ in
      let bci := RotateLeft64 ako 25 in
      let amu := Z.lxor amu du in
      let bco := RotateLeft64 amu 8 in
      let asa := Z.lxor asa da in
      let bcu := RotateLeft64 asa 18 in
      let eka := Z.lxor bca (Z.land (not64 bce) bci) in
      let eke := Z.lxor bce (Z.land (not64 bci) bco) in
      let eki := Z.lxor bci (Z.land (not64 bco) bcu) in
      let eko := Z.lxor bco (Z.land (not64 bcu) bca) in
      let eku := Z.lxor bcu (Z.land (not64 bca) bce) in
      let abu := Z.lxor abu du in
      let bca := RotateLeft64 abu 27 in
      let aga := Z.lxor aga da in
      let bce := RotateLeft64 aga 36 in
      let ake := Z.lxor ake de in
      let bci := RotateLeft64 ake 10 in
      let ami := Z.lxor ami di in
      let bco := RotateLeft64 ami 15 in
      let aso := Z.lxor aso do_ in
      let bcu := RotateLeft64 aso 56 in
      let ema := Z.lxor bca (Z.land (not64 bce) bci) in
      let eme := Z.lxor bce (Z.land (not64 bci) bco) in
      let emi := Z.lxor bci (Z.land (not64 bco) bcu) in
      let emo := Z.lxor bco (Z.land (not64 bcu) bca) in
      let emu := Z.lxor bcu (Z.land (not64 bca) bce) in
      let abi := Z.lxor abi di in
      let bca := RotateLeft64 abi 62 in
      let ago := Z.lxor ago do_ in
      let bce := RotateLeft64 ago 55 in
      let aku := Z.lxor aku du in
      let bci := RotateLeft64 aku 39 in
      let ama := Z.lxor ama da in
      let bco := RotateLeft64 ama 41 in
      let ase := Z.lxor ase de in
      let bcu := RotateLeft64 ase 2 in
      let esa := Z.lxor bca (Z.land (not64 bce) bci) in
      let ese := Z.lxor bce (Z.land (not64 bci) bco) in
      let esi := Z.lxor bci (Z.land (not64 bco) bcu) in
      let eso := Z.lxor bco (Z.land (not64 bcu) bca) in
      let esu := Z.lxor bcu (Z.land (not64 bca) bce) in
      let bca := Z.lxor (Z.lxor (Z.lxor (Z.lxor eba ega) eka) ema) esa in
      let bce := Z.lxor (Z.lxor (Z.lxor (Z.lxor ebe ege) eke) eme) ese in
      let bci := Z.lxor (Z.lxor (Z.lxor (Z.lxor ebi egi) eki) emi) esi in
      let bco := Z.lxor (Z.lxor (Z.lxor (Z.lxor ebo ego) eko) emo) eso in
      let bcu := Z.lxor (Z.lxor (Z.lxor (Z.lxor ebu egu) eku) emu) esu in
      let da := Z.lxor bcu (RotateLeft64 bce 1) in
      let de := Z.lxor bca (RotateLeft64 bci 1) in
      let di := Z.lxor bce (RotateLeft64 bco 1) in
      let do_ := Z.lxor bci (RotateLeft64 bcu 1) in
      let du := Z.lxor bco (RotateLeft64 bca 1) in
      let eba := Z.lxor eba da in
      let bca := eba in
      let ege := Z.lxor ege de in
      let bce := RotateLeft64 ege 44 in
      let eki := Z.lxor eki di in
      let bci := RotateLeft64 eki 43 in
      let emo := Z.lxor emo do_ in
      let bco := RotateLeft64 emo 21 in
      let esu := Z.lxor esu du in
      let bcu := RotateLeft64 esu 14 in
      let aba := Z.lxor (Z.lxor bca (Z.land (not64 bce) bci)) rc1 in
      let abe := Z.lxor bce (Z.land (not64 bci) bco) in
      let abi := Z.lxor bci (Z.land (not64 bco) bcu) in
      let abo := Z.lxor bco (Z.land (not64 bcu) bca) in
      let abu := Z.lxor bcu (Z.land (not64 bca) bce) in
      let ebo := Z.lxor ebo do_ in
      let bca := RotateLeft64 ebo 28 in
      let egu := Z.lxor egu du in
      let bce := RotateLeft64 egu 20 in
      let eka := Z.lxor eka da in
      let bci := RotateLeft64 eka 3 in
      let eme := Z.lxor eme de in
      let bco := RotateLeft64 eme 45 in
      let esi := Z.lxor esi di in
      let bcu := RotateLeft64 esi 61 in
      let aga := Z.lxor bca (Z.land (not64 bce) bci) in
      let age := Z.lxor bce (Z.land (not64 bci) bco) in
      let agi := Z.lxor bci (Z.land (not64 bco) bcu) in
      let ago := Z.lxor bco (Z.land (not64 bcu) bca) in
      let agu := Z.lxor bcu (Z.land (not64 bca) bce) in
      let ebe := Z.lxor ebe de in
      let bca := RotateLeft64 ebe 1 in
      let egi := Z.lxor egi di in
      let bce := RotateLeft64 egi 6 in
      let eko := Z.lxor eko do_ in
      let bci := RotateLeft64 eko 25 in
      let emu := Z.lxor emu du in
      let bco := RotateLeft64 emu 8 in
      let esa := Z.lxor esa da in
      let bcu := RotateLeft64 esa 18 in
      let aka := Z.lxor bca (Z.land (not64 bce) bci) in
      let ake := Z.lxor bce (Z.land (not64 bci) bco) in
      let aki := Z.lxor bci (Z.land (not64 bco) bcu) in
      let ako := Z.lxor bco (Z.land (not64 bcu) bca) in
      let aku := Z.lxor bcu (Z.land (not64 bca) bce) in
      let ebu := Z.lxor ebu du in
      let bca := RotateLeft64 ebu 27 in
      let ega := Z.lxor ega da in
      let bce := RotateLeft64 ega 36 in
      let eke := Z.lxor eke de in
      let bci := RotateLeft64 eke 10 in
      let emi := Z.lxor emi di in
      let bco := RotateLeft64 emi 15 in
      let eso := Z.lxor eso do_ in
      let bcu := RotateLeft64 eso 56 in
      let ama := Z.lxor bca (Z.land (not64 bce) bci) in
      let ame := Z.lxor bce (Z.land (not64 bci) bco) in
      let ami := Z.lxor bci (Z.land (not64 bco) bcu) in
      let amo := Z.lxor bco (Z.land (not64 bcu) bca) in
      let amu := Z.lxor bcu (Z.land (not64 bca) bce) in
      let ebi := Z.lxor ebi di in
      let bca := RotateLeft64 ebi 62 in
      let ego := Z.lxor ego do_ in
      let bce := RotateLeft64 ego 55 in
      let eku := Z.lxor eku du in
      let bci := RotateLeft64 eku 39 in
      let ema := Z.lxor ema da in
      let bco := RotateLeft64 ema 41 in
      let ese := Z.lxor ese de in
      let bcu := RotateLeft64 ese 2 in
      let asa := Z.lxor bca (Z.land (not64 bce) bci) in
      let ase := Z.lxor bce (Z.land (not64 bci) bco) in
      let asi := Z.lxor bci (Z.land (not64 bco) bcu) in
      let aso := Z.lxor bco (Z.land (not64 bcu) bca) in
      let asu := Z.lxor bcu (Z.land (not64 bca) bce) in
      [aba; abe; abi; abo; abu; aga; age; agi; ago; agu; aka; ake; aki; ako; aku; ama; ame; ami; amo; amu; asa; ase; asi; aso; asu]
  | _ => st
  end.

Definition KeccakF1600 (st : list Z) : list Z :=
  foldl (fun st r => keccak_two_rounds (keccakRC !!! r) (keccakRC !!! S r) st) st
    [0; 2; 4; 6; 8; 10; 12; 14; 16; 18; 20; 22]%nat.

(** ** The sponge *)

(** Little-endian 64-bit word of 8 bytes, as [xorBytes] assembles it. *)
Definition le64 (b : bytes) : Z :=
  Z.lor (Z.lor (Z.lor (Z.lor (Z.lor (Z.lor (Z.lor (b !!! 0%nat) (Z.shiftl (b !!! 1%nat) 8))
    (Z.shiftl (b !!! 2%nat) 16)) (Z.shiftl (b !!! 3%nat) 24)) (Z.shiftl (b !!! 4%nat) 32))
    (Z.shiftl (b !!! 5%nat) 40)) (Z.shiftl (b !!! 6%nat) 48)) (Z.shiftl (b !!! 7%nat) 56).

(** [for j := 0; j < n; j++ { st[i] ^= uint64(in[j]) << (8*j) }] *)
Fixpoint xorBytes_tail (st : list Z) (i : nat) (inp : bytes) (j n : nat) : list Z :=
  match n with
  | O => st
  | S n =>
      xorBytes_tail (<[i := Z.lxor (st !!! i) (shl64 (inp !!! j) (Z.of_nat j * 8))]> st)
        i inp (S j) n
  end.

(** [k] is the number of whole lanes left, [n / 8] at the start. *)
Fixpoint xorBytes_loop (k : nat) (st : list Z) (i : nat) (inp : bytes) (n : nat) : list Z :=
  match k with
  | S k => xorBytes_loop k (<[i := Z.lxor (st !!! i) (le64 inp)]> st) (S i) (drop 8 inp) (n - 8)
  | O => xorBytes_tail st i inp 0 n
  end.

Definition xorBytes (st : list Z) (inp : bytes) (n : nat) : list Z :=
  xorBytes_loop (n / 8)%nat st 0 inp n.

(** [extractBytes]: the first [n] bytes of the state, little-endian lanes. *)
Definition extractBytes (st : list Z) (n : nat) : bytes :=
  map (fun j => shr64 (st !!! (j / 8)%nat) (Z.of_nat (j mod 8)%nat * 8) mod 256) (seq 0 n).

(** The absorbing loop over whole blocks; [k] is the number of blocks. *)
Fixpoint absorb_blocks (k : nat) (st : list Z) (inp : bytes) (rate : nat) : list Z * bytes :=
  match k with
  | O => (st, inp)
  | S k => absorb_blocks k (KeccakF1600 (xorBytes st (take rate inp) rate)) (drop rate inp) rate
  end.

(** The squeezing loop: [k] whole output blocks, then the rest. *)
Fixpoint squeeze_blocks (k : nat) (st : list Z) (rate outLen : nat) : bytes :=
  match k with
  | O => extractBytes st outLen
  | S k => extractBytes st rate ++ squeeze_blocks k (KeccakF1600 st) rate (outLen - rate)
  end.

Definition keccakSponge (inp : bytes) (outLen rate : nat) : bytes :=
  let '(st, rest) := absorb_blocks (length inp / rate)%nat (replicate 25 0) inp rate in
  let inLen := length rest in
  let st := if negb (inLen =? 0)%nat then xorBytes st rest inLen else st in
  let st := <[(inLen / 8)%nat :=
    Z.lxor (st !!! (inLen / 8)%nat) (shl64 1 (Z.land (Z.of_nat inLen) 7 * 8))]> st in
  let st := <[((rate - 1) / 8)%nat :=
    Z.lxor (st !!! ((rate - 1) / 8)%nat) (shl64 0x80 (Z.land (Z.of_nat (rate - 1)) 7 * 8))]> st in
  squeeze_blocks (outLen / rate)%nat (KeccakF1600 st) rate outLen.

Definition Keccak256 (inp : bytes) : bytes := keccakSponge inp 32 136.
Definition Keccak512 (inp : bytes) : bytes := keccakSponge inp 64 72.

(** Known answers: the empty string and [0x80] (the empty trie root). *)
Example keccak256_empty :
  be_val (Keccak256 []) = 0xc5d2460186f7233c927e7db2dcc703c0e500b653ca82273b7bfad8045d85a470.
Proof. vm_compute. reflexivity. Qed.

Example keccak256_0x80 :
  be_val (Keccak256 [0x80]) = 0x56e81f171bcc55a6ff8345e692c0f86e5b48e01b996cadc001622fb5e363b421.
Proof. vm_compute. reflexivity. Qed.

(** ** The reference permutation (FIPS 202, section 3.2) *)

Definition lane (st : list Z) (x y : nat) : Z := st !!! (x mod 5 + 5 * (y mod 5))%nat.

(** The state array of a function of the coordinates, lane [x + 5 y]. *)
Definition lanes (f : nat -> nat -> Z) : list Z :=
  map (fun i => f (i mod 5)%nat (i / 5)%nat) (seq 0 25).

Definition theta (st : list Z) : list Z :=
  let C x := Z.lxor (Z.lxor (Z.lxor (Z.lxor (lane st x 0) (lane st x 1)) (lane st x 2))
               (lane st x 3)) (lane st x 4) in
  let D x := Z.lxor (C (x + 4)%nat) (RotateLeft64 (C (x + 1)%nat) 1) in
  lanes (fun x y => Z.lxor (lane st x y) (D x)).

(** Rotation offsets, indexed by [x + 5 y]. *)
Definition rho_offsets : list Z :=
  [0; 1; 62; 28; 27; 36; 44; 6; 55; 20; 3; 10; 43; 25; 39; 41; 45; 15; 21; 8; 18; 2; 61; 56; 14].

Definition rotl (x k : Z) : Z := if k =? 0 then x else RotateLeft64 x k.

Definition rho (st : list Z) : list Z := lanes (fun x y => rotl (lane st x y) (lane rho_offsets x y)).

(** [B[y, 2x+3y] = A[x, y]], written as a read: [B[x, y] = A[x + 3y, x]]. *)
Definition pi (st : list Z) : list Z := lanes (fun x y => lane st (x + 3 * y) x).

Definition chi (st : list Z) : list Z :=
  lanes (fun x y => Z.lxor (lane st x y) (Z.land (not64 (lane st (x + 1) y)) (lane st (x + 2) y))).

Definition iota (rc : Z) (st : list Z) : list Z := <[0%nat := Z.lxor (st !!! 0%nat) rc]> st.

Definition keccak_round (rc : Z) (st : list Z) : list Z := iota rc (chi (pi (rho (theta st)))).

Definition keccak_f (st : list Z) : list Z := foldl (fun st rc => keccak_round rc st) st keccakRC.

(** Destruct a list of known length. *)
Ltac destruct_list l H :=
  repeat (destruct l as [|? l]; [discriminate H|]); destruct l; [|discriminate H].

Lemma keccak_two_rounds_spec rc0 rc1 st :
  length st = 25%nat ->
  keccak_two_rounds rc0 rc1 st = keccak_round rc1 (keccak_round rc0 st).
Proof.
  intros H. destruct_list st H.
  cbv -[Z.lxor Z.land not64 RotateLeft64]. reflexivity.
Qed.

(** *** The permutation is the reference one *)

Lemma length_keccak_round rc st : length (keccak_round rc st) = 25%nat.
Proof. unfold keccak_round, iota. rewrite length_insert. reflexivity. Qed.

(** Two source rounds at a time against one reference round at a time. *)
Lemma keccak_pairs_spec (rs : list nat) st :
  length st = 25%nat ->
  foldl (fun st r => keccak_two_rounds (keccakRC !!! r) (keccakRC !!! S r) st) st rs =
  foldl (fun st rc => keccak_round rc st) st
    (concat (map (fun r => [keccakRC !!! r; keccakRC !!! S r]) rs)).
Proof.
  revert st. induction rs as [|r rs IH]; intros st Hst; [done|]. cbn [foldl map concat app].
  rewrite keccak_two_rounds_spec by done. apply IH. apply length_keccak_round.
Qed.

Lemma KeccakF1600_spec st : length st = 25%nat -> KeccakF1600 st = keccak_f st.
Proof. intros H. unfold KeccakF1600. rewrite keccak_pairs_spec by done. done. Qed.

(** *** Shape of the digests *)

Lemma length_extractBytes st n : length (extractBytes st n) = n.
Proof. unfold extractBytes. by rewrite length_map, length_seq. Qed.

Lemma extractBytes_ok st n : bytes_ok (extractBytes st n).
Proof.
  unfold extractBytes, bytes_ok. apply Forall_map, Forall_true. intros j.
  apply Z.mod_pos_bound. lia.
Qed.

Lemma length_Keccak256 inp : length (Keccak256 inp) = 32%nat.
Proof.
  unfold Keccak256, keccakSponge. destruct (absorb_blocks _ _ _ _) as [st rest].
  change (32 / 136)%nat with 0%nat. apply length_extractBytes.
Qed.

Lemma Keccak256_ok inp : bytes_ok (Keccak256 inp).
Proof.
  unfold Keccak256, keccakSponge. destruct (absorb_blocks _ _ _ _) as [st rest].
  change (32 / 136)%nat with 0%nat. apply extractBytes_ok.
Qed.

#[export] Hint Resolve Keccak256_ok : word.

(** Digests are computed by [vm_compute] only. *)
#[global] Opaque Keccak256 Keccak512.
