(* ===== verification/Secp256k1.v ===== *)
(** * secp256k1: [pkg/c2crypto/secp256k1.go]

    Field and scalar arithmetic on 256-bit words, Jacobian points, and the
    recovery of a public key from a signature. The selections without branches
    ([u256Cmov] with a mask of zeros or ones) are written as in the source. An
    out parameter is a result; the error of a function is [Err tt]. *)

From S2P Require Import Prelude Uint256 Bitwise256 Limbs Arith256 Division256 Keccak.

(** ** Constants *)

Definition secpP : Uint256 := U256 0xfffffffefffffc2f 0xffffffffffffffff 0xffffffffffffffff 0xffffffffffffffff.
Definition secpN : Uint256 := U256 0xbfd25e8cd0364141 0xbaaedce6af48a03b 0xfffffffffffffffe 0xffffffffffffffff.
Definition secpNHalf : Uint256 := U256 0xdfe92f46681b20a0 0x5d576e7357a4501d 0xffffffffffffffff 0x7fffffffffffffff.
Definition secpGX : Uint256 := U256 0x59f2815b16f81798 0x029bfcdb2dce28d9 0x55a06295ce870b07 0x79be667ef9dcbbac.
Definition secpGY : Uint256 := U256 0x9c47d08ffb10d4b8 0xfd17b448a6855419 0x5da4fbfc0e1108a8 0x483ada7726a3c465.
Definition secpB : Uint256 := U256 7 0 0 0.
Definition secpOne : Uint256 := U256 1 0 0 0.
Definition secpZero : Uint256 := zero256.
Definition secpPMinus2 : Uint256 := U256 0xfffffffefffffc2d 0xffffffffffffffff 0xffffffffffffffff 0xffffffffffffffff.
Definition secpSqrtExp : Uint256 := U256 0xffffffffbfffff0c 0xffffffffffffffff 0xffffffffffffffff 0x3fffffffffffffff.
Definition secpNMinus2 : Uint256 := U256 0xbfd25e8cd036413f 0xbaaedce6af48a03b 0xfffffffffffffffe 0xffffffffffffffff.
Definition secpR : Z := 0x1000003d1.

(** ** Selection without branches *)

(** [x &^ mask | y & mask] *)
Definition cmov64 (x y mask : Z) : Z := Z.lor (Z.ldiff x mask) (Z.land y mask).

Definition u256Cmov (rd src : Uint256) (mask : Z) : Uint256 :=
  U256 (cmov64 (w0 rd) (w0 src) mask) (cmov64 (w1 rd) (w1 src) mask)
       (cmov64 (w2 rd) (w2 src) mask) (cmov64 (w3 rd) (w3 src) mask).

Definition ctZeroMask (t : Z) : Z :=
  let v := shr64 (Z.lor t (sub64 0 t)) 63 in sub64 0 (Z.lxor v 1).

Definition u256ZeroMask (a : Uint256) : Z := ctZeroMask (Z.lor (Z.lor (Z.lor (w0 a) (w1 a)) (w2 a)) (w3 a)).

Definition u256EqMask (a b : Uint256) : Z :=
  ctZeroMask (Z.lor (Z.lor (Z.lor (Z.lxor (w0 a) (w0 b)) (Z.lxor (w1 a) (w1 b))) (Z.lxor (w2 a) (w2 b)))
                    (Z.lxor (w3 a) (w3 b))).

(** ** The field *)

Definition feAdd (a b : Uint256) : Uint256 := AddMod256 a b secpP.
Definition feSub (a b : Uint256) : Uint256 := AddMod256 a (Sub256 secpP b) secpP.

(** The loops are those of [mul512]. *)
Definition feMul512 (a b : Uint256) : list Z := mul512 a b.

Definition mul256ByR (h0 h1 h2 h3 : Z) : Z * Z * Z * Z * Z :=
  let '(hi, l0) := Mul64 h0 secpR in
  let '(hi2, lo) := Mul64 h1 secpR in
  let '(l1, c) := Add64 lo hi 0 in
  let '(hi, _) := Add64 hi2 c 0 in
  let '(hi2, lo) := Mul64 h2 secpR in
  let '(l2, c) := Add64 lo hi 0 in
  let '(hi, _) := Add64 hi2 c 0 in
  let '(hi2, lo) := Mul64 h3 secpR in
  let '(l3, c) := Add64 lo hi 0 in
  let '(extra, _) := Add64 hi2 c 0 in
  (l0, l1, l2, l3, extra).

(** The first folding of [feReduce512]: the high half times [secpR] added to the low half. *)
Definition fold_high (z : list Z) : Uint256 * Z :=
  let '(m0, m1, m2, m3, extra) := mul256ByR (z !!! 4%nat) (z !!! 5%nat) (z !!! 6%nat) (z !!! 7%nat) in
  let '(l0, c) := Add64 (z !!! 0%nat) m0 0 in
  let '(l1, c) := Add64 (z !!! 1%nat) m1 c in
  let '(l2, c) := Add64 (z !!! 2%nat) m2 c in
  let '(l3, c) := Add64 (z !!! 3%nat) m3 c in
  let '(extra, _) := Add64 extra c 0 in
  (U256 l0 l1 l2 l3, extra).

(** One more folding: a limb times [secpR] added; the carry out. *)
Definition fold_limb (l : Uint256) (extra : Z) : Uint256 * Z :=
  let '(hi, lo) := Mul64 extra secpR in
  let '(l0, c) := Add64 (w0 l) lo 0 in
  let '(l1, c) := Add64 (w1 l) hi c in
  let '(l2, c) := Add64 (w2 l) 0 c in
  let '(l3, c) := Add64 (w3 l) 0 c in
  (U256 l0 l1 l2 l3, c).

(** The borrow of [res - secpP]. *)
Definition borrowP (res : Uint256) : Z :=
  let '(_, br) := Sub64 (w0 res) (w0 secpP) 0 in
  let '(_, br) := Sub64 (w1 res) (w1 secpP) br in
  let '(_, br) := Sub64 (w2 res) (w2 secpP) br in
  let '(_, br) := Sub64 (w3 res) (w3 secpP) br in
  br.

Definition feReduce512 (z : list Z) : Uint256 :=
  let '(l, extra) := fold_high z in
  let '(l, c) := fold_limb l extra in
  let '(res, _) := fold_limb l c in
  u256Cmov res (Sub256 res secpP) (sub64 (borrowP res) 1).

Definition feMul (a b : Uint256) : Uint256 := feReduce512 (feMul512 a b).
Definition feSqr (a : Uint256) : Uint256 := feMul a a.
Definition feDbl (a : Uint256) : Uint256 := AddMod256 a a secpP.
Definition feNeg (a : Uint256) : Uint256 := u256Cmov (Sub256 secpP a) secpZero (u256ZeroMask a).

(** [(e[i>>6] >> (i & 63)) & 1] *)
Definition bit256 (e : Uint256) (i : nat) : Z :=
  Z.land (shr64 (limb e (i / 64)) (Z.of_nat (i mod 64))) 1.

(** The loop of [fePow] and [scInv]: [n] bits from bit [i]. *)
Fixpoint pow_loop (mul : Uint256 -> Uint256 -> Uint256) (e : Uint256) (i n : nat) (result base : Uint256) : Uint256 :=
  match n with
  | O => result
  | S n =>
      let mask := sub64 0 (bit256 e i) in
      let result := u256Cmov result (mul result base) mask in
      pow_loop mul e (S i) n result (mul base base)
  end.

Definition fePow (base e : Uint256) : Uint256 := pow_loop feMul e 0 256 secpOne base.

Definition secp256k1FeInv (a : Uint256) : Uint256 := fePow a secpPMinus2.

Definition feSqrt (a : Uint256) : option Uint256 :=
  let y := fePow a secpSqrtExp in
  if u256EqMask (feSqr y) a =? 0 then None else Some y.

(** ** Jacobian points *)

Record secpJac := Jac { jx : Uint256; jy : Uint256; jz : Uint256 }.

Definition jacCmov (rd src : secpJac) (mask : Z) : secpJac :=
  Jac (u256Cmov (jx rd) (jx src) mask) (u256Cmov (jy rd) (jy src) mask) (u256Cmov (jz rd) (jz src) mask).

Definition jacInf : secpJac := Jac secpZero secpOne secpZero.

Definition jacDoubleBody (p : secpJac) : secpJac :=
  let a := feSqr (jx p) in
  let b := feSqr (jy p) in
  let c := feSqr b in
  let t1 := feAdd (jx p) b in
  let t2 := feSqr t1 in
  let t1 := feSub t2 a in
  let t2 := feSub t1 c in
  let d := feDbl t2 in
  let t1 := feDbl a in
  let e := feAdd t1 a in
  let f := feSqr e in
  let t1 := feDbl d in
  let x3 := feSub f t1 in
  let t1 := feSub d x3 in
  let t2 := feMul e t1 in
  let t1 := feDbl c in
  let t1 := feDbl t1 in
  let t1 := feDbl t1 in
  let y3 := feSub t2 t1 in
  let t1 := feAdd (jy p) (jy p) in
  let z3 := feMul t1 (jz p) in
  Jac x3 y3 z3.

Definition secp256k1JacDouble (p : secpJac) : secpJac :=
  let r := jacDoubleBody p in
  jacCmov r jacInf (u256ZeroMask (jz p)).

(** The sum, and the values [h], [s1], [s2] of the formulas. *)
Definition jacAddBody (p q : secpJac) : secpJac * Uint256 * Uint256 * Uint256 :=
  let z1z1 := feSqr (jz p) in
  let z2z2 := feSqr (jz q) in
  let u1 := feMul (jx p) z2z2 in
  let u2 := feMul (jx q) z1z1 in
  let t1 := feMul (jz q) z2z2 in
  let s1 := feMul (jy p) t1 in
  let t1 := feMul (jz p) z1z1 in
  let s2 := feMul (jy q) t1 in
  let h := feSub u2 u1 in
  let t1 := feDbl h in
  let i := feSqr t1 in
  let j := feMul h i in
  let t1 := feSub s2 s1 in
  let r := feDbl t1 in
  let v := feMul u1 i in
  let t1 := feSqr r in
  let t2 := feSub t1 j in
  let t1 := feDbl v in
  let x3 := feSub t2 t1 in
  let t1 := feSub v x3 in
  let t2 := feMul r t1 in
  let t1 := feMul s1 j in
  let t1 := feDbl t1 in
  let y3 := feSub t2 t1 in
  let t1 := feAdd (jz p) (jz q) in
  let t2 := feSqr t1 in
  let t1 := feSub t2 z1z1 in
  let t2 := feSub t1 z2z2 in
  let z3 := feMul t2 h in
  (Jac x3 y3 z3, h, s1, s2).

Definition secp256k1JacAdd (p q : secpJac) : secpJac :=
  let '(sum, h, s1, s2) := jacAddBody p q in
  let dbl := jacDoubleBody p in
  let z1m := u256ZeroMask (jz p) in
  let z2m := u256ZeroMask (jz q) in
  let hm := u256ZeroMask h in
  let sm := u256EqMask s1 s2 in
  let r := jacCmov sum dbl (Z.land hm sm) in
  let r := jacCmov r jacInf (Z.ldiff hm sm) in
  let r := jacCmov r q z1m in
  jacCmov r p z2m.

(** The loop of [secp256k1JacMul], from bit [n - 1] down to bit 0. *)
Fixpoint jac_mul_loop (base : secpJac) (k : Uint256) (n : nat) (r : secpJac) : secpJac :=
  match n with
  | O => r
  | S i =>
      let mask := sub64 0 (bit256 k i) in
      let r := secp256k1JacDouble r in
      let t := secp256k1JacAdd r base in
      jac_mul_loop base k i (jacCmov r t mask)
  end.

Definition secp256k1JacMul (p : secpJac) (k : Uint256) : secpJac := jac_mul_loop p k 256 jacInf.

Definition jacToAffine (p : secpJac) : option (Uint256 * Uint256) :=
  if IsZero (jz p) then None
  else
    let zinv := secp256k1FeInv (jz p) in
    let zinv2 := feSqr zinv in
    let zinv3 := feMul zinv2 zinv in
    Some (feMul (jx p) zinv2, feMul (jy p) zinv3).

(** ** Scalars *)

Definition scMul (a b : Uint256) : Uint256 := MulMod256 a b secpN.
Definition scInv (a : Uint256) : Uint256 := pow_loop scMul secpNMinus2 0 256 secpOne a.

(** ** Signatures and keys *)

Definition parseRecid (v : Z) : option Z :=
  if (v =? 27) || (v =? 28) then Some (v - 27)
  else if (v =? 0) || (v =? 1) then Some v
  else None.

Definition gjac : secpJac := Jac secpGX secpGY secpOne.

(** The point of abscissa [x] whose ordinate has the parity [recid]. *)
Definition lift_x (x : Uint256) (recid : Z) : option Uint256 :=
  let y2 := feAdd (feMul (feSqr x) x) secpB in
  match feSqrt y2 with
  | None => None
  | Some y =>
      if u256EqMask (feSqr y) y2 =? 0 then None
      else Some (if negb (Z.land (w0 y) 1 =? recid) then feNeg y else y)
  end.

(** [q = u1 * G + u2 * R] *)
Definition recover_point (rr ss zz y : Uint256) : secpJac :=
  let rjac := Jac rr y secpOne in
  let zz := Mod256 zz secpN in
  let rinv := scInv rr in
  let t := scMul zz rinv in
  let u1 := u256Cmov (Sub256 secpN t) secpZero (u256ZeroMask t) in
  let u2 := scMul ss rinv in
  secp256k1JacAdd (secp256k1JacMul gjac u1) (secp256k1JacMul rjac u2).

Definition EcRecover (hash : bytes) (v : Z) (r s : bytes) : outcome unit bytes :=
  if negb (length hash =? 32)%nat || negb (length r =? 32)%nat || negb (length s =? 32)%nat then Err tt
  else
  match parseRecid v with
  | None => Err tt
  | Some recid =>
      let rr := FromBytesBE r in
      let ss := FromBytesBE s in
      let zz := FromBytesBE hash in
      if IsZero rr || (0 <=? Cmp rr secpN) then Err tt
      else if IsZero ss || (0 <=? Cmp ss secpN) then Err tt
      else if 0 <? Cmp ss secpNHalf then Err tt
      else
      match lift_x rr recid with
      | None => Err tt
      | Some y =>
          match jacToAffine (recover_point rr ss zz y) with
          | None => Err tt
          | Some (qx, qy) => Ok (BytesBE qx ++ BytesBE qy)
          end
      end
  end.

Definition Secp256k1PubkeyFromSeckey (seckey : bytes) : outcome unit bytes :=
  if negb (length seckey =? 32)%nat then Err tt
  else
    let k := FromBytesBE seckey in
    if IsZero k || (0 <=? Cmp k secpN) then Err tt
    else
      match jacToAffine (secp256k1JacMul gjac k) with
      | None => Err tt
      | Some (qx, qy) => Ok (BytesBE qx ++ BytesBE qy)
      end.

Definition AddressFromPrivateKey (seckey : bytes) : outcome unit bytes :=
  match Secp256k1PubkeyFromSeckey seckey with
  | Ok pub => Ok (slice (Keccak256 pub) 12 32)
  | Err x => Err x
  | Panic => Panic
  | OutOfFuel => OutOfFuel
  end.
