(* ===== verification/SecpField.v ===== *)
(** * The field and the scalars of secp256k1

    Each operation of [Secp256k1] computes its function of the values modulo the
    prime [p] (or the group order [n]); [Primes] proves [p] and
    [n] prime. *)

From S2P Require Import Prelude Uint256 Bitwise256 Limbs Arith256 Division256 ModArith Primes Secp256k1.
From Stdlib Require Import Zdivisibility.

Lemma secpP_val : toZ secpP = fp.
Proof. reflexivity. Qed.
Lemma secpN_val : toZ secpN = fn.
Proof. reflexivity. Qed.

(** ** Masks *)

Definition mask_of (b : bool) : Z := if b then B64 - 1 else 0.

Lemma cmov64_spec x y b : is_u64 x -> is_u64 y -> cmov64 x y (mask_of b) = if b then y else x.
Proof.
  unfold is_u64, cmov64. intros Hx Hy. destruct b; cbn [mask_of].
  - change (B64 - 1) with (Z.ones 64). rewrite Z.land_ones by lia. rewrite Z.ldiff_ones_r_low; [|lia|].
    + rewrite Z.lor_0_l. by rewrite Z.mod_small.
    + destruct (Z.eq_dec x 0) as [->|]; [reflexivity|apply Z.log2_lt_pow2; lia].
  - by rewrite Z.ldiff_0_r, Z.land_0_r, Z.lor_0_r.
Qed.

Lemma u256Cmov_spec x y b : u256_ok x -> u256_ok y -> u256Cmov x y (mask_of b) = if b then y else x.
Proof.
  destruct_u256 x. destruct_u256 y. intros (?&?&?&?) (?&?&?&?). unfold u256Cmov; cbn [w0 w1 w2 w3].
  rewrite !cmov64_spec by done. by destruct b.
Qed.

Lemma ctZeroMask_spec t : is_u64 t -> ctZeroMask t = mask_of (t =? 0).
Proof.
  unfold is_u64, ctZeroMask. intros Ht. destruct (Z.eqb_spec t 0) as [->|Hn]; [reflexivity|].
  assert (sub64 0 t = B64 - t) as -> by (unfold sub64, u64; dlia).
  assert (shr64 (Z.lor t (B64 - t)) 63 = 1) as ->; [|reflexivity].
  unfold shr64. rewrite Z.shiftr_lor, !Z.shiftr_div_pow2 by lia.
  destruct (Z.lt_ge_cases t (2 ^ 63)).
  - rewrite (Z.div_small t) by lia. replace ((B64 - t) / 2 ^ 63) with 1 by dlia. done.
  - replace (t / 2 ^ 63) with 1 by dlia. destruct (Z.eq_dec t (2 ^ 63)) as [->|]; [done|].
    by rewrite (Z.div_small (B64 - t)) by lia.
Qed.

Lemma u256ZeroMask_spec a : u256_ok a -> u256ZeroMask a = mask_of (toZ a =? 0).
Proof.
  intros Ha. rewrite <- IsZero_spec by done. destruct Ha as (?&?&?&?).
  unfold u256ZeroMask. rewrite ctZeroMask_spec by (by repeat apply lor_u64). done.
Qed.

Lemma u256EqMask_spec a b : u256_ok a -> u256_ok b -> u256EqMask a b = mask_of (toZ a =? toZ b).
Proof.
  intros Ha Hb. rewrite <- Eq_toZ, Eq_spec by done. destruct_u256 a. destruct_u256 b.
  destruct Ha as (?&?&?&?), Hb as (?&?&?&?). unfold u256EqMask; cbn [w0 w1 w2 w3].
  rewrite ctZeroMask_spec by (repeat apply lor_u64; by apply lxor_u64). f_equal.
  apply eq_true_iff_eq. rewrite Z.eqb_eq, bool_decide_eq_true, !Z.lor_eq_0_iff, !Z.lxor_eq_0_iff.
  split; [intros [[[-> ->] ->] ->]; done|by intros [= -> -> -> ->]].
Qed.

Lemma mask_bit i e : sub64 0 (bit256 e i) = mask_of (Z.odd (bit256 e i)).
Proof.
  unfold bit256. rewrite (Z.land_ones _ 1) by lia. pose proof (Z.mod_pos_bound (shr64 (limb e (i / 64)) (Z.of_nat (i mod 64))) 2 ltac:(lia)).
  destruct (Z.eq_dec (shr64 (limb e (i / 64)) (Z.of_nat (i mod 64)) mod 2 ^ 1) 0) as [->|]; [done|].
  replace (shr64 (limb e (i / 64)) (Z.of_nat (i mod 64)) mod 2 ^ 1) with 1 by (change (2 ^ 1) with 2 in *; lia). done.
Qed.

(** ** The field *)

Definition fe (a : Uint256) : Prop := u256_ok a /\ toZ a < fp.

Lemma fe_range a : fe a -> 0 <= toZ a < fp.
Proof. intros [H ?]. pose proof (toZ_range a H). lia. Qed.

Lemma secpP_ok : u256_ok secpP.
Proof. repeat split; vm_compute; congruence. Qed.
Lemma secpN_ok : u256_ok secpN.
Proof. repeat split; vm_compute; congruence. Qed.

Lemma AddMod_p a b : u256_ok a -> u256_ok b ->
  fe (AddMod256 a b secpP) /\ toZ (AddMod256 a b secpP) = (toZ a + toZ b) mod fp.
Proof.
  intros Ha Hb. destruct (AddMod256_spec a b secpP Ha Hb secpP_ok) as [H1 H2].
  rewrite secpP_val in H2. change (fp =? 0) with false in H2. cbv iota in H2.
  split; [split; [done|]|done]. rewrite H2. apply Z.mod_pos_bound. lia.
Qed.

Lemma feAdd_spec a b : u256_ok a -> u256_ok b -> fe (feAdd a b) /\ toZ (feAdd a b) = (toZ a + toZ b) mod fp.
Proof. exact (AddMod_p a b). Qed.
Lemma feDbl_spec a : u256_ok a -> fe (feDbl a) /\ toZ (feDbl a) = (2 * toZ a) mod fp.
Proof. intros Ha. destruct (AddMod_p a a Ha Ha) as [? E]. split; [done|]. unfold feDbl. rewrite E. f_equal. lia. Qed.

Lemma SubP_spec b : fe b -> u256_ok (Sub256 secpP b) /\ toZ (Sub256 secpP b) = fp - toZ b.
Proof.
  intros Hb. pose proof (fe_range b Hb). destruct (Sub256_spec secpP b secpP_ok (proj1 Hb)) as [? E].
  split; [done|]. rewrite E, secpP_val, Z.mod_small; lia.
Qed.

Lemma feSub_spec a b : u256_ok a -> fe b -> fe (feSub a b) /\ toZ (feSub a b) = (toZ a - toZ b) mod fp.
Proof.
  intros Ha Hb. destruct (SubP_spec b Hb) as [H1 H2]. destruct (AddMod_p a (Sub256 secpP b) Ha H1) as [? E].
  split; [done|]. unfold feSub. rewrite E, H2. replace (toZ a + (fp - toZ b)) with (toZ a - toZ b + 1 * fp) by lia.
  by rewrite Z_mod_plus_full.
Qed.

Lemma feNeg_spec a : fe a -> fe (feNeg a) /\ toZ (feNeg a) = (- toZ a) mod fp.
Proof.
  intros Ha. pose proof (fe_range a Ha). destruct (SubP_spec a Ha) as [H1 H2]. unfold feNeg.
  rewrite u256ZeroMask_spec by apply Ha. rewrite u256Cmov_spec by (done || apply zero256_ok).
  destruct (Z.eqb_spec (toZ a) 0) as [E|Hn].
  - rewrite E. split; [split; [apply zero256_ok|reflexivity]|reflexivity].
  - split; [split; [done|lia]|]. rewrite H2. apply (Z.mod_unique_pos _ _ (-1)); lia.
Qed.

(** ** Reduction modulo [p] *)

Lemma mul_secpR h : is_u64 h ->
  let '(hi, lo) := Mul64 h secpR in
  is_u64 lo /\ 0 <= hi < secpR /\ lo + B64 * hi = h * secpR.
Proof.
  unfold is_u64, Mul64. intros H. assert (0 < secpR) by (unfold secpR; lia).
  pose proof (Z.div_mod (h * secpR) B64 ltac:(lia)). pose proof (Z.mod_pos_bound (h * secpR) B64 ltac:(lia)).
  split; [done|]. split; [|lia]. split; [apply Z.div_pos; nia|]. apply Z.div_lt_upper_bound; nia.
Qed.

(** One multiplication of the chain. *)
Ltac mulR_step :=
  match goal with
  | |- context [Mul64 ?h secpR] =>
      let H := fresh "M" in
      pose proof (mul_secpR h ltac:(assumption)) as H; destruct (Mul64 h secpR) as [? ?];
      let H1 := fresh in let H2 := fresh in let H3 := fresh in destruct H as (H1 & H2 & H3)
  end.

(** One addition of the chain. *)
Ltac add_step :=
  match goal with
  | |- context [Add64 ?x ?y ?c] =>
      let H := fresh "A" in let K := fresh "K" in
      pose proof (Add64_spec x y c) as H;
      assert (0 <= snd (Add64 x y c) <= 1) as K
        by (apply Add64_carry; unfold is_u64 in *; unfold secpR in *; lia);
      destruct (Add64 x y c) as [? ?]; cbn [snd] in K; destruct H
  end.

Lemma mul256ByR_spec h0 h1 h2 h3 :
  is_u64 h0 -> is_u64 h1 -> is_u64 h2 -> is_u64 h3 ->
  let '(l0, l1, l2, l3, extra) := mul256ByR h0 h1 h2 h3 in
  u256_ok (U256 l0 l1 l2 l3) /\ 0 <= extra < secpR /\
  toZ (U256 l0 l1 l2 l3) + B256 * extra = toZ (U256 h0 h1 h2 h3) * secpR.
Proof.
  intros Hh0 Hh1 Hh2 Hh3. unfold mul256ByR. repeat (mulR_step || add_step).
  unfold u256_ok, toZ, is_u64, secpR in *; cbn [w0 w1 w2 w3]. change B256 with (B64 * (B64 * (B64 * B64))).
  repeat split; lia.
Qed.

Lemma fold_high_spec z :
  limbs_ok z -> length z = 8%nat ->
  let '(l, extra) := fold_high z in
  u256_ok l /\ 0 <= extra <= secpR /\
  toZ l + B256 * extra = lsub z 0 4 + lsub z 4 4 * secpR.
Proof.
  intros Hz Hl. unfold fold_high.
  assert (forall i, is_u64 (z !!! i)) as Hi by (intros; by apply lookup_total_ok).
  pose proof (mul256ByR_spec _ _ _ _ (Hi 4%nat) (Hi 5%nat) (Hi 6%nat) (Hi 7%nat)) as H.
  destruct (mul256ByR _ _ _ _) as [[[[m0 m1] m2] m3] extra]. destruct H as (Hm & He & H).
  destruct Hm as (Hm0 & Hm1 & Hm2 & Hm3). cbn [w0 w1 w2 w3] in *.
  pose proof (Hi 0%nat) as Hi0. pose proof (Hi 1%nat) as Hi1. pose proof (Hi 2%nat) as Hi2. pose proof (Hi 3%nat) as Hi3.
  assert (lsub z 0 4 = toZ (U256 (z !!! 0%nat) (z !!! 1%nat) (z !!! 2%nat) (z !!! 3%nat)) /\
          lsub z 4 4 = toZ (U256 (z !!! 4%nat) (z !!! 5%nat) (z !!! 6%nat) (z !!! 7%nat))) as [-> ->].
  { destruct z as [|z [|z0 [|z1 [|z2 [|z3 [|z4 [|z5 [|z6 [|]]]]]]]]]; try done. rewrite <- !lval_limbs. by split. }
  rewrite <- H. unfold secpR in *. clear H Hi. repeat add_step.
  unfold u256_ok, toZ, is_u64 in *; cbn [w0 w1 w2 w3]. change B256 with (B64 * (B64 * (B64 * B64))). repeat split; lia.
Qed.

Lemma fold_limb_spec l extra :
  u256_ok l -> is_u64 extra ->
  let '(r, c) := fold_limb l extra in
  u256_ok r /\ 0 <= c <= 1 /\ toZ r + B256 * c = toZ l + extra * secpR.
Proof.
  intros (H0 & H1 & H2 & H3) He. unfold fold_limb. mulR_step.
  assert (is_u64 z) by (unfold is_u64, secpR in *; lia). repeat add_step.
  unfold u256_ok, toZ, is_u64 in *; cbn [w0 w1 w2 w3]. change B256 with (B64 * (B64 * (B64 * B64))). repeat split; lia.
Qed.

Lemma borrowP_spec r : u256_ok r -> borrowP r = if toZ r <? fp then 1 else 0.
Proof.
  intros (H0 & H1 & H2 & H3). destruct secpP_ok as (P0 & P1 & P2 & P3).
  assert (toZ secpP = fp) as E by reflexivity. unfold borrowP.
  generalize dependent secpP. intros P. destruct_u256 P. intros. repeat carry_step.
  unfold toZ, is_u64 in *; cbn [w0 w1 w2 w3] in *. destruct (Z.ltb_spec (w0 r + B64 * (w1 r + B64 * (w2 r + B64 * w3 r))) fp); lia.
Qed.

Lemma secpR_fold : B256 = fp + secpR.
Proof. reflexivity. Qed.

Lemma feReduce512_spec z :
  limbs_ok z -> length z = 8%nat -> fe (feReduce512 z) /\ toZ (feReduce512 z) = lval z mod fp.
Proof.
  intros Hz Hl. unfold feReduce512. pose proof (fold_high_spec z Hz Hl) as H.
  destruct (fold_high z) as [l extra]. destruct H as (Hlo & He & H).
  pose proof (fold_limb_spec l extra Hlo ltac:(unfold is_u64, secpR in *; lia)) as H'.
  destruct (fold_limb l extra) as [l' c]. destruct H' as (Hlo' & Hc & H').
  pose proof (fold_limb_spec l' c Hlo' ltac:(unfold is_u64; lia)) as H''.
  destruct (fold_limb l' c) as [res c']. destruct H'' as (Hres & Hc' & H'').
  assert (lval z = lsub z 0 4 + B256 * lsub z 4 4) as E.
  { rewrite <- (lsub_all z), Hl. exact (lsub_add z 0 4 4 ltac:(lia)). }
  pose proof (toZ_range l Hlo). pose proof (toZ_range l' Hlo'). pose proof (toZ_range res Hres).
  assert (c' = 0) by (unfold secpR in *; nia). subst c'.
  assert (toZ res = lval z mod fp \/ toZ res = lval z mod fp + fp) as Hcases.
  { assert (toZ res mod fp = lval z mod fp) as Hmod.
    { set (hi := lsub z 4 4) in *. replace (toZ res) with (lval z + (- hi - extra - c) * fp)
        by (rewrite E; pose proof secpR_fold; lia). apply Z_mod_plus_full. }
    pose proof (Z.div_mod (toZ res) fp ltac:(lia)) as Hd. rewrite Hmod in Hd.
    pose proof (Z.mod_pos_bound (lval z) fp ltac:(lia)).
    assert (0 <= toZ res / fp <= 1); [|lia]. split; [apply Z.div_pos; lia|].
    apply Z.lt_succ_r, Z.div_lt_upper_bound; lia. }
  pose proof (Z.mod_pos_bound (lval z) fp ltac:(lia)) as Hm.
  destruct (Sub256_spec res secpP Hres secpP_ok) as [Hs1 Hs2]. rewrite secpP_val in Hs2.
  assert (sub64 (borrowP res) 1 = mask_of (negb (toZ res <? fp))) as ->.
  { rewrite borrowP_spec by done. by destruct (toZ res <? fp). }
  rewrite u256Cmov_spec by done. destruct (Z.ltb_spec (toZ res) fp); cbn [negb].
  - split; [by split|lia].
  - rewrite Z.mod_small in Hs2 by lia. split; [split; [done|lia]|lia].
Qed.

Lemma feMul_spec a b : u256_ok a -> u256_ok b -> fe (feMul a b) /\ toZ (feMul a b) = (toZ a * toZ b) mod fp.
Proof.
  intros Ha Hb. destruct (mul512_spec a b Ha Hb) as (H1 & H2 & H3). unfold feMul, feMul512.
  rewrite <- H3. by apply feReduce512_spec.
Qed.

(** ** Powers *)

Lemma bit256_spec e i : u256_ok e -> (i < 256)%nat -> bit256 e i = (toZ e / 2 ^ Z.of_nat i) mod 2.
Proof.
  intros He Hi. unfold bit256. rewrite (Z.land_ones _ 1) by lia. change (2 ^ 1) with 2.
  rewrite shr64_div, <- !Z.testbit_spec' by lia. f_equal.
  assert ((i / 64 < 4)%nat) by (apply Nat.Div0.div_lt_upper_bound; lia).
  assert ((i mod 64 < 64)%nat) by (apply Nat.mod_upper_bound; lia).
  rewrite <- (Nat2Z.id (i / 64)), <- toZ_limb_testbit by (done || lia). f_equal.
  pose proof (Nat.div_mod i 64 ltac:(lia)). lia.
Qed.

Section powers.
  Context (N : Z) (mul : Uint256 -> Uint256 -> Uint256).
  Context (N_pos : 1 < N).
  Context (mul_ok : forall a b, u256_ok a -> u256_ok b ->
    (u256_ok (mul a b) /\ toZ (mul a b) < N) /\ toZ (mul a b) = (toZ a * toZ b) mod N).

Lemma pow_loop_spec e n : forall i result base,
  u256_ok e -> (i + n <= 256)%nat -> u256_ok base -> u256_ok result -> toZ result < N ->
  (u256_ok (pow_loop mul e i n result base) /\ toZ (pow_loop mul e i n result base) < N) /\
  toZ (pow_loop mul e i n result base) =[N]=
    toZ result * toZ base ^ ((toZ e / 2 ^ Z.of_nat i) mod 2 ^ Z.of_nat n).
Proof.
  induction n as [|n IH]; intros i result base He Hi Hb Hr Hlt; cbn [pow_loop].
  - split; [done|]. change (2 ^ Z.of_nat 0) with 1. by rewrite Z.mod_1_r, Z.pow_0_r, Z.mul_1_r.
  - destruct (mul_ok result base Hr Hb) as [[Hm1 Hm2] Hm3]. destruct (mul_ok base base Hb Hb) as [[Hs1 Hs2] Hs3].
    rewrite mask_bit, u256Cmov_spec by done.
    set (x := toZ e / 2 ^ Z.of_nat i) in *.
    assert (bit256 e i = x mod 2) as Hbit by (apply bit256_spec; [done|lia]).
    assert (toZ e / 2 ^ Z.of_nat (S i) = x / 2) as Hx.
    { unfold x. rewrite Z.div_div, Nat2Z.inj_succ, Z.pow_succ_r by lia. f_equal. lia. }
    assert (x mod 2 ^ Z.of_nat (S n) = x mod 2 + 2 * ((x / 2) mod 2 ^ Z.of_nat n)) as Hsplit.
    { rewrite Nat2Z.inj_succ, Z.pow_succ_r by lia. rewrite Z.rem_mul_r by lia. lia. }
    assert (u256_ok (if Z.odd (bit256 e i) then mul result base else result) /\
            toZ (if Z.odd (bit256 e i) then mul result base else result) < N) as [Hr1 Hr2] by (by destruct (Z.odd _)).
    destruct (IH (S i) _ (mul base base) He ltac:(lia) Hs1 Hr1 Hr2) as [H1 H2]. split; [done|].
    rewrite H2, Hx, Hsplit. set (k := (x / 2) mod 2 ^ Z.of_nat n). assert (0 <= k) by (apply Z.mod_pos_bound; lia).
    pose proof (Z.mod_pos_bound x 2 ltac:(lia)).
    rewrite Z.pow_add_r, Z.pow_mul_r, Z.pow_2_r by lia. rewrite Z.mul_assoc. apply cong_mul.
    + rewrite Hbit. destruct (Z.eq_dec (x mod 2) 0) as [->|]; [by rewrite Z.pow_0_r, Z.mul_1_r|].
      replace (x mod 2) with 1 by lia. rewrite Z.pow_1_r. cbn [Z.odd]. rewrite Hm3. apply cong_mod.
    + apply cong_pow; [done|]. rewrite Hs3. apply cong_mod.
Qed.

Lemma ct_pow_spec e base :
  u256_ok e -> u256_ok base ->
  (u256_ok (pow_loop mul e 0 256 secpOne base) /\ toZ (pow_loop mul e 0 256 secpOne base) < N) /\
  toZ (pow_loop mul e 0 256 secpOne base) = toZ base ^ toZ e mod N.
Proof.
  intros He Hb. destruct (pow_loop_spec e 256 0 secpOne base He ltac:(lia) Hb) as [H1 H2];
    [repeat split; vm_compute; congruence|done|].
  split; [done|]. pose proof (toZ_range _ (proj1 H1)). pose proof (toZ_range e He) as Hr.
  change (2 ^ Z.of_nat 0) with 1 in H2. change (2 ^ Z.of_nat 256) with B256 in H2.
  rewrite Z.div_1_r, (Z.mod_small (toZ e)) in H2 by done. change (toZ secpOne) with 1 in H2.
  rewrite Z.mul_1_l in H2. unfold cong in H2. rewrite <- H2. rewrite Z.mod_small; lia.
Qed.
End powers.

Lemma fePow_spec a e : u256_ok a -> u256_ok e -> fe (fePow a e) /\ toZ (fePow a e) = toZ a ^ toZ e mod fp.
Proof. intros Ha He. exact (ct_pow_spec fp feMul ltac:(lia) feMul_spec e a He Ha). Qed.

(** The inverse, for a value that is not a multiple of [p]. *)
Lemma feInv_spec a : u256_ok a -> fe (secp256k1FeInv a) /\ (~ (fp | toZ a) -> toZ a * toZ (secp256k1FeInv a) =[fp]= 1).
Proof.
  intros Ha. destruct (fePow_spec a secpPMinus2 Ha) as [H1 H2]; [repeat split; vm_compute; congruence|].
  split; [exact H1|]. intros Hn. unfold secp256k1FeInv. rewrite H2, cong_mod.
  exact (fermat_inverse fp (toZ a) prime_fp Hn).
Qed.

Lemma square_power t p : Z.prime p -> t ^ (p + 1) =[p]= t * t.
Proof.
  intros Hp. pose proof (Z.prime_ge_2 p Hp). replace (p + 1) with (Z.succ (Z.succ (p - 1))) by lia.
  rewrite !Z.pow_succ_r by lia. destruct (Z.BoolSpec_divide p t) as [Hd|Hd].
  - apply (cong_divide p) in Hd; [|lia]. transitivity (0 * (t * t ^ (p - 1))); [by apply cong_mul|].
    rewrite Z.mul_0_l, <- (Z.mul_0_l t). symmetry. by apply cong_mul.
  - by rewrite (fermat p t Hp Hd), Z.mul_1_r.
Qed.

(** A square root, when there is one. *)
Lemma feSqrt_spec a : fe a ->
  match feSqrt a with
  | Some y => fe y /\ toZ y * toZ y =[fp]= toZ a
  | None => forall t, ~ t * t =[fp]= toZ a
  end.
Proof.
  intros [Ha Hlt]. pose proof (toZ_range a Ha). unfold feSqrt.
  destruct (fePow_spec a secpSqrtExp Ha) as [[Hy1 Hy2] Hy3]; [repeat split; vm_compute; congruence|].
  change (toZ secpSqrtExp) with ((fp + 1) / 4) in Hy3. generalize dependent (fePow a secpSqrtExp). intros y Hy1 Hy2 Hy3.
  destruct (feMul_spec y y Hy1 Hy1) as [[Hs1 Hs2] Hs3]. unfold feSqr. rewrite u256EqMask_spec by done.
  destruct (Z.eqb_spec (toZ (feMul y y)) (toZ a)) as [E|E]; cbn [mask_of].
  - change (B64 - 1 =? 0) with false. cbv iota. split; [exact (conj Hy1 Hy2)|]. rewrite <- E, Hs3. symmetry. apply cong_mod.
  - change (0 =? 0) with true. cbv iota. intros t Ht. apply E, (cong_small fp); [|lia|].
    { split; [by apply toZ_range|done]. }
    assert (exists s, (fp + 1) / 4 = s /\ 0 <= s /\ fp + 1 = 4 * s) as (s & Es & Hs & E4)
      by (eexists; split; [reflexivity|split; [vm_compute; congruence|reflexivity]]).
    rewrite Es in Hy3. rewrite Hs3, cong_mod, Hy3, !cong_mod.
    transitivity (t ^ (fp + 1)).
    + transitivity ((t * t) ^ s * (t * t) ^ s); [apply cong_mul; (apply cong_pow; [exact Hs|symmetry; exact Ht])|].
      rewrite E4, <- Z.pow_add_r, <- (Z.pow_2_r t), <- Z.pow_mul_r by lia.
      replace (2 * (s + s)) with (4 * s) by lia. reflexivity.
    + rewrite (square_power t fp prime_fp). exact Ht.
Qed.

(** ** Scalars *)

Lemma scMul_spec a b : u256_ok a -> u256_ok b ->
  (u256_ok (scMul a b) /\ toZ (scMul a b) < fn) /\ toZ (scMul a b) = (toZ a * toZ b) mod fn.
Proof.
  intros Ha Hb. destruct (MulMod256_spec a b secpN Ha Hb secpN_ok) as [H1 H2]. unfold scMul.
  rewrite secpN_val in H2. change (fn =? 0) with false in H2. cbv iota in H2. rewrite H2.
  split; [split; [done|]|done]. apply Z.mod_pos_bound. lia.
Qed.

Lemma scInv_spec a : u256_ok a -> 0 < toZ a < fn ->
  (u256_ok (scInv a) /\ toZ (scInv a) < fn) /\ toZ a * toZ (scInv a) =[fn]= 1.
Proof.
  intros Ha Hr. destruct (ct_pow_spec fn scMul ltac:(lia) scMul_spec secpNMinus2 a) as [H1 H2];
    [repeat split; vm_compute; congruence|done|].
  split; [exact H1|]. unfold scInv. rewrite H2, cong_mod.
  apply (fermat_inverse fn (toZ a) prime_fn). intros Hd. apply Z.divide_pos_le in Hd; lia.
Qed.
