(* ===== verification/SecpCurve.v ===== *)
(** * The group law of secp256k1

    The affine chord-and-tangent law is the specification; the Jacobian formulas
    of [Secp256k1], which select their result without branches, refine it, and so
    does the multiplication by a scalar. *)

From S2P Require Import Prelude Uint256 Bitwise256 Limbs Arith256 Division256 ModArith Primes AffineCurve.
From S2P Require Import Secp256k1 SecpField.
From Stdlib Require Import Zdivisibility Zcong.

(** ** The curve *)

Abbreviation on_secp := (on_curve fp 7).

Lemma secp_odd : 2 < fp.
Proof. reflexivity. Qed.

(** ** Jacobian coordinates *)

(** [a] is a field element of value [v]. *)
Definition val (a : Uint256) (v : Z) : Prop := fe a /\ toZ a =[fp]= v.

Lemma val_self a : fe a -> val a (toZ a).
Proof. by split. Qed.
Lemma val_eq a u v : val a u -> u = v -> val a v.
Proof. by intros ? <-. Qed.
Lemma val_cong a u v : val a u -> u =[fp]= v -> val a v.
Proof. intros [? H] E. split; [done|]. by transitivity u. Qed.

Lemma val_mul a b u v : val a u -> val b v -> val (feMul a b) (u * v).
Proof.
  intros [Ha Hu] [Hb Hv]. destruct (feMul_spec a b (proj1 Ha) (proj1 Hb)) as [H E]. split; [done|].
  rewrite E, cong_mod. by apply cong_mul.
Qed.
Lemma val_sqr a u : val a u -> val (feSqr a) (u * u).
Proof. intros H. exact (val_mul a a u u H H). Qed.
Lemma val_add a b u v : val a u -> val b v -> val (feAdd a b) (u + v).
Proof.
  intros [Ha Hu] [Hb Hv]. destruct (feAdd_spec a b (proj1 Ha) (proj1 Hb)) as [H E]. split; [done|].
  rewrite E, cong_mod. by apply cong_add.
Qed.
Lemma val_sub a b u v : val a u -> val b v -> val (feSub a b) (u - v).
Proof.
  intros [Ha Hu] [Hb Hv]. destruct (feSub_spec a b (proj1 Ha) Hb) as [H E]. split; [done|].
  rewrite E, cong_mod. by apply cong_sub.
Qed.
Lemma val_dbl a u : val a u -> val (feDbl a) (2 * u).
Proof.
  intros [Ha Hu]. destruct (feDbl_spec a (proj1 Ha)) as [H E]. split; [done|].
  rewrite E, cong_mod. by apply cong_mul.
Qed.

(** The value of an expression, from those of its leaves. *)
Ltac val_expr :=
  lazymatch goal with
  | |- val (feSqr _) _ => eapply val_sqr; val_expr
  | |- val (feMul _ _) _ => eapply val_mul; val_expr
  | |- val (feAdd _ _) _ => eapply val_add; val_expr
  | |- val (feSub _ _) _ => eapply val_sub; val_expr
  | |- val (feDbl _) _ => eapply val_dbl; val_expr
  | |- _ => eassumption
  end.
Ltac val_ring := eapply val_eq; [val_expr|ring].

Lemma jacDoubleBody_val p X Y Z :
  val (jx p) X -> val (jy p) Y -> val (jz p) Z ->
  let r := jacDoubleBody p in
  let X3 := 9 * X * X * X * X - 8 * X * Y * Y in
  val (jx r) X3 /\ val (jy r) (3 * X * X * (4 * X * Y * Y - X3) - 8 * Y * Y * Y * Y) /\ val (jz r) (2 * Y * Z).
Proof.
  intros Hx Hy Hz. unfold jacDoubleBody. cbv zeta. cbn [jx jy jz]. split_and!; val_ring.
Qed.

Lemma jacAddBody_val p q X1 Y1 Z1 X2 Y2 Z2 :
  val (jx p) X1 -> val (jy p) Y1 -> val (jz p) Z1 -> val (jx q) X2 -> val (jy q) Y2 -> val (jz q) Z2 ->
  let '(s, h, s1, s2) := jacAddBody p q in
  let U1 := X1 * Z2 * Z2 in let S1 := Y1 * Z2 * Z2 * Z2 in
  let H := X2 * Z1 * Z1 - U1 in let R := Y2 * Z1 * Z1 * Z1 - S1 in
  let X3 := 4 * R * R - 4 * H * H * H - 8 * U1 * H * H in
  val h H /\ val s1 S1 /\ val s2 (R + S1) /\
  val (jx s) X3 /\ val (jy s) (2 * R * (4 * U1 * H * H - X3) - 8 * S1 * H * H * H) /\ val (jz s) (2 * Z1 * Z2 * H).
Proof.
  intros Hx1 Hy1 Hz1 Hx2 Hy2 Hz2. unfold jacAddBody. cbv beta zeta. cbn [jx jy jz].
  (* The four cross products first: the rest is polynomial in them. *)
  set (u1 := feMul (jx p) _). set (s1 := feMul (jy p) _). set (h := feSub _ u1). set (s2 := feMul (jy q) _).
  set (U1 := X1 * Z2 * Z2). set (S1 := Y1 * Z2 * Z2 * Z2). set (H := X2 * Z1 * Z1 - U1). set (R := Y2 * Z1 * Z1 * Z1 - S1).
  assert (val u1 U1) as Hu1 by (unfold u1, U1; val_ring).
  assert (val s1 S1) as Hs1 by (unfold s1, S1; val_ring).
  assert (val h H) as Hh by (eapply val_eq; [unfold h; val_expr|unfold H; ring]).
  assert (val s2 (R + S1)) as Hs2 by (unfold s2, R, S1; val_ring).
  clearbody u1 s1 h s2 U1 S1 H R. split_and!; try assumption; val_ring.
Qed.

(** [J] stands for the point [P]: [x = X / Z^2], [y = Y / Z^3], and [Z = 0] at infinity. *)
Definition jac_rep (J : secpJac) (P : apoint) : Prop :=
  fe (jx J) /\ fe (jy J) /\ fe (jz J) /\
  match P with
  | None => toZ (jz J) = 0
  | Some (x, y) => 0 <= x < fp /\ 0 <= y < fp /\ ~ (fp | toZ (jz J)) /\
      toZ (jx J) =[fp]= x * toZ (jz J) * toZ (jz J) /\ toZ (jy J) =[fp]= y * toZ (jz J) * toZ (jz J) * toZ (jz J)
  end.

(** To represent a point it is enough to know the values of the coordinates. *)
Lemma jac_rep_None J v : fe (jx J) -> fe (jy J) -> val (jz J) v -> v =[fp]= 0 -> jac_rep J None.
Proof.
  intros Hx Hy [Hz Hv] H0. do 3 (split; [done|]). apply (cong_small fp); [by apply fe_range|lia|]. by transitivity v.
Qed.

Lemma jac_rep_Some J x y X Y Z :
  val (jx J) X -> val (jy J) Y -> val (jz J) Z -> 0 <= x < fp -> 0 <= y < fp -> ~ (fp | Z) ->
  X =[fp]= x * Z * Z -> Y =[fp]= y * Z * Z * Z -> jac_rep J (Some (x, y)).
Proof.
  intros [Hx HX] [Hy HY] [Hz HZ] Hxr Hyr Hn H1 H2. do 5 (split; [done|]). split; [|split].
  - intros Hd. apply Hn. apply (cong_divide fp _ ltac:(lia)). apply (cong_divide fp _ ltac:(lia)) in Hd.
    transitivity (toZ (jz J)); [by symmetry|done].
  - rewrite HX, H1. symmetry. by repeat apply cong_mul.
  - rewrite HY, H2. symmetry. by repeat apply cong_mul.
Qed.

Lemma jac_cmov r s b : fe (jx r) -> fe (jy r) -> fe (jz r) -> fe (jx s) -> fe (jy s) -> fe (jz s) ->
  jacCmov r s (mask_of b) = if b then s else r.
Proof.
  intros [? _] [? _] [? _] [? _] [? _] [? _]. unfold jacCmov. rewrite !u256Cmov_spec by done.
  by destruct b, r, s.
Qed.

Lemma jacInf_rep : jac_rep jacInf None.
Proof. repeat split; vm_compute; congruence. Qed.

Lemma jacDoubleBody_rep J x y :
  jac_rep J (Some (x, y)) -> jac_rep (jacDoubleBody J) (ec_double fp (Some (x, y))).
Proof.
  intros (Hfx & Hfy & Hfz & Hx & Hy & Hn & HX & HY). set (z := toZ (jz J)) in *.
  destruct (jacDoubleBody_val J (x * z * z) (y * z * z * z) z) as (H1 & H2 & H3); [by split..|].
  cbv zeta in H1, H2, H3. cbn [ec_double]. destruct (Z.eqb_spec y 0) as [->|Hy0].
  - apply (jac_rep_None _ _ (proj1 H1) (proj1 H2) H3). apply cong_eq. ring.
  - pose proof (inv_p_spec fp prime_fp secp_odd _ (not_divide_double fp prime_fp secp_odd y ltac:(lia))) as Hi. set (i := inv_p fp (2 * y)) in *.
    pose proof (chord_range fp secp_odd (3 * x * x * i) x y x) as Hr. unfold chord in *. destruct Hr as [Hr1 Hr2].
    set (X3 := 9 * _ * _ * _ * _ - _) in *. set (x3 := ((3 * x * x * i) * (3 * x * x * i) - x - x) mod fp) in *.
    assert (x3 =[fp]= (3 * x * x * i) * (3 * x * x * i) - x - x) as Hx3 by apply cong_mod.
    assert (X3 =[fp]= x3 * (2 * (y * z * z * z) * z) * (2 * (y * z * z * z) * z)) as HX3.
    { transitivity (((3 * x * x * i) * (3 * x * x * i) - x - x) * (2 * (y * z * z * z) * z) * (2 * (y * z * z * z) * z)).
      - apply (cong_comb1 fp _ _ (- (9 * x * x * x * x * z * z * z * z * z * z * z * z * (i * (2 * y) + 1))) (i * (2 * y)) 1);
          [done|unfold X3; ring].
      - symmetry. by repeat apply cong_mul. }
    eapply jac_rep_Some; [exact H1|exact H2|exact H3|done|done| |exact HX3|].
    + repeat apply (not_divide_mul fp prime_fp); try done; [exact (not_divide_2 fp secp_odd)|apply (not_divide_small fp); lia].
    + transitivity ((3 * x * x * i * (x - x3) - y) * (2 * (y * z * z * z) * z) * (2 * (y * z * z * z) * z) * (2 * (y * z * z * z) * z)).
      * apply (cong_comb2 fp _ _ (- (3 * x * x * z * z * z * z)) X3 (x3 * (2 * (y * z * z * z) * z) * (2 * (y * z * z * z) * z))
          (- (3 * x * x * z * z * z * z) * (x - x3) * (2 * (y * z * z * z) * z) * (2 * (y * z * z * z) * z)) (i * (2 * y)) 1);
          [done|done|ring].
      * symmetry. repeat apply cong_mul; try reflexivity. apply cong_mod.
Qed.

Lemma jacDoubleBody_fe J : fe (jx J) -> fe (jy J) -> fe (jz J) ->
  fe (jx (jacDoubleBody J)) /\ fe (jy (jacDoubleBody J)) /\ fe (jz (jacDoubleBody J)).
Proof.
  intros Hx Hy Hz. destruct (jacDoubleBody_val J _ _ _ (val_self _ Hx) (val_self _ Hy) (val_self _ Hz)) as (H1 & H2 & H3).
  split_and!; [apply H1|apply H2|apply H3].
Qed.

Lemma nonzero_mask z : fe z -> ~ (fp | toZ z) -> (toZ z =? 0) = false.
Proof. intros Hz Hn. apply Z.eqb_neq. intros E. apply Hn. rewrite E. apply Z.divide_0_r. Qed.

Lemma secp256k1JacDouble_rep J P : jac_rep J P -> jac_rep (secp256k1JacDouble J) (ec_double fp P).
Proof.
  intros HJ. pose proof HJ as (Hx & Hy & Hz & HP). unfold secp256k1JacDouble.
  destruct (jacDoubleBody_fe J Hx Hy Hz) as (H1 & H2 & H3). destruct jacInf_rep as (I1 & I2 & I3 & _).
  rewrite u256ZeroMask_spec by apply Hz. rewrite jac_cmov by done. destruct P as [[x y]|].
  - rewrite nonzero_mask by (done || apply HP). by apply jacDoubleBody_rep.
  - rewrite HP. exact jacInf_rep.
Qed.

(** The sum of two finite points of different abscissas. *)
Lemma jacAddBody_rep J K x1 y1 x2 y2 :
  jac_rep J (Some (x1, y1)) -> jac_rep K (Some (x2, y2)) ->
  let '(s, h, s1, s2) := jacAddBody J K in
  (fe (jx s) /\ fe (jy s) /\ fe (jz s)) /\ fe h /\ fe s1 /\ fe s2 /\
  (toZ h =? 0) = (x1 =? x2) /\ (toZ s1 =? toZ s2) = (y1 =? y2) /\
  (x1 <> x2 -> jac_rep s (Some (chord fp ((y2 - y1) * inv_p fp (x2 - x1)) x1 y1 x2))).
Proof.
  intros (Hfx1 & Hfy1 & Hfz1 & Hx1 & Hy1 & Hn1 & HX1 & HY1) (Hfx2 & Hfy2 & Hfz2 & Hx2 & Hy2 & Hn2 & HX2 & HY2).
  set (z1 := toZ (jz J)) in *. set (z2 := toZ (jz K)) in *. set (w := z1 * z2).
  assert (~ (fp | w)) as Hw by (by apply (not_divide_mul fp prime_fp)).
  pose proof (jacAddBody_val J K (x1 * z1 * z1) (y1 * z1 * z1 * z1) z1 (x2 * z2 * z2) (y2 * z2 * z2 * z2) z2) as H.
  destruct (jacAddBody J K) as [[[s h] s1] s2]. cbv zeta in H.
  destruct H as (Hh & Hs1 & Hs2 & HX & HY & HZ); [by split..|].
  apply (val_eq _ _ ((x2 - x1) * (w * w))) in Hh; [|unfold w; ring].
  apply (val_eq _ _ (y1 * (w * w * w))) in Hs1; [|unfold w; ring].
  apply (val_eq _ _ (y2 * (w * w * w))) in Hs2; [|unfold w; ring].
  split; [split; [apply HX|split; [apply HY|apply HZ]]|].
  split; [apply Hh|]. split; [apply Hs1|]. split; [apply Hs2|]. split; [|split].
  - destruct (Z.eqb_spec x1 x2) as [->|Hne].
    + apply Z.eqb_eq. apply (cong_small fp); [apply fe_range, Hh|lia|]. rewrite (proj2 Hh). apply cong_eq. ring.
    + apply nonzero_mask; [apply Hh|]. intros Hd. apply (cong_divide fp _ ltac:(lia)) in Hd. rewrite (proj2 Hh) in Hd.
      apply (cong_divide fp _ ltac:(lia)) in Hd. revert Hd. repeat apply (not_divide_mul fp prime_fp); try done. apply (not_divide_small fp). lia.
  - destruct (Z.eqb_spec y1 y2) as [->|Hne].
    + apply Z.eqb_eq. apply (cong_small fp); [apply fe_range, Hs1|apply fe_range, Hs2|].
      rewrite (proj2 Hs1), (proj2 Hs2). done.
    + apply Z.eqb_neq. intros E. assert (y1 * (w * w * w) =[fp]= y2 * (w * w * w)) as Hc.
      { rewrite <- (proj2 Hs1), <- (proj2 Hs2), E. done. }
      apply (cong_sub_0 fp) in Hc. rewrite <- Z.mul_sub_distr_r in Hc. apply (cong_divide fp _ ltac:(lia)) in Hc.
      revert Hc. repeat apply (not_divide_mul fp prime_fp); try done. apply (not_divide_small fp). lia.
  - intros Hne. pose proof (inv_p_spec fp prime_fp secp_odd (x2 - x1) ltac:(apply (not_divide_small fp); lia)) as Hi.
    set (i := inv_p fp (x2 - x1)) in *. set (m := (y2 - y1) * i).
    pose proof (chord_range fp secp_odd m x1 y1 x2) as Hr. unfold chord in *. destruct Hr as [Hr1 Hr2].
    apply (val_eq _ _ (2 * (x2 - x1) * (w * w * w))) in HZ; [|unfold w; ring].
    set (x3 := (m * m - x1 - x2) mod fp) in *. assert (x3 =[fp]= m * m - x1 - x2) as Hx3 by apply cong_mod.
    clearbody x3. set (Z3 := 2 * (x2 - x1) * (w * w * w)) in *. set (X3 := 4 * _ * _ - 4 * _ * _ * _ - _) in *.
    assert (X3 =[fp]= x3 * Z3 * Z3) as HX3.
    { transitivity ((m * m - x1 - x2) * Z3 * Z3).
      - apply (cong_comb1 fp _ _ (- (4 * (y2 - y1) * (y2 - y1) * (w * w * w) * (w * w * w) * (i * (x2 - x1) + 1))) (i * (x2 - x1)) 1);
          [done|unfold X3, Z3, m, w; ring].
      - symmetry. by repeat apply cong_mul. }
    assert ((x2 * z2 * z2) * z1 * z1 - (x1 * z1 * z1) * z2 * z2 = (x2 - x1) * (w * w)) as Eh by (unfold w; ring).
    assert (y2 * z2 * z2 * z2 * z1 * z1 * z1 - y1 * z1 * z1 * z1 * z2 * z2 * z2 = (y2 - y1) * (w * w * w)) as Er by (unfold w; ring).
    apply (val_eq _ _ (2 * ((y2 - y1) * (w * w * w)) * (4 * (x1 * (w * w)) * ((x2 - x1) * (w * w)) * ((x2 - x1) * (w * w)) - X3)
      - 8 * (y1 * (w * w * w)) * ((x2 - x1) * (w * w)) * ((x2 - x1) * (w * w)) * ((x2 - x1) * (w * w)))) in HY;
      [|rewrite Er, Eh; clearbody X3; unfold w; ring].
    eapply jac_rep_Some; [exact HX|exact HY|exact HZ|done|done| |exact HX3|].
    + unfold Z3. repeat apply (not_divide_mul fp prime_fp); try done; [exact (not_divide_2 fp secp_odd)|apply (not_divide_small fp); lia].
    + transitivity ((m * (x1 - x3) - y1) * Z3 * Z3 * Z3).
      * apply (cong_comb2 fp _ _ (- (2 * (y2 - y1) * (w * w * w))) X3 (x3 * Z3 * Z3)
          (- (2 * (y2 - y1) * (w * w * w)) * (x1 - x3) * Z3 * Z3) (i * (x2 - x1)) 1);
          [done|done|unfold m; clearbody X3; unfold Z3; ring].
      * symmetry. repeat apply cong_mul; try reflexivity. apply cong_mod.
Qed.

Lemma secp256k1JacAdd_rep J K P Q :
  jac_rep J P -> jac_rep K Q -> jac_rep (secp256k1JacAdd J K) (ec_add fp P Q).
Proof.
  intros HJ HK. pose proof HJ as (Hx1 & Hy1 & Hz1 & HP). pose proof HK as (Hx2 & Hy2 & Hz2 & HQ).
  unfold secp256k1JacAdd. destruct jacInf_rep as (I1 & I2 & I3 & _).
  destruct (jacDoubleBody_fe J Hx1 Hy1 Hz1) as (D1 & D2 & D3).
  pose proof (jacAddBody_val J K _ _ _ _ _ _ (val_self _ Hx1) (val_self _ Hy1) (val_self _ Hz1)
    (val_self _ Hx2) (val_self _ Hy2) (val_self _ Hz2)) as Hb.
  pose proof (fun x1 y1 x2 y2 => jacAddBody_rep J K x1 y1 x2 y2) as Hrep.
  destruct (jacAddBody J K) as [[[s h] s1] s2]. cbv zeta in Hb.
  destruct Hb as ([Hh _] & [Hs1 _] & [Hs2 _] & [S1 _] & [S2 _] & [S3 _]).
  rewrite !u256ZeroMask_spec, u256EqMask_spec by (apply Hz1 || apply Hz2 || apply Hh || apply Hs1 || apply Hs2).
  set (hm := toZ h =? 0) in *. set (sm := toZ s1 =? toZ s2) in *.
  assert (Z.land (mask_of hm) (mask_of sm) = mask_of (hm && sm)) as -> by (by destruct hm, sm).
  assert (Z.ldiff (mask_of hm) (mask_of sm) = mask_of (hm && negb sm)) as -> by (by destruct hm, sm).
  rewrite (jac_cmov s) by done. set (r1 := if hm && sm then jacDoubleBody J else s).
  assert (fe (jx r1) /\ fe (jy r1) /\ fe (jz r1)) as (R1 & R2 & R3) by (unfold r1; by destruct (hm && sm)).
  rewrite (jac_cmov r1) by done. set (r2 := if hm && negb sm then jacInf else r1).
  assert (fe (jx r2) /\ fe (jy r2) /\ fe (jz r2)) as (T1 & T2 & T3) by (unfold r2; by destruct (hm && negb sm)).
  rewrite (jac_cmov r2) by done. set (r3 := if toZ (jz J) =? 0 then K else r2).
  assert (fe (jx r3) /\ fe (jy r3) /\ fe (jz r3)) as (U1 & U2 & U3) by (unfold r3; by destruct (toZ (jz J) =? 0)).
  rewrite (jac_cmov r3) by done. unfold r3.
  destruct P as [[x1 y1]|]; destruct Q as [[x2 y2]|].
  - rewrite (nonzero_mask (jz J)), (nonzero_mask (jz K)) by (done || apply HP || apply HQ).
    destruct (Hrep x1 y1 x2 y2 HJ HK) as (_ & _ & _ & _ & Eh & Es & Hsum). unfold r2, r1.
    fold hm in Eh. fold sm in Es. rewrite Eh, Es. cbn [ec_add].
    destruct (Z.eqb_spec x1 x2) as [->|Hne]; [|by apply Hsum].
    destruct (Z.eqb_spec y1 y2) as [->|Hy]; [by apply jacDoubleBody_rep|exact jacInf_rep].
  - rewrite HQ. exact HJ.
  - rewrite HP, (nonzero_mask (jz K)) by (done || apply HQ). exact HK.
  - rewrite HQ. exact HJ.
Qed.

Lemma secp256k1JacMul_rep J P k :
  jac_rep J P -> u256_ok k -> jac_rep (secp256k1JacMul J k) (ec_mul fp (toZ k) P).
Proof.
  intros HJ Hk. unfold secp256k1JacMul. pose proof (toZ_range k Hk) as Hr.
  assert (forall n r, (n <= 256)%nat -> jac_rep r (ec_mul fp (toZ k / 2 ^ Z.of_nat n) P) ->
    jac_rep (jac_mul_loop J k n r) (ec_mul fp (toZ k) P)) as H.
  { induction n as [|i IH]; intros r Hn Hrep; cbn [jac_mul_loop].
    - by rewrite Z.div_1_r in Hrep.
    - apply IH; [lia|]. set (q := toZ k / 2 ^ Z.of_nat (S i)) in *. rewrite mask_bit, bit256_spec by (done || lia).
      set (b := (toZ k / 2 ^ Z.of_nat i) mod 2). assert (0 <= b < 2) as Hb by (apply Z.mod_pos_bound; lia).
      assert (toZ k / 2 ^ Z.of_nat i = 2 * q + b) as ->.
      { unfold q, b. replace (2 ^ Z.of_nat (S i)) with (2 ^ Z.of_nat i * 2) by (rewrite Nat2Z.inj_succ, Z.pow_succ_r; lia).
        rewrite <- Z.div_div by lia. apply Z.div_mod. lia. }
      assert (0 <= q) by (apply Z.div_pos; lia). rewrite (ec_mul_bit fp) by done.
      pose proof (secp256k1JacDouble_rep r _ Hrep) as HD. pose proof (secp256k1JacAdd_rep _ J _ P HD HJ) as HA.
      pose proof HD as (D1 & D2 & D3 & _). pose proof HA as (A1 & A2 & A3 & _). rewrite jac_cmov by done.
      assert (b = 0 \/ b = 1) as [->| ->] by lia; done. }
  apply H; [lia|]. replace (toZ k / 2 ^ Z.of_nat 256) with 0 by (symmetry; apply Z.div_small; done).
  exact jacInf_rep.
Qed.

Lemma jacToAffine_rep J P : jac_rep J P ->
  match jacToAffine J with
  | None => P = None
  | Some (x, y) => fe x /\ fe y /\ P = Some (toZ x, toZ y)
  end.
Proof.
  intros (Hx & Hy & Hz & HP). unfold jacToAffine. rewrite IsZero_spec by apply Hz.
  destruct P as [[x y]|]; [|by rewrite HP]. destruct HP as (Hxr & Hyr & Hn & HX & HY).
  rewrite nonzero_mask by done. destruct (feInv_spec (jz J) (proj1 Hz)) as [Hi Hinv]. specialize (Hinv Hn).
  cbv beta iota zeta. generalize dependent (secp256k1FeInv (jz J)). intros i Hi Hinv. pose proof (val_self _ Hi) as Vi.
  pose proof (conj Hx HX : val (jx J) _) as VX. pose proof (conj Hy HY : val (jy J) _) as VY.
  set (z := toZ (jz J)) in *. set (iv := toZ i) in *.
  assert (val (feMul (jx J) (feSqr i)) x) as [V1 E1].
  { eapply val_cong; [val_expr|]. apply (cong_comb1 fp _ _ (x * (z * iv + 1)) (z * iv) 1); [done|ring]. }
  assert (val (feMul (jy J) (feMul (feSqr i) i)) y) as [V2 E2].
  { eapply val_cong; [val_expr|]. apply (cong_comb1 fp _ _ (y * (z * iv * z * iv + z * iv + 1)) (z * iv) 1); [done|ring]. }
  split; [exact V1|]. split; [exact V2|]. f_equal. f_equal; symmetry.
  - apply (cong_small fp); [exact (fe_range _ V1)|exact Hxr|exact E1].
  - apply (cong_small fp); [exact (fe_range _ V2)|exact Hyr|exact E2].
Qed.
