(* ===== verification/SecpSpec.v ===== *)
(** * Public key recovery

    [EcRecover] returns the point [Q = u1 * G + u2 * R] of the textbook algorithm,
    where [R] is the point of abscissa [r], and refuses exactly the signatures for
    which there is none. *)

From S2P Require Import Prelude Uint256 Bitwise256 Limbs Arith256 Division256 Keccak ModArith Primes.
From S2P Require Import AffineCurve Secp256k1 SecpField SecpCurve.
From Stdlib Require Import Zdivisibility.

Definition G : apoint := Some (toZ secpGX, toZ secpGY).

Lemma G_on_secp : on_secp G.
Proof. repeat split; vm_compute; congruence. Qed.

Lemma fe_one : fe secpOne.
Proof. repeat split; vm_compute; congruence. Qed.

(** An affine point as a Jacobian one. *)
Lemma affine_rep x y : fe x -> fe y -> jac_rep (Jac x y secpOne) (Some (toZ x, toZ y)).
Proof.
  intros Hx Hy. do 3 (split; [first [exact Hx|exact Hy|exact fe_one]|]). cbn [jx jy jz].
  change (toZ secpOne) with 1. rewrite !Z.mul_1_r. split; [exact (fe_range x Hx)|]. split; [exact (fe_range y Hy)|].
  split; [apply (not_divide_small fp); lia|]. split; reflexivity.
Qed.

Lemma gjac_rep : jac_rep gjac G.
Proof. apply affine_rep; repeat split; vm_compute; congruence. Qed.

(** ** Lifting an abscissa *)

Lemma land_1_mod2 y : u256_ok y -> Z.land (w0 y) 1 = toZ y mod 2.
Proof.
  intros Hy. rewrite (Z.land_ones _ 1) by lia. change (2 ^ 1) with 2. unfold toZ.
  change B64 with (2 * 9223372036854775808). rewrite <- Z.mul_assoc, (Z.mul_comm 2), Z_mod_plus_full. done.
Qed.

Lemma curve_rhs x : fe x -> val (feAdd (feMul (feSqr x) x) secpB) (toZ x * toZ x * toZ x + 7).
Proof.
  intros Hx. pose proof (val_self x Hx) as Vx.
  assert (val secpB 7) as VB by (split; [repeat split; vm_compute; congruence|reflexivity]). val_expr.
Qed.

Lemma lift_x_spec x recid : fe x -> 0 <= recid < 2 ->
  match lift_x x recid with
  | Some y => fe y /\ on_secp (Some (toZ x, toZ y)) /\ (toZ y mod 2 = recid \/ toZ y = 0)
  | None => forall y, ~ on_secp (Some (toZ x, y))
  end.
Proof.
  intros Hx Hrec. unfold lift_x. cbv zeta. destruct (curve_rhs x Hx) as [Hy2 E].
  generalize dependent (feAdd (feMul (feSqr x) x) secpB). intros y2 Hy2 E.
  pose proof (feSqrt_spec y2 Hy2) as Hs. destruct (feSqrt y2) as [y|].
  - destruct Hs as [Hy Es]. destruct (val_sqr y _ (val_self y Hy)) as [Hq Eq].
    rewrite u256EqMask_spec by (apply Hq || apply Hy2).
    assert ((toZ (feSqr y) =? toZ y2) = true) as ->.
    { apply Z.eqb_eq. apply (cong_small fp); [exact (fe_range _ Hq)|exact (fe_range _ Hy2)|].
      by transitivity (toZ y * toZ y). }
    change (mask_of true =? 0) with false. cbv iota. pose proof (fe_range x Hx). pose proof (fe_range y Hy) as Hyr.
    assert (toZ y * toZ y =[fp]= toZ x * toZ x * toZ x + 7) as Hc by (by transitivity (toZ y2)).
    rewrite land_1_mod2 by apply Hy. destruct (Z.eqb_spec (toZ y mod 2) recid) as [Er|Er]; cbn [negb].
    + split; [exact Hy|]. split; [exact (conj H (conj Hyr Hc))|by left].
    + destruct (feNeg_spec y Hy) as [Hn En]. split; [exact Hn|]. split.
      * split; [exact H|]. split; [exact (fe_range _ Hn)|]. rewrite En, !cong_mod. rewrite <- Hc. apply cong_eq. ring.
      * rewrite En. destruct (Z.eq_dec (toZ y) 0) as [->|Hy0]; [by right|left].
        assert ((- toZ y) mod fp = fp - toZ y) as -> by (symmetry; apply (Z.mod_unique_pos _ _ (-1)); lia).
        pose proof (Z.mod_pos_bound (toZ y) 2 ltac:(lia)). dlia.
  - intros y (_ & _ & Hc). apply (Hs y). rewrite Hc. by symmetry.
Qed.

(** ** Recovery *)

Lemma parseRecid_range v recid : parseRecid v = Some recid -> 0 <= recid < 2.
Proof.
  unfold parseRecid. intros H. repeat ztest; cbn in H; try done; injection H as <-; lia.
Qed.

(** [Q] is the point recovered from the digest [z] and the signature [(r, s)] of parity [recid]. *)
Record recovers (z r s recid : Z) (Q : apoint) : Prop := {
  rc_r : 0 < r < fn;
  rc_s : 0 < s <= fn / 2;
  rc_point : exists y u1 u2,
    on_secp (Some (r, y)) /\ (y mod 2 = recid \/ y = 0) /\ 0 <= u1 < fn /\ 0 <= u2 < fn /\
    r * u1 =[fn]= - z /\ r * u2 =[fn]= s /\ Q = ec_add fp (ec_mul fp u1 G) (ec_mul fp u2 (Some (r, y)));
}.

Lemma recover_point_rep rr ss zz y :
  u256_ok rr -> 0 < toZ rr < fn -> u256_ok ss -> u256_ok zz -> fe y -> on_secp (Some (toZ rr, toZ y)) ->
  exists u1 u2, 0 <= u1 < fn /\ 0 <= u2 < fn /\ toZ rr * u1 =[fn]= - toZ zz /\ toZ rr * u2 =[fn]= toZ ss /\
    jac_rep (recover_point rr ss zz y) (ec_add fp (ec_mul fp u1 G) (ec_mul fp u2 (Some (toZ rr, toZ y)))).
Proof.
  intros Hrr Hr Hss Hzz Hy Hc. unfold recover_point. cbv zeta.
  destruct (Mod256_spec zz secpN Hzz secpN_ok) as [Hm Em]. rewrite secpN_val in Em.
  change (fn =? 0) with false in Em. cbv iota in Em.
  destruct (scInv_spec rr Hrr Hr) as [[Hi Hil] Ei].
  destruct (scMul_spec (Mod256 zz secpN) (scInv rr) Hm Hi) as [[Ht Htl] Et].
  destruct (scMul_spec ss (scInv rr) Hss Hi) as [[Hu2 Hu2l] Eu2].
  generalize dependent (scMul (Mod256 zz secpN) (scInv rr)). intros t Ht Htl Et.
  generalize dependent (scMul ss (scInv rr)). intros u2 Hu2 Hu2l Eu2.
  generalize dependent (Mod256 zz secpN). intros zm Hm Em Et. generalize dependent (scInv rr). intros ri Hi Hil Ei Eu2 Et.
  pose proof (toZ_range t Ht) as Htr. pose proof (toZ_range u2 Hu2) as Hu2r.
  destruct (Sub256_spec secpN t secpN_ok Ht) as [Hs1 Es1]. rewrite secpN_val, Z.mod_small in Es1 by lia.
  rewrite u256ZeroMask_spec, u256Cmov_spec by (done || apply zero256_ok).
  set (u1 := if toZ t =? 0 then secpZero else Sub256 secpN t).
  assert (u256_ok u1 /\ 0 <= toZ u1 < fn /\ toZ u1 =[fn]= - toZ t) as (Hu1 & Hu1r & Eu1).
  { unfold u1. destruct (Z.eqb_spec (toZ t) 0) as [E|]; [rewrite E; split; [apply zero256_ok|by split]|].
    split; [done|]. rewrite Es1. split; [lia|].
    apply (cong_comb1 fn _ _ 1 fn 0); [apply cong_self|ring]. }
  clearbody u1. exists (toZ u1), (toZ u2). split; [done|]. split; [lia|].
  assert (toZ t =[fn]= toZ zz * toZ ri) as Ct by (rewrite Et, cong_mod, Em, cong_mod; reflexivity).
  assert (toZ u2 =[fn]= toZ ss * toZ ri) as Cu by (rewrite Eu2, cong_mod; reflexivity).
  split; [|split].
  - rewrite Eu1, Ct. apply (cong_comb1 fn _ _ (- toZ zz) (toZ rr * toZ ri) 1); [done|ring].
  - rewrite Cu. apply (cong_comb1 fn _ _ (toZ ss) (toZ rr * toZ ri) 1); [done|ring].
  - apply secp256k1JacAdd_rep.
    + apply secp256k1JacMul_rep; [exact gjac_rep|exact Hu1].
    + apply secp256k1JacMul_rep; [|exact Hu2]. apply affine_rep; [split; [exact Hrr|lia]|exact Hy].
Qed.

Lemma Cmp_ge a b : u256_ok a -> u256_ok b -> (0 <=? Cmp a b) = (toZ b <=? toZ a).
Proof.
  intros Ha Hb. pose proof (Cmp_lt a b Ha Hb) as H. repeat ztest; try done; lia.
Qed.

Lemma be_val_fe b : bytes_ok b -> length b = 32%nat -> u256_ok (FromBytesBE b) /\ toZ (FromBytesBE b) = be_val b.
Proof.
  intros Hb Hl. split; [by apply FromBytesBE_ok|]. rewrite toZ_FromBytesBE, Hl. done.
Qed.

(** The point is determined by the signature. *)
Lemma root_unique y y' recid :
  0 <= y < fp -> 0 <= y' < fp -> y * y =[fp]= y' * y' -> 0 <= recid < 2 ->
  y mod 2 = recid \/ y = 0 -> y' mod 2 = recid \/ y' = 0 -> y = y'.
Proof.
  intros Hy Hy' E Hrec H H'. apply (cong_sub_0 fp) in E.
  assert ((y - y') * (y + y') =[fp]= 0) as E' by (rewrite <- E; apply cong_eq; ring).
  apply (cong_divide fp _ ltac:(lia)) in E'. apply (Z.divide_prime_mul _ _ _ prime_fp) in E' as [[k Hk]|[k Hk]].
  - assert (k = 0) by nia. lia.
  - assert (k = 0 \/ k = 1) as [-> | ->] by nia; [lia|]. rewrite Z.mul_1_l in Hk.
    destruct H as [H| ->]; [|lia]. destruct H' as [H'| ->]; [|lia]. exfalso. dlia.
Qed.

Lemma scalar_unique r u u' : 0 < r < fn -> 0 <= u < fn -> 0 <= u' < fn -> r * u =[fn]= r * u' -> u = u'.
Proof.
  intros Hr Hu Hu' E. apply (cong_small fn); [done|done|].
  pose proof (fermat_inverse fn r prime_fn ltac:(intros Hd; apply Z.divide_pos_le in Hd; lia)) as Hi.
  exact (cong_cancel fn u u' r _ Hi E).
Qed.

Lemma recovers_unique z r s recid Q Q' :
  0 <= recid < 2 -> recovers z r s recid Q -> recovers z r s recid Q' -> Q = Q'.
Proof.
  intros Hrec [Hr Hs (y & u1 & u2 & (Hx & Hy & Hc) & Hp & Hu1 & Hu2 & E1 & E2 & ->)]
    [_ _ (y' & u1' & u2' & (_ & Hy' & Hc') & Hp' & Hu1' & Hu2' & E1' & E2' & ->)].
  assert (y = y') as -> by (apply (root_unique y y' recid); [exact Hy|exact Hy'|rewrite Hc; by symmetry|exact Hrec|exact Hp|exact Hp']).
  assert (u1 = u1') as -> by (apply (scalar_unique r); [exact Hr|exact Hu1|exact Hu1'|rewrite E1; by symmetry]).
  assert (u2 = u2') as -> by (apply (scalar_unique r); [exact Hr|exact Hu2|exact Hu2'|rewrite E2; by symmetry]).
  reflexivity.
Qed.

Lemma secpNHalf_val : u256_ok secpNHalf /\ toZ secpNHalf = fn / 2.
Proof. repeat split; vm_compute; congruence. Qed.

(** [EcRecover] on well-sized inputs, by the tests of its body. *)
Lemma EcRecover_body z r s v recid :
  bytes_ok z -> bytes_ok r -> bytes_ok s -> length z = 32%nat -> length r = 32%nat -> length s = 32%nat ->
  parseRecid v = Some recid ->
  match EcRecover z v r s with
  | Ok pub => exists x y, recovers (be_val z) (be_val r) (be_val s) recid (Some (x, y)) /\
      on_secp (Some (x, y)) /\ pub = be_bytes 32 x ++ be_bytes 32 y
  | Err _ => forall Q, recovers (be_val z) (be_val r) (be_val s) recid Q -> Q = None
  | _ => False
  end.
Proof.
  intros Hz Hr Hs Lz Lr Ls Hv. unfold EcRecover. rewrite Lz, Lr, Ls, Hv. change (negb (32 =? 32)%nat) with false.
  cbn [orb]. cbv zeta. pose proof (parseRecid_range v recid Hv) as Hrec. clear Hv v.
  destruct (be_val_fe z Hz Lz) as [Hzo Ez], (be_val_fe r Hr Lr) as [Hro Er], (be_val_fe s Hs Ls) as [Hso Es].
  destruct secpNHalf_val as [Hho Eh].
  rewrite !IsZero_spec, !Cmp_ge, Cmp_gt, Er, Es, secpN_val, Eh by (assumption || exact secpN_ok).
  pose proof (toZ_range _ Hro) as Rr. pose proof (toZ_range _ Hso) as Rs. rewrite Er in Rr. rewrite Es in Rs.
  destruct (Z.eqb_spec (be_val r) 0); cbn [orb]; [intros Q [? _ _]; lia|].
  destruct (Z.leb_spec fn (be_val r)); [intros Q [? _ _]; lia|].
  destruct (Z.eqb_spec (be_val s) 0); cbn [orb]; [intros Q [_ ? _]; lia|].
  destruct (Z.leb_spec fn (be_val s)); [intros Q [_ Hs1 _]; revert Hs1; dlia|].
  destruct (Z.ltb_spec (fn / 2) (be_val s)); [intros Q [_ ? _]; lia|].
  assert (fe (FromBytesBE r)) as Hrf by (split; [exact Hro|rewrite Er; lia]).
  pose proof (lift_x_spec (FromBytesBE r) recid Hrf Hrec) as Hl. destruct (lift_x (FromBytesBE r) recid) as [y|].
  2: { intros Q [_ _ (y & u1 & u2 & Hc & _)]. rewrite Er in Hl. by destruct (Hl y). }
  destruct Hl as (Hy & Hc & Hp).
  destruct (recover_point_rep (FromBytesBE r) (FromBytesBE s) (FromBytesBE z) y) as (u1 & u2 & Hu1 & Hu2 & E1 & E2 & HJ);
    [exact Hro|rewrite Er; lia|exact Hso|exact Hzo|exact Hy|exact Hc|].
  generalize dependent (recover_point (FromBytesBE r) (FromBytesBE s) (FromBytesBE z) y). intros J HJ.
  rewrite Er, Es, Ez in *.
  set (Q := ec_add fp (ec_mul fp u1 G) (ec_mul fp u2 (Some (be_val r, toZ y)))) in *.
  assert (recovers (be_val z) (be_val r) (be_val s) recid Q) as HQ.
  { constructor; [lia|lia|]. exists (toZ y), u1, u2. split; [exact Hc|]. split; [exact Hp|].
    split; [exact Hu1|]. split; [exact Hu2|]. split; [exact E1|]. split; [exact E2|]. reflexivity. }
  assert (on_secp Q) as HQc by (apply (ec_add_curve fp 7 prime_fp ltac:(lia)); apply (ec_mul_curve fp 7 prime_fp ltac:(lia)); [exact G_on_secp|exact Hc]).
  clearbody Q. pose proof (jacToAffine_rep J Q HJ) as Ha. destruct (jacToAffine J) as [[qx qy]|].
  - destruct Ha as (Hx & Hy' & ->). exists (toZ qx), (toZ qy). split; [exact HQ|]. split; [exact HQc|].
    rewrite !BytesBE_be_bytes by (apply Hx || apply Hy'). reflexivity.
  - subst Q. intros Q' HQ'. exact (recovers_unique _ _ _ _ _ _ Hrec HQ' HQ).
Qed.

(** ** Keys *)

Lemma Secp256k1PubkeyFromSeckey_spec k :
  bytes_ok k -> length k = 32%nat ->
  match Secp256k1PubkeyFromSeckey k with
  | Ok pub => 0 < be_val k < fn /\ exists x y, ec_mul fp (be_val k) G = Some (x, y) /\ on_secp (Some (x, y)) /\
      pub = be_bytes 32 x ++ be_bytes 32 y
  | Err _ => be_val k = 0 \/ fn <= be_val k \/ ec_mul fp (be_val k) G = None
  | _ => False
  end.
Proof.
  intros Hk Lk. unfold Secp256k1PubkeyFromSeckey. rewrite Lk. change (negb (32 =? 32)%nat) with false. cbv iota zeta.
  destruct (be_val_fe k Hk Lk) as [Hko Ek]. rewrite IsZero_spec, Cmp_ge, Ek, secpN_val by (assumption || exact secpN_ok).
  pose proof (toZ_range _ Hko) as Rk. rewrite Ek in Rk.
  destruct (Z.eqb_spec (be_val k) 0); cbn [orb]; [by left|].
  destruct (Z.leb_spec fn (be_val k)); [by right; left|].
  pose proof (secp256k1JacMul_rep gjac G (FromBytesBE k) gjac_rep Hko) as HJ. rewrite Ek in HJ.
  pose proof ((ec_mul_curve fp 7 prime_fp ltac:(lia)) (be_val k) G G_on_secp) as Hc.
  generalize dependent (secp256k1JacMul gjac (FromBytesBE k)). intros J HJ.
  pose proof (jacToAffine_rep J _ HJ) as Ha. destruct (jacToAffine J) as [[x y]|]; [|by right; right].
  destruct Ha as (Hx & Hy & E). split; [lia|]. exists (toZ x), (toZ y). split; [exact E|]. split; [by rewrite E in Hc|].
  rewrite !BytesBE_be_bytes by (apply Hx || apply Hy). reflexivity.
Qed.
