(* ===== verification/Hashes.v ===== *)
(** * The hash functions of the precompiled contracts: [pkg/c2block/precompiles.go]

    RIPEMD-160 and the compression function of BLAKE2b as the code writes them,
    and SHA-256, which the code takes from the standard library of Go. *)

From S2P Require Import Prelude.

(** ** 32-bit words *)

Definition add32 (x y : Z) : Z := u32 (x + y).
Definition not32 (x : Z) : Z := 4294967295 - x.
Definition rotl32 (x n : Z) : Z := Z.lor (u32 (Z.shiftl x n)) (Z.shiftr x (32 - n)).
Definition rotr32 (x n : Z) : Z := Z.lor (Z.shiftr x n) (u32 (Z.shiftl x (32 - n))).

(** [binary.LittleEndian]: values and bytes, least significant byte first. *)
Definition le_val (b : bytes) : Z := be_val (rev b).
Definition le_bytes (n : nat) (z : Z) : bytes := rev (be_bytes n z).

(** The [i]-th word of [w] bytes of [b], big and little endian. *)
Definition be_word (w : nat) (b : bytes) (i : nat) : Z := be_val (slice b (i * w) (i * w + w)).
Definition le_word (w : nat) (b : bytes) (i : nat) : Z := le_val (slice b (i * w) (i * w + w)).

(** The [i]-th block of 64 bytes. *)
Definition block64 (b : bytes) (i : nat) : bytes := slice b (i * 64) (i * 64 + 64).

(** ** SHA-256 (FIPS 180-4): [crypto/sha256] *)

(** The 32 high bits of the fractional parts of the cube roots of the first 64 primes, in decimal. *)
Definition sha256_K : list Z :=
  [1116352408; 1899447441; 3049323471; 3921009573; 961987163; 1508970993; 2453635748; 2870763221;
   3624381080; 310598401; 607225278; 1426881987; 1925078388; 2162078206; 2614888103; 3248222580;
   3835390401; 4022224774; 264347078; 604807628; 770255983; 1249150122; 1555081692; 1996064986;
   2554220882; 2821834349; 2952996808; 3210313671; 3336571891; 3584528711; 113926993; 338241895;
   666307205; 773529912; 1294757372; 1396182291; 1695183700; 1986661051; 2177026350; 2456956037;
   2730485921; 2820302411; 3259730800; 3345764771; 3516065817; 3600352804; 4094571909; 275423344;
   430227734; 506948616; 659060556; 883997877; 958139571; 1322822218; 1537002063; 1747873779;
   1955562222; 2024104815; 2227730452; 2361852424; 2428436474; 2756734187; 3204031479; 3329325298].

Definition sha256_H0 : list Z :=
  [0x6a09e667; 0xbb67ae85; 0x3c6ef372; 0xa54ff53a; 0x510e527f; 0x9b05688c; 0x1f83d9ab; 0x5be0cd19].

Definition sha256_ch (x y z : Z) : Z := Z.lxor (Z.land x y) (Z.land (not32 x) z).
Definition sha256_maj (x y z : Z) : Z := Z.lxor (Z.lxor (Z.land x y) (Z.land x z)) (Z.land y z).
Definition sha256_S0 (x : Z) : Z := Z.lxor (Z.lxor (rotr32 x 2) (rotr32 x 13)) (rotr32 x 22).
Definition sha256_S1 (x : Z) : Z := Z.lxor (Z.lxor (rotr32 x 6) (rotr32 x 11)) (rotr32 x 25).
Definition sha256_s0 (x : Z) : Z := Z.lxor (Z.lxor (rotr32 x 7) (rotr32 x 18)) (Z.shiftr x 3).
Definition sha256_s1 (x : Z) : Z := Z.lxor (Z.lxor (rotr32 x 17) (rotr32 x 19)) (Z.shiftr x 10).

(** The message schedule: 16 words of the block, then 48 more. *)
Definition sha256_next (w : list Z) (t : nat) : list Z :=
  w ++ [add32 (add32 (sha256_s1 (w !!! (t - 2)%nat)) (w !!! (t - 7)%nat))
              (add32 (sha256_s0 (w !!! (t - 15)%nat)) (w !!! (t - 16)%nat))].
Definition sha256_schedule (blk : bytes) : list Z :=
  foldl sha256_next (map (be_word 4 blk) (seq 0 16)) (seq 16 48).

Definition sha256_round (w : list Z) (h : list Z) (t : nat) : list Z :=
  match h with
  | [a; b; c; d; e; f; g; h] =>
      let t1 := add32 (add32 (add32 h (sha256_S1 e)) (add32 (sha256_ch e f g) (sha256_K !!! t))) (w !!! t) in
      let t2 := add32 (sha256_S0 a) (sha256_maj a b c) in
      [add32 t1 t2; a; b; c; add32 d t1; e; f; g]
  | _ => h
  end.

Definition sha256_block (h : list Z) (blk : bytes) : list Z :=
  zip_with add32 h (foldl (sha256_round (sha256_schedule blk)) h (seq 0 64)).

Definition sha256_pad (msg : bytes) : bytes :=
  let n := ((length msg + 9 + 63) / 64 * 64)%nat in
  msg ++ [0x80] ++ zeros (n - (length msg + 9)) ++ be_bytes 8 (u64 (Z.of_nat (length msg) * 8)).

Definition Sum256 (msg : bytes) : bytes :=
  let b := sha256_pad msg in
  mjoin (map (be_bytes 4) (foldl sha256_block sha256_H0 (map (block64 b) (seq 0 (length b / 64))))).

(** ** RIPEMD-160 *)

Definition ripemdIV : list Z := [0x67452301; 0xefcdab89; 0x98badcfe; 0x10325476; 0xc3d2e1f0].

Definition ripemd_f (fn : nat) (x y z : Z) : Z :=
  match fn with
  | 0%nat => Z.lxor (Z.lxor x y) z
  | 1%nat => Z.lor (Z.land x y) (Z.land (not32 x) z)
  | 2%nat => Z.lxor (Z.lor x (not32 y)) z
  | 3%nat => Z.lor (Z.land x z) (Z.land y (not32 z))
  | _ => Z.lxor x (Z.lor y (not32 z))
  end.

Definition ripemd_kl : list Z := [0x00000000; 0x5a827999; 0x6ed9eba1; 0x8f1bbcdc; 0xa953fd4e].
Definition ripemd_kr : list Z := [0x50a28be6; 0x5c4dd124; 0x6d703ef3; 0x7a6d76e9; 0x00000000].
Definition ripemd_rl : list Z :=
  [0; 1; 2; 3; 4; 5; 6; 7; 8; 9; 10; 11; 12; 13; 14; 15;
   7; 4; 13; 1; 10; 6; 15; 3; 12; 0; 9; 5; 2; 14; 11; 8;
   3; 10; 14; 4; 9; 15; 8; 1; 2; 7; 0; 6; 13; 11; 5; 12;
   1; 9; 11; 10; 0; 8; 12; 4; 13; 3; 7; 15; 14; 5; 6; 2;
   4; 0; 5; 9; 7; 12; 2; 10; 14; 1; 3; 8; 11; 6; 15; 13].
Definition ripemd_rr : list Z :=
  [5; 14; 7; 0; 9; 2; 11; 4; 13; 6; 15; 8; 1; 10; 3; 12;
   6; 11; 3; 7; 0; 13; 5; 10; 14; 15; 8; 12; 4; 9; 1; 2;
   15; 5; 1; 3; 7; 14; 6; 9; 11; 8; 12; 2; 10; 0; 4; 13;
   8; 6; 4; 1; 3; 11; 15; 0; 5; 12; 2; 13; 9; 7; 10; 14;
   12; 15; 10; 4; 1; 5; 8; 7; 6; 2; 13; 14; 0; 3; 9; 11].
Definition ripemd_sl : list Z :=
  [11; 14; 15; 12; 5; 8; 7; 9; 11; 13; 14; 15; 6; 7; 9; 8;
   7; 6; 8; 13; 11; 9; 7; 15; 7; 12; 15; 9; 11; 7; 13; 12;
   11; 13; 6; 7; 14; 9; 13; 15; 14; 8; 13; 6; 5; 12; 7; 5;
   11; 12; 14; 15; 14; 15; 9; 8; 9; 14; 5; 6; 8; 6; 5; 12;
   9; 15; 5; 11; 6; 8; 13; 12; 5; 12; 13; 14; 11; 8; 5; 6].
Definition ripemd_sr : list Z :=
  [8; 9; 9; 11; 13; 15; 15; 5; 7; 7; 8; 11; 14; 14; 12; 6;
   9; 13; 15; 7; 12; 8; 9; 11; 7; 7; 12; 7; 6; 15; 13; 11;
   9; 7; 15; 11; 8; 6; 6; 14; 12; 13; 5; 14; 13; 13; 7; 5;
   15; 5; 8; 11; 14; 14; 6; 14; 6; 9; 12; 9; 12; 5; 15; 8;
   8; 5; 12; 9; 12; 5; 14; 6; 8; 13; 6; 5; 15; 13; 11; 11].

(** One line of the two: [a, b, c, d, e] after step [j], whose function, constant, word and shift are given. *)
Definition ripemd_line (f : Z -> Z -> Z -> Z) (k xr s : Z) (l : list Z) : list Z :=
  match l with
  | [a; b; c; d; e] =>
      let t := add32 (rotl32 (add32 (add32 (add32 a (f b c d)) xr) k) s) e in
      [e; t; b; rotl32 c 10; d]
  | _ => l
  end.

Definition ripemd_step (x : list Z) (lr : list Z * list Z) (j : nat) : list Z * list Z :=
  let fn := (j / 16)%nat in
  (ripemd_line (ripemd_f fn) (ripemd_kl !!! fn) (x !!! Z.to_nat (ripemd_rl !!! j)) (ripemd_sl !!! j) (fst lr),
   ripemd_line (ripemd_f (4 - fn)) (ripemd_kr !!! fn) (x !!! Z.to_nat (ripemd_rr !!! j)) (ripemd_sr !!! j) (snd lr)).

Definition ripemd_block (h : list Z) (blk : bytes) : list Z :=
  let x := map (le_word 4 blk) (seq 0 16) in
  match h, foldl (ripemd_step x) (h, h) (seq 0 80) with
  | [h0; h1; h2; h3; h4], ([al; bl; cl; dl; el], [ar; br; cr; dr; er]) =>
      [add32 (add32 h1 cl) dr; add32 (add32 h2 dl) er; add32 (add32 h3 el) ar;
       add32 (add32 h4 al) br; add32 (add32 h0 bl) cr]
  | _, _ => h
  end.

(** The padded message: the buffer is made, then filled. *)
Definition ripemd_buf (msg : bytes) : bytes :=
  let mlen := length msg in
  let nfull := (mlen + 1 + 8)%nat in
  let nblk := ((nfull + 63) / 64)%nat in
  let buf := copy_at (zeros (nblk * 64)) 0 msg in
  let buf := <[mlen := 0x80]> buf in
  copy_at buf (length buf - 8) (le_bytes 8 (u64 (Z.of_nat mlen * 8))).

Definition ripemd160Sum (msg : bytes) : bytes :=
  let buf := ripemd_buf msg in
  let h := foldl ripemd_block ripemdIV (map (block64 buf) (seq 0 (length buf / 64))) in
  mjoin (map (le_bytes 4) h).

(** ** The compression function of BLAKE2b *)

Definition blakeIV : list Z :=
  [0x6a09e667f3bcc908; 0xbb67ae8584caa73b; 0x3c6ef372fe94f82b; 0xa54ff53a5f1d36f1;
   0x510e527fade682d1; 0x9b05688c2b3e6c1f; 0x1f83d9abfb41bd6b; 0x5be0cd19137e2179].

Definition blakeSigma : list (list nat) :=
  [[0; 1; 2; 3; 4; 5; 6; 7; 8; 9; 10; 11; 12; 13; 14; 15];
   [14; 10; 4; 8; 9; 15; 13; 6; 1; 12; 0; 2; 11; 7; 5; 3];
   [11; 8; 12; 0; 5; 2; 15; 13; 10; 14; 3; 6; 7; 1; 9; 4];
   [7; 9; 3; 1; 13; 12; 11; 14; 2; 6; 5; 10; 4; 0; 15; 8];
   [9; 0; 5; 7; 2; 4; 10; 15; 14; 1; 11; 12; 6; 8; 3; 13];
   [2; 12; 6; 10; 0; 11; 8; 3; 4; 13; 7; 5; 15; 14; 1; 9];
   [12; 5; 1; 15; 14; 13; 4; 10; 0; 7; 6; 3; 9; 2; 8; 11];
   [13; 11; 7; 14; 12; 1; 3; 9; 5; 0; 15; 4; 8; 6; 2; 10];
   [6; 15; 14; 9; 11; 3; 0; 8; 12; 2; 13; 7; 1; 4; 10; 5];
   [10; 2; 8; 4; 7; 6; 1; 5; 15; 11; 9; 14; 3; 12; 13; 0]]%nat.

Definition rotr64 (x n : Z) : Z := Z.lor (shr64 x n) (shl64 x (64 - n)).

(** The closure [g] of [blake2F], on the array [v]. *)
Definition blake_g (a b c d : nat) (x y : Z) (v : list Z) : list Z :=
  let v := <[a := add64 (add64 (v !!! a) (v !!! b)) x]> v in
  let v := <[d := rotr64 (Z.lxor (v !!! d) (v !!! a)) 32]> v in
  let v := <[c := add64 (v !!! c) (v !!! d)]> v in
  let v := <[b := rotr64 (Z.lxor (v !!! b) (v !!! c)) 24]> v in
  let v := <[a := add64 (add64 (v !!! a) (v !!! b)) y]> v in
  let v := <[d := rotr64 (Z.lxor (v !!! d) (v !!! a)) 16]> v in
  let v := <[c := add64 (v !!! c) (v !!! d)]> v in
  <[b := rotr64 (Z.lxor (v !!! b) (v !!! c)) 63]> v.

Definition blake_round (m : list Z) (s : list nat) (v : list Z) : list Z :=
  let ms i := m !!! (s !!! i)%nat in
  let v := blake_g 0 4 8 12 (ms 0%nat) (ms 1%nat) v in
  let v := blake_g 1 5 9 13 (ms 2%nat) (ms 3%nat) v in
  let v := blake_g 2 6 10 14 (ms 4%nat) (ms 5%nat) v in
  let v := blake_g 3 7 11 15 (ms 6%nat) (ms 7%nat) v in
  let v := blake_g 0 5 10 15 (ms 8%nat) (ms 9%nat) v in
  let v := blake_g 1 6 11 12 (ms 10%nat) (ms 11%nat) v in
  let v := blake_g 2 7 8 13 (ms 12%nat) (ms 13%nat) v in
  blake_g 3 4 9 14 (ms 14%nat) (ms 15%nat) v.

Definition blake_rounds (m : list Z) (rounds : nat) (v : list Z) : list Z :=
  foldl (fun v r => blake_round m (blakeSigma !!! (r mod 10)%nat) v) v (seq 0 rounds).

Definition blake_init (h : list Z) (t0 t1 : Z) (f : bool) : list Z :=
  let v := h ++ blakeIV in
  let v := <[12%nat := Z.lxor (v !!! 12%nat) t0]> v in
  let v := <[13%nat := Z.lxor (v !!! 13%nat) t1]> v in
  if f then <[14%nat := not64 (v !!! 14%nat)]> v else v.

Definition blake2F (h m : list Z) (t0 t1 : Z) (f : bool) (rounds : Z) : list Z :=
  let v := blake_rounds m (Z.to_nat rounds) (blake_init h t0 t1 f) in
  map (fun i => Z.lxor (h !!! i) (Z.lxor (v !!! i) (v !!! (i + 8)%nat))) (seq 0 8).

(** ** Test vectors *)

Definition abc : bytes := [97; 98; 99].

Example Sum256_abc : be_val (Sum256 abc) = 0xba7816bf8f01cfea414140de5dae2223b00361a396177a9cb410ff61f20015ad.
Proof. vm_compute. reflexivity. Qed.

Example Sum256_two_blocks :
  be_val (Sum256 (replicate 56 97)) = 0xb35439a4ac6f0948b6d6f9e3c6af0f5f590ce20f1bde7090ef7970686ec6738a.
Proof. vm_compute. reflexivity. Qed.

Example ripemd160Sum_abc : be_val (ripemd160Sum abc) = 0x8eb208f7e05d987a9b044a8e98c6b087f15a0bfc.
Proof. vm_compute. reflexivity. Qed.

(** BLAKE2b-512 of [abc]: one block, with the parameters of the unkeyed function in [h0]. *)
Example blake2F_abc :
  be_val (mjoin (map (le_bytes 8)
    (blake2F (Z.lxor (blakeIV !!! 0%nat) 0x01010040 :: drop 1 blakeIV)
      (map (le_word 8 (abc ++ zeros 125)) (seq 0 16)) 3 0 true 12))) =
  0xba80a53f981c4d0d6a2797b69f12f6e94c212f14685ac4b74b12bb6fdbffa2d17d87c5392aab792dc252d5de4533cc9518d38aa8dbf1925ab92386edd4009923.
Proof. vm_compute. reflexivity. Qed.
