(* ===== verification/HashSpec.v ===== *)
(** * The hash functions: sizes, padding and the rows of BLAKE2b *)

From S2P Require Import Prelude Hashes.

(** ** Sizes *)

Lemma length_le_bytes n z : length (le_bytes n z) = n.
Proof. unfold le_bytes. by rewrite length_rev, length_be_bytes. Qed.

Lemma le_bytes_ok n z : bytes_ok (le_bytes n z).
Proof. apply List.Forall_rev, be_bytes_ok. Qed.

Lemma length_mjoin_words (f : Z -> bytes) n l : (forall z, length (f z) = n) -> length (mjoin (map f l)) = (n * length l)%nat.
Proof.
  intros Hf. induction l as [|z l IH]; [by rewrite Nat.mul_0_r|]. cbn [map length]. change (mjoin (f z :: map f l)) with (f z ++ mjoin (map f l)).
  rewrite length_app, Hf, IH. lia.
Qed.

Lemma bytes_ok_mjoin (f : Z -> bytes) l : (forall z, bytes_ok (f z)) -> bytes_ok (mjoin (map f l)).
Proof.
  intros Hf. induction l as [|z l IH]; [constructor|]. change (bytes_ok (f z ++ mjoin (map f l))).
  by apply bytes_ok_app.
Qed.

(** A property that every step keeps. *)
Lemma foldl_invariant {A B} (P : A -> Prop) (f : A -> B -> A) l a :
  P a -> (forall a b, P a -> P (f a b)) -> P (foldl f a l).
Proof. intros Ha Hf. revert a Ha. induction l as [|b l IH]; intros a Ha; [exact Ha|]. apply IH. by apply Hf. Qed.

(** Two loops that stay related. *)
Lemma foldl_simulation {A B C} (R : A -> B -> Prop) (f : A -> C -> A) (g : B -> C -> B) l a b :
  R a b -> (forall c a b, R a b -> R (f a c) (g b c)) -> R (foldl f a l) (foldl g b l).
Proof. intros H Hf. revert a b H. induction l as [|c l IH]; intros a b H; [exact H|]. apply IH. by apply Hf. Qed.

Lemma length_Sum256 msg : length (Sum256 msg) = 32%nat.
Proof.
  unfold Sum256. rewrite (length_mjoin_words _ 4) by apply length_be_bytes.
  set (l := map _ _). enough (length (foldl sha256_block sha256_H0 l) = 8%nat) as -> by reflexivity.
  apply (foldl_invariant (fun h => length h = 8%nat)); [reflexivity|]. intros h blk Hh. unfold sha256_block.
  rewrite length_zip_with, Hh.
  enough (length (foldl (sha256_round (sha256_schedule blk)) h (seq 0 64)) = 8%nat) as -> by reflexivity.
  apply (foldl_invariant (fun h => length h = 8%nat)); [exact Hh|]. intros s t Hs.
  do 8 (destruct s as [|? s]; [discriminate Hs|]). by destruct s.
Qed.

Lemma Sum256_ok msg : bytes_ok (Sum256 msg).
Proof. apply bytes_ok_mjoin. intros. apply be_bytes_ok. Qed.

Lemma length_ripemd_line f k x s l : length (ripemd_line f k x s l) = length l.
Proof. by destruct l as [|a [|b [|c [|d [|e [|? l]]]]]]. Qed.

Lemma length_ripemd160Sum msg : length (ripemd160Sum msg) = 20%nat.
Proof.
  unfold ripemd160Sum. rewrite (length_mjoin_words _ 4) by apply length_le_bytes.
  set (l := map _ _). enough (length (foldl ripemd_block ripemdIV l) = 5%nat) as -> by reflexivity.
  apply (foldl_invariant (fun h => length h = 5%nat)); [reflexivity|]. intros h blk Hh. unfold ripemd_block.
  do 5 (destruct h as [|? h]; [discriminate Hh|]). destruct h; [|discriminate Hh].
  match goal with |- context [foldl ?f ?a ?l] => destruct (foldl f a l) as [L R] end.
  repeat (destruct L as [|? L]; try reflexivity). 
  all: repeat (destruct R as [|? R]; try reflexivity).
Qed.

(** ** Padding

    The buffer is the message, the bit 1, zeros, and the length in bits: a whole number of blocks. *)

Lemma copy_at_start {A} (d s : list A) : (length s <= length d)%nat -> copy_at d 0 s = s ++ drop (length s) d.
Proof. intros H. unfold copy_at. rewrite Nat.sub_0_r, (take_ge s) by lia. reflexivity. Qed.

Lemma copy_at_end {A} (d s : list A) : (length s <= length d)%nat ->
  copy_at d (length d - length s) s = take (length d - length s) d ++ s.
Proof.
  intros H. unfold copy_at. replace (length d - (length d - length s))%nat with (length s) by lia.
  rewrite (take_ge s) by lia. rewrite drop_ge by lia. by rewrite app_nil_r.
Qed.

Lemma ripemd_buf_padding msg :
  let n := ((length msg + 9 + 63) / 64 * 64)%nat in
  ripemd_buf msg = msg ++ [0x80] ++ zeros (n - (length msg + 9)) ++ le_bytes 8 (u64 (Z.of_nat (length msg) * 8)).
Proof.
  intros n. unfold ripemd_buf.
  replace ((length msg + 1 + 8 + 63) / 64 * 64)%nat with n by (unfold n; do 2 f_equal; lia).
  assert (length msg + 9 <= n)%nat as Hn.
  { unfold n. pose proof (Nat.div_mod_eq (length msg + 9 + 63) 64) as Hdm. pose proof (Nat.mod_upper_bound (length msg + 9 + 63) 64 ltac:(lia)). lia. }
  rewrite copy_at_start by (unfold zeros; rewrite length_replicate; lia).
  assert (drop (length msg) (zeros n) = 0 :: zeros (n - (length msg + 9)) ++ zeros 8) as ->.
  { unfold zeros. rewrite drop_replicate. replace (n - length msg)%nat with (S (n - (length msg + 9) + 8)) by lia.
    cbn [replicate]. by rewrite replicate_add. }
  rewrite (insert_app_r_alt msg _ (length msg) 0x80), Nat.sub_diag by lia. cbn [insert list_insert].
  set (b := msg ++ 0x80 :: zeros (n - (length msg + 9)) ++ zeros 8).
  assert (length b = n) as Hb.
  { unfold b. rewrite length_app. cbn [length]. unfold zeros. rewrite length_app, !length_replicate. lia. }
  set (s := le_bytes 8 _). assert (length s = 8%nat) as Hs by apply length_le_bytes.
  rewrite <- Hs at 1. rewrite copy_at_end by lia. rewrite Hs, Hb.
  unfold b. replace (msg ++ 0x80 :: zeros (n - (length msg + 9)) ++ zeros 8)
    with ((msg ++ 0x80 :: zeros (n - (length msg + 9))) ++ zeros 8) by by rewrite <- app_assoc.
  rewrite take_app_length'.
  - by rewrite <- app_assoc.
  - rewrite length_app. cbn [length]. unfold zeros. rewrite length_replicate. lia.
Qed.

Lemma padding_blocks k msg (tail : bytes) : length tail = 8%nat ->
  let n := ((length msg + 9 + 63) / 64 * 64)%nat in k = (n - (length msg + 9))%nat ->
  (length (msg ++ [0x80%Z] ++ zeros k ++ tail) mod 64 = 0)%nat.
Proof.
  intros Ht n ->. pose proof (Nat.div_mod_eq (length msg + 9 + 63) 64) as Hdm. pose proof (Nat.mod_upper_bound (length msg + 9 + 63) 64 ltac:(lia)).
  assert (length (msg ++ [0x80%Z] ++ zeros (n - (length msg + 9)) ++ tail) = n) as ->.
  { unfold zeros. rewrite !length_app, length_replicate, Ht. cbn [length]. lia. }
  unfold n. apply Nat.Div0.mod_mul.
Qed.

(** ** BLAKE2b by rows

    The state as four rows of four words: a round mixes the four columns, rotates
    the rows so that the diagonals become columns, mixes again and rotates back. *)

Definition blake_mix (a b c d x y : Z) : Z * Z * Z * Z :=
  let a := add64 (add64 a b) x in
  let d := rotr64 (Z.lxor d a) 32 in
  let c := add64 c d in
  let b := rotr64 (Z.lxor b c) 24 in
  let a := add64 (add64 a b) y in
  let d := rotr64 (Z.lxor d a) 16 in
  let c := add64 c d in
  (a, rotr64 (Z.lxor b c) 63, c, d).

Definition rows : Type := list Z * list Z * list Z * list Z.

Definition column (r : rows) (x y : list Z) (i : nat) : Z * Z * Z * Z :=
  let '(a, b, c, d) := r in blake_mix (a !!! i) (b !!! i) (c !!! i) (d !!! i) (x !!! i) (y !!! i).

Definition mix_columns (r : rows) (x y : list Z) : rows :=
  let q := map (column r x y) (seq 0 4) in
  (map (fun t => fst (fst (fst t))) q, map (fun t => snd (fst (fst t))) q, map (fun t => snd (fst t)) q, map snd q).

Definition rotate_row (n : nat) (l : list Z) : list Z := drop n l ++ take n l.

Definition round_rows (m : list Z) (s : list nat) (r : rows) : rows :=
  let pick l := map (fun i => m !!! (s !!! i)) l in
  let '(a, b, c, d) := mix_columns r (pick [0; 2; 4; 6]%nat) (pick [1; 3; 5; 7]%nat) in
  let '(a, b, c, d) := mix_columns (a, rotate_row 1 b, rotate_row 2 c, rotate_row 3 d)
                         (pick [8; 10; 12; 14]%nat) (pick [9; 11; 13; 15]%nat) in
  (a, rotate_row 3 b, rotate_row 2 c, rotate_row 1 d).

Definition to_rows (v : list Z) : rows := (slice v 0 4, slice v 4 8, slice v 8 12, slice v 12 16).

(** The eight calls of [g] in a round, on a state of sixteen words. *)
Section calls.
Context (v0 v1 v2 v3 v4 v5 v6 v7 v8 v9 v10 v11 v12 v13 v14 v15 x y : Z).
Let v := [v0; v1; v2; v3; v4; v5; v6; v7; v8; v9; v10; v11; v12; v13; v14; v15].

Lemma blake_g_0 : blake_g 0 4 8 12 x y v =
  let '(p, q, r, s) := blake_mix v0 v4 v8 v12 x y in [p; v1; v2; v3; q; v5; v6; v7; r; v9; v10; v11; s; v13; v14; v15].
Proof. reflexivity. Qed.
Lemma blake_g_1 : blake_g 1 5 9 13 x y v =
  let '(p, q, r, s) := blake_mix v1 v5 v9 v13 x y in [v0; p; v2; v3; v4; q; v6; v7; v8; r; v10; v11; v12; s; v14; v15].
Proof. reflexivity. Qed.
Lemma blake_g_2 : blake_g 2 6 10 14 x y v =
  let '(p, q, r, s) := blake_mix v2 v6 v10 v14 x y in [v0; v1; p; v3; v4; v5; q; v7; v8; v9; r; v11; v12; v13; s; v15].
Proof. reflexivity. Qed.
Lemma blake_g_3 : blake_g 3 7 11 15 x y v =
  let '(p, q, r, s) := blake_mix v3 v7 v11 v15 x y in [v0; v1; v2; p; v4; v5; v6; q; v8; v9; v10; r; v12; v13; v14; s].
Proof. reflexivity. Qed.
Lemma blake_g_4 : blake_g 0 5 10 15 x y v =
  let '(p, q, r, s) := blake_mix v0 v5 v10 v15 x y in [p; v1; v2; v3; v4; q; v6; v7; v8; v9; r; v11; v12; v13; v14; s].
Proof. reflexivity. Qed.
Lemma blake_g_5 : blake_g 1 6 11 12 x y v =
  let '(p, q, r, s) := blake_mix v1 v6 v11 v12 x y in [v0; p; v2; v3; v4; v5; q; v7; v8; v9; v10; r; s; v13; v14; v15].
Proof. reflexivity. Qed.
Lemma blake_g_6 : blake_g 2 7 8 13 x y v =
  let '(p, q, r, s) := blake_mix v2 v7 v8 v13 x y in [v0; v1; p; v3; v4; v5; v6; q; r; v9; v10; v11; v12; s; v14; v15].
Proof. reflexivity. Qed.
Lemma blake_g_7 : blake_g 3 4 9 14 x y v =
  let '(p, q, r, s) := blake_mix v3 v4 v9 v14 x y in [v0; v1; v2; p; q; v5; v6; v7; v8; r; v10; v11; v12; v13; s; v15].
Proof. reflexivity. Qed.
End calls.

Ltac mix :=
  match goal with |- context [blake_mix ?a ?b ?c ?d ?x ?y] => destruct (blake_mix a b c d x y) as [[[? ?] ?] ?] end.

Lemma blake_round_rows m s v : length v = 16%nat ->
  length (blake_round m s v) = 16%nat /\ to_rows (blake_round m s v) = round_rows m s (to_rows v).
Proof.
  intros Hv. do 16 (destruct v as [|? v]; [discriminate Hv|]). destruct v; [|discriminate Hv]. clear Hv.
  unfold blake_round, round_rows. cbn [map].
  generalize (m !!! (s !!! 0)%nat), (m !!! (s !!! 1)%nat), (m !!! (s !!! 2)%nat), (m !!! (s !!! 3)%nat),
    (m !!! (s !!! 4)%nat), (m !!! (s !!! 5)%nat), (m !!! (s !!! 6)%nat), (m !!! (s !!! 7)%nat),
    (m !!! (s !!! 8)%nat), (m !!! (s !!! 9)%nat), (m !!! (s !!! 10)%nat), (m !!! (s !!! 11)%nat),
    (m !!! (s !!! 12)%nat), (m !!! (s !!! 13)%nat), (m !!! (s !!! 14)%nat), (m !!! (s !!! 15)%nat). intros.
  rewrite blake_g_0. cbv -[blake_mix blake_g].
  mix. rewrite blake_g_1. mix. rewrite blake_g_2. mix. rewrite blake_g_3. mix.
  rewrite blake_g_4. mix. rewrite blake_g_5. mix. rewrite blake_g_6. mix. rewrite blake_g_7. mix. split; reflexivity.
Qed.

Definition rounds_rows (m : list Z) (rounds : nat) (R : rows) : rows :=
  foldl (fun R r => round_rows m (blakeSigma !!! (r mod 10)%nat) R) R (seq 0 rounds).

Lemma blake_rounds_rows m n v : length v = 16%nat ->
  length (blake_rounds m n v) = 16%nat /\ to_rows (blake_rounds m n v) = rounds_rows m n (to_rows v).
Proof.
  intros Hv. apply (foldl_simulation (fun v R => length v = 16%nat /\ to_rows v = R)); [by split|].
  intros r a R [Ha <-]. by apply blake_round_rows.
Qed.

(** The compression function of RFC 7693. *)
Definition compress_rows (h m : list Z) (t0 t1 : Z) (f : bool) (rounds : nat) : list Z :=
  let last := [Z.lxor 0x510e527fade682d1 t0; Z.lxor 0x9b05688c2b3e6c1f t1;
               (if f then not64 0x1f83d9abfb41bd6b else 0x1f83d9abfb41bd6b); 0x5be0cd19137e2179] in
  let '(a, b, c, d) := rounds_rows m rounds (take 4 h, drop 4 h, take 4 blakeIV, last) in
  zip_with Z.lxor h (zip_with Z.lxor (a ++ b) (c ++ d)).

Lemma blake2F_compress h m t0 t1 f rounds : length h = 8%nat ->
  blake2F h m t0 t1 f rounds = compress_rows h m t0 t1 f (Z.to_nat rounds).
Proof.
  intros Hh. unfold blake2F, compress_rows.
  do 8 (destruct h as [|? h]; [discriminate Hh|]). destruct h; [|discriminate Hh].
  set (v0 := blake_init _ _ _ _).
  destruct (blake_rounds_rows m (Z.to_nat rounds) v0) as [Hv Hr]; [by destruct f|].
  assert (to_rows v0 = ([z; z0; z1; z2], [z3; z4; z5; z6], take 4 blakeIV,
    [Z.lxor 0x510e527fade682d1 t0; Z.lxor 0x9b05688c2b3e6c1f t1;
     (if f then not64 0x1f83d9abfb41bd6b else 0x1f83d9abfb41bd6b); 0x5be0cd19137e2179])) as E by by destruct f.
  rewrite E in Hr. cbn [take drop]. rewrite <- Hr. clear Hr E.
  generalize dependent (blake_rounds m (Z.to_nat rounds) v0). intros v Hv.
  do 16 (destruct v as [|? v]; [discriminate Hv|]). destruct v; [|discriminate Hv]. reflexivity.
Qed.
