(* ===== verification/Bn254.v ===== *)
(** * The curve bn254: [pkg/c2block/precompiles.go]

    Field, curve and pairing arithmetic on [big.Int] values, which are integers
    here. [fpInv] is nil on a number that is not invertible; every caller
    multiplies its result, which dereferences it, so it is a panic. *)

From S2P Require Import Prelude Uint256 ModArith Primes.

Definition bnN : Z := 21888242871839275222246405745257275088548364400416034343698204186575808495617.
Definition bnB : Z := 3.
Definition bnU : Z := 4965661367192848881.

(** Coordinates and points are total; an inversion can panic. *)
Abbreviation bnM := (outcome unit).

(** ** The base field *)

Definition fpMod (x : Z) : Z := x mod bnP.
Definition fpAdd (a b : Z) : Z := fpMod (a + b).
Definition fpSub (a b : Z) : Z := fpMod (a - b).
Definition fpMul (a b : Z) : Z := fpMod (a * b).
Definition fpNeg (a : Z) : Z := fpMod (- a).
Definition fpSqr (a : Z) : Z := fpMul a a.
Definition fpInv (a : Z) : bnM Z := match mod_inverse a bnP with Some i => Ok i | None => Panic end.

Definition fpFromBytes (b : bytes) : option Z :=
  if negb (length b =? 32)%nat then None
  else let n := be_val b in if bnP <=? n then None else Some n.

Definition fpToBytes (n : Z) : bytes := be_bytes 32 n.

(** ** The group G1 *)

Record g1Point := G1 { g1x : Z; g1y : Z; g1inf : bool }.

Definition g1Inf : g1Point := G1 0 0 true.

Definition g1OnCurve (p : g1Point) : bool :=
  if g1inf p then true
  else fpSqr (g1y p) =? fpAdd (fpMul (fpSqr (g1x p)) (g1x p)) bnB.

Definition g1Unmarshal (b : bytes) : option g1Point :=
  if negb (length b =? 64)%nat then None
  else
    x ← fpFromBytes (slice b 0 32);
    y ← fpFromBytes (slice b 32 64);
    if (x =? 0) && (y =? 0) then Some g1Inf
    else let p := G1 x y false in if negb (g1OnCurve p) then None else Some p.

Definition g1Marshal (p : g1Point) : bytes :=
  if g1inf p then zeros 64 else fpToBytes (g1x p) ++ fpToBytes (g1y p).

Definition g1Neg (p : g1Point) : g1Point := if g1inf p then p else G1 (g1x p) (fpNeg (g1y p)) false.

Definition g1Double (p : g1Point) : bnM g1Point :=
  if g1inf p || (g1y p =? 0) then Ok g1Inf
  else
    let xx := fpSqr (g1x p) in
    i ← fpInv (fpMul 2 (g1y p));
    let m := fpMul (fpAdd (fpAdd xx xx) xx) i in
    let x3 := fpSub (fpSub (fpSqr m) (g1x p)) (g1x p) in
    let y3 := fpSub (fpMul m (fpSub (g1x p) x3)) (g1y p) in
    Ok (G1 x3 y3 false).

Definition g1Add (p q : g1Point) : bnM g1Point :=
  if g1inf p then Ok q
  else if g1inf q then Ok p
  else if g1x p =? g1x q then if g1y p =? g1y q then g1Double p else Ok g1Inf
  else
    i ← fpInv (fpSub (g1x q) (g1x p));
    let m := fpMul (fpSub (g1y q) (g1y p)) i in
    let x3 := fpSub (fpSub (fpSqr m) (g1x p)) (g1x q) in
    let y3 := fpSub (fpMul m (fpSub (g1x p) x3)) (g1y p) in
    Ok (G1 x3 y3 false).

(** The loop of [g1Mul], from the low bit of [k]: the base is doubled after the last bit too. *)
Fixpoint g1_mul_loop (k : positive) (r base : g1Point) : bnM g1Point :=
  match k with
  | xH => r ← g1Add r base; _ ← g1Double base; Ok r
  | xO k => base ← g1Double base; g1_mul_loop k r base
  | xI k => r ← g1Add r base; base ← g1Double base; g1_mul_loop k r base
  end.

Definition g1Mul (p : g1Point) (k : Z) : bnM g1Point :=
  if g1inf p || (k =? 0) then Ok g1Inf
  else match k with
       | Zpos e => g1_mul_loop e g1Inf p
       | Zneg e => if g1inf (g1Neg p) then Ok g1Inf else g1_mul_loop e g1Inf (g1Neg p)
       | Z0 => Ok g1Inf
       end.

(** ** The quadratic extension *)

Record f2 := F2 { f2a : Z; f2b : Z }.

Definition f2c (a b : Z) : f2 := F2 (fpMod a) (fpMod b).
Definition f2z : f2 := F2 0 0.
Definition f2o : f2 := F2 1 0.
Definition f2neg (x : f2) : f2 := F2 (fpNeg (f2a x)) (fpNeg (f2b x)).
Definition f2add (x y : f2) : f2 := F2 (fpAdd (f2a x) (f2a y)) (fpAdd (f2b x) (f2b y)).
Definition f2sub (x y : f2) : f2 := F2 (fpSub (f2a x) (f2a y)) (fpSub (f2b x) (f2b y)).
Definition f2mul (x y : f2) : f2 :=
  F2 (fpSub (fpMul (f2a x) (f2a y)) (fpMul (f2b x) (f2b y)))
     (fpAdd (fpMul (f2a x) (f2b y)) (fpMul (f2b x) (f2a y))).
Definition f2sqr (x : f2) : f2 := f2mul x x.
Definition f2inv (x : f2) : bnM f2 :=
  let n := fpAdd (fpSqr (f2a x)) (fpSqr (f2b x)) in
  i ← fpInv n;
  Ok (F2 (fpMul (f2a x) i) (fpMul (fpNeg (f2b x)) i)).
Definition f2con (x : f2) : f2 := F2 (f2a x) (fpNeg (f2b x)).
Definition f2eq (x y : f2) : bool := (f2a x =? f2a y) && (f2b x =? f2b y).
Definition f2frobenius (x : f2) : f2 := f2con x.
Definition f2mulXi (x : f2) : f2 := F2 (fpSub (fpMul 9 (f2a x)) (f2b x)) (fpAdd (fpMul 9 (f2b x)) (f2a x)).

(** ** The group G2 *)

Record g2Point := G2 { g2x : f2; g2y : f2; g2inf : bool }.

Definition g2Inf : g2Point := G2 f2z f2z true.

Definition g2OnCurve (p : g2Point) : bool :=
  if g2inf p then true
  else
    let yy := f2sqr (g2y p) in
    let xxx := f2mul (f2sqr (g2x p)) (g2x p) in
    f2eq yy (f2add xxx (f2mulXi (f2c bnB 0))).

Definition g2Unmarshal (b : bytes) : option g2Point :=
  if negb (length b =? 128)%nat then None
  else
    xim ← fpFromBytes (slice b 0 32);
    xre ← fpFromBytes (slice b 32 64);
    yim ← fpFromBytes (slice b 64 96);
    yre ← fpFromBytes (slice b 96 128);
    if (xre =? 0) && (xim =? 0) && (yre =? 0) && (yim =? 0) then Some g2Inf
    else let p := G2 (F2 xre xim) (F2 yre yim) false in if negb (g2OnCurve p) then None else Some p.

Definition g2Neg (p : g2Point) : g2Point := if g2inf p then p else G2 (g2x p) (f2neg (g2y p)) false.

Definition g2Double (p : g2Point) : bnM g2Point :=
  if g2inf p || ((f2a (g2y p) =? 0) && (f2b (g2y p) =? 0)) then Ok g2Inf
  else
    let xx := f2sqr (g2x p) in
    let three := f2add (f2add xx xx) xx in
    i ← f2inv (f2add (g2y p) (g2y p));
    let m := f2mul three i in
    let x3 := f2sub (f2sub (f2sqr m) (g2x p)) (g2x p) in
    let y3 := f2sub (f2mul m (f2sub (g2x p) x3)) (g2y p) in
    Ok (G2 x3 y3 false).

Definition g2Add (p q : g2Point) : bnM g2Point :=
  if g2inf p then Ok q
  else if g2inf q then Ok p
  else if f2eq (g2x p) (g2x q) then if f2eq (g2y p) (g2y q) then g2Double p else Ok g2Inf
  else
    i ← f2inv (f2sub (g2x q) (g2x p));
    let m := f2mul (f2sub (g2y q) (g2y p)) i in
    let x3 := f2sub (f2sub (f2sqr m) (g2x p)) (g2x q) in
    let y3 := f2sub (f2mul m (f2sub (g2x p) x3)) (g2y p) in
    Ok (G2 x3 y3 false).

(** ** The sextic extension *)

Record f6 := F6 { f6x : f2; f6y : f2; f6w : f2 }.

Definition f6z : f6 := F6 f2z f2z f2z.
Definition f6o : f6 := F6 f2o f2z f2z.
Definition f6add (a b : f6) : f6 := F6 (f2add (f6x a) (f6x b)) (f2add (f6y a) (f6y b)) (f2add (f6w a) (f6w b)).
Definition f6sub (a b : f6) : f6 := F6 (f2sub (f6x a) (f6x b)) (f2sub (f6y a) (f6y b)) (f2sub (f6w a) (f6w b)).
Definition f6neg (a : f6) : f6 := F6 (f2neg (f6x a)) (f2neg (f6y a)) (f2neg (f6w a)).

Definition f6mul (a b : f6) : f6 :=
  let v0 := f2mul (f6x a) (f6x b) in
  let v1 := f2mul (f6y a) (f6y b) in
  let v2 := f2mul (f6w a) (f6w b) in
  let c0 := f2add v0 (f2mulXi (f2sub (f2sub (f2mul (f2add (f6y a) (f6w a)) (f2add (f6y b) (f6w b))) v1) v2)) in
  let c1 := f2add (f2sub (f2sub (f2mul (f2add (f6x a) (f6y a)) (f2add (f6x b) (f6y b))) v0) v1) (f2mulXi v2) in
  let c2 := f2add (f2add (f2sub (f2sub (f2mul (f2add (f6x a) (f6w a)) (f2add (f6x b) (f6w b))) v0) v2) v1) f2z in
  F6 c0 c1 c2.

Definition f6sqr (a : f6) : f6 := f6mul a a.
Definition f6mulTau (a : f6) : f6 := F6 (f2mulXi (f6w a)) (f6x a) (f6y a).

Definition f6inv (a : f6) : bnM f6 :=
  let t0 := f2sqr (f6x a) in
  let t1 := f2sqr (f6y a) in
  let t2 := f2sqr (f6w a) in
  let t3 := f2mul (f6x a) (f6y a) in
  let t4 := f2mul (f6y a) (f6w a) in
  let t5 := f2mul (f6x a) (f6w a) in
  let c0 := f2sub t0 (f2mulXi t4) in
  let c1 := f2sub (f2mulXi t2) t3 in
  let c2 := f2sub t1 t5 in
  let t6 := f2add (f2mul (f6x a) c0) (f2mulXi (f2add (f2mul (f6w a) c1) (f2mul (f6y a) c2))) in
  t6 ← f2inv t6;
  Ok (F6 (f2mul c0 t6) (f2mul c1 t6) (f2mul c2 t6)).

Definition f2xiToPMinus1Over3 : f2 := F2 0x2eaade263d1f5b1c9e03898117cb6ce6aa5b3d4c4c9c6d5f5a3b0c0e0d0c0b0a 0.
Definition f2xiToPMinus1Over2 : f2 := F2 0x1d9598e8f701d8a50e74d6af4829bbd910f6ee93b9216f4d937642a410f41200 0.
Definition f2xiToPMinus1Over6 : f2 :=
  F2 0x1284b71c832b1478a799ae340097a3c690f5b5ab8b57f1e688c69332f1fa38c1
     0x0dd8c5fecf7d6c2c36d1a9c5a0c1c0e0d0c0b0a090807060504030201000000.

Definition f6frobenius (a : f6) : f6 :=
  F6 (f2frobenius (f6x a)) (f2mul (f2frobenius (f6y a)) f2xiToPMinus1Over3) (f2mul (f2frobenius (f6w a)) f2xiToPMinus1Over2).

(** ** The extension of degree twelve *)

Record f12 := F12 { f12x : f6; f12y : f6 }.

Definition fp12One : f12 := F12 f6o f6z.
Definition fp12Zero : f12 := F12 f6z f6z.
Definition fp12IsOne (a : f12) : bool :=
  f2eq (f6x (f12x a)) f2o && f2eq (f6y (f12x a)) f2z && f2eq (f6w (f12x a)) f2z &&
  f2eq (f6x (f12y a)) f2z && f2eq (f6y (f12y a)) f2z && f2eq (f6w (f12y a)) f2z.
Definition fp12Add (a b : f12) : f12 := F12 (f6add (f12x a) (f12x b)) (f6add (f12y a) (f12y b)).

Definition fp12Mul (a b : f12) : f12 :=
  let tx := f6mul (f12x a) (f12x b) in
  let ty := f6mul (f12y a) (f12y b) in
  let c0 := f6add tx (f6mulTau ty) in
  let c1 := f6mul (f6add (f12x a) (f12y a)) (f6add (f12x b) (f12y b)) in
  let c1 := f6sub (f6sub c1 tx) ty in
  F12 c0 c1.

Definition fp12Sqr (a : f12) : f12 := fp12Mul a a.

Definition fp12Inv (a : f12) : bnM f12 :=
  let t0 := f6mul (f12x a) (f12x a) in
  let t1 := f6mul (f12y a) (f12y a) in
  let t0 := f6sub t0 (f6mulTau t1) in
  t0 ← f6inv t0;
  Ok (F12 (f6mul (f12x a) t0) (f6neg (f6mul (f12y a) t0))).

Definition fp12Conjugate (a : f12) : f12 := F12 (f12x a) (f6neg (f12y a)).
Definition fp12Frobenius (a : f12) : f12 :=
  F12 (f6frobenius (f12x a)) (f6mul (f6frobenius (f12y a)) (F6 f2xiToPMinus1Over6 f2z f2z)).

(** The loop runs over the bits of the exponent, the base is squared after the last one too. *)
Fixpoint exp_loop (k : positive) (r base : f12) : f12 :=
  match k with
  | xH => fp12Mul r base
  | xO k => exp_loop k r (fp12Sqr base)
  | xI k => exp_loop k (fp12Mul r base) (fp12Sqr base)
  end.

Definition expFp12 (a : f12) (e : Z) : f12 :=
  match e with Zpos k => exp_loop k fp12One a | _ => fp12One end.

(** ** The pairing *)

Definition lineEval (q r : g2Point) (p : g1Point) : bnM (g2Point * f12) :=
  t ← g2Add q r;
  if g2inf q || g2inf r then Ok (t, fp12One)
  else if f2eq (g2x q) (g2x r) && negb (f2eq (g2y q) (g2y r)) then Ok (t, fp12One)
  else
    slope ← (if f2eq (g2x q) (g2x r) && f2eq (g2y q) (g2y r) then
               let xx := f2sqr (g2x q) in
               let num := f2add (f2add xx xx) xx in
               i ← f2inv (f2add (g2y q) (g2y q));
               Ok (f2mul num i)
             else
               i ← f2inv (f2sub (g2x r) (g2x q));
               Ok (f2mul (f2sub (g2y r) (g2y q)) i));
    let l0 := f2add (f2neg (f2mul slope (g2x q))) (g2y q) in
    let a := f2sub (f2c (g1y p) 0) (f2add (f2mul slope (f2c (g1x p) 0)) l0) in
    Ok (t, F12 f6o (F6 a f2z f2z)).

(** [6 u + 2] *)
Definition ate : Z := bnU * 6 + 2.

(** The loop of [miller], from bit [n - 1] of [ate] down to bit 0. *)
Fixpoint miller_loop (p : g1Point) (q : g2Point) (n : nat) (f : f12) (t : g2Point) : bnM f12 :=
  match n with
  | O => Ok f
  | S i =>
      let f := fp12Sqr f in
      '(t, l) ← lineEval t t p;
      let f := fp12Mul f l in
      if Z.testbit ate (Z.of_nat i) then
        '(t, l) ← lineEval t q p;
        miller_loop p q i (fp12Mul f l) t
      else miller_loop p q i f t
  end.

(** [ate.BitLen() - 1] rounds: the first bit is skipped. *)
Definition miller (p : g1Point) (q : g2Point) : bnM f12 :=
  miller_loop p q (Z.to_nat (Z.log2 ate)) fp12One q.

Definition finalExp (f : f12) : bnM f12 :=
  let f1 := fp12Conjugate f in
  f2 ← fp12Inv f;
  let r := fp12Mul f1 f2 in
  let r := fp12Frobenius (fp12Frobenius r) in
  let r := fp12Mul r f in
  Ok (expFp12 r ((bnP ^ 12 - 1) / bnN)).
