(* ===== verification/BnTower.v ===== *)
(** * The extension fields of bn254

    The operations of [Bn254] on pairs, sextuples and twelve coordinates are those
    of commutative rings [F_p[i]/(i^2 + 1)], [F_p2[t]/(t^3 - xi)] and
    [F_p6[w]/(w^2 - t)], with norms that are multiplicative; an element has an
    inverse, which the code finds, exactly when its norm is not zero. *)

From S2P Require Import Prelude ModArith Primes Bn254.
From Stdlib Require Import Ring Zdivisibility.

(** ** Residues *)

Lemma fpMod_cong x : fpMod x =[bnP]= x.
Proof. apply cong_mod. Qed.

Lemma fpMod_range x : 0 <= fpMod x < bnP.
Proof. apply Z.mod_pos_bound. reflexivity. Qed.

Ltac fp_simpl := unfold fpAdd, fpSub, fpMul, fpNeg, fpSqr; rewrite ?fpMod_cong.

Lemma fpAdd_cong a b : fpAdd a b =[bnP]= a + b.
Proof. apply cong_mod. Qed.
Lemma fpSub_cong a b : fpSub a b =[bnP]= a - b.
Proof. apply cong_mod. Qed.
Lemma fpMul_cong a b : fpMul a b =[bnP]= a * b.
Proof. apply cong_mod. Qed.
Lemma fpNeg_cong a : fpNeg a =[bnP]= - a.
Proof. apply cong_mod. Qed.

(** A ring identity of expressions of the code, modulo the prime: the reductions go from the outside in. *)
Ltac fp_ring :=
  unfold fpSqr;
  repeat first [rewrite fpMul_cong | rewrite fpAdd_cong | rewrite fpSub_cong | rewrite fpNeg_cong];
  apply cong_eq; ring.

(** ** The quadratic extension *)

Definition eq2 (x y : f2) : Prop := f2a x =[bnP]= f2a y /\ f2b x =[bnP]= f2b y.

#[export] Instance eq2_equiv : Equivalence eq2.
Proof.
  split.
  - intros x. split; reflexivity.
  - intros x y [H1 H2]. split; symmetry; assumption.
  - intros x y z [H1 H2] [H3 H4]. split; etransitivity; eassumption.
Qed.

Lemma f2mul_eq x y :
  eq2 (f2mul x y) (F2 (f2a x * f2a y - f2b x * f2b y) (f2a x * f2b y + f2b x * f2a y)).
Proof. split; unfold f2mul; cbn [f2a f2b]; fp_ring. Qed.
Lemma f2add_eq x y : eq2 (f2add x y) (F2 (f2a x + f2a y) (f2b x + f2b y)).
Proof. split; unfold f2add; cbn [f2a f2b]; fp_ring. Qed.
Lemma f2sub_eq x y : eq2 (f2sub x y) (F2 (f2a x - f2a y) (f2b x - f2b y)).
Proof. split; unfold f2sub; cbn [f2a f2b]; fp_ring. Qed.
Lemma f2neg_eq x : eq2 (f2neg x) (F2 (- f2a x) (- f2b x)).
Proof. split; unfold f2neg; cbn [f2a f2b]; fp_ring. Qed.

#[export] Instance F2_proper : Proper (cong bnP ==> cong bnP ==> eq2) F2.
Proof. by intros a b H c d H'. Qed.
#[export] Instance f2a_proper : Proper (eq2 ==> cong bnP) f2a.
Proof. by intros x y [H _]. Qed.
#[export] Instance f2b_proper : Proper (eq2 ==> cong bnP) f2b.
Proof. by intros x y [_ H]. Qed.
#[export] Instance f2mul_proper : Proper (eq2 ==> eq2 ==> eq2) f2mul.
Proof. intros x y H z t H'. rewrite !f2mul_eq. by rewrite H, H'. Qed.
#[export] Instance f2add_proper : Proper (eq2 ==> eq2 ==> eq2) f2add.
Proof. intros x y H z t H'. rewrite !f2add_eq. by rewrite H, H'. Qed.
#[export] Instance f2sub_proper : Proper (eq2 ==> eq2 ==> eq2) f2sub.
Proof. intros x y H z t H'. rewrite !f2sub_eq. by rewrite H, H'. Qed.
#[export] Instance f2neg_proper : Proper (eq2 ==> eq2) f2neg.
Proof. intros x y H. rewrite !f2neg_eq. by rewrite H. Qed.

(** An equation between expressions of [f2], coordinate by coordinate. *)
Ltac f2_ring :=
  unfold f2z, f2o; rewrite ?f2mul_eq, ?f2add_eq, ?f2sub_eq, ?f2neg_eq; cbn [f2a f2b];
  split; cbn [f2a f2b]; apply cong_eq; ring.

Lemma f2_ring_laws : ring_theory f2z f2o f2add f2mul f2sub f2neg eq2.
Proof. split; intros; repeat (rewrite ?f2mul_eq, ?f2add_eq, ?f2sub_eq, ?f2neg_eq); f2_ring. Qed.

Lemma f2_ring_ext : ring_eq_ext f2add f2mul f2neg eq2.
Proof. split; [exact f2add_proper|exact f2mul_proper|exact f2neg_proper]. Qed.

Add Ring F2_ring : f2_ring_laws (setoid eq2_equiv f2_ring_ext).

Definition xi : f2 := F2 9 1.

Lemma f2mulXi_eq x : eq2 (f2mulXi x) (f2mul xi x).
Proof. rewrite f2mul_eq. split; unfold f2mulXi, xi; cbn [f2a f2b]; fp_ring. Qed.

#[export] Instance f2mulXi_proper : Proper (eq2 ==> eq2) f2mulXi.
Proof. intros x y H. rewrite !f2mulXi_eq. by rewrite H. Qed.

(** The norm of [a + b i]. *)
Definition n2 (x : f2) : Z := f2a x * f2a x + f2b x * f2b x.

#[export] Instance n2_proper : Proper (eq2 ==> cong bnP) n2.
Proof. intros x y H. unfold n2. by rewrite H. Qed.

Lemma n2_mul x y : n2 (f2mul x y) =[bnP]= n2 x * n2 y.
Proof. rewrite f2mul_eq. unfold n2. cbn [f2a f2b]. apply cong_eq. ring. Qed.

(** [f2inv] inverts what has a norm that is not zero. *)
Lemma f2inv_spec x :
  match f2inv x with
  | Ok i => eq2 (f2mul x i) f2o /\ ~ n2 x =[bnP]= 0
  | Panic => n2 x =[bnP]= 0
  | _ => False
  end.
Proof.
  unfold f2inv, fpInv. set (n := fpAdd (fpSqr (f2a x)) (fpSqr (f2b x))).
  assert (n =[bnP]= n2 x) as En by (unfold n, n2; fp_ring).
  pose proof (mod_inverse_cases n bnP prime_bnP) as H. destruct (mod_inverse n bnP) as [i|]; cbn [mbind outcome_bind].
  2: { rewrite <- En. exact H. }
  destruct H as (_ & Ei & Hn). split; [|by rewrite <- En].
  rewrite f2mul_eq. split; cbn [f2a f2b]; repeat first [rewrite fpMul_cong | rewrite fpNeg_cong].
  - transitivity (i * n2 x); [apply cong_eq; unfold n2; ring|]. rewrite <- En. exact Ei.
  - apply cong_eq. cbn [f2o f2b]. ring.
Qed.

(** ** The sextic extension *)

Definition eq6 (x y : f6) : Prop := eq2 (f6x x) (f6x y) /\ eq2 (f6y x) (f6y y) /\ eq2 (f6w x) (f6w y).

#[export] Instance eq6_equiv : Equivalence eq6.
Proof.
  split.
  - intros x. split; [reflexivity|]. split; reflexivity.
  - intros x y (H1 & H2 & H3). split; [|split]; symmetry; assumption.
  - intros x y z (H1 & H2 & H3) (H4 & H5 & H6). split; [|split]; etransitivity; eassumption.
Qed.

#[export] Instance F6_proper : Proper (eq2 ==> eq2 ==> eq2 ==> eq6) F6.
Proof. intros a b H c d H' e f H''. split; [exact H|]. split; [exact H'|exact H'']. Qed.
#[export] Instance f6x_proper : Proper (eq6 ==> eq2) f6x.
Proof. intros x y (H & _ & _). exact H. Qed.
#[export] Instance f6y_proper : Proper (eq6 ==> eq2) f6y.
Proof. intros x y (_ & H & _). exact H. Qed.
#[export] Instance f6w_proper : Proper (eq6 ==> eq2) f6w.
Proof. intros x y (_ & _ & H). exact H. Qed.
#[export] Instance f6add_proper : Proper (eq6 ==> eq6 ==> eq6) f6add.
Proof. intros x y H z t H'. unfold f6add. by rewrite H, H'. Qed.
#[export] Instance f6sub_proper : Proper (eq6 ==> eq6 ==> eq6) f6sub.
Proof. intros x y H z t H'. unfold f6sub. by rewrite H, H'. Qed.
#[export] Instance f6neg_proper : Proper (eq6 ==> eq6) f6neg.
Proof. intros x y H. unfold f6neg. by rewrite H. Qed.

(** The product of two polynomials of degree two in [t], reduced by [t^3 = xi]. *)
Definition f6_product (a b : f6) : f6 :=
  F6 (f2add (f2mul (f6x a) (f6x b)) (f2mul xi (f2add (f2mul (f6y a) (f6w b)) (f2mul (f6w a) (f6y b)))))
     (f2add (f2add (f2mul (f6x a) (f6y b)) (f2mul (f6y a) (f6x b))) (f2mul xi (f2mul (f6w a) (f6w b))))
     (f2add (f2add (f2mul (f6x a) (f6w b)) (f2mul (f6w a) (f6x b))) (f2mul (f6y a) (f6y b))).

Lemma f6mul_product a b : eq6 (f6mul a b) (f6_product a b).
Proof.
  split; [|split]; unfold f6mul, f6_product; cbn [f6x f6y f6w]; rewrite ?f2mulXi_eq; ring.
Qed.

#[export] Instance f6_product_proper : Proper (eq6 ==> eq6 ==> eq6) f6_product.
Proof. intros x y H z t H'. unfold f6_product. by rewrite H, H'. Qed.
#[export] Instance f6mul_proper : Proper (eq6 ==> eq6 ==> eq6) f6mul.
Proof. intros x y H z t H'. rewrite !f6mul_product. by rewrite H, H'. Qed.

(** An equation between expressions of [f6], coordinate by coordinate. *)
Ltac f6_ring :=
  rewrite ?f6mul_product; unfold f6_product, f6add, f6sub, f6neg, f6z, f6o;
  split; [|split]; cbn [f6x f6y f6w]; ring.

Lemma f6_ring_laws : ring_theory f6z f6o f6add f6mul f6sub f6neg eq6.
Proof. split; intros; f6_ring. Qed.

Lemma f6_ring_ext : ring_eq_ext f6add f6mul f6neg eq6.
Proof. split; [exact f6add_proper|exact f6mul_proper|exact f6neg_proper]. Qed.

Add Ring F6_ring : f6_ring_laws (setoid eq6_equiv f6_ring_ext).

(** The element [t]. *)
Definition tau : f6 := F6 f2z f2o f2z.

Lemma f6mulTau_eq x : eq6 (f6mulTau x) (f6mul tau x).
Proof.
  rewrite f6mul_product. unfold f6mulTau, f6_product, tau. split; [|split]; cbn [f6x f6y f6w]; rewrite ?f2mulXi_eq; ring.
Qed.

#[export] Instance f6mulTau_proper : Proper (eq6 ==> eq6) f6mulTau.
Proof. intros x y H. rewrite !f6mulTau_eq. by rewrite H. Qed.

(** The conjugate of [a] and its norm, as [f6inv] computes them. *)
Definition adj6 (a : f6) : f6 :=
  F6 (f2sub (f2sqr (f6x a)) (f2mulXi (f2mul (f6y a) (f6w a))))
     (f2sub (f2mulXi (f2sqr (f6w a))) (f2mul (f6x a) (f6y a)))
     (f2sub (f2sqr (f6y a)) (f2mul (f6x a) (f6w a))).
Definition n6 (a : f6) : f2 :=
  f2add (f2mul (f6x a) (f6x (adj6 a)))
        (f2mulXi (f2add (f2mul (f6w a) (f6y (adj6 a))) (f2mul (f6y a) (f6w (adj6 a))))).

#[export] Instance n6_proper : Proper (eq6 ==> eq2) n6.
Proof. intros x y H. unfold n6, adj6, f2sqr. cbn [f6x f6y f6w]. by rewrite H. Qed.

Lemma n6_mul a b : eq2 (n6 (f6mul a b)) (f2mul (n6 a) (n6 b)).
Proof.
  rewrite f6mul_product. unfold n6, adj6, f6_product, f2sqr. cbn [f6x f6y f6w]. rewrite !f2mulXi_eq. ring.
Qed.

Lemma adj6_mul a : eq6 (f6mul a (adj6 a)) (F6 (n6 a) f2z f2z).
Proof.
  rewrite f6mul_product. unfold n6, f6_product, adj6, f2sqr. split; [|split]; cbn [f6x f6y f6w];
    rewrite ?f2mulXi_eq; ring.
Qed.

Lemma f6inv_spec a :
  match f6inv a with
  | Ok i => eq6 (f6mul a i) f6o /\ ~ n2 (n6 a) =[bnP]= 0
  | Panic => n2 (n6 a) =[bnP]= 0
  | _ => False
  end.
Proof.
  pose proof (f2inv_spec (n6 a)) as H.
  change (f6inv a) with (t6 ← f2inv (n6 a); Ok (F6 (f2mul (f6x (adj6 a)) t6) (f2mul (f6y (adj6 a)) t6) (f2mul (f6w (adj6 a)) t6))
    : bnM f6).
  destruct (f2inv (n6 a)) as [i| | |]; cbn [mbind outcome_bind]; [|exact H..].
  destruct H as [Hi Hn]. split; [|exact Hn].
  transitivity (f6mul (f6mul a (adj6 a)) (F6 i f2z f2z)).
  - rewrite !f6mul_product. unfold f6_product. split; [|split]; cbn [f6x f6y f6w]; ring.
  - rewrite adj6_mul, f6mul_product. unfold f6_product. cbn [f6x f6y f6w].
    transitivity (F6 (f2mul (n6 a) i) f2z f2z); [split; [|split]; cbn [f6x f6y f6w]; ring|by rewrite Hi].
Qed.

(** ** The extension of degree twelve *)

Definition eq12 (x y : f12) : Prop := eq6 (f12x x) (f12x y) /\ eq6 (f12y x) (f12y y).

#[export] Instance eq12_equiv : Equivalence eq12.
Proof.
  split.
  - intros x. split; reflexivity.
  - intros x y [H1 H2]. split; symmetry; assumption.
  - intros x y z [H1 H2] [H3 H4]. split; etransitivity; eassumption.
Qed.

#[export] Instance F12_proper : Proper (eq6 ==> eq6 ==> eq12) F12.
Proof. intros a b H c d H'. split; [exact H|exact H']. Qed.
#[export] Instance f12x_proper : Proper (eq12 ==> eq6) f12x.
Proof. intros x y [H _]. exact H. Qed.
#[export] Instance f12y_proper : Proper (eq12 ==> eq6) f12y.
Proof. intros x y [_ H]. exact H. Qed.

(** The product of two polynomials of degree one in [w], reduced by [w^2 = t]. *)
Definition f12_product (a b : f12) : f12 :=
  F12 (f6add (f6mul (f12x a) (f12x b)) (f6mul tau (f6mul (f12y a) (f12y b))))
      (f6add (f6mul (f12x a) (f12y b)) (f6mul (f12y a) (f12x b))).

Lemma fp12Mul_product a b : eq12 (fp12Mul a b) (f12_product a b).
Proof. unfold fp12Mul, f12_product. split; cbn [f12x f12y]; rewrite ?f6mulTau_eq; ring. Qed.

#[export] Instance f12_product_proper : Proper (eq12 ==> eq12 ==> eq12) f12_product.
Proof. intros x y H z t H'. unfold f12_product. by rewrite H, H'. Qed.
#[export] Instance fp12Mul_proper : Proper (eq12 ==> eq12 ==> eq12) fp12Mul.
Proof. intros x y H z t H'. rewrite !fp12Mul_product. by rewrite H, H'. Qed.

Ltac f12_ring := rewrite ?fp12Mul_product; unfold f12_product, fp12One; split; cbn [f12x f12y]; ring.

Lemma fp12Mul_comm a b : eq12 (fp12Mul a b) (fp12Mul b a).
Proof. f12_ring. Qed.
Lemma fp12Mul_assoc a b c : eq12 (fp12Mul a (fp12Mul b c)) (fp12Mul (fp12Mul a b) c).
Proof. f12_ring. Qed.
Lemma fp12Mul_1_l a : eq12 (fp12Mul fp12One a) a.
Proof. f12_ring. Qed.
Lemma fp12Mul_add_r a b c : eq12 (fp12Mul a (fp12Add b c)) (fp12Add (fp12Mul a b) (fp12Mul a c)).
Proof. unfold fp12Add. f12_ring. Qed.

Definition n12 (a : f12) : f6 := f6sub (f6mul (f12x a) (f12x a)) (f6mulTau (f6mul (f12y a) (f12y a))).

#[export] Instance n12_proper : Proper (eq12 ==> eq6) n12.
Proof. intros x y H. unfold n12. by rewrite H. Qed.

Lemma n12_mul a b : eq6 (n12 (fp12Mul a b)) (f6mul (n12 a) (n12 b)).
Proof. rewrite fp12Mul_product. unfold n12, f12_product. cbn [f12x f12y]. rewrite !f6mulTau_eq. ring. Qed.

(** The norm over the prime field. *)
Definition norm (a : f12) : Z := n2 (n6 (n12 a)).

#[export] Instance norm_proper : Proper (eq12 ==> cong bnP) norm.
Proof. intros x y H. unfold norm. by rewrite H. Qed.

Lemma norm_mul a b : norm (fp12Mul a b) =[bnP]= norm a * norm b.
Proof. unfold norm. by rewrite n12_mul, n6_mul, n2_mul. Qed.

Lemma norm_1 : norm fp12One = 1.
Proof. vm_compute. reflexivity. Qed.

(** The units are the elements of norm different from zero, and [fp12Inv] inverts them. *)
Lemma fp12Inv_spec a :
  match fp12Inv a with
  | Ok i => eq12 (fp12Mul a i) fp12One /\ ~ norm a =[bnP]= 0
  | Panic => norm a =[bnP]= 0
  | _ => False
  end.
Proof.
  pose proof (f6inv_spec (n12 a)) as H.
  change (fp12Inv a) with (t0 ← f6inv (n12 a); Ok (F12 (f6mul (f12x a) t0) (f6neg (f6mul (f12y a) t0))) : bnM f12).
  destruct (f6inv (n12 a)) as [i| | |]; cbn [mbind outcome_bind]; [|exact H..].
  destruct H as [Hi Hn]. split; [|exact Hn].
  rewrite fp12Mul_product. unfold f12_product, fp12One. split; cbn [f12x f12y]; [|ring].
  rewrite <- Hi. unfold n12. rewrite f6mulTau_eq. ring.
Qed.

(** ** The reference: polynomials in [w] over the Gaussian integers

    An element of the tower is a polynomial of degree at most five in [w], because
    [w^2 = t]; its coefficients are pairs [(x, y)] that stand for [x + y i]. The
    reference product is that of polynomials, with [i^2 = -1] and [w^6 = 9 + i]. *)

Abbreviation gauss := (Z * Z)%type.
Definition gadd (x y : gauss) : gauss := (x.1 + y.1, x.2 + y.2).
Definition gmul (x y : gauss) : gauss := (x.1 * y.1 - x.2 * y.2, x.1 * y.2 + x.2 * y.1).
Definition gsum (l : list gauss) : gauss := foldr gadd (0, 0) l.
Definition geq (x y : gauss) : Prop := x.1 =[bnP]= y.1 /\ x.2 =[bnP]= y.2.

Definition pair2 (x : f2) : gauss := (f2a x, f2b x).
Definition coeffs (a : f12) : list gauss :=
  map pair2 [f6x (f12x a); f6x (f12y a); f6y (f12x a); f6y (f12y a); f6w (f12x a); f6w (f12y a)].

(** The coefficient of [w^k] in a product of polynomials of degree five, modulo [w^6 = 9 + i]. *)
Definition ref_coeff (l m : list gauss) (k : nat) : gauss :=
  gadd (gsum (map (fun i => gmul (l !!! i) (m !!! (k - i)%nat)) (seq 0 (S k))))
       (gmul (9, 1) (gsum (map (fun i => gmul (l !!! i) (m !!! (k + 6 - i)%nat)) (seq (S k) (5 - k))))).
Definition ref_product (l m : list gauss) : list gauss := map (ref_coeff l m) (seq 0 6).
Definition ref_one : list gauss := (1, 0) :: replicate 5 (0, 0).

#[export] Instance geq_equiv : Equivalence geq.
Proof.
  split.
  - intros x. split; reflexivity.
  - intros x y [H1 H2]. split; symmetry; assumption.
  - intros x y z [H1 H2] [H3 H4]. split; etransitivity; eassumption.
Qed.
#[export] Instance gadd_proper : Proper (geq ==> geq ==> geq) gadd.
Proof. intros x y [H1 H2] z t [H3 H4]. split; cbn [gadd fst snd]; [by rewrite H1, H3|by rewrite H2, H4]. Qed.
#[export] Instance gmul_proper : Proper (geq ==> geq ==> geq) gmul.
Proof. intros x y [H1 H2] z t [H3 H4]. split; cbn [gmul fst snd]; by rewrite H1, H2, H3, H4. Qed.

Lemma pair2_eq x y : eq2 x y -> geq (pair2 x) (pair2 y).
Proof. intros H. exact H. Qed.
Lemma pair2_add x y : geq (pair2 (f2add x y)) (gadd (pair2 x) (pair2 y)).
Proof. exact (f2add_eq x y). Qed.
Lemma pair2_mul x y : geq (pair2 (f2mul x y)) (gmul (pair2 x) (pair2 y)).
Proof. exact (f2mul_eq x y). Qed.

Lemma eq12_coeffs a b : eq12 a b -> Forall2 geq (coeffs a) (coeffs b).
Proof.
  intros [(H0 & H2 & H4) (H1 & H3 & H5)]. unfold coeffs. cbn [map]. repeat (constructor; [apply pair2_eq; assumption|]). constructor.
Qed.

Lemma coeffs_eq12 a b : Forall2 geq (coeffs a) (coeffs b) -> eq12 a b.
Proof.
  unfold coeffs. cbn [map]. intros H.
  do 6 (apply list.Forall2_cons in H as [? H]).
  split; (split; [assumption|]); (split; [assumption|assumption]).
Qed.

(** The coefficients of a product, with the operations of the quadratic extension. *)
Definition f12_flat (a b : f12) : f12 :=
  let '(a0, a2, a4, a1, a3, a5) := (f6x (f12x a), f6y (f12x a), f6w (f12x a), f6x (f12y a), f6y (f12y a), f6w (f12y a)) in
  let '(b0, b2, b4, b1, b3, b5) := (f6x (f12x b), f6y (f12x b), f6w (f12x b), f6x (f12y b), f6y (f12y b), f6w (f12y b)) in
  let s2 x y := f2add x y in
  let s3 x y z := f2add x (f2add y z) in
  let s4 x y z t := f2add x (s3 y z t) in
  let s5 x y z t u := f2add x (s4 y z t u) in
  let p := f2mul in
  F12 (F6 (s2 (p a0 b0) (p xi (s5 (p a1 b5) (p a2 b4) (p a3 b3) (p a4 b2) (p a5 b1))))
          (s2 (s3 (p a0 b2) (p a1 b1) (p a2 b0)) (p xi (s3 (p a3 b5) (p a4 b4) (p a5 b3))))
          (s2 (s5 (p a0 b4) (p a1 b3) (p a2 b2) (p a3 b1) (p a4 b0)) (p xi (p a5 b5))))
      (F6 (s2 (s2 (p a0 b1) (p a1 b0)) (p xi (s4 (p a2 b5) (p a3 b4) (p a4 b3) (p a5 b2))))
          (s2 (s4 (p a0 b3) (p a1 b2) (p a2 b1) (p a3 b0)) (p xi (s2 (p a4 b5) (p a5 b4))))
          (s5 (p a0 b5) (p a1 b4) (p a2 b3) (p a3 b2) (f2add (p a4 b1) (p a5 b0)))).

Lemma fp12Mul_flat a b : eq12 (fp12Mul a b) (f12_flat a b).
Proof.
  rewrite fp12Mul_product. destruct a as [[a0 a2 a4] [a1 a3 a5]], b as [[b0 b2 b4] [b1 b3 b5]].
  unfold f12_product, f12_flat, tau, f6add. cbn [f12x f12y f6x f6y f6w]. rewrite !f6mul_product. unfold f6_product.
  split; (split; [|split]); cbn [f12x f12y f6x f6y f6w]; ring.
Qed.

Lemma fp12Mul_reference a b : Forall2 geq (coeffs (fp12Mul a b)) (ref_product (coeffs a) (coeffs b)).
Proof.
  transitivity (coeffs (f12_flat a b)); [apply eq12_coeffs, fp12Mul_flat|].
  destruct a as [[a0 a2 a4] [a1 a3 a5]], b as [[b0 b2 b4] [b1 b3 b5]].
  unfold coeffs, f12_flat, ref_product, ref_coeff. cbn [f12x f12y f6x f6y f6w map seq Nat.sub Nat.add].
  repeat (constructor; [rewrite ?pair2_add, ?pair2_mul; unfold gsum; cbn [foldr lookup_total list_lookup_total pair2 fst snd];
    rewrite ?pair2_add, ?pair2_mul; unfold gadd, gmul; split; cbn [fst snd pair2 xi f2a f2b]; apply cong_eq; ring|]). constructor.
Qed.

(** [fp12Inv] inverts for the reference product, and panics only when there is no inverse. *)
Lemma fp12Inv_reference a :
  match fp12Inv a with
  | Ok i => Forall2 geq (ref_product (coeffs a) (coeffs i)) ref_one
  | Panic => forall c, ~ Forall2 geq (ref_product (coeffs a) (coeffs c)) ref_one
  | _ => False
  end.
Proof.
  pose proof (fp12Inv_spec a) as H. change ref_one with (coeffs fp12One). destruct (fp12Inv a) as [i|e| |]; [|exact H| |exact H].
  - destruct H as [H _]. transitivity (coeffs (fp12Mul a i)); [symmetry; apply fp12Mul_reference|by apply eq12_coeffs].
  - intros c Hc. assert (eq12 (fp12Mul a c) fp12One) as E.
    { apply coeffs_eq12. transitivity (ref_product (coeffs a) (coeffs c)); [apply fp12Mul_reference|exact Hc]. }
    apply norm_proper in E. rewrite norm_mul, H, norm_1, Z.mul_0_l in E. apply cong_small in E; lia.
Qed.

(** ** Lines have an inverse

    The norm of [1 + a w] is the norm of [1 - xi a^6]; it would vanish only if 82,
    the norm of [xi], were a square. *)

Definition zdiv (x : Z) : Prop := x =[bnP]= 0.

Lemma prod_zero x y : x * y =[bnP]= 0 -> x =[bnP]= 0 \/ y =[bnP]= 0.
Proof.
  rewrite !cong_divide by lia. apply Z.divide_prime_mul. exact prime_bnP.
Qed.

Lemma not_cong_prod x y : ~ x =[bnP]= 0 -> ~ y =[bnP]= 0 -> ~ x * y =[bnP]= 0.
Proof. intros Hx Hy H. apply prod_zero in H as [H|H]; auto. Qed.

(** Euler's criterion, one way. *)
Lemma bn_square_power n x : ~ x =[bnP]= 0 -> n =[bnP]= x * x -> n ^ ((bnP - 1) / 2) =[bnP]= 1.
Proof.
  intros Hx Hn. transitivity ((x * x) ^ ((bnP - 1) / 2)); [by apply cong_pow|].
  rewrite <- (Z.pow_2_r x). rewrite <- Z.pow_mul_r by done.
  change (2 * ((bnP - 1) / 2)) with (bnP - 1). apply fermat; [exact prime_bnP|].
  rewrite <- cong_divide by lia. exact Hx.
Qed.

Lemma not_square n : fast_pow_mod bnP n ((bnP - 1) / 2) = bnP - 1 -> 0 <= n -> forall x, ~ x =[bnP]= 0 -> ~ n =[bnP]= x * x.
Proof.
  intros Hn H0 x Hx H. rewrite fast_pow_mod_spec, pow_mod_spec in Hn by done.
  apply (bn_square_power n x Hx) in H. unfold cong in H. rewrite Hn, Z.mod_1_l in H by lia. lia.
Qed.

(** A sum of two squares vanishes only at zero, because [-1] is not a square. *)
Lemma n2_zero x : n2 x =[bnP]= 0 -> eq2 x f2z.
Proof.
  intros H. destruct (decide (f2a x =[bnP]= 0)) as [Ha|Ha].
  - split; [exact Ha|]. unfold n2 in H. rewrite Ha in H. apply prod_zero in H. cbn [f2z f2b]. tauto.
  - exfalso. pose proof (mod_inverse_cases (f2a x) bnP prime_bnP) as Hi. destruct (mod_inverse (f2a x) bnP) as [i|]; [|exact (Ha Hi)].
    destruct Hi as (_ & Ei & _).
    destruct (decide (f2b x =[bnP]= 0)) as [Hb|Hb].
    { unfold n2 in H. rewrite Hb, Z.mul_0_r, Z.add_0_r in H. apply prod_zero in H. tauto. }
    apply (not_square (bnP - 1) ltac:(vm_compute; reflexivity) ltac:(lia) (f2b x * i)).
    { apply not_cong_prod; [exact Hb|]. intros Hi. rewrite Hi, Z.mul_0_l in Ei. apply cong_small in Ei; lia. }
    transitivity (- 1); [vm_compute; reflexivity|].
    apply (cong_comb2 bnP _ _ (1 + i * f2a x) (i * f2a x) 1 (- (i * i)) (n2 x) 0 Ei H). unfold n2. ring.
Qed.

(** The lines of the pairing. *)
Definition line (a : f2) : f12 := F12 f6o (F6 a f2z f2z).

Lemma norm_line a : norm (line a) =[bnP]= n2 (f2sub f2o (f2mul xi (f2mul (f2mul a a) (f2mul (f2mul a a) (f2mul a a))))).
Proof.
  unfold norm. apply n2_proper. unfold n12, line. cbn [f12x f12y].
  assert (eq6 (f6sub (f6mul f6o f6o) (f6mulTau (f6mul (F6 a f2z f2z) (F6 a f2z f2z)))) (F6 f2o (f2neg (f2mul a a)) f2z)) as ->.
  { rewrite f6mulTau_eq, !f6mul_product. unfold f6_product, f6sub, f6o, tau. split; [|split]; cbn [f6x f6y f6w]; ring. }
  unfold n6, adj6, f2sqr. cbn [f6x f6y f6w]. rewrite !f2mulXi_eq. ring.
Qed.

Theorem line_unit a : ~ norm (line a) =[bnP]= 0.
Proof.
  rewrite norm_line. intros H. apply n2_zero in H.
  set (c := f2mul (f2mul a a) (f2mul (f2mul a a) (f2mul a a))) in *.
  assert (eq2 (f2mul xi c) f2o) as E.
  { transitivity (f2sub f2o (f2sub f2o (f2mul xi c))); [ring|]. rewrite H. ring. }
  apply n2_proper in E. rewrite n2_mul in E. unfold c in E. rewrite !n2_mul in E.
  change (n2 xi) with 82 in E. change (n2 f2o) with 1 in E. set (m := n2 a) in *.
  pose proof (mod_inverse_cases (m * m * m) bnP prime_bnP) as Hi.
  assert (~ m * m * m =[bnP]= 0) as Hm.
  { intros Hm. assert (1 =[bnP]= 0) as H1; [|apply cong_small in H1; lia].
    rewrite <- E. replace (82 * (m * m * (m * m * (m * m)))) with (82 * (m * m * m) * (m * m * m)) by ring.
    rewrite Hm. apply cong_eq. ring. }
  destruct (mod_inverse (m * m * m) bnP) as [i|]; [|exact (Hm Hi)]. destruct Hi as (_ & Ei & _).
  apply (not_square 82 ltac:(vm_compute; reflexivity) ltac:(lia) i).
  - intros H0. rewrite H0, Z.mul_0_l in Ei. apply cong_small in Ei; lia.
  - apply (cong_comb2 bnP _ _ (- 82 * (1 + i * (m * m * m))) (i * (m * m * m)) 1 (i * i)
      (82 * (m * m * (m * m * (m * m)))) 1 Ei E). ring.
Qed.
