(* ===== verification/BnCurve.v ===== *)
(** * The groups of bn254

    [g1Add], [g1Double] and [g1Mul] compute the chord-and-tangent law of
    [AffineCurve] and never panic; the Miller loop panics only on a tangent at a
    point of order two, and what it returns has an inverse. *)

From S2P Require Import Prelude ModArith Primes AffineCurve Bn254 BnTower.
From Stdlib Require Import Zdivisibility.

(** ** G1 *)

Definition g1_point (p : g1Point) : apoint := if g1inf p then None else Some (g1x p, g1y p).

Lemma g1_point_inf p : g1inf p = true -> g1_point p = None.
Proof. unfold g1_point. by intros ->. Qed.
Lemma g1_point_fin p : g1inf p = false -> g1_point p = Some (g1x p, g1y p).
Proof. unfold g1_point. by intros ->. Qed.

Definition on_bn (P : apoint) : Prop := on_curve bnP bnB P.

Lemma bn_odd : 2 < bnP.
Proof. reflexivity. Qed.

(** A slope as the code computes it. *)
Lemma fpInv_spec d :
  match fpInv d with
  | Ok i => ~ d =[bnP]= 0 /\ forall d', d =[bnP]= d' -> i = inv_p bnP d'
  | Panic => d =[bnP]= 0
  | _ => False
  end.
Proof.
  unfold fpInv. pose proof (mod_inverse_cases d bnP prime_bnP) as H. destruct (mod_inverse d bnP) as [i|]; [|exact H].
  destruct H as (Hi & Ei & Hn). split; [exact Hn|]. intros d' Hd. by apply (inv_p_eq bnP prime_bnP bn_odd d).
Qed.

(** The third point of a line, as the code computes it. *)
Lemma g1_chord m m' x1 y1 x2 : m =[bnP]= m' ->
  let x3 := fpSub (fpSub (fpSqr m) x1) x2 in
  chord bnP m' x1 y1 x2 = (x3, fpSub (fpMul m (fpSub x1 x3)) y1).
Proof.
  intros Hm x3. apply (chord_eq bnP bn_odd m); [apply fpMod_range|apply fpMod_range|exact Hm|unfold x3; fp_ring|fp_ring].
Qed.

Lemma g1Double_spec p : on_bn (g1_point p) ->
  exists r, g1Double p = Ok r /\ g1_point r = ec_double bnP (g1_point p).
Proof.
  intros Hp. unfold g1Double. destruct (g1inf p) eqn:Ep; cbn [orb].
  { exists g1Inf. by rewrite (g1_point_inf p Ep). }
  rewrite (g1_point_fin p Ep) in *. cbn [ec_double]. destruct Hp as (Hx & Hy & Hc).
  destruct (Z.eqb_spec (g1y p) 0) as [|Hn]; [by exists g1Inf|].
  pose proof (fpInv_spec (fpMul 2 (g1y p))) as H.
  assert (fpMul 2 (g1y p) =[bnP]= 2 * g1y p) as E by fp_ring.
  assert (~ 2 * g1y p =[bnP]= 0) as Hn0.
  { rewrite cong_divide by reflexivity. apply (not_divide_double bnP prime_bnP bn_odd). lia. }
  destruct (fpInv (fpMul 2 (g1y p))) as [i| | |]; cbn [mbind outcome_bind]; [|destruct H|by rewrite E in H|destruct H].
  destruct H as [_ Hi]. eexists. split; [reflexivity|]. rewrite <- (Hi _ E). unfold g1_point. cbn [g1inf g1x g1y].
  f_equal. symmetry. apply g1_chord. fp_ring.
Qed.

Lemma g1Add_spec p q : on_bn (g1_point p) -> on_bn (g1_point q) ->
  exists r, g1Add p q = Ok r /\ g1_point r = ec_add bnP (g1_point p) (g1_point q).
Proof.
  intros Hp Hq. pose proof (g1Double_spec p Hp) as Hd. unfold g1Add. destruct (g1inf p) eqn:Ep.
  { exists q. by rewrite (g1_point_inf p Ep). }
  destruct (g1inf q) eqn:Eq.
  { exists p. rewrite (g1_point_inf q Eq). split; [reflexivity|]. by destruct (g1_point p) as [[? ?]|]. }
  rewrite (g1_point_fin p Ep) in *. rewrite (g1_point_fin q Eq) in *. cbn [ec_add].
  destruct Hp as (Hx1 & Hy1 & Hc1), Hq as (Hx2 & Hy2 & Hc2).
  destruct (Z.eqb_spec (g1x p) (g1x q)) as [Ex|Hx].
  { destruct (Z.eqb_spec (g1y p) (g1y q)) as [Ey|_]; [exact Hd|by exists g1Inf]. }
  pose proof (fpInv_spec (fpSub (g1x q) (g1x p))) as H.
  assert (fpSub (g1x q) (g1x p) =[bnP]= g1x q - g1x p) as E by fp_ring.
  assert (~ g1x q - g1x p =[bnP]= 0) as Hn0.
  { rewrite cong_divide by reflexivity. apply (not_divide_small bnP). lia. }
  destruct (fpInv (fpSub (g1x q) (g1x p))) as [i| | |]; cbn [mbind outcome_bind]; [|destruct H|by rewrite E in H|destruct H].
  destruct H as [_ Hi]. eexists. split; [reflexivity|]. rewrite <- (Hi _ E). unfold g1_point. cbn [g1inf g1x g1y].
  f_equal. symmetry. apply g1_chord. fp_ring.
Qed.

Lemma g1_mul_loop_spec k : forall r base, on_bn (g1_point r) -> on_bn (g1_point base) ->
  exists r', g1_mul_loop k r base = Ok r' /\ g1_point r' = ec_sum_bits bnP k (g1_point r) (g1_point base).
Proof.
  induction k as [k IH|k IH|]; intros r base Hr Hb; cbn [g1_mul_loop ec_sum_bits];
    destruct (g1Add_spec r base Hr Hb) as (a & Ea & Pa), (g1Double_spec base Hb) as (d & Ed & Pd);
    rewrite ?Ea; cbn [mbind outcome_bind]; rewrite Ed; cbn [mbind outcome_bind]; rewrite <- ?Pa, <- ?Pd.
  - apply IH; [rewrite Pa; by apply (ec_add_curve bnP bnB prime_bnP bn_odd)|].
    rewrite Pd. by apply (ec_double_curve bnP bnB prime_bnP bn_odd).
  - apply IH; [exact Hr|]. rewrite Pd. by apply (ec_double_curve bnP bnB prime_bnP bn_odd).
  - by exists a.
Qed.

Lemma g1Mul_spec p k : on_bn (g1_point p) -> 0 <= k ->
  exists r, g1Mul p k = Ok r /\ g1_point r = ec_scale bnP k (g1_point p).
Proof.
  intros Hp Hk. unfold g1Mul. destruct (g1inf p) eqn:Ep; cbn [orb].
  { exists g1Inf. split; [reflexivity|]. rewrite (g1_point_inf p Ep). destruct k as [|k|k]; [done| |done].
    clear Hk. cbn [ec_scale]. induction k as [k IH|k IH|]; [exact IH|exact IH|reflexivity]. }
  destruct k as [|k|k]; [by exists g1Inf| |lia]. cbn [Z.eqb]. by apply g1_mul_loop_spec.
Qed.

(** ** Points as bytes *)

(** 64 bytes: two coordinates below the prime, of a point of the curve or both zero. *)
Definition bn_decode (b : bytes) : option apoint :=
  let x := be_val (slice b 0 32) in
  let y := be_val (slice b 32 64) in
  if (bnP <=? x) || (bnP <=? y) then None
  else if (x =? 0) && (y =? 0) then Some None
  else if (y * y - (x * x * x + bnB)) mod bnP =? 0 then Some (Some (x, y)) else None.

Definition bn_encode (P : apoint) : bytes :=
  match P with None => zeros 64 | Some (x, y) => be_bytes 32 x ++ be_bytes 32 y end.

Lemma g1Marshal_spec p : g1Marshal p = bn_encode (g1_point p).
Proof. unfold g1Marshal, g1_point. by destruct (g1inf p). Qed.

Lemma fpFromBytes_spec b : length b = 32%nat ->
  fpFromBytes b = if bnP <=? be_val b then None else Some (be_val b).
Proof. intros Hb. unfold fpFromBytes. by rewrite Hb. Qed.

Lemma g1OnCurve_spec x y : g1OnCurve (G1 x y false) = ((y * y - (x * x * x + bnB)) mod bnP =? 0).
Proof.
  unfold g1OnCurve. cbn [g1inf g1x g1y].
  assert (fpSqr y =[bnP]= y * y) as E1 by fp_ring.
  assert (fpAdd (fpMul (fpSqr x) x) bnB =[bnP]= x * x * x + bnB) as E2 by fp_ring.
  apply eq_iff_eq_true. rewrite !Z.eqb_eq. split; intros H.
  - change 0 with (0 mod bnP). apply (cong_sub_0 bnP (y * y)). rewrite <- E1, <- E2. by rewrite H.
  - apply (cong_small bnP); [apply fpMod_range|apply fpMod_range|]. rewrite E1, E2. apply (cong_sub_0 bnP (y * y)). exact H.
Qed.

Lemma g1Unmarshal_spec b : bytes_ok b -> length b = 64%nat ->
  match g1Unmarshal b with
  | Some p => bn_decode b = Some (g1_point p) /\ on_bn (g1_point p)
  | None => bn_decode b = None
  end.
Proof.
  intros Hb Hl. unfold g1Unmarshal, bn_decode. rewrite Hl. cbn [Nat.eqb negb].
  assert (forall lo, (lo + 32 <= 64)%nat -> length (slice b lo (lo + 32)) = 32%nat) as Hs.
  { intros lo Hlo. unfold slice. rewrite length_take, length_drop. lia. }
  pose proof (be_val_range (slice b 0 32)) as Rx. pose proof (be_val_range (slice b 32 64)) as Ry.
  rewrite (fpFromBytes_spec (slice b 0 32)) by (apply (Hs 0%nat); lia).
  rewrite (fpFromBytes_spec (slice b 32 64)) by (apply (Hs 32%nat); lia).
  set (x := be_val (slice b 0 32)) in *. set (y := be_val (slice b 32 64)) in *.
  destruct (Z.leb_spec bnP x) as [|Hx]; [reflexivity|]. cbn [mbind option_bind orb].
  destruct (Z.leb_spec bnP y) as [|Hy]; [reflexivity|]. cbn [mbind option_bind].
  destruct ((x =? 0) && (y =? 0)); [split; [reflexivity|exact I]|]. rewrite g1OnCurve_spec.
  destruct (Z.eqb_spec ((y * y - (x * x * x + bnB)) mod bnP) 0) as [E|]; [|reflexivity]. cbn [negb].
  split; [reflexivity|]. split; [|split].
  - split; [|exact Hx]. apply Rx. by apply bytes_ok_slice.
  - split; [|exact Hy]. apply Ry. by apply bytes_ok_slice.
  - apply (cong_sub_0 bnP). exact E.
Qed.
