(* ===== verification/BnPairing.v ===== *)
(** * The pairing of bn254

    The addition of G2 never panics on reduced coordinates; the only panic of the
    Miller loop is a tangent at a point of order two; its result is a unit, so the
    final exponentiation never panics. *)

From S2P Require Import Prelude ModArith Primes Bn254 BnTower.
From Stdlib Require Import Zdivisibility.

(** ** Reduced elements *)

Definition can (x : Z) : Prop := 0 <= x < bnP.
Definition can2 (x : f2) : Prop := can (f2a x) /\ can (f2b x).
Definition can_g2 (p : g2Point) : Prop := can2 (g2x p) /\ can2 (g2y p).

Create HintDb bn.

Lemma can2_mul x y : can2 (f2mul x y).
Proof. split; apply fpMod_range. Qed.
Lemma can2_add x y : can2 (f2add x y).
Proof. split; apply fpMod_range. Qed.
Lemma can2_sub x y : can2 (f2sub x y).
Proof. split; apply fpMod_range. Qed.
#[export] Hint Resolve can2_mul can2_add can2_sub : bn.

Lemma f2eq_spec x y : f2eq x y = true <-> x = y.
Proof.
  unfold f2eq. rewrite andb_true_iff, !Z.eqb_eq. destruct x as [a b], y as [c d]; cbn [f2a f2b].
  split; [intros [-> ->]; reflexivity|intros [= -> ->]; split; reflexivity].
Qed.

Lemma f2eq_false x y : f2eq x y = false <-> x <> y.
Proof. rewrite <- f2eq_spec. destruct (f2eq x y); split; intros H; congruence. Qed.

Lemma can2_eq x y : can2 x -> can2 y -> eq2 x y -> x = y.
Proof.
  intros [Hx1 Hx2] [Hy1 Hy2] [H1 H2]. destruct x as [a b], y as [c d]; cbn [f2a f2b] in *. f_equal; by apply (cong_small bnP).
Qed.

Lemma can2_z : can2 f2z.
Proof. split; unfold can; cbn [f2a f2b f2z]; lia. Qed.

(** Distinct reduced elements have an invertible difference, reduced elements that are not zero an invertible double. *)
Lemma f2inv_sub x y : can2 x -> can2 y -> x <> y -> exists i, f2inv (f2sub x y) = Ok i.
Proof.
  intros Hx Hy Hn. pose proof (f2inv_spec (f2sub x y)) as H.
  destruct (f2inv (f2sub x y)) as [i| | |]; [by exists i|destruct H| |destruct H].
  exfalso. apply Hn, can2_eq; [exact Hx|exact Hy|]. apply n2_zero in H.
  transitivity (f2add (f2sub x y) y); [ring|]. rewrite H. ring.
Qed.

Lemma f2inv_double y : can2 y -> (exists i, f2inv (f2add y y) = Ok i) \/ y = f2z /\ f2inv (f2add y y) = Panic.
Proof.
  intros Hy. pose proof (f2inv_spec (f2add y y)) as H.
  destruct (f2inv (f2add y y)) as [i| | |]; [left; by exists i|destruct H| |destruct H].
  right. split; [|reflexivity]. apply can2_eq; [exact Hy|exact can2_z|]. apply n2_zero in H.
  rewrite f2add_eq in H. destruct H as [Ha Hb]. cbn [f2a f2b f2z] in *.
  assert (forall a, a + a =[bnP]= 0 -> a =[bnP]= 0) as Hz.
  { intros a H. replace (a + a) with (2 * a) in H by lia. apply prod_zero in H as [H|H]; [|exact H].
    apply cong_small in H; lia. }
  split; cbn [f2a f2b]; by apply Hz.
Qed.

(** ** G2 *)

Lemma g2Double_ok p : can_g2 p -> exists r, g2Double p = Ok r /\ can_g2 r.
Proof.
  intros [Hx Hy]. unfold g2Double. destruct (g2inf p); cbn [orb].
  { exists g2Inf. split; [reflexivity|]. split; exact can2_z. }
  destruct ((f2a (g2y p) =? 0) && (f2b (g2y p) =? 0)) eqn:E.
  { exists g2Inf. split; [reflexivity|]. split; exact can2_z. }
  destruct (f2inv_double (g2y p) Hy) as [[i ->]|[Ez _]]; cbn [mbind outcome_bind].
  - eexists. split; [reflexivity|]. split; cbn [g2x g2y]; auto with bn.
  - rewrite Ez in E. discriminate E.
Qed.

Lemma g2Add_ok p q : can_g2 p -> can_g2 q -> exists r, g2Add p q = Ok r /\ can_g2 r.
Proof.
  intros Hp Hq. unfold g2Add. destruct (g2inf p); [by exists q|]. destruct (g2inf q); [by exists p|].
  destruct (f2eq (g2x p) (g2x q)) eqn:Ex.
  { destruct (f2eq (g2y p) (g2y q)); [by apply g2Double_ok|]. exists g2Inf. split; [reflexivity|]. split; exact can2_z. }
  apply f2eq_false in Ex. destruct Hp as [Hpx Hpy], Hq as [Hqx Hqy].
  destruct (f2inv_sub (g2x q) (g2x p) Hqx Hpx) as [i ->]; [congruence|]. cbn [mbind outcome_bind].
  eexists. split; [reflexivity|]. split; cbn [g2x g2y]; auto with bn.
Qed.

(** The affine group law, stated with the slope as a solution of its equation. *)
Inductive g2_sum : g2Point -> g2Point -> g2Point -> Prop :=
  | sum_inf_l p q : g2inf p = true -> g2_sum p q q
  | sum_inf_r p q : g2inf p = false -> g2inf q = true -> g2_sum p q p
  | sum_opposite p q : g2inf p = false -> g2inf q = false -> g2x p = g2x q -> (g2y p <> g2y q \/ g2y p = f2z) -> g2_sum p q g2Inf
  | sum_slope p q r m : g2inf p = false -> g2inf q = false -> g2inf r = false ->
      (g2x p = g2x q /\ g2y p = g2y q /\ g2y p <> f2z /\
         eq2 (f2mul m (f2add (g2y p) (g2y p))) (f2mul (F2 3 0) (f2mul (g2x p) (g2x p))) \/
       g2x p <> g2x q /\ eq2 (f2mul m (f2sub (g2x q) (g2x p))) (f2sub (g2y q) (g2y p))) ->
      eq2 (g2x r) (f2sub (f2mul m m) (f2add (g2x p) (g2x q))) ->
      eq2 (g2y r) (f2sub (f2mul m (f2sub (g2x p) (g2x r))) (g2y p)) ->
      g2_sum p q r.

Lemma f2_three x : eq2 (f2add (f2add x x) x) (f2mul (F2 3 0) x).
Proof. f2_ring. Qed.

Lemma f2_zero_test x : can2 x -> (f2a x =? 0) && (f2b x =? 0) = true <-> x = f2z.
Proof.
  intros _. rewrite andb_true_iff, !Z.eqb_eq. destruct x as [a b]; cbn [f2a f2b].
  split; [intros [-> ->]; reflexivity|intros [= -> ->]; split; reflexivity].
Qed.

Lemma g2Double_sum p r : can_g2 p -> g2inf p = false -> g2Double p = Ok r -> g2_sum p p r.
Proof.
  intros [Hx Hy] Hi. unfold g2Double. rewrite Hi. cbn [orb].
  destruct ((f2a (g2y p) =? 0) && (f2b (g2y p) =? 0)) eqn:E.
  { intros [= <-]. apply f2_zero_test in E; [|exact Hy]. apply sum_opposite; [assumption|assumption|reflexivity|by right]. }
  pose proof (f2inv_spec (f2add (g2y p) (g2y p))) as H.
  destruct (f2inv (f2add (g2y p) (g2y p))) as [i| | |]; cbn [mbind outcome_bind]; [|discriminate..].
  destruct H as [H _]. intros [= <-]. set (m := f2mul _ i).
  apply (sum_slope p p _ m); [assumption|assumption|reflexivity| | |]; cbn [g2x g2y].
  - left. split; [reflexivity|]. split; [reflexivity|]. split.
    { intros Ez. apply f2_zero_test in Ez; [congruence|exact Hy]. }
    unfold m, f2sqr. rewrite f2_three.
    transitivity (f2mul (f2mul (F2 3 0) (f2mul (g2x p) (g2x p))) (f2mul (f2add (g2y p) (g2y p)) i)); [ring|]. rewrite H. ring.
  - unfold f2sqr. ring.
  - ring.
Qed.

Lemma g2Add_sum p q r : can_g2 p -> can_g2 q -> g2Add p q = Ok r -> g2_sum p q r.
Proof.
  intros Hp Hq. unfold g2Add. destruct (g2inf p) eqn:Ip; [intros [= <-]; by apply sum_inf_l|].
  destruct (g2inf q) eqn:Iq; [intros [= <-]; by apply sum_inf_r|].
  destruct (f2eq (g2x p) (g2x q)) eqn:Ex.
  { apply f2eq_spec in Ex. destruct (f2eq (g2y p) (g2y q)) eqn:Ey.
    - apply f2eq_spec in Ey. intros E. assert (p = q) as <-; [|by apply g2Double_sum].
      destruct p as [px py pi], q as [qx qy qi]; cbn [g2x g2y g2inf] in *. congruence.
    - apply f2eq_false in Ey. intros [= <-]. apply sum_opposite; [assumption|assumption|assumption|by left]. }
  apply f2eq_false in Ex. pose proof (f2inv_spec (f2sub (g2x q) (g2x p))) as H.
  destruct (f2inv (f2sub (g2x q) (g2x p))) as [i| | |]; cbn [mbind outcome_bind]; [|discriminate..].
  destruct H as [H _]. intros [= <-]. set (m := f2mul _ i).
  apply (sum_slope p q _ m); [assumption|assumption|reflexivity| | |]; cbn [g2x g2y].
  - right. split; [exact Ex|]. unfold m.
    transitivity (f2mul (f2sub (g2y q) (g2y p)) (f2mul (f2sub (g2x q) (g2x p)) i)); [ring|]. rewrite H. ring.
  - unfold f2sqr. ring.
  - ring.
Qed.

(** ** Lines and the Miller loop *)

Definition unit12 (f : f12) : Prop := ~ norm f =[bnP]= 0.

Lemma unit12_one : unit12 fp12One.
Proof. unfold unit12. rewrite norm_1. intros H. apply cong_small in H; lia. Qed.

Lemma unit12_mul f g : unit12 f -> unit12 g -> unit12 (fp12Mul f g).
Proof. unfold unit12. rewrite norm_mul. apply not_cong_prod. Qed.

(** A point of order two. *)
Definition order_two (p : g2Point) : Prop := g2inf p = false /\ g2y p = f2z.

Lemma lineEval_ok q r p : can_g2 q -> can_g2 r ->
  match lineEval q r p with
  | Ok (t, l) => (can_g2 t /\ g2_sum q r t) /\ unit12 l /\ ~ (order_two q /\ order_two r /\ g2x q = g2x r)
  | Panic => order_two q /\ order_two r /\ g2x q = g2x r
  | _ => False
  end.
Proof.
  intros Hq Hr. unfold lineEval, order_two. destruct (g2Add_ok q r Hq Hr) as (t & Et & Hct).
  assert (can_g2 t /\ g2_sum q r t) as Ht by (split; [exact Hct|by apply g2Add_sum]). rewrite Et. clear Hct Et. cbn [mbind outcome_bind].
  destruct (g2inf q) eqn:Eq; cbn [orb]; [by split; [|split; [exact unit12_one|intros [[? _] _]]]|].
  destruct (g2inf r) eqn:Er; cbn [orb]; [by split; [|split; [exact unit12_one|intros (_ & [? _] & _)]]|].
  destruct Hq as [Hqx Hqy], Hr as [Hrx Hry].
  destruct (f2eq (g2x q) (g2x r)) eqn:Ex; cbn [andb].
  - apply f2eq_spec in Ex. destruct (f2eq (g2y q) (g2y r)) eqn:Ey; cbn [negb].
    + apply f2eq_spec in Ey. destruct (f2inv_double (g2y q) Hqy) as [[i Ei]|[Ez Ei]]; rewrite Ei; cbn [mbind outcome_bind].
      * split; [exact Ht|]. split; [apply line_unit|]. intros [[_ Hz] _]. rewrite Hz in Ei. vm_compute in Ei. discriminate Ei.
      * rewrite <- Ey. done.
    + split; [exact Ht|]. split; [exact unit12_one|]. apply f2eq_false in Ey. intros ([_ H1] & [_ H2] & _). congruence.
  - apply f2eq_false in Ex. destruct (f2inv_sub (g2x r) (g2x q) Hrx Hqx) as [i ->]; [congruence|]. cbn [mbind outcome_bind].
    split; [exact Ht|]. split; [apply line_unit|]. intros (_ & _ & H). congruence.
Qed.

(** The points of the double-and-add chain of [q] along the bits of [6 u + 2]: [visited q n t]
    when [t] is reached with [n] bits left. *)
Inductive visited (q : g2Point) : nat -> g2Point -> Prop :=
  | visited_start : visited q (Z.to_nat (Z.log2 (6 * bnU + 2))) q
  | visited_double n t t' : visited q (S n) t -> g2_sum t t t' -> Z.testbit (6 * bnU + 2) (Z.of_nat n) = false -> visited q n t'
  | visited_add n t t' t'' : visited q (S n) t -> g2_sum t t t' -> Z.testbit (6 * bnU + 2) (Z.of_nat n) = true ->
      g2_sum t' q t'' -> visited q n t''.

(** Some tangent of the chain is taken at a point of order two. *)
Definition meets_order_two (q : g2Point) : Prop := exists n t, visited q (S n) t /\ order_two t.

Lemma miller_loop_ok p q n : can_g2 q -> forall f t, unit12 f -> can_g2 t -> visited q n t -> (order_two q -> t = q) ->
  match miller_loop p q n f t with Ok f => unit12 f | Panic => meets_order_two q | _ => False end.
Proof.
  intros Hq. induction n as [|n IH]; intros f t Hf Ht Hv Ho; cbn [miller_loop]; [exact Hf|].
  pose proof (lineEval_ok t t p Ht Ht) as H.
  destruct (lineEval t t p) as [[t1 l]| | |]; cbn [mbind outcome_bind]; [|destruct H|exists n, t; split; [exact Hv|apply H]|destruct H].
  destruct H as ([Ht1 Hs1] & Hl & Hn). assert (unit12 (fp12Mul (fp12Sqr f) l)) as Hf1.
  { apply unit12_mul; [|exact Hl]. by apply unit12_mul. }
  assert (~ order_two q) as Hnq.
  { intros H2. apply Hn. rewrite (Ho H2). done. }
  change ate with (6 * bnU + 2).
  destruct (Z.testbit (6 * bnU + 2) (Z.of_nat n)) eqn:Eb; [|apply IH; [exact Hf1|exact Ht1|by eapply visited_double|done]].
  pose proof (lineEval_ok t1 q p Ht1 Hq) as H.
  destruct (lineEval t1 q p) as [[t2 l2]| | |]; cbn [mbind outcome_bind]; [|destruct H|exfalso; apply Hnq, H|destruct H].
  destruct H as ([Ht2 Hs2] & Hl2 & _). apply IH; [by apply unit12_mul|exact Ht2|by eapply visited_add|done].
Qed.

Lemma miller_ok p q : can_g2 q -> match miller p q with Ok f => unit12 f | Panic => meets_order_two q | _ => False end.
Proof.
  intros Hq. unfold miller. change ate with (6 * bnU + 2).
  apply miller_loop_ok; [exact Hq|exact unit12_one|exact Hq|apply visited_start|done].
Qed.

Lemma finalExp_ok f : unit12 f -> exists r, finalExp f = Ok r.
Proof.
  intros Hf. unfold finalExp. pose proof (fp12Inv_spec f) as H.
  destruct (fp12Inv f) as [i| | |]; cbn [mbind outcome_bind]; [by eexists|destruct H|by destruct Hf|destruct H].
Qed.

(** ** Parsing *)

Lemma fpFromBytes_can b x : bytes_ok b -> fpFromBytes b = Some x -> can x.
Proof.
  intros Hb. unfold fpFromBytes. destruct (negb _); [discriminate|].
  destruct (Z.leb_spec bnP (be_val b)) as [|Hlt]; [discriminate|]. intros [= <-]. split; [apply be_val_range, Hb|exact Hlt].
Qed.

(** The curve that [g2OnCurve] tests: its constant is [3 xi], where the twist of the specification has [3 / xi]. *)
Definition on_code_twist (x y : f2) : Prop := eq2 (f2mul y y) (f2add (f2mul x (f2mul x x)) (f2mul xi (F2 3 0))).
Definition on_spec_twist (x y : f2) : Prop := eq2 (f2mul xi (f2mul y y)) (f2add (f2mul xi (f2mul x (f2mul x x))) (F2 3 0)).

Lemma g2OnCurve_twist x y : g2OnCurve (G2 x y false) = true -> on_code_twist x y.
Proof.
  unfold g2OnCurve. cbn [g2inf g2x g2y]. rewrite f2eq_spec. unfold on_code_twist, f2sqr. intros ->.
  change (f2c bnB 0) with (F2 3 0). rewrite f2mulXi_eq. ring.
Qed.

Lemma twists_disjoint x y : on_code_twist x y -> ~ on_spec_twist x y.
Proof.
  unfold on_code_twist, on_spec_twist. intros H1 H2. rewrite H1 in H2.
  assert (eq2 (f2mul xi (f2mul xi (F2 3 0))) (F2 3 0)) as [E _].
  { transitivity (f2sub (f2mul xi (f2add (f2mul x (f2mul x x)) (f2mul xi (F2 3 0)))) (f2mul xi (f2mul x (f2mul x x)))); [ring|].
    rewrite H2. ring. }
  vm_compute in E. discriminate E.
Qed.

Lemma g2Unmarshal_ok b q : bytes_ok b -> g2Unmarshal b = Some q ->
  can_g2 q /\ (g2inf q = false -> on_code_twist (g2x q) (g2y q)).
Proof.
  intros Hb. unfold g2Unmarshal. destruct (negb _); [discriminate|].
  destruct (fpFromBytes (slice b 0 32)) as [xim|] eqn:E1; cbn [mbind option_bind]; [|discriminate].
  destruct (fpFromBytes (slice b 32 64)) as [xre|] eqn:E2; cbn [mbind option_bind]; [|discriminate].
  destruct (fpFromBytes (slice b 64 96)) as [yim|] eqn:E3; cbn [mbind option_bind]; [|discriminate].
  destruct (fpFromBytes (slice b 96 128)) as [yre|] eqn:E4; cbn [mbind option_bind]; [|discriminate].
  apply fpFromBytes_can in E1, E2, E3, E4; [|by apply bytes_ok_slice..].
  destruct (_ && _); [intros [= <-]; split; [split; exact can2_z|discriminate]|].
  destruct (g2OnCurve _) eqn:Ec; cbn [negb]; [|discriminate]. intros [= <-].
  split; [split; split; assumption|]. intros _. by apply g2OnCurve_twist.
Qed.

#[export] Instance f2_eq_dec : EqDecision f2.
Proof. solve_decision. Defined.

#[export] Instance on_code_twist_dec x y : Decision (on_code_twist x y).
Proof. unfold on_code_twist, eq2. apply _. Defined.

Lemma twist_g2OnCurve x y : can2 x -> can2 y -> on_code_twist x y -> g2OnCurve (G2 x y false) = true.
Proof.
  intros Hx Hy H. unfold g2OnCurve. cbn [g2inf g2x g2y]. apply f2eq_spec. unfold f2sqr. apply can2_eq; [auto with bn..|].
  unfold on_code_twist in H. rewrite H. change (f2c bnB 0) with (F2 3 0). rewrite f2mulXi_eq. ring.
Qed.

(** The point of G2 that 128 bytes stand for, with the curve that the code tests. *)
Definition g2_decode (b : bytes) : option g2Point :=
  let re i := be_val (slice b (i + 32) (i + 64)) in
  let im i := be_val (slice b i (i + 32)) in
  let x := F2 (re 0%nat) (im 0%nat) in
  let y := F2 (re 64%nat) (im 64%nat) in
  if decide (f2a x < bnP /\ f2b x < bnP /\ f2a y < bnP /\ f2b y < bnP) then
    if decide (x = f2z /\ y = f2z) then Some g2Inf
    else if decide (on_code_twist x y) then Some (G2 x y false) else None
  else None.

Lemma g2Unmarshal_decode b : bytes_ok b -> length b = 128%nat -> g2Unmarshal b = g2_decode b.
Proof.
  intros Hb Hl. unfold g2Unmarshal, g2_decode. rewrite Hl. cbn [Nat.eqb negb Nat.add].
  assert (forall i, (i + 32 <= 128)%nat -> fpFromBytes (slice b i (i + 32)) = let n := be_val (slice b i (i + 32)) in if bnP <=? n then None else Some n) as E.
  { intros i Hi. unfold fpFromBytes. rewrite length_slice by lia. by replace (i + 32 - i)%nat with 32%nat by lia. }
  pose proof (E 0%nat ltac:(lia)) as E0. pose proof (E 32%nat ltac:(lia)) as E1. pose proof (E 64%nat ltac:(lia)) as E2.
  pose proof (E 96%nat ltac:(lia)) as E3. cbn [Nat.add] in E0, E1, E2, E3. rewrite E0, E1, E2, E3. clear E E0 E1 E2 E3. cbv zeta.
  assert (forall i j, 0 <= be_val (slice b i j)) as Hr by (intros i j; apply be_val_range; by apply bytes_ok_slice).
  pose proof (Hr 0%nat 32%nat). pose proof (Hr 32%nat 64%nat). pose proof (Hr 64%nat 96%nat). pose proof (Hr 96%nat 128%nat).
  set (xim := be_val (slice b 0 32)) in *. set (xre := be_val (slice b 32 64)) in *.
  set (yim := be_val (slice b 64 96)) in *. set (yre := be_val (slice b 96 128)) in *.
  clearbody xim xre yim yre. clear Hr. cbn [f2a f2b].
  destruct (decide (xre < bnP /\ xim < bnP /\ yre < bnP /\ yim < bnP)) as [(K1 & K2 & K3 & K4)|Hn].
  2: { destruct (Z.leb_spec bnP xim); cbn [mbind option_bind]; [reflexivity|]. destruct (Z.leb_spec bnP xre); cbn [mbind option_bind]; [reflexivity|].
       destruct (Z.leb_spec bnP yim); cbn [mbind option_bind]; [reflexivity|]. destruct (Z.leb_spec bnP yre); cbn [mbind option_bind]; [reflexivity|].
       lia. }
  rewrite !(proj2 (Z.leb_gt _ _)) by assumption. cbn [mbind option_bind].
  destruct (decide (F2 xre xim = f2z /\ F2 yre yim = f2z)) as [[[= -> ->] [= -> ->]]|Hz]; [reflexivity|].
  destruct ((xre =? 0) && (xim =? 0) && (yre =? 0) && (yim =? 0)) eqn:E0.
  { rewrite !andb_true_iff, !Z.eqb_eq in E0. destruct E0 as [[[-> ->] ->] ->]. by destruct Hz. }
  destruct (decide (on_code_twist (F2 xre xim) (F2 yre yim))) as [Ht|Ht].
  - rewrite twist_g2OnCurve; [reflexivity|split; split; assumption|split; split; assumption|exact Ht].
  - destruct (g2OnCurve _) eqn:Ec; [|reflexivity]. by apply g2OnCurve_twist in Ec.
Qed.


(** ** The Frobenius map is not multiplicative: the square of [w] *)

Lemma fp12Frobenius_not_multiplicative :
  let w := F12 f6z f6o in ~ eq12 (fp12Frobenius (fp12Mul w w)) (fp12Mul (fp12Frobenius w) (fp12Frobenius w)).
Proof. intros w [[_ [[H _] _]] _]. vm_compute in H. discriminate H. Qed.
