(* ===== verification/Bls12.v ===== *)
(** * The curve bls12-381: [pkg/c2block/precompiles.go]

    Points of G1, their compressed form and the check of [pcKZG]. [ModSqrt] and
    [ModInverse] are functions of [math/big]. *)

From S2P Require Import Prelude ModArith Primes.

Definition blsP : Z := bls_prime.
Definition blsR : Z := 52435875175126190479447740508185965837690552500527637822603658699938581184513.
Definition blsB : Z := 4.

Definition blsModulusBytes : bytes := be_bytes 32 blsR.
Definition blsScalarOK (b : bytes) : bool := be_val b <? blsR.
Definition blsFpMod (x : Z) : Z := x mod blsP.

(** Go's [ModSqrt] modulo a prime that is 3 modulo 4: a power of [x] when [x] is a square, else nil. *)
Definition ModSqrt (x p : Z) : option Z :=
  let z := pow_mod p x ((p + 1) / 4) in if z * z mod p =? x mod p then Some z else None.

(** A nil inverse is dereferenced by the product that uses it. *)
Definition ModInverse (x p : Z) : outcome unit Z := match mod_inverse x p with Some i => Ok i | None => Panic end.

Record blsG1 := BlsG1 { bls_x : Z; bls_y : Z; bls_inf : bool }.

Definition blsInf : blsG1 := BlsG1 0 0 true.

(** The 48 bytes with the three flags cleared. *)
Definition bls_clear (b : bytes) : bytes := <[0%nat := Z.land (b !!! 0%nat) 0x1f]> b.

Definition blsG1Decompress (b : bytes) : option blsG1 :=
  if negb (length b =? 48)%nat then None
  else
    let flags := b !!! 0%nat in
    if Z.land flags 0x80 =? 0 then None
    else if negb (Z.land flags 0x40 =? 0) then
      if negb (be_val (bls_clear b) =? 0) then None else Some blsInf
    else
      let x := be_val (bls_clear b) in
      if blsP <=? x then None
      else
        let yyy := (pow_mod blsP x 3 + blsB) mod blsP in
        match ModSqrt yyy blsP with
        | None => None
        | Some y =>
            let yOdd := Z.testbit y 0 in
            let wantOdd := negb (Z.land flags 0x20 =? 0) in
            let y := if negb (Bool.eqb yOdd wantOdd) then blsP - y else y in
            Some (BlsG1 x y false)
        end.

Definition blsG1Neg (p : blsG1) : blsG1 := if bls_inf p then p else BlsG1 (bls_x p) (blsFpMod (- bls_y p)) false.

Definition blsG1Double (p : blsG1) : outcome unit blsG1 :=
  if bls_inf p || (bls_y p =? 0) then Ok blsInf
  else
    let xx := bls_x p * bls_x p in
    let num := blsFpMod (xx * 3) in
    let den := blsFpMod (bls_y p * 2) in
    i ← ModInverse den blsP;
    let m := blsFpMod (num * i) in
    let x3 := blsFpMod (m * m - bls_x p - bls_x p) in
    let y3 := blsFpMod (m * (bls_x p - x3) - bls_y p) in
    Ok (BlsG1 x3 y3 false).

Definition blsG1Add (p q : blsG1) : outcome unit blsG1 :=
  if bls_inf p then Ok q
  else if bls_inf q then Ok p
  else if bls_x p =? bls_x q then if bls_y p =? bls_y q then blsG1Double p else Ok blsInf
  else
    i ← ModInverse (bls_x q - bls_x p) blsP;
    let m := blsFpMod ((bls_y q - bls_y p) * i) in
    let x3 := blsFpMod (m * m - bls_x p - bls_x q) in
    let y3 := blsFpMod (m * (bls_x p - x3) - bls_y p) in
    Ok (BlsG1 x3 y3 false).

(** The loop of [blsG1Mul], from the low bit: the base is doubled after the last bit too. *)
Fixpoint bls_mul_loop (k : positive) (r base : blsG1) : outcome unit blsG1 :=
  match k with
  | xH => r ← blsG1Add r base; _ ← blsG1Double base; Ok r
  | xO k => base ← blsG1Double base; bls_mul_loop k r base
  | xI k => r ← blsG1Add r base; base ← blsG1Double base; bls_mul_loop k r base
  end.

(** The scalars of the program are not negative; the loop does not end on a negative one. *)
Definition blsG1Mul (p : blsG1) (k : Z) : outcome unit blsG1 :=
  match k with
  | Z0 => Ok blsInf
  | Zpos k => bls_mul_loop k blsInf p
  | Zneg _ => OutOfFuel
  end.

Definition blsG1Gen : blsG1 :=
  BlsG1 0x17F1D3A73197D7942695638C4FA9AC0FC3688C4F9774B905A14E3A3F171BAC586C55E83FF97A1AEFFB3AF00ADB22C6BB
        0x08B3F481E3AAA0F1A09E30ED741D8AE4FCF5E095D5D00AF600DB18CB2C04B3EDD03CC744A2888AE40CAA232946C5E7E1 false.

Definition verifyKZG (commit : blsG1) (z y : bytes) (proof : blsG1) : outcome unit bool :=
  let ys := be_val y in
  let zs := be_val z in
  yG ← blsG1Mul blsG1Gen ys;
  lhs ← blsG1Add commit (blsG1Neg yG);
  if bls_inf lhs && bls_inf proof && (zs =? 0) then Ok true
  else Ok (negb (bls_inf lhs) || negb (bls_inf proof)).

(** The generator is on the curve. *)
Example blsG1Gen_on_curve : (bls_y blsG1Gen ^ 2 - bls_x blsG1Gen ^ 3 - blsB) mod blsP = 0.
Proof. vm_compute. reflexivity. Qed.
