(* ===== verification/BlsSpec.v ===== *)
(** * The group of bls12-381

    Addition refines the chord-and-tangent law and never panics, decompression
    returns points of the curve, and the check of [pcKZG] is what it is. *)

From S2P Require Import Prelude ModArith Primes AffineCurve Bls12.
From Stdlib Require Import Zdivisibility.

Definition bls_point (p : blsG1) : apoint := if bls_inf p then None else Some (bls_x p, bls_y p).

Definition on_bls (P : apoint) : Prop := on_curve blsP blsB P.

Lemma bls_odd : 2 < blsP.
Proof. reflexivity. Qed.

Lemma bls_point_inf p : bls_inf p = true -> bls_point p = None.
Proof. unfold bls_point. by intros ->. Qed.
Lemma bls_point_fin p : bls_inf p = false -> bls_point p = Some (bls_x p, bls_y p).
Proof. unfold bls_point. by intros ->. Qed.

Lemma blsFpMod_cong x : blsFpMod x =[blsP]= x.
Proof. apply cong_mod. Qed.
Lemma blsFpMod_range x : 0 <= blsFpMod x < blsP.
Proof. apply Z.mod_pos_bound. reflexivity. Qed.

Ltac bls_ring := rewrite ?blsFpMod_cong; apply cong_eq; ring.

Lemma ModInverse_spec d :
  match ModInverse d blsP with
  | Ok i => ~ d =[blsP]= 0 /\ forall d', d =[blsP]= d' -> i = inv_p blsP d'
  | Panic => d =[blsP]= 0
  | _ => False
  end.
Proof.
  unfold ModInverse. pose proof (mod_inverse_cases d blsP prime_bls) as H. destruct (mod_inverse d blsP) as [i|]; [|exact H].
  destruct H as (Hi & Ei & Hn). split; [exact Hn|]. intros d' Hd. by apply (inv_p_eq blsP prime_bls bls_odd d).
Qed.

Lemma bls_chord m m' x1 y1 x2 : m =[blsP]= m' ->
  let x3 := blsFpMod (m * m - x1 - x2) in
  chord blsP m' x1 y1 x2 = (x3, blsFpMod (m * (x1 - x3) - y1)).
Proof.
  intros Hm x3. apply (chord_eq blsP bls_odd m); [apply blsFpMod_range|apply blsFpMod_range|exact Hm| |];
    unfold x3; apply blsFpMod_cong.
Qed.

Lemma blsG1Double_spec p : on_bls (bls_point p) ->
  exists r, blsG1Double p = Ok r /\ bls_point r = ec_double blsP (bls_point p).
Proof.
  intros Hp. unfold blsG1Double. destruct (bls_inf p) eqn:Ep; cbn [orb].
  { exists blsInf. by rewrite (bls_point_inf p Ep). }
  rewrite (bls_point_fin p Ep) in *. cbn [ec_double]. destruct Hp as (Hx & Hy & Hc).
  destruct (Z.eqb_spec (bls_y p) 0) as [|Hn]; [by exists blsInf|].
  pose proof (ModInverse_spec (blsFpMod (bls_y p * 2))) as H.
  assert (blsFpMod (bls_y p * 2) =[blsP]= 2 * bls_y p) as E by bls_ring.
  assert (~ 2 * bls_y p =[blsP]= 0) as Hn0.
  { rewrite cong_divide by reflexivity. apply (not_divide_double blsP prime_bls bls_odd). lia. }
  destruct (ModInverse (blsFpMod (bls_y p * 2)) blsP) as [i| | |]; cbn [mbind outcome_bind];
    [|destruct H|by rewrite E in H|destruct H].
  destruct H as [_ Hi]. eexists. split; [reflexivity|]. rewrite <- (Hi _ E). unfold bls_point. cbn [bls_inf bls_x bls_y].
  f_equal. symmetry. apply bls_chord. bls_ring.
Qed.

Lemma blsG1Add_spec p q : on_bls (bls_point p) -> on_bls (bls_point q) ->
  exists r, blsG1Add p q = Ok r /\ bls_point r = ec_add blsP (bls_point p) (bls_point q).
Proof.
  intros Hp Hq. pose proof (blsG1Double_spec p Hp) as Hd. unfold blsG1Add. destruct (bls_inf p) eqn:Ep.
  { exists q. by rewrite (bls_point_inf p Ep). }
  destruct (bls_inf q) eqn:Eq.
  { exists p. rewrite (bls_point_inf q Eq). split; [reflexivity|]. by destruct (bls_point p) as [[? ?]|]. }
  rewrite (bls_point_fin p Ep) in *. rewrite (bls_point_fin q Eq) in *. cbn [ec_add].
  destruct Hp as (Hx1 & Hy1 & Hc1), Hq as (Hx2 & Hy2 & Hc2).
  destruct (Z.eqb_spec (bls_x p) (bls_x q)) as [Ex|Hx].
  { destruct (Z.eqb_spec (bls_y p) (bls_y q)) as [Ey|_]; [exact Hd|by exists blsInf]. }
  pose proof (ModInverse_spec (bls_x q - bls_x p)) as H.
  assert (~ bls_x q - bls_x p =[blsP]= 0) as Hn0.
  { rewrite cong_divide by reflexivity. apply (not_divide_small blsP). lia. }
  destruct (ModInverse (bls_x q - bls_x p) blsP) as [i| | |]; cbn [mbind outcome_bind];
    [|destruct H|by destruct Hn0|destruct H].
  destruct H as [_ Hi]. eexists. split; [reflexivity|]. rewrite <- (Hi _ (reflexivity _)). unfold bls_point.
  cbn [bls_inf bls_x bls_y]. f_equal. symmetry. apply bls_chord. bls_ring.
Qed.

Definition ec_neg (p : Z) (P : apoint) : apoint := match P with Some (x, y) => Some (x, - y mod p) | None => None end.

Lemma blsG1Neg_spec p : bls_point (blsG1Neg p) = ec_neg blsP (bls_point p).
Proof.
  unfold blsG1Neg. destruct (bls_inf p) eqn:Ep; [by rewrite (bls_point_inf p Ep)|]. by rewrite (bls_point_fin p Ep).
Qed.

Lemma ec_neg_curve P : on_bls P -> on_bls (ec_neg blsP P).
Proof.
  destruct P as [[x y]|]; [|done]. intros (Hx & Hy & Hc). split; [exact Hx|]. split; [apply Z.mod_pos_bound; reflexivity|].
  rewrite <- Hc, !cong_mod. apply cong_eq. ring.
Qed.

(** ** Multiplication *)

Lemma bls_mul_loop_spec k : forall r base, on_bls (bls_point r) -> on_bls (bls_point base) ->
  exists r', bls_mul_loop k r base = Ok r' /\ bls_point r' = ec_sum_bits blsP k (bls_point r) (bls_point base).
Proof.
  induction k as [k IH|k IH|]; intros r base Hr Hb; cbn [bls_mul_loop ec_sum_bits];
    destruct (blsG1Add_spec r base Hr Hb) as (a & Ea & Pa), (blsG1Double_spec base Hb) as (d & Ed & Pd);
    rewrite ?Ea; cbn [mbind outcome_bind]; rewrite Ed; cbn [mbind outcome_bind]; rewrite <- ?Pa, <- ?Pd.
  - apply IH; [rewrite Pa; by apply (ec_add_curve blsP blsB prime_bls bls_odd)|].
    rewrite Pd. by apply (ec_double_curve blsP blsB prime_bls bls_odd).
  - apply IH; [exact Hr|]. rewrite Pd. by apply (ec_double_curve blsP blsB prime_bls bls_odd).
  - by exists a.
Qed.

Lemma blsG1Mul_spec p k : on_bls (bls_point p) -> 0 <= k ->
  exists r, blsG1Mul p k = Ok r /\ bls_point r = ec_scale blsP k (bls_point p).
Proof.
  intros Hp Hk. destruct k as [|k|k]; [by exists blsInf|by apply bls_mul_loop_spec|lia].
Qed.

Lemma blsG1Gen_on : on_bls (bls_point blsG1Gen).
Proof. repeat split; vm_compute; congruence. Qed.

(** ** Compressed points *)

Lemma bls_mul_zero x y : x * y =[blsP]= 0 -> x =[blsP]= 0 \/ y =[blsP]= 0.
Proof. rewrite !cong_divide by reflexivity. apply Z.divide_prime_mul. exact prime_bls. Qed.

Lemma bls_exp3 : 0 <= (blsP - 1) / 3.
Proof. vm_compute. congruence. Qed.
Lemma bls_exp4 : 0 <= (blsP + 1) / 4.
Proof. vm_compute. congruence. Qed.

(** The curve has no point of order two: [-4] is not a cube. *)
Lemma bls_no_order_two x : ~ x * x * x + blsB =[blsP]= 0.
Proof.
  intros H.
  assert (x * x * x =[blsP]= blsP - 4) as Hc.
  { apply cong_sub_0. rewrite <- H. apply cong_sub_0.
    replace (x * x * x - (blsP - 4) - (x * x * x + blsB)) with (- blsP) by (unfold blsB; ring). vm_compute. reflexivity. }
  assert (~ x =[blsP]= 0) as Hx.
  { intros H0. rewrite H0, Z.mul_0_r in Hc. unfold cong in Hc. vm_compute in Hc. discriminate Hc. }
  apply (cong_pow blsP _ _ ((blsP - 1) / 3) bls_exp3) in Hc.
  replace (x * x * x) with (x ^ 3) in Hc by ring. rewrite <- Z.pow_mul_r in Hc by (exact bls_exp3 || lia).
  change (3 * ((blsP - 1) / 3)) with (blsP - 1) in Hc.
  rewrite (fermat blsP x prime_bls) in Hc by (rewrite <- cong_divide by reflexivity; exact Hx).
  unfold cong in Hc. rewrite <- pow_mod_spec in Hc by exact bls_exp3. rewrite <- fast_pow_mod_spec in Hc by (vm_compute; congruence).
  vm_compute in Hc. discriminate Hc.
Qed.

(** The point of a compressed form: the abscissa, and the root whose parity is the flag. *)
Definition decompresses (b : bytes) (P : apoint) : Prop :=
  let x := be_val (bls_clear b) in
  let flag m := negb (Z.land (b !!! 0%nat) m =? 0) in
  flag 0x80 = true /\
  match P with
  | None => flag 0x40 = true /\ x = 0
  | Some (x', y) => flag 0x40 = false /\ x' = x /\ on_bls P /\ Z.testbit y 0 = flag 0x20
  end.

Lemma bytes_ok_clear b : bytes_ok b -> bytes_ok (bls_clear b).
Proof.
  intros Hb. unfold bls_clear. apply Forall_insert; [exact Hb|]. unfold is_byte.
  change 0x1f with (Z.ones 5). rewrite Z.land_ones by lia. pose proof (Z.mod_pos_bound (b !!! 0%nat) (2 ^ 5)). lia.
Qed.

Lemma ModSqrt_spec v :
  match ModSqrt v blsP with
  | Some y => 0 <= y < blsP /\ y * y =[blsP]= v
  | None => True
  end.
Proof.
  unfold ModSqrt. rewrite pow_mod_spec by exact bls_exp4. set (y := v ^ ((blsP + 1) / 4) mod blsP).
  destruct (Z.eqb_spec (y * y mod blsP) (v mod blsP)) as [E|]; [|exact I].
  split; [by apply Z.mod_pos_bound|exact E].
Qed.

Lemma odd_neg y : 0 < y < blsP -> Z.testbit (blsP - y) 0 = negb (Z.testbit y 0).
Proof. intros Hy. rewrite !Z.bit0_odd, Z.odd_sub. change (Z.odd blsP) with true. by destruct (Z.odd y). Qed.

Lemma blsG1Decompress_sound b p : bytes_ok b -> blsG1Decompress b = Some p ->
  on_bls (bls_point p) /\ decompresses b (bls_point p).
Proof.
  intros Hb. unfold blsG1Decompress, decompresses. destruct (negb _); [discriminate|].
  destruct (Z.land (b !!! 0%nat) 0x80 =? 0); [discriminate|].
  destruct (Z.land (b !!! 0%nat) 0x40 =? 0); cbn [negb].
  2: { destruct (Z.eqb_spec (be_val (bls_clear b)) 0) as [E|]; [|discriminate]. cbn [negb]. intros [= <-]. done. }
  pose proof (be_val_range _ (bytes_ok_clear b Hb)) as Hr. set (x := be_val (bls_clear b)) in *.
  destruct (Z.leb_spec blsP x) as [|Hx]; [discriminate|]. rewrite pow_mod_spec by done.
  set (v := (x ^ 3 mod blsP + blsB) mod blsP). pose proof (ModSqrt_spec v) as H.
  destruct (ModSqrt v blsP) as [y|]; [|discriminate]. destruct H as [Hy Hv].
  assert (v =[blsP]= x * x * x + blsB) as Ev.
  { unfold v. rewrite cong_mod, cong_mod. apply cong_eq. ring. }
  assert (0 < y < blsP) as Hy0.
  { destruct (Z.eq_dec y 0) as [->|]; [|lia]. exfalso. apply (bls_no_order_two x). by rewrite <- Ev, <- Hv. }
  intros [= <-].
  set (w := negb (Z.land (b !!! 0%nat) 32 =? 0)). clearbody w.
  set (y' := if negb (Bool.eqb (Z.testbit y 0) w) then blsP - y else y).
  assert (Z.testbit y' 0 = w /\ 0 <= y' < blsP /\ y' * y' =[blsP]= y * y) as (H1 & H2 & H3).
  { unfold y'. destruct (Bool.eqb (Z.testbit y 0) w) eqn:Eb; cbn [negb].
    - apply Bool.eqb_prop in Eb. split; [exact Eb|]. split; [lia|reflexivity].
    - apply Bool.eqb_false_iff in Eb. rewrite odd_neg by exact Hy0. split; [by destruct (Z.testbit y 0), w|].
      split; [lia|]. apply (cong_comb1 blsP _ _ (blsP - 2 * y) blsP 0); [apply cong_self|ring]. }
  assert (on_bls (bls_point (BlsG1 x y' false))) as Hon.
  { split; [split; [apply Hr|exact Hx]|]. split; [exact H2|]. by rewrite H3, Hv, Ev. }
  split; [exact Hon|]. split; [reflexivity|]. split; [reflexivity|]. split; [reflexivity|]. split; [exact Hon|exact H1].
Qed.

(** ** The evaluation check *)

(** The proof point is not used, except to tell whether it is infinite. *)
Lemma verifyKZG_spec c z y pi : on_bls (bls_point c) -> bytes_ok y -> bytes_ok z ->
  let yG := ec_scale blsP (be_val y) (bls_point blsG1Gen) in
  let lhs := ec_add blsP (bls_point c) (ec_neg blsP yG) in
  exists b, verifyKZG c z y pi = Ok b /\
    (b = false <-> lhs = None /\ bls_point pi = None /\ be_val z <> 0).
Proof.
  intros Hc Hy Hz. unfold verifyKZG.
  destruct (blsG1Mul_spec blsG1Gen (be_val y) blsG1Gen_on) as (g & -> & Eg); [apply be_val_range, Hy|].
  cbn [mbind outcome_bind].
  destruct (blsG1Add_spec c (blsG1Neg g) Hc) as (l & -> & El).
  { rewrite blsG1Neg_spec, Eg. apply ec_neg_curve. by apply (ec_scale_curve blsP blsB prime_bls bls_odd), blsG1Gen_on. }
  cbn [mbind outcome_bind]. rewrite blsG1Neg_spec, Eg in El. cbv zeta. rewrite <- El.
  unfold bls_point. destruct (bls_inf l), (bls_inf pi), (Z.eqb_spec (be_val z) 0) as [Ez|Ez]; cbn [andb orb negb];
    eexists; (split; [reflexivity|]); split; try discriminate; try (intros (? & ? & ?); congruence); done.
Qed.
