(* ===== verification/Mpt.v ===== *)
(** * RLP and Merkle Patricia node encodings: [pkg/c2crypto/mpt.go]

    The source writes into a caller's buffer and returns the number of bytes
    written; the definitions return the bytes written. The lemmas give the shape
    and the size of the encodings: the sizes announced in list headers
    ([rlpBytesSize], [MptChildRefSize]) are the sizes written. *)

From S2P Require Import Prelude Keccak.

(** ** Operations *)

(** [for n != 0 { lenN++; n >>= 8 }] on a non-negative [int]: at most 8 rounds. *)
Fixpoint rlpIntLen_loop (fuel : nat) (n : Z) : nat :=
  match fuel with
  | O => 0
  | S fuel => if n =? 0 then 0 else S (rlpIntLen_loop fuel (Z.shiftr n 8))
  end.
Definition rlpIntLen (n : Z) : nat := rlpIntLen_loop 8 n.

Fixpoint rlpWriteInt (n : Z) (length : nat) : bytes :=
  match length with
  | O => []
  | S length => rlpWriteInt (Z.shiftr n 8) length ++ [Z.land n 0xff]
  end.

(** [dataLen == 1 && data[0] < 0x80] *)
Definition single_byte (data : bytes) : bool :=
  match data with [b] => b <? 0x80 | _ => false end.

Definition rlpBytesSize (data : bytes) : Z :=
  let dataLen := Z.of_nat (length data) in
  if single_byte data then 1
  else if dataLen <? 56 then 1 + dataLen
  else 1 + Z.of_nat (rlpIntLen dataLen) + dataLen.

(** The pairs written by the loop of [MptCompactEncode]. *)
Fixpoint compact_pairs (nibbles : bytes) : bytes :=
  match nibbles with
  | a :: b :: r => Z.lor (u8 (Z.shiftl (Z.land a 0x0f) 4)) (Z.land b 0x0f) :: compact_pairs r
  | _ => []
  end.

Definition MptCompactEncode (nibbles : bytes) (isLeaf : bool) : bytes :=
  let flag := if isLeaf then 2 else 0 in
  if Nat.odd (length nibbles) then
    let flag := Z.lor flag 1 in
    Z.lor (u8 (Z.shiftl flag 4)) (Z.land (nibbles !!! 0%nat) 0x0f) :: compact_pairs (drop 1 nibbles)
  else u8 (Z.shiftl flag 4) :: compact_pairs nibbles.

Definition RlpEncodeBytes (data : bytes) : bytes :=
  let dataLen := Z.of_nat (length data) in
  if single_byte data then data
  else if dataLen <? 56 then u8 (0x80 + dataLen) :: data
  else
    let llen := rlpIntLen dataLen in
    u8 (0xb7 + Z.of_nat llen) :: rlpWriteInt dataLen llen ++ data.

Definition RlpEncodeListHeader (payloadLen : Z) : bytes :=
  if payloadLen <? 56 then [u8 (0xc0 + payloadLen)]
  else
    let llen := rlpIntLen payloadLen in
    u8 (0xf7 + Z.of_nat llen) :: rlpWriteInt payloadLen llen.

Definition MptHashNode (rlpData : bytes) : bytes := Keccak256 rlpData.

Definition MptChildRefSize (childRLP : bytes) : Z :=
  if Z.of_nat (length childRLP) <? 32 then Z.of_nat (length childRLP) else 1 + 32.

Definition MptEncodeChildRef (childRLP : bytes) : bytes :=
  if Z.of_nat (length childRLP) <? 32 then childRLP else RlpEncodeBytes (Keccak256 childRLP).

Definition MptEncodeLeaf (keyNibbles value : bytes) : bytes :=
  let compact := MptCompactEncode keyNibbles true in
  let payload := rlpBytesSize compact + rlpBytesSize value in
  RlpEncodeListHeader payload ++ RlpEncodeBytes compact ++ RlpEncodeBytes value.

Definition MptEncodeExtension (keyNibbles childRLP : bytes) : bytes :=
  let compact := MptCompactEncode keyNibbles false in
  let payload := rlpBytesSize compact + MptChildRefSize childRLP in
  RlpEncodeListHeader payload ++ RlpEncodeBytes compact ++ MptEncodeChildRef childRLP.

(** One slot of a branch: [None] when [hasChild] is 0. *)
Definition branch_slot (c : option bytes) : bytes :=
  match c with Some c => MptEncodeChildRef c | None => [0x80] end.
Definition branch_slot_size (c : option bytes) : Z :=
  match c with Some c => MptChildRefSize c | None => 1 end.

Definition MptEncodeBranch (children : list (option bytes)) (value : bytes) : bytes :=
  let payload := foldl (fun p c => p + branch_slot_size c) 0 children in
  let payload := if (length value =? 0)%nat then payload + 1 else payload + rlpBytesSize value in
  RlpEncodeListHeader payload ++ concat (map branch_slot children) ++
  (if (length value =? 0)%nat then [0x80] else RlpEncodeBytes value).

(** ** Sizes *)

Lemma rlpWriteInt_be n len : rlpWriteInt n len = be_bytes len n.
Proof.
  revert n. induction len as [|len IH]; intros n; [done|]. cbn [rlpWriteInt be_bytes].
  rewrite IH, Z.shiftr_div_pow2 by lia. change (0xff) with (Z.ones 8). by rewrite Z.land_ones by lia.
Qed.

Lemma length_rlpWriteInt n len : length (rlpWriteInt n len) = len.
Proof. by rewrite rlpWriteInt_be, length_be_bytes. Qed.

(** The announced length fits in the announced number of length bytes, which is minimal. *)
Lemma rlpIntLen_loop_spec fuel n :
  0 <= n < 256 ^ Z.of_nat fuel ->
  n < 256 ^ Z.of_nat (rlpIntLen_loop fuel n) /\
  (n <> 0 -> (1 <= rlpIntLen_loop fuel n)%nat /\ 256 ^ (Z.of_nat (rlpIntLen_loop fuel n) - 1) <= n).
Proof.
  revert n. induction fuel as [|fuel IH]; intros n Hn; cbn [rlpIntLen_loop]; [simpl in *; lia|].
  destruct (Z.eqb_spec n 0) as [->|Hz]; [simpl; lia|].
  rewrite Nat2Z.inj_succ, Z.pow_succ_r in Hn by lia.
  rewrite Z.shiftr_div_pow2 by lia. change (2 ^ 8) with 256.
  destruct (IH (n / 256)) as [H1 H2].
  { split; [apply Z.div_pos; lia | apply Z.div_lt_upper_bound; lia]. }
  set (k := rlpIntLen_loop fuel (n / 256)) in *.
  rewrite Nat2Z.inj_succ, Z.pow_succ_r by lia. split; [dlia|]. intros _. split; [lia|].
  replace (Z.succ (Z.of_nat k) - 1) with (Z.of_nat k) by lia.
  destruct (decide (n / 256 = 0)) as [E|E].
  - unfold k. rewrite E. destruct fuel; simpl; lia.
  - destruct (H2 E) as [Hk Hle].
    replace (Z.of_nat k) with (Z.succ (Z.of_nat k - 1)) by lia. rewrite Z.pow_succ_r by lia. dlia.
Qed.

Lemma rlpIntLen_spec n :
  0 < n < B64 ->
  (1 <= rlpIntLen n <= 8)%nat /\ 256 ^ (Z.of_nat (rlpIntLen n) - 1) <= n < 256 ^ Z.of_nat (rlpIntLen n).
Proof.
  intros Hn. destruct (rlpIntLen_loop_spec 8 n) as [H1 H2]; [change (256 ^ Z.of_nat 8) with B64; lia|].
  destruct H2 as [H2 H3]; [lia|]. unfold rlpIntLen. split; [|lia].
  split; [done|]. clear. generalize 8%nat as k. intros k. revert n.
  induction k; intros; cbn; [lia|]. destruct (n =? 0); [lia|]. specialize (IHk (Z.shiftr n 8)). lia.
Qed.

Lemma rlpBytesSize_spec data : rlpBytesSize data = Z.of_nat (length (RlpEncodeBytes data)).
Proof.
  unfold rlpBytesSize, RlpEncodeBytes. destruct (single_byte data) eqn:E.
  - destruct data as [|b [|]]; done.
  - gtest; cbn [length]; rewrite ?length_app, ?length_rlpWriteInt; lia.
Qed.

Lemma RlpEncodeBytes_32 h : length h = 32%nat -> RlpEncodeBytes h = 0xa0 :: h.
Proof.
  intros Hl. unfold RlpEncodeBytes. rewrite Hl. destruct h as [|a [|b h]]; done.
Qed.

Lemma MptChildRefSize_spec c : MptChildRefSize c = Z.of_nat (length (MptEncodeChildRef c)).
Proof.
  unfold MptChildRefSize, MptEncodeChildRef. gtest; [done|].
  rewrite RlpEncodeBytes_32 by apply length_Keccak256. cbn [length]. by rewrite length_Keccak256.
Qed.

Lemma branch_payload_size children acc :
  foldl (fun p c => p + branch_slot_size c) acc children
  = acc + Z.of_nat (length (concat (map branch_slot children))).
Proof.
  revert acc. induction children as [|c cs IH]; intros acc; cbn; [lia|].
  rewrite IH, length_app. destruct c; cbn [branch_slot branch_slot_size length];
    rewrite ?MptChildRefSize_spec; lia.
Qed.

(** Every node encoding is a list header followed by exactly the announced payload. *)
Lemma MptEncodeLeaf_payload key value :
  exists p, MptEncodeLeaf key value = RlpEncodeListHeader (Z.of_nat (length p)) ++ p /\
    p = RlpEncodeBytes (MptCompactEncode key true) ++ RlpEncodeBytes value.
Proof.
  eexists. split; [|reflexivity]. unfold MptEncodeLeaf.
  by rewrite !rlpBytesSize_spec, length_app, Nat2Z.inj_add.
Qed.

Lemma MptEncodeExtension_payload key child :
  exists p, MptEncodeExtension key child = RlpEncodeListHeader (Z.of_nat (length p)) ++ p /\
    p = RlpEncodeBytes (MptCompactEncode key false) ++ MptEncodeChildRef child.
Proof.
  eexists. split; [|reflexivity]. unfold MptEncodeExtension.
  by rewrite rlpBytesSize_spec, MptChildRefSize_spec, length_app, Nat2Z.inj_add.
Qed.

(** The value slot of a branch. *)
Definition branch_value (value : bytes) : bytes :=
  if (length value =? 0)%nat then [0x80] else RlpEncodeBytes value.

Lemma MptEncodeBranch_payload children value :
  exists p, MptEncodeBranch children value = RlpEncodeListHeader (Z.of_nat (length p)) ++ p /\
    p = concat (map branch_slot children) ++ branch_value value.
Proof.
  eexists. split; [|reflexivity]. unfold MptEncodeBranch, branch_value.
  rewrite branch_payload_size, rlpBytesSize_spec, length_app, Nat2Z.inj_add.
  by destruct (length value =? 0)%nat.
Qed.

(** ** Bytes *)

Lemma u8_byte z : is_byte (u8 z).
Proof. apply Z.mod_pos_bound. lia. Qed.

Lemma rlpWriteInt_ok n len : bytes_ok (rlpWriteInt n len).
Proof. rewrite rlpWriteInt_be. apply be_bytes_ok. Qed.

Lemma RlpEncodeBytes_ok data : bytes_ok data -> bytes_ok (RlpEncodeBytes data).
Proof.
  intros Hd. unfold RlpEncodeBytes. destruct (single_byte data); [done|].
  gtest; (constructor; [apply u8_byte|]); [done|].
  apply bytes_ok_app; auto using rlpWriteInt_ok.
Qed.

Lemma RlpEncodeListHeader_ok n : bytes_ok (RlpEncodeListHeader n).
Proof.
  unfold RlpEncodeListHeader. gtest; (constructor; [apply u8_byte|]); [constructor | apply rlpWriteInt_ok].
Qed.

#[export] Hint Resolve u8_byte rlpWriteInt_ok RlpEncodeBytes_ok RlpEncodeListHeader_ok : word.
