(* ===== verification/Frame.v ===== *)
(** * Execution frames: [pkg/c2evm/frame.go]

    The stack is the source's fixed array of 1024 words with a stack pointer,
    memory the fixed array of 64 KiB with a high-water mark. Array accesses out
    of range are [Panic]; [frame_ok] is the invariant under which there is none.
    The abstract stack of a frame is [astack], top first. *)

From S2P Require Import Prelude Uint256.

(** ** Data *)

Inductive status :=
  | StatusRunning | StatusSuccess | StatusRevert | StatusStackUnderflow | StatusStackOverflow
  | StatusOutOfGas | StatusInvalidOpcode | StatusJumpDestInvalid.

#[export] Instance status_eq_dec : EqDecision status.
Proof. solve_decision. Defined.

Abbreviation stackMax := 1024.
Abbreviation memMax := 65536.

(** [StateAccessor], the interface through which SLOAD and SSTORE reach the
    state: its two operations, and an invariant they preserve. *)
Class StateAccessor (S : Type) := {
  sa_GetStorage : S -> Uint256 -> Uint256 -> Uint256;
  sa_SetStorage : S -> Uint256 -> Uint256 -> Uint256 -> S;
}.

Class StateAccessorLaws (S : Type) `{StateAccessor S} := {
  sa_inv : S -> Prop;
  sa_get_ok s addr key :
    sa_inv s -> u256_ok addr -> u256_ok key -> u256_ok (sa_GetStorage s addr key);
  sa_set_ok s addr key v :
    sa_inv s -> u256_ok addr -> u256_ok key -> u256_ok v -> sa_inv (sa_SetStorage s addr key v);
}.

#[export] Instance Uint256_inhabited : Inhabited Uint256 := populate zero256.

Section frame.
  Context {S : Type}.

Record ExecutionFrame := Frame {
  Stack : list Uint256;
  SP : Z;
  PC : Z;
  Gas : Z;
  Refund : Z;
  Status : status;
  Memory : bytes;
  MemorySize : Z;
  ReturnDataOffset : Z;
  ReturnDataSize : Z;
  StateDB : option S;
}.

Definition with_Stack (f : ExecutionFrame) x :=
  Frame x (SP f) (PC f) (Gas f) (Refund f) (Status f) (Memory f) (MemorySize f)
    (ReturnDataOffset f) (ReturnDataSize f) (StateDB f).
Definition with_SP (f : ExecutionFrame) x :=
  Frame (Stack f) x (PC f) (Gas f) (Refund f) (Status f) (Memory f) (MemorySize f)
    (ReturnDataOffset f) (ReturnDataSize f) (StateDB f).
Definition with_PC (f : ExecutionFrame) x :=
  Frame (Stack f) (SP f) x (Gas f) (Refund f) (Status f) (Memory f) (MemorySize f)
    (ReturnDataOffset f) (ReturnDataSize f) (StateDB f).
Definition with_Gas (f : ExecutionFrame) x :=
  Frame (Stack f) (SP f) (PC f) x (Refund f) (Status f) (Memory f) (MemorySize f)
    (ReturnDataOffset f) (ReturnDataSize f) (StateDB f).
Definition with_Refund (f : ExecutionFrame) x :=
  Frame (Stack f) (SP f) (PC f) (Gas f) x (Status f) (Memory f) (MemorySize f)
    (ReturnDataOffset f) (ReturnDataSize f) (StateDB f).
Definition with_Status (f : ExecutionFrame) x :=
  Frame (Stack f) (SP f) (PC f) (Gas f) (Refund f) x (Memory f) (MemorySize f)
    (ReturnDataOffset f) (ReturnDataSize f) (StateDB f).
Definition with_Memory (f : ExecutionFrame) x :=
  Frame (Stack f) (SP f) (PC f) (Gas f) (Refund f) (Status f) x (MemorySize f)
    (ReturnDataOffset f) (ReturnDataSize f) (StateDB f).
Definition with_MemorySize (f : ExecutionFrame) x :=
  Frame (Stack f) (SP f) (PC f) (Gas f) (Refund f) (Status f) (Memory f) x
    (ReturnDataOffset f) (ReturnDataSize f) (StateDB f).
Definition with_ReturnData (f : ExecutionFrame) off sz :=
  Frame (Stack f) (SP f) (PC f) (Gas f) (Refund f) (Status f) (Memory f) (MemorySize f)
    off sz (StateDB f).
Definition with_StateDB (f : ExecutionFrame) x :=
  Frame (Stack f) (SP f) (PC f) (Gas f) (Refund f) (Status f) (Memory f) (MemorySize f)
    (ReturnDataOffset f) (ReturnDataSize f) x.

(** [Reset]: everything cleared but the state accessor. *)
Definition Reset (f : ExecutionFrame) (gas : Z) : ExecutionFrame :=
  Frame (replicate 1024 zero256) 0 0 gas 0 StatusRunning (zeros (Z.to_nat memMax)) 0 0 0 (StateDB f).

(** ** Array accesses

    Handlers run in [outcome ExecutionFrame]: [Err f] is an early return that
    leaves the frame [f]. *)

Definition stack_get (f : ExecutionFrame) (i : Z) : outcome ExecutionFrame Uint256 :=
  if (0 <=? i) && (i <? stackMax) then Ok (Stack f !!! Z.to_nat i) else Panic.

Definition stack_set (f : ExecutionFrame) (i : Z) (v : Uint256) : outcome ExecutionFrame ExecutionFrame :=
  if (0 <=? i) && (i <? stackMax) then Ok (with_Stack f (<[Z.to_nat i := v]> (Stack f))) else Panic.

(** [f.Memory[lo:hi]] read, and [copy(f.Memory[lo:lo+len(src)], src)]. *)
Definition mem_read (f : ExecutionFrame) (lo hi : Z) : outcome ExecutionFrame bytes :=
  if (0 <=? lo) && (lo <=? hi) && (hi <=? memMax)
  then Ok (slice (Memory f) (Z.to_nat lo) (Z.to_nat hi)) else Panic.

Definition mem_write (f : ExecutionFrame) (lo : Z) (src : bytes) : outcome ExecutionFrame ExecutionFrame :=
  if (0 <=? lo) && (lo + Z.of_nat (length src) <=? memMax)
  then Ok (with_Memory f (copy_at (Memory f) (Z.to_nat lo) src)) else Panic.

(** ** Invariant *)

Context `{StateAccessorLaws S}.

(** Memory above the high-water mark is zero: it has never been written. *)
Record frame_ok (f : ExecutionFrame) : Prop := {
  fo_stack_len : length (Stack f) = 1024%nat;
  fo_stack : Forall u256_ok (Stack f);
  fo_SP : 0 <= SP f <= stackMax;
  fo_PC : is_u32 (PC f);
  fo_Gas : is_u64 (Gas f);
  fo_Refund : is_u64 (Refund f);
  fo_mem_len : length (Memory f) = Z.to_nat memMax;
  fo_mem : bytes_ok (Memory f);
  fo_msize : 0 <= MemorySize f <= memMax /\ MemorySize f mod 32 = 0;
  fo_clean : Forall (fun b => b = 0) (drop (Z.to_nat (MemorySize f)) (Memory f));
  fo_ret : is_u32 (ReturnDataOffset f) /\ is_u32 (ReturnDataSize f);
  fo_state : match StateDB f with Some s => sa_inv s | None => True end;
}.

(** The stack as a list, top first. *)
Definition astack (f : ExecutionFrame) : list Uint256 := reverse (take (Z.to_nat (SP f)) (Stack f)).

(** ** Lemmas *)

Lemma Reset_ok f gas :
  is_u64 gas -> match StateDB f with Some s => sa_inv s | None => True end ->
  frame_ok (Reset f gas).
Proof.
  intros Hg Hs. constructor; cbn [Reset Stack SP PC Gas Refund Memory MemorySize
    ReturnDataOffset ReturnDataSize StateDB]; unfold is_u32, is_u64; try lia.
  - apply length_replicate.
  - apply Forall_replicate, zero256_ok.
  - exact Hg.
  - apply length_zeros.
  - apply zeros_ok.
  - split; [lia|done].
  - rewrite drop_0. by apply Forall_replicate.
  - exact Hs.
Qed.

Lemma stack_lookup_ok f i : frame_ok f -> u256_ok (Stack f !!! i).
Proof.
  intros Hf. destruct (decide (i < length (Stack f))%nat) as [Hi|Hi].
  - apply (Forall_lookup_total_1 _ _ _ (fo_stack f Hf) Hi).
  - rewrite list_lookup_total_alt, lookup_ge_None_2 by lia. apply zero256_ok.
Qed.

Lemma stack_get_ok f i :
  0 <= i < stackMax -> stack_get f i = Ok (Stack f !!! Z.to_nat i).
Proof. intros. unfold stack_get. by repeat (gtest; try lia). Qed.

Lemma stack_set_ok f i v :
  0 <= i < stackMax -> stack_set f i v = Ok (with_Stack f (<[Z.to_nat i := v]> (Stack f))).
Proof. intros. unfold stack_set. by repeat (gtest; try lia). Qed.

Lemma mem_read_ok f lo hi :
  0 <= lo <= hi -> hi <= memMax ->
  mem_read f lo hi = Ok (slice (Memory f) (Z.to_nat lo) (Z.to_nat hi)).
Proof. intros. unfold mem_read. by repeat (gtest; try lia). Qed.

Lemma mem_write_ok f lo src :
  0 <= lo -> lo + Z.of_nat (length src) <= memMax ->
  mem_write f lo src = Ok (with_Memory f (copy_at (Memory f) (Z.to_nat lo) src)).
Proof. intros. unfold mem_write. by repeat (gtest; try lia). Qed.

Lemma length_astack f : frame_ok f -> length (astack f) = Z.to_nat (SP f).
Proof.
  intros Hf. unfold astack. rewrite length_reverse, length_take, (fo_stack_len f Hf).
  pose proof (fo_SP f Hf). lia.
Qed.

(** The [i]-th word from the top, for handlers that read below the top. *)
Lemma astack_lookup f i :
  frame_ok f -> (i < Z.to_nat (SP f))%nat ->
  astack f !! i = Some (Stack f !!! Z.to_nat (SP f - 1 - Z.of_nat i)).
Proof.
  intros Hf Hi. pose proof (fo_SP f Hf). pose proof (fo_stack_len f Hf).
  unfold astack. rewrite reverse_lookup by (rewrite length_take; lia).
  rewrite length_take, lookup_take_lt by lia.
  replace (Z.to_nat (SP f) `min` length (Stack f) - Datatypes.S i)%nat
    with (Z.to_nat (SP f - 1 - Z.of_nat i)) by lia.
  apply list_lookup_lookup_total_lt. lia.
Qed.

Lemma astack_ok f : frame_ok f -> Forall u256_ok (astack f).
Proof. intros Hf. unfold astack. apply Forall_reverse, Forall_take, fo_stack, Hf. Qed.

End frame.

Arguments ExecutionFrame : clear implicits.
