(* ===== verification/Stepper.v ===== *)
(** * The EVM interpreter: [pkg/c2evm/stepper.go]

    [StepOne] executes one instruction of the non-host instruction set: it is
    the switch of the source, one definition per group of cases. Handlers are
    functions into [outcome]: [Ok f] falls through to the end of the switch,
    [Err f] is an early [return] with the frame [f], [Panic] an access out of
    range. *)

From S2P Require Import Prelude Uint256 Bitwise256 Arith256 Division256 Keccak Frame.

Abbreviation gasInvalid := 18446744073709551615.

(** ** Gas table *)

(** [for op := lo; op <= hi; op++ { g[op] = v }] *)
Definition fill_gas (lo hi : nat) (v : Z) (g : list Z) : list Z :=
  foldl (fun g op => <[op := v]> g) g (seq lo (hi + 1 - lo)).

Definition opGas_table : list Z :=
  let g := replicate 256 gasInvalid in
  let g := <[0x00%nat := 0]> g in
  let g := <[0x01%nat := 3]> g in
  let g := <[0x02%nat := 5]> g in
  let g := <[0x03%nat := 3]> g in
  let g := <[0x04%nat := 5]> g in
  let g := <[0x05%nat := 5]> g in
  let g := <[0x06%nat := 5]> g in
  let g := <[0x07%nat := 5]> g in
  let g := <[0x08%nat := 8]> g in
  let g := <[0x09%nat := 8]> g in
  let g := <[0x0a%nat := 10]> g in
  let g := <[0x0b%nat := 5]> g in
  let g := fill_gas 0x10 0x1d 3 g in
  let g := <[0x20%nat := 30]> g in
  let g := <[0x50%nat := 2]> g in
  let g := <[0x51%nat := 3]> g in
  let g := <[0x52%nat := 3]> g in
  let g := <[0x53%nat := 3]> g in
  let g := <[0x54%nat := 800]> g in
  let g := <[0x55%nat := 5000]> g in
  let g := <[0x56%nat := 8]> g in
  let g := <[0x57%nat := 10]> g in
  let g := <[0x58%nat := 2]> g in
  let g := <[0x59%nat := 2]> g in
  let g := <[0x5a%nat := 2]> g in
  let g := <[0x5b%nat := 1]> g in
  let g := <[0x5f%nat := 2]> g in
  let g := fill_gas 0x60 0x7f 3 g in
  let g := fill_gas 0x80 0x9f 3 g in
  <[0xfd%nat := 0]> g.

Definition opGas (op : Z) : Z := opGas_table !!! Z.to_nat op.

(** ** Word helpers *)

Definition u256AsU64 (x : Uint256) : option Z :=
  if negb (Z.lor (Z.lor (w1 x) (w2 x)) (w3 x) =? 0) then None else Some (w0 x).

Fixpoint u256ByteLen_loop (n : nat) (x : Uint256) : Z :=
  match n with
  | O => 0
  | S i =>
      if negb (Z.land (shr64 (limb x (i / 8)) (Z.of_nat (i mod 8) * 8)) 0xff =? 0)
      then Z.of_nat i + 1 else u256ByteLen_loop i x
  end.
Definition u256ByteLen (x : Uint256) : Z := u256ByteLen_loop 32 x.

Definition memGas (words : Z) : Z := add64 (mul64 3 words) (mul64 words words / 512).

(** ** Jump destinations *)

(** The scan [for i < d]; [fuel] bounds the number of instructions before [d]. *)
Fixpoint jump_scan (fuel : nat) (code : bytes) (i d : Z) : Z :=
  match fuel with
  | O => i
  | S fuel =>
      if i <? d then
        let op := code !!! Z.to_nat i in
        if (0x60 <=? op) && (op <=? 0x7f) then jump_scan fuel code (i + (1 + (op - 0x5f))) d
        else jump_scan fuel code (i + 1) d
      else i
  end.

Definition jumpdestOK (code : bytes) (dest : Z) : bool :=
  if Z.of_nat (length code) <=? dest then false
  else if negb (code !!! Z.to_nat dest =? 0x5b) then false
  else jump_scan (S (Z.to_nat dest)) code 0 dest =? dest.

Section stepper.
  Context {S : Type} `{StateAccessor S}.
  Abbreviation frame := (ExecutionFrame S).
  Abbreviation handler := (outcome frame frame).

Definition haltEx (f : frame) (st : status) : frame := with_Gas (with_Status f st) 0.

Definition requireStack (f : frame) (n : Z) : outcome frame unit :=
  if SP f <? n then Err (haltEx f StatusStackUnderflow) else Ok tt.

Definition requireRoom (f : frame) : outcome frame unit :=
  if stackMax <=? SP f then Err (haltEx f StatusStackOverflow) else Ok tt.

(** [u256AsU64] or halt with [st]. *)
Definition asU64_or (f : frame) (x : Uint256) (st : status) : outcome frame Z :=
  match u256AsU64 x with Some v => Ok v | None => Err (haltEx f st) end.

(** ** Memory expansion *)

Definition chargeMem (f : frame) (offset size : Z) : option frame :=
  if size =? 0 then Some f
  else if memMax <=? offset then None
  else if memMax - offset <? size then None
  else
    let end_ := add64 offset size in
    let words := add64 end_ 31 / 32 in
    let newSize := mul64 words 32 in
    if memMax <? newSize then None
    else if newSize <=? MemorySize f then Some f
    else
      let oldWords := add64 (MemorySize f) 31 / 32 in
      let oldCost := memGas oldWords in
      let newCost := memGas words in
      if newCost <? oldCost then None
      else
        let delta := sub64 newCost oldCost in
        if Gas f <? delta then None
        else Some (with_MemorySize (with_Gas f (sub64 (Gas f) delta)) (u32 newSize)).

Definition chargeMem_or (f : frame) (offset size : Z) : handler :=
  match chargeMem f offset size with Some f => Ok f | None => Err (haltEx f StatusOutOfGas) end.

(** [if f.Gas < extra { return haltEx(f, StatusOutOfGas) }; f.Gas -= extra] *)
Definition charge (f : frame) (extra : Z) : handler :=
  if Gas f <? extra then Err (haltEx f StatusOutOfGas) else Ok (with_Gas f (sub64 (Gas f) extra)).

(** ** Arithmetic and comparison cases *)

Definition execBinop (f : frame) (fn : Uint256 -> Uint256 -> Uint256) : handler :=
  _ ← requireStack f 2;
  a ← stack_get f (SP f - 1);
  b ← stack_get f (SP f - 2);
  f ← stack_set f (SP f - 2) (fn a b);
  mret (with_SP f (SP f - 1)).

Definition execCmp (f : frame) (fn : Uint256 -> Uint256 -> bool) : handler :=
  _ ← requireStack f 2;
  a ← stack_get f (SP f - 1);
  b ← stack_get f (SP f - 2);
  f ← stack_set f (SP f - 2) (FromU64 (if fn a b then 1 else 0));
  mret (with_SP f (SP f - 1)).

(** ADDMOD and MULMOD. *)
Definition execTernop (f : frame) (fn : Uint256 -> Uint256 -> Uint256 -> Uint256) : handler :=
  _ ← requireStack f 3;
  a ← stack_get f (SP f - 1);
  b ← stack_get f (SP f - 2);
  m ← stack_get f (SP f - 3);
  f ← stack_set f (SP f - 3) (fn a b m);
  mret (with_SP f (SP f - 2)).

Definition execExp (f : frame) : handler :=
  _ ← requireStack f 2;
  a ← stack_get f (SP f - 1);
  e ← stack_get f (SP f - 2);
  f ← charge f (mul64 50 (u256ByteLen e));
  f ← stack_set f (SP f - 2) (Exp256 a e);
  mret (with_SP f (SP f - 1)).

(** SIGNEXTEND and BYTE: an index that does not fit in 64 bits becomes [dflt]. *)
Definition execIndexed (f : frame) (dflt : Z) (fn : Z -> Uint256 -> Uint256) : handler :=
  _ ← requireStack f 2;
  a ← stack_get f (SP f - 1);
  x ← stack_get f (SP f - 2);
  let i := match u256AsU64 a with Some i => i | None => dflt end in
  f ← stack_set f (SP f - 2) (fn i x);
  mret (with_SP f (SP f - 1)).

(** ISZERO and NOT. *)
Definition execUnop (f : frame) (fn : Uint256 -> Uint256) : handler :=
  _ ← requireStack f 1;
  a ← stack_get f (SP f - 1);
  stack_set f (SP f - 1) (fn a).

Definition exec_alu (f : frame) (op : Z) : option handler :=
  if op =? 0x01 then Some (execBinop f Add256)
  else if op =? 0x02 then Some (execBinop f Mul256)
  else if op =? 0x03 then Some (execBinop f Sub256)
  else if op =? 0x04 then Some (execBinop f Div256)
  else if op =? 0x05 then Some (execBinop f SDiv256)
  else if op =? 0x06 then Some (execBinop f Mod256)
  else if op =? 0x07 then Some (execBinop f SMod256)
  else if op =? 0x08 then Some (execTernop f AddMod256)
  else if op =? 0x09 then Some (execTernop f MulMod256)
  else if op =? 0x0a then Some (execExp f)
  else if op =? 0x0b then Some (execIndexed f 31 SignExtend256)
  else if op =? 0x10 then Some (execCmp f Lt256)
  else if op =? 0x11 then Some (execCmp f Gt256)
  else if op =? 0x12 then Some (execCmp f Slt256)
  else if op =? 0x13 then Some (execCmp f Sgt256)
  else if op =? 0x14 then Some (execCmp f Eq)
  else if op =? 0x15 then Some (execUnop f (fun a => FromU64 (if IsZero a then 1 else 0)))
  else if op =? 0x16 then Some (execBinop f And256)
  else if op =? 0x17 then Some (execBinop f Or256)
  else if op =? 0x18 then Some (execBinop f Xor256)
  else if op =? 0x19 then Some (execUnop f Not256)
  else if op =? 0x1a then Some (execIndexed f 32 Byte256)
  else if op =? 0x1b then Some (execBinop f Shl256)
  else if op =? 0x1c then Some (execBinop f Shr256)
  else if op =? 0x1d then Some (execBinop f Sar256)
  else None.

(** ** Memory cases *)

Definition execKeccak (f : frame) : handler :=
  _ ← requireStack f 2;
  a ← stack_get f (SP f - 1);
  b ← stack_get f (SP f - 2);
  off ← asU64_or f a StatusOutOfGas;
  sz ← asU64_or f b StatusOutOfGas;
  f ← chargeMem_or f off sz;
  let words := if sz =? 0 then 0 else add64 sz 31 / 32 in
  f ← charge f (mul64 6 words);
  digest ← (if sz =? 0 then mret (Keccak256 [])
            else data ← mem_read f off (add64 off sz); mret (Keccak256 data));
  let f := with_SP f (SP f - 1) in
  stack_set f (SP f - 1) (FromBytesBE digest).

Definition execMload (f : frame) : handler :=
  _ ← requireStack f 1;
  a ← stack_get f (SP f - 1);
  off ← asU64_or f a StatusOutOfGas;
  f ← chargeMem_or f off 32;
  data ← mem_read f off (add64 off 32);
  stack_set f (SP f - 1) (FromBytesBE data).

Definition execMstore (f : frame) : handler :=
  _ ← requireStack f 2;
  a ← stack_get f (SP f - 1);
  off ← asU64_or f a StatusOutOfGas;
  f ← chargeMem_or f off 32;
  v ← stack_get f (SP f - 2);
  f ← mem_write f off (BytesBE v);
  mret (with_SP f (SP f - 2)).

Definition execMstore8 (f : frame) : handler :=
  _ ← requireStack f 2;
  a ← stack_get f (SP f - 1);
  off ← asU64_or f a StatusOutOfGas;
  f ← chargeMem_or f off 1;
  v ← stack_get f (SP f - 2);
  f ← mem_write f off [Z.land (w0 v) 0xff];
  mret (with_SP f (SP f - 2)).

Definition execRevert (f : frame) : handler :=
  _ ← requireStack f 2;
  a ← stack_get f (SP f - 1);
  b ← stack_get f (SP f - 2);
  off ← asU64_or f a StatusOutOfGas;
  sz ← asU64_or f b StatusOutOfGas;
  f ← chargeMem_or f off sz;
  let f := with_ReturnData f (u32 off) (u32 sz) in
  let f := with_SP f (SP f - 2) in
  mret (with_Status f StatusRevert).

(** ** Storage cases *)

Definition zeroAddr : Uint256 := zero256.

Definition execSload (f : frame) : handler :=
  _ ← requireStack f 1;
  key ← stack_get f (SP f - 1);
  match StateDB f with
  | Some s => stack_set f (SP f - 1) (sa_GetStorage s zeroAddr key)
  | None => stack_set f (SP f - 1) zero256
  end.

Definition execSstore (f : frame) : handler :=
  _ ← requireStack f 2;
  f ← match StateDB f with
      | Some s =>
          key ← stack_get f (SP f - 1);
          v ← stack_get f (SP f - 2);
          let old := sa_GetStorage s zeroAddr key in
          let f := with_StateDB f (Some (sa_SetStorage s zeroAddr key v)) in
          mret (if negb (IsZero old) && IsZero v then with_Refund f (add64 (Refund f) 15000) else f)
      | None => mret f
      end;
  mret (with_SP f (SP f - 2)).

(** ** Control flow cases *)

(** [u256AsU64(x, &dest) < 0 || dest > 0xffffffff || !jumpdestOK(code, uint32(dest))] *)
Definition jump_target (f : frame) (code : bytes) (x : Uint256) : outcome frame Z :=
  match u256AsU64 x with
  | None => Err (haltEx f StatusJumpDestInvalid)
  | Some dest =>
      if (0xffffffff <? dest) || negb (jumpdestOK code (u32 dest))
      then Err (haltEx f StatusJumpDestInvalid) else Ok (u32 dest)
  end.

Definition execJump (f : frame) (code : bytes) : handler :=
  _ ← requireStack f 1;
  a ← stack_get f (SP f - 1);
  dest ← jump_target f code a;
  mret (with_PC (with_SP f (SP f - 1)) dest).

Definition execJumpi (f : frame) (code : bytes) : handler :=
  _ ← requireStack f 2;
  c ← stack_get f (SP f - 2);
  f ← (if negb (IsZero c) then
         a ← stack_get f (SP f - 1);
         dest ← jump_target f code a;
         mret (with_PC f dest)
       else mret f);
  mret (with_SP f (SP f - 2)).

(** ** Stack cases *)

(** [requireRoom], then [f.Stack[f.SP] = v; f.SP++]. *)
Definition execPushWord (f : frame) (v : Uint256) : handler :=
  _ ← requireRoom f;
  f ← stack_set f (SP f) v;
  mret (with_SP f (SP f + 1)).

(** The loop of [execPush]: [k] of the [n] immediate bytes are left. *)
Fixpoint push_loop (code : bytes) (n k : nat) (pc : Z) (buf : bytes) : Z * bytes :=
  match k with
  | O => (pc, buf)
  | Datatypes.S k' =>
      let b := if pc <? Z.of_nat (length code) then code !!! Z.to_nat pc else 0 in
      push_loop code n k' (u32 (pc + 1)) (<[(32 - k)%nat := b]> buf)
  end.

Definition execPush (f : frame) (code : bytes) (n : nat) : handler :=
  _ ← requireRoom f;
  let '(pc, buf) := push_loop code n n (PC f) (zeros 32) in
  let f := with_PC f pc in
  f ← stack_set f (SP f) (FromBytesBE buf);
  mret (with_SP f (SP f + 1)).

Definition execPop (f : frame) : handler :=
  _ ← requireStack f 1;
  mret (with_SP f (SP f - 1)).

Definition execDup (f : frame) (n : Z) : handler :=
  _ ← requireStack f n;
  _ ← requireRoom f;
  v ← stack_get f (SP f - n);
  f ← stack_set f (SP f) v;
  mret (with_SP f (SP f + 1)).

Definition execSwap (f : frame) (n : Z) : handler :=
  _ ← requireStack f (n + 1);
  t ← stack_get f (SP f - 1);
  v ← stack_get f (SP f - 1 - n);
  f ← stack_set f (SP f - 1) v;
  stack_set f (SP f - 1 - n) t.

(** ** One instruction *)

Definition exec_op (f : frame) (code : bytes) (op : Z) : handler :=
  match exec_alu f op with
  | Some h => h
  | None =>
      if op =? 0x00 then mret (with_Status f StatusSuccess)
      else if op =? 0x20 then execKeccak f
      else if op =? 0x50 then execPop f
      else if op =? 0x51 then execMload f
      else if op =? 0x52 then execMstore f
      else if op =? 0x53 then execMstore8 f
      else if op =? 0x54 then execSload f
      else if op =? 0x55 then execSstore f
      else if op =? 0x56 then execJump f code
      else if op =? 0x57 then execJumpi f code
      else if op =? 0x58 then execPushWord f (FromU64 (u32 (PC f - 1)))
      else if op =? 0x59 then execPushWord f (FromU64 (MemorySize f))
      else if op =? 0x5a then execPushWord f (FromU64 (Gas f))
      else if op =? 0x5b then mret f
      else if op =? 0x5f then execPushWord f zero256
      else if (0x60 <=? op) && (op <=? 0x7f) then execPush f code (Z.to_nat (op - 0x5f))
      else if (0x80 <=? op) && (op <=? 0x8f) then execDup f (op - 0x80 + 1)
      else if (0x90 <=? op) && (op <=? 0x9f) then execSwap f (op - 0x90 + 1)
      else if op =? 0xfd then execRevert f
      else Err (haltEx f StatusInvalidOpcode)
  end.

(** The frame a handler leaves, whether it returned early or not; [None] is a panic. *)
Definition settle (h : handler) : option frame :=
  match h with Ok f | Err f => Some f | _ => None end.

(** [StepOne]: the frame after the call. The value the code returns is its
    [Status] on every path. *)
Definition StepOne (f : frame) (code : bytes) : option frame :=
  if negb (bool_decide (Status f = StatusRunning)) then Some f
  else if Z.of_nat (length code) <=? PC f then Some (with_Status f StatusSuccess)
  else
    let op := code !!! Z.to_nat (PC f) in
    let cost := opGas op in
    if cost =? gasInvalid then Some (haltEx f StatusInvalidOpcode)
    else if Gas f <? cost then Some (haltEx f StatusOutOfGas)
    else
      let f := with_Gas f (sub64 (Gas f) cost) in
      let f := with_PC f (u32 (PC f + 1)) in
      settle (exec_op f code op).

(** [for StepOne(f, code) == StatusRunning {}], with at most [n] instructions. *)
Fixpoint run_steps (n : nat) (f : frame) (code : bytes) : option frame :=
  match n with
  | O => Some f
  | Datatypes.S n =>
      match StepOne f code with
      | Some f' => if bool_decide (Status f' = StatusRunning) then run_steps n f' code else Some f'
      | None => None
      end
  end.

End stepper.
