(* ===== verification/StepperSpec.v ===== *)
(** * The interpreter is correct: theorems on [StepOne]

    [wp m Q E]: the handler [m] does not panic, its normal result satisfies [Q]
    and the frame of an early return satisfies [E]. The rules below follow the
    handlers' accesses one by one; they show that no access is out of range
    under [frame_ok]. *)

From S2P Require Import Prelude Uint256 Bitwise256 Arith256 Division256 Keccak Frame Stepper.

Create HintDb frame.

(** The statuses of an exceptional halt. *)
Definition exceptional (st : status) : bool :=
  match st with
  | StatusRunning | StatusSuccess | StatusRevert => false
  | _ => true
  end.

(** Reduce the projections of updated frames, and nothing else. *)
Ltac fcbn :=
  cbn [Stack SP PC Gas Refund Status Memory MemorySize ReturnDataOffset ReturnDataSize StateDB
       with_Stack with_SP with_PC with_Gas with_Refund with_Status with_Memory with_MemorySize
       with_ReturnData with_StateDB exceptional] in *.

(** ** Generic facts *)

Lemma drop_copy_at {A} (l : list A) off src n :
  (off + length src <= n)%nat -> (off + length src <= length l)%nat ->
  drop n (copy_at l off src) = drop n l.
Proof.
  intros Hn Hl. unfold copy_at.
  rewrite (take_ge src) by lia. rewrite drop_app_ge by (rewrite length_take; lia).
  rewrite length_take, Nat.min_l by lia. rewrite drop_app_ge by lia.
  rewrite drop_drop. f_equal. lia.
Qed.

(** Every opcode's table entry: a property of all 256 entries, by evaluation. *)
Lemma opGas_forall (P : Z -> Z -> bool) :
  forallb (fun n => P (Z.of_nat n) (opGas (Z.of_nat n))) (seq 0 256) = true ->
  forall op, is_byte op -> P op (opGas op) = true.
Proof.
  intros HP op Hop. rewrite forallb_forall in HP.
  specialize (HP (Z.to_nat op)). unfold is_byte in Hop.
  rewrite Z2Nat.id in HP by lia. apply HP. apply in_seq. lia.
Qed.

(** A defined opcode costs a bounded amount, and is free only for STOP and REVERT. *)
Lemma opGas_range op : is_byte op -> opGas op <> gasInvalid -> 0 <= opGas op <= 5000.
Proof.
  intros Hop Hv.
  pose proof (opGas_forall (fun _ g => (g =? gasInvalid) || (0 <=? g) && (g <=? 5000))
                ltac:(vm_compute; reflexivity) op Hop) as E.
  rewrite orb_true_iff, andb_true_iff, Z.eqb_eq, !Z.leb_le in E. lia.
Qed.

Lemma opGas_pos op :
  is_byte op -> op <> 0x00 -> op <> 0xfd -> 1 <= opGas op.
Proof.
  intros Hop H0 Hfd.
  pose proof (opGas_forall (fun op g => (op =? 0) || (op =? 0xfd) || (1 <=? g))
                ltac:(vm_compute; reflexivity) op Hop) as E.
  rewrite !orb_true_iff, !Z.eqb_eq, Z.leb_le in E. lia.
Qed.

Lemma u256AsU64_Some x v :
  u256_ok x -> u256AsU64 x = Some v <-> (toZ x = v /\ v < B64).
Proof.
  intros (H0 & H1 & H2 & H3). unfold u256AsU64, toZ, is_u64 in *.
  destruct (Z.eqb_spec (Z.lor (Z.lor (w1 x) (w2 x)) (w3 x)) 0) as [E|E]; simpl.
  - apply Z.lor_eq_0_iff in E as [E E3]. apply Z.lor_eq_0_iff in E as [E1 E2].
    rewrite E1, E2, E3. split; [intros [= <-]; lia|]. intros [<- Hv]. f_equal. lia.
  - split; [done|]. intros [<- Hv]. destruct E.
    assert (w1 x = 0 /\ w2 x = 0 /\ w3 x = 0) as (-> & -> & ->) by lia. done.
Qed.

Lemma u256AsU64_None x : u256_ok x -> u256AsU64 x = None <-> B64 <= toZ x.
Proof.
  intros Hx. destruct (u256AsU64 x) as [v|] eqn:E.
  - apply u256AsU64_Some in E as [E Hv]; [|done]. split; [done|lia].
  - split; [|done]. intros _. destruct (decide (B64 <= toZ x)); [done|].
    assert (u256AsU64 x = Some (toZ x)) as E' by (apply u256AsU64_Some; [done|lia]). congruence.
Qed.

Lemma u256AsU64_u64 x v : u256_ok x -> u256AsU64 x = Some v -> is_u64 v.
Proof.
  intros Hx E. apply u256AsU64_Some in E as [<- ?]; [|done].
  pose proof (toZ_range x Hx). unfold is_u64. lia.
Qed.

(** ** Memory cost *)

(** Cost of a memory of [m] bytes, [m] a multiple of 32. *)
Definition mem_cost (m : Z) : Z := 3 * (m / 32) + (m / 32) * (m / 32) / 512.

(** Size of the memory after touching [sz] bytes at [off]. *)
Definition mem_extent (m off sz : Z) : Z :=
  if sz =? 0 then m else Z.max m ((off + sz + 31) / 32 * 32).

Lemma memGas_small w : 0 <= w <= 2048 -> memGas w = 3 * w + w * w / 512.
Proof.
  intros Hw. unfold memGas, add64, mul64.
  assert (0 <= w * w <= 2048 * 2048) by nia.
  assert (0 <= w * w / 512 <= 8192) by dlia.
  rewrite !(u64_small (3 * w)), !(u64_small (w * w)), u64_small by (unfold is_u64; lia). done.
Qed.

Lemma mem_cost_mono m m' : 0 <= m <= m' -> mem_cost m <= mem_cost m'.
Proof.
  intros Hm. unfold mem_cost.
  assert (0 <= m / 32 <= m' / 32) as [H0 H1].
  { split; [apply Z.div_pos; lia | apply Z.div_le_mono; lia]. }
  assert (m / 32 * (m / 32) <= m' / 32 * (m' / 32)) by nia.
  pose proof (Z.div_le_mono (m / 32 * (m / 32)) (m' / 32 * (m' / 32)) 512 ltac:(lia) ltac:(done)).
  lia.
Qed.

Lemma mem_cost_bound m : 0 <= m <= memMax -> 0 <= mem_cost m <= 14336.
Proof.
  intros Hm. split.
  - change 0 with (mem_cost 0). apply mem_cost_mono. lia.
  - change 14336 with (mem_cost memMax). apply mem_cost_mono. lia.
Qed.

Section proofs.
  Context {S : Type} `{StateAccessorLaws S}.
  Implicit Types f : ExecutionFrame S.

Lemma frame_eta f : with_MemorySize (with_Gas f (Gas f)) (MemorySize f) = f.
Proof. by destruct f. Qed.

(** [chargeMem]: exact condition of success, and the exact frame it leaves. *)
Lemma chargeMem_spec f off sz :
  frame_ok f -> is_u64 off -> is_u64 sz ->
  let m := mem_extent (MemorySize f) off sz in
  let cost := mem_cost m - mem_cost (MemorySize f) in
  chargeMem f off sz =
  if (sz =? 0) || (off + sz <=? memMax) && (cost <=? Gas f)
  then Some (with_MemorySize (with_Gas f (Gas f - cost)) m) else None.
Proof.
  intros Hf Ho Hs. unfold is_u64 in *. unfold chargeMem, mem_extent. cbn zeta.
  destruct (fo_msize f Hf) as [Hm Hm32]. pose proof (fo_Gas f Hf) as Hg. unfold is_u64 in Hg.
  destruct (Z.eqb_spec sz 0) as [->|Hsz]; cbn [orb].
  { by rewrite Z.sub_diag, Z.sub_0_r, frame_eta. }
  destruct (Z.leb_spec memMax off); [destruct (Z.leb_spec (off + sz) memMax); [lia|done]|].
  destruct (Z.ltb_spec (memMax - off) sz); destruct (Z.leb_spec (off + sz) memMax) as [Hb|];
    try lia; try done; cbn [andb].
  assert (add64 off sz = off + sz) as -> by (apply u64_small; unfold is_u64; lia).
  assert (add64 (off + sz) 31 = off + sz + 31) as -> by (apply u64_small; unfold is_u64; lia).
  assert (add64 (MemorySize f) 31 = MemorySize f + 31) as -> by (apply u64_small; unfold is_u64; lia).
  set (w := (off + sz + 31) / 32).
  assert (1 <= w <= 2048) as Hw by (unfold w; dlia).
  assert (mul64 w 32 = w * 32) as -> by (apply u64_small; unfold is_u64; lia).
  destruct (Z.ltb_spec memMax (w * 32)); [lia|].
  assert ((MemorySize f + 31) / 32 = MemorySize f / 32) as -> by dlia.
  rewrite !memGas_small by (split; [lia || (apply Z.div_pos; lia) | dlia || lia]).
  destruct (Z.leb_spec (w * 32) (MemorySize f)).
  { rewrite Z.max_l by lia. rewrite Z.sub_diag, Z.sub_0_r, frame_eta.
    destruct (Z.leb_spec 0 (Gas f)); [done|lia]. }
  rewrite Z.max_r by lia. unfold mem_cost at 1 3. rewrite Z.div_mul by lia.
  fold (mem_cost (MemorySize f)).
  pose proof (mem_cost_mono (MemorySize f) (w * 32) ltac:(lia)) as Hmono.
  pose proof (mem_cost_bound (w * 32) ltac:(lia)) as Hbd.
  pose proof (mem_cost_bound (MemorySize f) Hm) as Hbd'.
  unfold mem_cost at 2 in Hmono. unfold mem_cost in Hbd. rewrite Z.div_mul in Hmono, Hbd by lia.
  change (3 * (MemorySize f / 32) + MemorySize f / 32 * (MemorySize f / 32) / 512)
    with (mem_cost (MemorySize f)).
  set (c := 3 * w + w * w / 512) in *. set (c0 := mem_cost (MemorySize f)) in *.
  destruct (Z.ltb_spec c c0); [lia|].
  assert (sub64 c c0 = c - c0) as -> by (apply u64_small; unfold is_u64; lia).
  destruct (Z.ltb_spec (Gas f) (c - c0)), (Z.leb_spec (c - c0) (Gas f)); try lia; [done|].
  unfold sub64. rewrite u64_small by (unfold is_u64; lia).
  unfold u32. by rewrite Z.mod_small by lia.
Qed.

(** ** The invariant is preserved by every field update the handlers make *)

Ltac frame_upd := intros Hf; destruct Hf; constructor; cbn; auto.

Lemma ok_with_SP f sp : frame_ok f -> 0 <= sp <= stackMax -> frame_ok (with_SP f sp).
Proof. frame_upd. Qed.
Lemma ok_with_PC f pc : frame_ok f -> is_u32 pc -> frame_ok (with_PC f pc).
Proof. frame_upd. Qed.
Lemma ok_with_Gas f g : frame_ok f -> is_u64 g -> frame_ok (with_Gas f g).
Proof. frame_upd. Qed.
Lemma ok_with_Status f st : frame_ok f -> frame_ok (with_Status f st).
Proof. frame_upd. Qed.
Lemma ok_with_Refund f r : frame_ok f -> is_u64 r -> frame_ok (with_Refund f r).
Proof. frame_upd. Qed.
Lemma ok_with_ReturnData f o s : frame_ok f -> is_u32 o -> is_u32 s -> frame_ok (with_ReturnData f o s).
Proof. frame_upd. Qed.
Lemma ok_with_StateDB f db : frame_ok f -> sa_inv db -> frame_ok (with_StateDB f (Some db)).
Proof. frame_upd. Qed.
Lemma ok_with_Stack f g i v :
  frame_ok f -> frame_ok g -> u256_ok v -> frame_ok (with_Stack f (<[i := v]> (Stack g))).
Proof.
  intros Hf Hg Hv. pose proof (fo_stack g Hg). pose proof (fo_stack_len g Hg).
  destruct Hf; constructor; cbn; auto; [by rewrite length_insert|]. by apply Forall_insert.
Qed.
Lemma ok_grow f m :
  frame_ok f -> MemorySize f <= m <= memMax -> m mod 32 = 0 -> frame_ok (with_MemorySize f m).
Proof.
  intros Hf Hm Hm32. pose proof (fo_msize f Hf) as [? _].
  pose proof (fo_clean f Hf) as Hc. destruct Hf; constructor; cbn; auto; [lia|].
  replace (Z.to_nat m) with (Z.to_nat (MemorySize f) + (Z.to_nat m - Z.to_nat (MemorySize f)))%nat by lia.
  rewrite <- drop_drop. by apply Forall_drop.
Qed.
Lemma ok_mem_write f off src :
  frame_ok f -> bytes_ok src -> 0 <= off -> off + Z.of_nat (length src) <= MemorySize f ->
  frame_ok (with_Memory f (copy_at (Memory f) (Z.to_nat off) src)).
Proof.
  intros Hf Hs Ho Hb. pose proof (fo_msize f Hf) as [? _]. pose proof (fo_mem_len f Hf) as Hl.
  pose proof (fo_clean f Hf) as Hc. pose proof (fo_mem f Hf) as Hm.
  destruct Hf; constructor; cbn; auto.
  - rewrite length_copy_at by lia. done.
  - auto with word.
  - by rewrite drop_copy_at by lia.
Qed.

Lemma ok_haltEx f st : frame_ok f -> frame_ok (haltEx f st).
Proof. intros. apply ok_with_Gas, conj; [by apply ok_with_Status|done..]. Qed.

(** ** Handlers do not panic and preserve the invariant *)

Definition wp {A} (m : outcome (ExecutionFrame S) A) (Q : A -> Prop) (E : ExecutionFrame S -> Prop) : Prop :=
  match m with Ok a => Q a | Err f => E f | _ => False end.

Lemma mul64_nonneg x y : 0 <= mul64 x y.
Proof. apply u64_range. Qed.
#[local] Hint Resolve mul64_nonneg : word.

(** What an exceptional halt leaves: no gas, and the state as it was. *)
Record halted f f' : Prop := {
  ha_ok : frame_ok f';
  ha_status : exceptional (Status f') = true;
  ha_gas : Gas f' = 0;
  ha_state : StateDB f' = StateDB f;
  ha_refund : Refund f' = Refund f;
  ha_msize : MemorySize f <= MemorySize f';
}.

(** What a completed instruction leaves. *)
Record went f f' : Prop := {
  we_ok : frame_ok f';
  we_status : Status f' = Status f \/ Status f' = StatusSuccess \/ Status f' = StatusRevert;
  we_gas : Gas f' <= Gas f;
  we_msize : MemorySize f <= MemorySize f';
}.

Lemma wp_bind {A B} (m : outcome _ A) (k : A -> outcome _ B) Q E :
  wp m (fun a => wp (k a) Q E) E -> wp (m ≫= k) Q E.
Proof. by destruct m. Qed.

Lemma wp_requireStack f n Q (E : _ -> Prop) :
  E (haltEx f StatusStackUnderflow) -> (n <= SP f -> Q tt) -> wp (requireStack f n) Q E.
Proof. intros HE HQ. unfold requireStack. gtest; cbn; auto. Qed.

Lemma wp_requireRoom f Q (E : _ -> Prop) :
  E (haltEx f StatusStackOverflow) -> (SP f < stackMax -> Q tt) -> wp (requireRoom f) Q E.
Proof. intros HE HQ. unfold requireRoom. gtest; cbn; auto. Qed.

Lemma wp_stack_get f i (Q : _ -> Prop) E :
  frame_ok f -> 0 <= i < stackMax ->
  (u256_ok (Stack f !!! Z.to_nat i) -> Q (Stack f !!! Z.to_nat i)) -> wp (stack_get f i) Q E.
Proof. intros Hf Hi HQ. rewrite stack_get_ok by done. apply HQ. by apply stack_lookup_ok. Qed.

Lemma wp_stack_set f i v (Q : _ -> Prop) E :
  0 <= i < stackMax -> Q (with_Stack f (<[Z.to_nat i := v]> (Stack f))) -> wp (stack_set f i v) Q E.
Proof. intros Hi HQ. by rewrite stack_set_ok by done. Qed.

Lemma wp_asU64_or f x st Q (E : _ -> Prop) :
  u256_ok x -> E (haltEx f st) -> (forall v, is_u64 v -> Q v) -> wp (asU64_or f x st) Q E.
Proof.
  intros Hx HE HQ. unfold asU64_or. destruct (u256AsU64 x) eqn:Ex; cbn; [|done].
  eauto using u256AsU64_u64.
Qed.

(** [f'] is [f] with some gas spent, possibly on memory. *)
Record spent f f' : Prop := {
  sp_ok : frame_ok f';
  sp_stack : Stack f' = Stack f;
  sp_SP : SP f' = SP f;
  sp_status : Status f' = Status f;
  sp_refund : Refund f' = Refund f;
  sp_mem : Memory f' = Memory f;
  sp_state : StateDB f' = StateDB f;
  sp_gas : Gas f' <= Gas f;
  sp_msize : MemorySize f <= MemorySize f';
}.

Lemma wp_charge f c Q (E : _ -> Prop) :
  frame_ok f -> 0 <= c ->
  E (haltEx f StatusOutOfGas) ->
  (forall f', spent f f' -> Gas f' = Gas f - c -> Q f') ->
  wp (charge f c) Q E.
Proof.
  intros Hf Hc HE HQ. unfold charge. gtest; cbn; [done|].
  pose proof (fo_Gas f Hf). unfold sub64. rewrite u64_small by (unfold is_u64 in *; lia).
  apply HQ; [|done]. constructor; cbn; try done; try lia.
  apply ok_with_Gas; [done|]. unfold is_u64 in *. lia.
Qed.

(** After [chargeMem] the touched range is inside the memory. *)
Lemma wp_chargeMem f off sz (Q E : _ -> Prop) :
  frame_ok f -> is_u64 off -> is_u64 sz ->
  E (haltEx f StatusOutOfGas) ->
  (forall f', spent f f' -> (sz <> 0 -> off + sz <= MemorySize f') -> Q f') ->
  wp (chargeMem_or f off sz) Q E.
Proof.
  intros Hf Ho Hs HE HQ. unfold chargeMem_or. rewrite chargeMem_spec by done.
  destruct (fo_msize f Hf) as [Hm Hm32]. pose proof (fo_Gas f Hf) as Hg.
  set (m := mem_extent (MemorySize f) off sz).
  destruct ((sz =? 0) || (off + sz <=? memMax) && (mem_cost m - mem_cost (MemorySize f) <=? Gas f))
    eqn:C; cbn [wp]; [|done].
  assert (MemorySize f <= m <= memMax /\ m mod 32 = 0 /\ (sz <> 0 -> off + sz <= m)) as (? & ? & ?).
  { unfold m, mem_extent, is_u64 in *.
    rewrite orb_true_iff, andb_true_iff, Z.eqb_eq, !Z.leb_le in C.
    destruct (Z.eqb_spec sz 0); [lia|]. dlia. }
  pose proof (mem_cost_mono (MemorySize f) m ltac:(lia)).
  apply HQ; [|done]. constructor; cbn; try done; try lia.
  apply (ok_grow (with_Gas _ _)); [|cbn; lia|done]. apply ok_with_Gas; [done|].
  rewrite orb_true_iff, andb_true_iff, Z.eqb_eq, !Z.leb_le in C.
  unfold is_u64 in *. destruct C as [->|C]; [unfold m, mem_extent; cbn|]; lia.
Qed.

Lemma wp_mem_read f lo hi (Q : _ -> Prop) E :
  frame_ok f -> 0 <= lo <= hi -> hi <= memMax ->
  (forall data, bytes_ok data -> Q data) -> wp (mem_read f lo hi) Q E.
Proof.
  intros Hf Hl Hh HQ. rewrite mem_read_ok by done. apply HQ. apply bytes_ok_slice, fo_mem, Hf.
Qed.

Lemma wp_mem_write f lo src (Q : _ -> Prop) E :
  frame_ok f -> bytes_ok src -> 0 <= lo -> lo + Z.of_nat (length src) <= MemorySize f ->
  (forall mem, frame_ok (with_Memory f mem) -> Q (with_Memory f mem)) ->
  wp (mem_write f lo src) Q E.
Proof.
  intros Hf Hs Hl Hh HQ. pose proof (fo_msize f Hf) as [? _]. rewrite mem_write_ok by lia.
  apply HQ. by apply ok_mem_write.
Qed.

Lemma halt_halted f f1 st :
  frame_ok f1 -> exceptional st = true -> StateDB f1 = StateDB f -> Refund f1 = Refund f ->
  MemorySize f <= MemorySize f1 -> halted f (haltEx f1 st).
Proof. intros. constructor; auto using ok_haltEx. Qed.

(** Bring the equations of [spent] into the context. *)
Ltac spend := match goal with Hsp : spent _ _ |- _ => destruct Hsp as [?Hf ? ? ? ? ? ? ? ?] end.

(** One access or guard of a handler. *)
Ltac side := fcbn; auto with word; try lia; try congruence.
Ltac wstep :=
  lazymatch goal with
  | |- wp (mbind _ _) _ _ => apply wp_bind
  | |- wp (mret _) _ _ => cbn [mret outcome_ret wp]
  | |- wp (requireStack _ _) _ _ => apply wp_requireStack; [by apply halt_halted; side | intros ?Hsp]
  | |- wp (requireRoom _) _ _ => apply wp_requireRoom; [by apply halt_halted; side | intros ?Hsp]
  | |- wp (stack_get _ _) _ _ => apply wp_stack_get; [done | side | intros ?Hv]
  | |- wp (stack_set _ _ _) _ _ => apply wp_stack_set; [side|]
  | |- wp (mem_read _ _ _) _ _ => apply wp_mem_read; [done | solve [side] | solve [side] | intros ?data ?Hd]
  | |- wp (asU64_or _ _ _) _ _ =>
      apply wp_asU64_or; [done | by apply halt_halted; side | intros ?v ?Hv]
  | |- wp (charge _ _) _ _ => apply wp_charge; [done | side | by apply halt_halted; side | intros ?f' ?Hsp ?Hc; spend]
  | |- wp (chargeMem_or _ _ _) _ _ =>
      apply wp_chargeMem; [done | done | first [done | unfold is_u64; lia] | by apply halt_halted; side
                          | intros ?f' ?Hsp ?Hr; spend]
  end.

(** The final frame of a handler that only changed the stack. *)
Lemma went_stack f f1 i v sp :
  frame_ok f1 -> u256_ok v -> 0 <= sp <= stackMax -> Status f1 = Status f ->
  Gas f1 <= Gas f -> MemorySize f <= MemorySize f1 ->
  went f (with_SP (with_Stack f1 (<[i := v]> (Stack f1))) sp).
Proof. intros. constructor; cbn; auto using ok_with_SP, ok_with_Stack. Qed.

Lemma went_stack_set f f1 i v :
  frame_ok f1 -> u256_ok v -> Status f1 = Status f ->
  Gas f1 <= Gas f -> MemorySize f <= MemorySize f1 ->
  went f (with_Stack f1 (<[i := v]> (Stack f1))).
Proof. intros. constructor; cbn; auto using ok_with_Stack. Qed.

Lemma execBinop_wp f fn :
  frame_ok f -> (forall a b, u256_ok a -> u256_ok b -> u256_ok (fn a b)) ->
  wp (execBinop f fn) (went f) (halted f).
Proof.
  intros Hf Hfn. pose proof (fo_SP f Hf). unfold execBinop. repeat wstep. apply went_stack; side.
Qed.

Lemma execCmp_wp f fn : frame_ok f -> wp (execCmp f fn) (went f) (halted f).
Proof.
  intros Hf. pose proof (fo_SP f Hf). unfold execCmp. repeat wstep.
  apply went_stack; side. apply FromU64_ok. unfold is_u64. destruct (fn _ _); lia.
Qed.

Lemma execTernop_wp f fn :
  frame_ok f ->
  (forall a b c, u256_ok a -> u256_ok b -> u256_ok c -> u256_ok (fn a b c)) ->
  wp (execTernop f fn) (went f) (halted f).
Proof.
  intros Hf Hfn. pose proof (fo_SP f Hf). unfold execTernop. repeat wstep. apply went_stack; side.
Qed.

Lemma execUnop_wp f fn :
  frame_ok f -> (forall a, u256_ok a -> u256_ok (fn a)) -> wp (execUnop f fn) (went f) (halted f).
Proof.
  intros Hf Hfn. pose proof (fo_SP f Hf). unfold execUnop. repeat wstep. apply went_stack_set; side.
Qed.

Lemma execIndexed_wp f d fn :
  frame_ok f -> is_u64 d -> (forall i x, is_u64 i -> u256_ok x -> u256_ok (fn i x)) ->
  wp (execIndexed f d fn) (went f) (halted f).
Proof.
  intros Hf Hd Hfn. pose proof (fo_SP f Hf). unfold execIndexed. repeat wstep. apply went_stack; side.
  apply Hfn; [|done]. destruct (u256AsU64 _) eqn:E; [|done]. eapply u256AsU64_u64; [|exact E]; done.
Qed.

Lemma execExp_wp f : frame_ok f -> wp (execExp f) (went f) (halted f).
Proof.
  intros Hf. pose proof (fo_SP f Hf). unfold execExp. repeat wstep.
  apply went_stack; side. by apply Exp256_spec.
Qed.

(** Arithmetic on offsets that [chargeMem] has accepted does not wrap. *)
Lemma add64_mem f off sz :
  frame_ok f -> 0 <= off -> 0 <= sz -> off + sz <= MemorySize f -> add64 off sz = off + sz.
Proof. intros Hf ? ? ?. pose proof (fo_msize f Hf). apply u64_small. unfold is_u64. lia. Qed.

#[local] Hint Resolve ok_with_SP ok_with_PC ok_with_Gas ok_with_Status ok_with_Refund
  ok_with_ReturnData ok_with_StateDB ok_with_Stack : frame.
#[local] Hint Extern 1 (_ <= _ <= _) => fcbn; lia : frame.
Ltac finish :=
  constructor; fcbn; eauto 8 with frame word; try lia; try congruence; try (left; congruence).
Ltac start := intros Hf; pose proof (fo_SP _ Hf).

Lemma execKeccak_wp f : frame_ok f -> wp (execKeccak f) (went f) (halted f).
Proof.
  start. unfold execKeccak. repeat wstep. unfold is_u64 in *.
  destruct (Z.eqb_spec v0 0).
  - repeat wstep. pose proof (Keccak256_ok []). set (d := Keccak256 []) in *. clearbody d. finish.
  - pose proof (fo_msize f' Hf0). rewrite (add64_mem f') by (try done; lia). repeat wstep. finish.
Qed.

Lemma execMload_wp f : frame_ok f -> wp (execMload f) (went f) (halted f).
Proof.
  start. unfold execMload. repeat wstep. unfold is_u64 in *.
  pose proof (fo_msize f' Hf0). rewrite (add64_mem f') by (try done; lia). repeat wstep. finish.
Qed.

Lemma execMstore_wp f : frame_ok f -> wp (execMstore f) (went f) (halted f).
Proof.
  start. unfold execMstore. repeat wstep. unfold is_u64 in *. repeat wstep.
  apply wp_mem_write; [done | side | lia | rewrite length_BytesBE; lia |]. intros mem Hmem.
  repeat wstep. finish.
Qed.

Lemma execMstore8_wp f : frame_ok f -> wp (execMstore8 f) (went f) (halted f).
Proof.
  start. unfold execMstore8. repeat wstep. unfold is_u64 in *. repeat wstep.
  apply wp_mem_write; [done | | lia | cbn; lia |].
  { constructor; [|constructor]. change 0xff with (Z.ones 8). rewrite Z.land_ones by lia.
    apply Z.mod_pos_bound. lia. }
  intros mem Hmem. repeat wstep. finish.
Qed.

Lemma u32_range z : is_u32 (u32 z).
Proof. apply Z.mod_pos_bound. lia. Qed.
#[local] Hint Resolve u32_range : word.

Lemma execRevert_wp f : frame_ok f -> wp (execRevert f) (went f) (halted f).
Proof. start. unfold execRevert. repeat wstep. finish. Qed.

Lemma execSload_wp f : frame_ok f -> wp (execSload f) (went f) (halted f).
Proof.
  start. unfold execSload. repeat wstep. pose proof (fo_state f Hf) as Hs.
  destruct (StateDB f); repeat wstep; finish. apply ok_with_Stack; [done..|].
  by apply sa_get_ok, Hv; [|apply zero256_ok].
Qed.

Lemma execSstore_wp f : frame_ok f -> wp (execSstore f) (went f) (halted f).
Proof.
  start. unfold execSstore. repeat wstep. pose proof (fo_state f Hf) as Hs.
  destruct (StateDB f) as [db|]; repeat wstep; [|finish].
  assert (sa_inv (sa_SetStorage db zeroAddr (Stack f !!! Z.to_nat (SP f - 1)) (Stack f !!! Z.to_nat (SP f - 2))))
    by (apply sa_set_ok; auto; apply zero256_ok).
  destruct (_ && _); finish.
Qed.

Lemma wp_jump_target f code x Q (E : _ -> Prop) :
  E (haltEx f StatusJumpDestInvalid) ->
  (forall d, is_u32 d -> jumpdestOK code d = true -> Q d) -> wp (jump_target f code x) Q E.
Proof.
  intros HE HQ. unfold jump_target. destruct (u256AsU64 x) as [d|]; [|done].
  destruct (_ <? d); [done|]. destruct (jumpdestOK code (u32 d)) eqn:J; [|done]. cbn. auto with word.
Qed.

Lemma execJump_wp f code : frame_ok f -> wp (execJump f code) (went f) (halted f).
Proof.
  start. unfold execJump. repeat wstep.
  apply wp_jump_target; [by apply halt_halted; side|]. intros d Hd _. repeat wstep. finish.
Qed.

Lemma execJumpi_wp f code : frame_ok f -> wp (execJumpi f code) (went f) (halted f).
Proof.
  start. unfold execJumpi. repeat wstep. destruct (negb _); repeat wstep; [|finish].
  apply wp_jump_target; [by apply halt_halted; side|]. intros d Hd _. repeat wstep. finish.
Qed.

Lemma execPushWord_wp f v : frame_ok f -> u256_ok v -> wp (execPushWord f v) (went f) (halted f).
Proof. start. intros Hv. unfold execPushWord. repeat wstep. finish. Qed.

Lemma execPop_wp f : frame_ok f -> wp (execPop f) (went f) (halted f).
Proof. start. unfold execPop. repeat wstep. finish. Qed.

Lemma execDup_wp f n : frame_ok f -> 1 <= n <= 16 -> wp (execDup f n) (went f) (halted f).
Proof. start. intros Hn. unfold execDup. repeat wstep. finish. Qed.

Lemma execSwap_wp f n : frame_ok f -> 1 <= n <= 16 -> wp (execSwap f n) (went f) (halted f).
Proof.
  start. intros Hn. unfold execSwap. repeat wstep. finish.
  apply (ok_with_Stack (with_Stack f _) (with_Stack f _)); [by apply ok_with_Stack..|done].
Qed.

Lemma push_loop_ok code n k pc buf :
  bytes_ok code -> bytes_ok buf -> is_u32 pc ->
  is_u32 (push_loop code n k pc buf).1 /\ bytes_ok (push_loop code n k pc buf).2.
Proof.
  intros Hc. revert pc buf. induction k as [|k IH]; intros pc buf Hb Hp; cbn [push_loop]; [done|].
  apply IH; [|auto with word]. apply Forall_insert; [done|].
  destruct (Z.ltb_spec pc (Z.of_nat (length code))).
  - apply (Forall_lookup_total_1 _ _ _ Hc). unfold is_u32 in *. lia.
  - unfold is_byte. lia.
Qed.

Lemma execPush_wp f code n :
  frame_ok f -> bytes_ok code -> wp (execPush f code n) (went f) (halted f).
Proof.
  start. intros Hc. unfold execPush. repeat wstep.
  pose proof (push_loop_ok code n n (PC f) (zeros 32) Hc ltac:(auto with word) (fo_PC f Hf)) as [Hp Hb].
  destruct (push_loop _ _ _ _ _) as [pc buf]. repeat wstep. finish.
Qed.

(** ** One instruction *)

Lemma IsZero_word a : u256_ok (FromU64 (if IsZero a then 1 else 0)).
Proof. apply FromU64_ok. unfold is_u64. destruct (IsZero a); lia. Qed.

Lemma exec_alu_wp f op h : frame_ok f -> exec_alu f op = Some h -> wp h (went f) (halted f).
Proof.
  intros Hf. unfold exec_alu.
  repeat match goal with
  | |- (if op =? ?n then _ else _) = _ -> _ => destruct (op =? n); [intros [= <-]|]
  end; try done;
  lazymatch goal with
  | |- wp (execBinop _ _) _ _ => apply execBinop_wp; [done|]; intros a b Ha Hb
  | |- wp (execCmp _ _) _ _ => by apply execCmp_wp
  | |- wp (execTernop _ _) _ _ => apply execTernop_wp; [done|]; intros a b c Ha Hb Hc
  | |- wp (execExp _) _ _ => by apply execExp_wp
  | |- wp (execIndexed _ _ _) _ _ =>
      apply execIndexed_wp; [done | unfold is_u64; lia | intros i x Hi Hx]
  | |- wp (execUnop _ Not256) _ _ => apply execUnop_wp; [done | apply Not256_ok]
  | |- wp (execUnop _ _) _ _ => apply execUnop_wp; [done | intros; apply IsZero_word]
  end.
  all: match goal with
    | |- u256_ok (Add256 _ _) => by apply Add256_spec
    | |- u256_ok (Mul256 _ _) => by apply Mul256_spec
    | |- u256_ok (Sub256 _ _) => by apply Sub256_spec
    | |- u256_ok (Div256 _ _) => by apply Div256_spec
    | |- u256_ok (SDiv256 _ _) => by apply SDiv256_spec
    | |- u256_ok (Mod256 _ _) => by apply Mod256_spec
    | |- u256_ok (SMod256 _ _) => by apply SMod256_spec
    | |- u256_ok (AddMod256 _ _ _) => by apply AddMod256_spec
    | |- u256_ok (MulMod256 _ _ _) => by apply MulMod256_spec
    | |- u256_ok (SignExtend256 _ _) => by apply SignExtend256_spec
    | |- u256_ok (And256 _ _) => by apply And256_ok
    | |- u256_ok (Or256 _ _) => by apply Or256_ok
    | |- u256_ok (Xor256 _ _) => by apply Xor256_ok
    | |- u256_ok (Byte256 _ _) => apply Byte256_spec; [done | apply Hi]
    | |- u256_ok (Shl256 _ _) => by apply Shl256_spec
    | |- u256_ok (Shr256 _ _) => by apply Shr256_spec
    | |- u256_ok (Sar256 _ _) => by apply Sar256_spec
    end.
Qed.

Lemma exec_op_wp f code op :
  frame_ok f -> bytes_ok code -> wp (exec_op f code op) (went f) (halted f).
Proof.
  intros Hf Hc. unfold exec_op. destruct (exec_alu f op) as [h|] eqn:E.
  { by eapply exec_alu_wp. }
  repeat match goal with
  | |- wp (if ?b then _ else _) _ _ => destruct b eqn:?
  end; try (apply execKeccak_wp || apply execPop_wp || apply execMload_wp || apply execMstore_wp
    || apply execMstore8_wp || apply execSload_wp || apply execSstore_wp || apply execJump_wp
    || apply execJumpi_wp || apply execRevert_wp || (apply execPushWord_wp; [done|])
    || apply execPush_wp); try done.
  - constructor; fcbn; eauto using ok_with_Status; lia.
  - apply FromU64_ok. unfold is_u64. pose proof (u32_range (PC f - 1)). unfold is_u32 in *. lia.
  - apply FromU64_ok. pose proof (fo_msize f Hf). unfold is_u64. lia.
  - apply FromU64_ok, Hf.
  - constructor; fcbn; eauto; lia.
  - apply execDup_wp; [done|]. rewrite andb_true_iff, !Z.leb_le in *. lia.
  - apply execSwap_wp; [done|]. rewrite andb_true_iff, !Z.leb_le in *. lia.
  - by apply halt_halted.
Qed.

(** STOP and REVERT, the free instructions, never leave the frame running. *)
Lemma exec_op_final f code op :
  frame_ok f -> op = 0x00 \/ op = 0xfd ->
  wp (exec_op f code op) (fun f' => Status f' <> StatusRunning) (fun f' => Status f' <> StatusRunning).
Proof.
  intros Hf [-> | ->]; cbn [exec_op exec_alu Z.eqb Pos.eqb Z.leb Z.compare Pos.compare Pos.compare_cont andb].
  - done.
  - pose proof (fo_SP f Hf). unfold execRevert.
    apply wp_bind, wp_requireStack; [done|]. intros ?. do 2 (apply wp_bind, wp_stack_get; [done|lia|intros ?]).
    do 2 (apply wp_bind, wp_asU64_or; [done..|intros ? ?]).
    apply wp_bind, wp_chargeMem; try done.
Qed.

(** Everything one step does to the bookkeeping of a frame. *)
Lemma StepOne_post f code :
  frame_ok f -> bytes_ok code ->
  exists f', StepOne f code = Some f' /\ frame_ok f' /\ Gas f' <= Gas f /\
    MemorySize f <= MemorySize f' /\
    (Status f = StatusRunning -> Status f' = StatusRunning -> Gas f' < Gas f) /\
    (Status f = StatusRunning -> exceptional (Status f') = true ->
       Gas f' = 0 /\ StateDB f' = StateDB f /\ Refund f' = Refund f).
Proof.
  intros Hf Hc. unfold StepOne. pose proof (fo_Gas f Hf) as Hg. unfold is_u64 in Hg.
  case_bool_decide as Hs; cbn [negb].
  2: { exists f. split_and!; done || lia. }
  destruct (Z.leb_spec (Z.of_nat (length code)) (PC f)) as [|Hpc].
  { eexists. split; [done|]. split_and!; fcbn; auto using ok_with_Status; done || lia. }
  set (op := code !!! Z.to_nat (PC f)).
  assert (is_byte op) as Hop.
  { apply (Forall_lookup_total_1 _ _ _ Hc). pose proof (fo_PC f Hf). unfold is_u32 in *. lia. }
  assert (forall st, exceptional st = true -> halted f (haltEx f st)) as Hh
    by (intros; by apply halt_halted).
  destruct (Z.eqb_spec (opGas op) gasInvalid) as [|Hinv].
  { eexists. split; [done|]. split_and!; fcbn; auto using ok_haltEx; cbn; done || lia. }
  pose proof (opGas_range op Hop Hinv) as Hcost.
  destruct (Z.ltb_spec (Gas f) (opGas op)).
  { eexists. split; [done|]. split_and!; fcbn; auto using ok_haltEx; cbn; done || lia. }
  assert (sub64 (Gas f) (opGas op) = Gas f - opGas op) as -> by (apply u64_small; unfold is_u64; lia).
  set (f1 := with_PC _ _).
  assert (frame_ok f1) as Hf1.
  { apply ok_with_PC; [|auto with word]. apply ok_with_Gas; [done|]. unfold is_u64; lia. }
  pose proof (exec_op_wp f1 code op Hf1 Hc) as W.
  assert (forall f', settle (exec_op f1 code op) = Some f' -> Status f' = StatusRunning -> 1 <= opGas op) as P.
  { intros f' E Hr. apply opGas_pos; [done|..]; intros Eop;
      pose proof (exec_op_final f1 code op Hf1 ltac:(tauto)) as F;
      destruct (exec_op f1 code op); cbn in *; congruence || done. }
  destruct (exec_op f1 code op) as [f'|f'| |] eqn:Eop; cbn [wp settle] in *; try done.
  - destruct W as [Wok Wst Wg Wm]. exists f'. unfold f1 in Wst, Wg, Wm. fcbn.
    specialize (P f' eq_refl). split_and!; try done; [lia | intros; specialize (P ltac:(done)); lia |].
    intros _. rewrite Hs in Wst. by destruct Wst as [-> | [-> | ->]].
  - destruct W as [Wok Wst Wg Wdb Wr Wm]. exists f'. unfold f1 in Wdb, Wr, Wm. fcbn.
    split_and!; try done; [lia |]. intros _ E. rewrite E in Wst. done.
Qed.

(** The instruction loop ends: one unit of fuel more than the gas is enough. *)
Lemma run_steps_total n f code :
  frame_ok f -> bytes_ok code -> Gas f < Z.of_nat n -> Status f = StatusRunning ->
  exists f', run_steps n f code = Some f' /\ frame_ok f' /\ Status f' <> StatusRunning /\ Gas f' <= Gas f.
Proof.
  intros Hf Hc Hn Hs. revert f Hf Hn Hs. induction n as [|n IH]; intros f Hf Hn Hs.
  { pose proof (fo_Gas f Hf). unfold is_u64 in *. lia. }
  destruct (StepOne_post f code Hf Hc) as (f' & E & Hf' & Hg & _ & Hlt & _).
  cbn [run_steps]. rewrite E. case_bool_decide as Hr; [|eauto].
  specialize (Hlt Hs Hr). destruct (IH f' Hf' ltac:(lia) Hr) as (f'' & E' & ? & ? & ?).
  exists f''. split_and!; done || lia.
Qed.

End proofs.
