(* ===== verification/StepperRefine.v ===== *)
(** * The interpreter refines an abstract stack machine

    [alu] is the arithmetic, comparison and bitwise instruction set on unbounded
    integers: arity and meaning of each opcode, as the EVM documents them.
    [StepOne] implements it on the abstract stack. Jump destinations, immediate
    bytes, DUP, SWAP and memory accesses are specified the same way. *)

From S2P Require Import Prelude Uint256 Bitwise256 Arith256 Division256 Keccak Frame Stepper StepperSpec.

(** ** Specification *)

(** Two's complement reading of a 256-bit number. *)
Definition sgn (z : Z) : Z := if z <? B256 / 2 then z else z - B256.

(** Number of bytes of the binary representation. *)
Definition byte_len (z : Z) : Z := if z =? 0 then 0 else Z.log2 z / 8 + 1.

Definition un (g : Z -> Z) : nat * (list Z -> Z) := (1%nat, fun l => g (l !!! 0%nat)).
Definition bin (g : Z -> Z -> Z) : nat * (list Z -> Z) := (2%nat, fun l => g (l !!! 0%nat) (l !!! 1%nat)).
Definition tern (g : Z -> Z -> Z -> Z) : nat * (list Z -> Z) :=
  (3%nat, fun l => g (l !!! 0%nat) (l !!! 1%nat) (l !!! 2%nat)).

(** Arity and meaning of an opcode; operands are numbered from the top. *)
Definition alu (op : Z) : option (nat * (list Z -> Z)) :=
  if op =? 0x01 then Some (bin (fun a b => (a + b) mod B256))
  else if op =? 0x02 then Some (bin (fun a b => (a * b) mod B256))
  else if op =? 0x03 then Some (bin (fun a b => (a - b) mod B256))
  else if op =? 0x04 then Some (bin (fun a b => a / b))
  else if op =? 0x05 then Some (bin (fun a b => Z.quot (sgn a) (sgn b) mod B256))
  else if op =? 0x06 then Some (bin (fun a b => if b =? 0 then 0 else a mod b))
  else if op =? 0x07 then Some (bin (fun a b => (if b =? 0 then 0 else Z.rem (sgn a) (sgn b)) mod B256))
  else if op =? 0x08 then Some (tern (fun a b m => if m =? 0 then 0 else (a + b) mod m))
  else if op =? 0x09 then Some (tern (fun a b m => if m =? 0 then 0 else (a * b) mod m))
  else if op =? 0x0a then Some (bin (fun a e => a ^ e mod B256))
  else if op =? 0x0b then Some (bin (fun b x => (if b <? 31 then sign_extend_ref b x else x) mod B256))
  else if op =? 0x10 then Some (bin (fun a b => Z.b2z (a <? b)))
  else if op =? 0x11 then Some (bin (fun a b => Z.b2z (b <? a)))
  else if op =? 0x12 then Some (bin (fun a b => Z.b2z (sgn a <? sgn b)))
  else if op =? 0x13 then Some (bin (fun a b => Z.b2z (sgn b <? sgn a)))
  else if op =? 0x14 then Some (bin (fun a b => Z.b2z (a =? b)))
  else if op =? 0x15 then Some (un (fun a => Z.b2z (a =? 0)))
  else if op =? 0x16 then Some (bin Z.land)
  else if op =? 0x17 then Some (bin Z.lor)
  else if op =? 0x18 then Some (bin Z.lxor)
  else if op =? 0x19 then Some (un (fun a => B256 - 1 - a))
  else if op =? 0x1a then Some (bin (fun i x => if i <? 32 then x / 256 ^ (31 - i) mod 256 else 0))
  else if op =? 0x1b then Some (bin (fun s v => if s <? 256 then (v * 2 ^ s) mod B256 else 0))
  else if op =? 0x1c then Some (bin (fun s v => if s <? 256 then v / 2 ^ s else 0))
  else if op =? 0x1d then Some (bin (fun s v => (sgn v / 2 ^ s) mod B256))
  else None.

(** Static cost, and for EXP 50 per byte of the exponent. *)
Definition alu_cost (op : Z) (st : list Z) : Z :=
  opGas op + if op =? 0x0a then 50 * byte_len (st !!! 1%nat) else 0.

(** ** The array stack as a list *)

Definition stk (l : list Uint256) (sp : Z) : list Uint256 := reverse (take (Z.to_nat sp) l).

Lemma stk_cons l sp :
  1 <= sp <= Z.of_nat (length l) -> stk l sp = (l !!! Z.to_nat (sp - 1)) :: stk l (sp - 1).
Proof.
  intros Hsp. unfold stk.
  replace (Z.to_nat sp) with (S (Z.to_nat (sp - 1))) by lia.
  rewrite (take_S_r _ _ (l !!! Z.to_nat (sp - 1))).
  - by rewrite reverse_snoc.
  - apply list_lookup_lookup_total_lt. lia.
Qed.

Lemma stk_insert_ge l sp i v : sp <= Z.of_nat i -> stk (<[i := v]> l) sp = stk l sp.
Proof. intros. unfold stk. by rewrite take_insert_ge by lia. Qed.

(** Writing the new top of a shrunk (or grown) stack. *)
Lemma stk_set_top l sp v :
  1 <= sp <= Z.of_nat (length l) ->
  stk (<[Z.to_nat (sp - 1) := v]> l) sp = v :: stk l (sp - 1).
Proof.
  intros Hsp. rewrite stk_cons by (rewrite length_insert; lia).
  rewrite list_lookup_total_insert_eq by lia. by rewrite stk_insert_ge by lia.
Qed.

Lemma stk_drop l sp n :
  Z.of_nat n <= sp <= Z.of_nat (length l) -> drop n (stk l sp) = stk l (sp - Z.of_nat n).
Proof.
  revert sp. induction n as [|n IH]; intros sp Hn.
  - rewrite drop_0. f_equal. lia.
  - rewrite (stk_cons l sp) by lia. cbn [drop]. rewrite IH by lia. f_equal. lia.
Qed.

(** ** Word-level facts *)

Lemma toSZ_sgn x : toSZ x = sgn (toZ x).
Proof. done. Qed.

Lemma toZ_toSZ x : u256_ok x -> toZ x = toSZ x mod B256.
Proof.
  intros Hx. pose proof (toZ_range x Hx). rewrite toSZ_sgn. unfold sgn.
  destruct (toZ x <? B256 / 2); [by rewrite Z.mod_small|].
  apply (Z.mod_unique_pos _ _ (-1)); lia.
Qed.

Lemma toZ_bit (b : bool) : toZ (FromU64 (if b then 1 else 0)) = Z.b2z b.
Proof. rewrite toZ_FromU64. by destruct b. Qed.

(** The byte of weight [256^i], as the limb expressions of the source read it. *)
Lemma byte_limb x i :
  u256_ok x -> (i < 32)%nat ->
  Z.land (shr64 (limb x (i / 8)) (Z.of_nat (i mod 8) * 8)) 0xff = toZ x / 256 ^ Z.of_nat i mod 256.
Proof.
  intros Hx Hi. destruct (Byte256_spec (31 - Z.of_nat i) x Hx ltac:(lia)) as [_ E].
  unfold Byte256 in E. destruct (Z.ltb_spec (31 - Z.of_nat i) 32) as [_|]; [|lia].
  replace (31 - (31 - Z.of_nat i)) with (Z.of_nat i) in E by lia. rewrite <- E.
  change 7 with (Z.ones 3). rewrite Z.land_ones, (shr64_div _ 3) by lia.
  change (2 ^ 3) with (Z.of_nat 8). rewrite <- Nat2Z.inj_div, <- Nat2Z.inj_mod, Nat2Z.id.
  unfold toZ. cbn [w0 w1 w2 w3]. lia.
Qed.

Lemma u256ByteLen_range x : 0 <= u256ByteLen x <= 32.
Proof.
  unfold u256ByteLen. change 32 with (Z.of_nat 32). generalize 32%nat as n.
  induction n as [|n IH]; cbn [u256ByteLen_loop]; [lia|]. destruct (negb _); lia.
Qed.

Lemma u256ByteLen_spec x : u256_ok x -> u256ByteLen x = byte_len (toZ x).
Proof.
  intros Hx. unfold u256ByteLen, byte_len. pose proof (toZ_range x Hx) as Hr.
  assert (toZ x < 256 ^ Z.of_nat 32) as Hb by exact (proj2 Hr).
  assert (32 <= 32)%nat as Hn by lia. revert Hb Hn. generalize 32%nat at 1 2 4 as n.
  induction n as [|n IH]; intros Hb Hn; cbn [u256ByteLen_loop].
  { destruct (Z.eqb_spec (toZ x) 0); [done|]. simpl in Hb. lia. }
  rewrite byte_limb by (done || lia).
  rewrite Nat2Z.inj_succ, Z.pow_succ_r in Hb by lia.
  assert (0 < 256 ^ Z.of_nat n) as Hp by (apply Z.pow_pos_nonneg; lia).
  assert (0 <= toZ x / 256 ^ Z.of_nat n < 256) as Hq.
  { split; [apply Z.div_pos; lia | apply Z.div_lt_upper_bound; lia]. }
  rewrite Z.mod_small by lia.
  destruct (Z.eqb_spec (toZ x / 256 ^ Z.of_nat n) 0) as [E|E]; cbn [negb].
  - apply Z.div_small_iff in E; [|lia]. apply IH; lia.
  - assert (256 ^ Z.of_nat n <= toZ x) by (destruct (decide (256 ^ Z.of_nat n <= toZ x));
      [done|]; rewrite Z.div_small in E by lia; lia).
    destruct (Z.eqb_spec (toZ x) 0); [lia|].
    assert (256 ^ Z.of_nat n = 2 ^ (8 * Z.of_nat n)) as E8 by by rewrite Z.pow_mul_r by lia.
    assert (8 * Z.of_nat n <= Z.log2 (toZ x) < 8 * Z.of_nat n + 8).
    { split; [apply Z.log2_le_pow2; lia|]. apply Z.log2_lt_pow2; [lia|].
      rewrite Z.pow_add_r by lia. lia. }
    dlia.
Qed.

(** ** Refinement *)

Section refine.
  Context {S : Type} `{StateAccessorLaws S}.
  Implicit Types f : ExecutionFrame S.

(** The frame after replacing the [n] top words by [v] and paying [extra]. *)
Definition replaced f (n extra : Z) (v : Uint256) : ExecutionFrame S :=
  with_SP (with_Stack (with_Gas f (Gas f - extra)) (<[Z.to_nat (SP f - n) := v]> (Stack f))) (SP f - n + 1).

(** The handler [h] of [f] computes [g] on the [n] words at the top of the stack. *)
Definition refines f (h : outcome (ExecutionFrame S) (ExecutionFrame S)) (n : nat) (g : list Z -> Z) (extra : Z) : Prop :=
  (SP f < Z.of_nat n -> h = Err (haltEx f StatusStackUnderflow)) /\
  (Z.of_nat n <= SP f -> extra <= Gas f ->
   exists v, h = Ok (replaced f (Z.of_nat n) extra v) /\ toZ v = g (map toZ (astack f))).

Lemma operand f i :
  frame_ok f -> Z.of_nat i < SP f ->
  map toZ (astack f) !!! i = toZ (Stack f !!! Z.to_nat (SP f - 1 - Z.of_nat i)).
Proof.
  intros Hf Hi. rewrite list_lookup_total_alt. unfold lookup at 1.
  change (map toZ (astack f)) with (toZ <$> astack f).
  change (default inhabitant ((toZ <$> astack f) !! i) = toZ (Stack f !!! Z.to_nat (SP f - 1 - Z.of_nat i))).
  rewrite list_lookup_fmap, astack_lookup by (done || lia). done.
Qed.

(** The first three operands. *)
Lemma operand0 f :
  frame_ok f -> 1 <= SP f -> map toZ (astack f) !!! 0%nat = toZ (Stack f !!! Z.to_nat (SP f - 1)).
Proof. intros. rewrite operand by (done || lia). do 3 f_equal. lia. Qed.
Lemma operand1 f :
  frame_ok f -> 2 <= SP f -> map toZ (astack f) !!! 1%nat = toZ (Stack f !!! Z.to_nat (SP f - 2)).
Proof. intros. rewrite operand by (done || lia). do 3 f_equal. lia. Qed.
Lemma operand2 f :
  frame_ok f -> 3 <= SP f -> map toZ (astack f) !!! 2%nat = toZ (Stack f !!! Z.to_nat (SP f - 3)).
Proof. intros. rewrite operand by (done || lia). do 3 f_equal. lia. Qed.

Lemma replaced_astack f n extra v :
  frame_ok f -> (1 <= n)%nat -> Z.of_nat n <= SP f ->
  map toZ (astack (replaced f (Z.of_nat n) extra v)) = toZ v :: drop n (map toZ (astack f)).
Proof.
  intros Hf Hn Hsp. pose proof (fo_SP f Hf). pose proof (fo_stack_len f Hf) as Hl.
  change (astack (replaced f (Z.of_nat n) extra v))
    with (stk (<[Z.to_nat (SP f - Z.of_nat n) := v]> (Stack f)) (SP f - Z.of_nat n + 1)).
  replace (SP f - Z.of_nat n) with (SP f - Z.of_nat n + 1 - 1) at 1 by lia.
  rewrite stk_set_top by (rewrite Hl; lia). simpl. f_equal.
  change (drop n (map toZ (astack f))) with (drop n (toZ <$> astack f)).
  rewrite <- fmap_drop. change (map toZ ?l) with (toZ <$> l). f_equal.
  replace (SP f - Z.of_nat n + 1 - 1) with (SP f - Z.of_nat n) by lia.
  symmetry. apply stk_drop. lia.
Qed.

Ltac operands :=
  rewrite ?operand0, ?operand1, ?operand2 by (done || lia).

(** Handlers by shape: operands read, result written, stack pointer moved. *)
Ltac shape :=
  repeat first
  [ rewrite stack_get_ok by (fcbn; lia) | rewrite stack_set_ok by (fcbn; lia)
  | progress cbn [mbind outcome_bind mret outcome_ret] ].
Ltac refine_start f Hf n :=
  pose proof (fo_SP f Hf); split;
  [ intros Hsp; unfold requireStack; destruct (Z.ltb_spec (SP f) n); [done|lia]
  | intros Hsp Hgas; unfold requireStack; destruct (Z.ltb_spec (SP f) n); [lia|]; shape ].

Lemma with_Gas_self f : with_Gas f (Gas f - 0) = f.
Proof. rewrite Z.sub_0_r. by destruct f. Qed.

Lemma replaced_0 f n v i sp :
  i = Z.to_nat (SP f - n) -> sp = SP f - n + 1 ->
  with_SP (with_Stack f (<[i := v]> (Stack f))) sp = replaced f n 0 v.
Proof. intros -> ->. unfold replaced. by rewrite with_Gas_self. Qed.

Lemma execBinop_refines f fn g :
  frame_ok f ->
  (forall a b, u256_ok a -> u256_ok b -> toZ (fn a b) = g (toZ a) (toZ b)) ->
  refines f (execBinop f fn) 2 (bin g).2 0.
Proof.
  intros Hf Hg. unfold execBinop. refine_start f Hf 2. eexists. split.
  - f_equal. apply replaced_0; fcbn; lia.
  - cbn [bin snd]. operands.
    apply Hg; by apply stack_lookup_ok.
Qed.

Lemma execCmp_refines f fn g :
  frame_ok f ->
  (forall a b, u256_ok a -> u256_ok b -> fn a b = g (toZ a) (toZ b)) ->
  refines f (execCmp f fn) 2 (bin (fun a b => Z.b2z (g a b))).2 0.
Proof.
  intros Hf Hg. unfold execCmp. refine_start f Hf 2. eexists. split.
  - f_equal. apply replaced_0; fcbn; lia.
  - cbn [bin snd]. operands. rewrite toZ_bit.
    f_equal. apply Hg; by apply stack_lookup_ok.
Qed.

Lemma execTernop_refines f fn g :
  frame_ok f ->
  (forall a b c, u256_ok a -> u256_ok b -> u256_ok c -> toZ (fn a b c) = g (toZ a) (toZ b) (toZ c)) ->
  refines f (execTernop f fn) 3 (tern g).2 0.
Proof.
  intros Hf Hg. unfold execTernop. refine_start f Hf 3. eexists. split.
  - f_equal. apply replaced_0; fcbn; lia.
  - cbn [tern snd]. operands.
    apply Hg; by apply stack_lookup_ok.
Qed.

Lemma execUnop_refines f fn g :
  frame_ok f -> (forall a, u256_ok a -> toZ (fn a) = g (toZ a)) ->
  refines f (execUnop f fn) 1 (un g).2 0.
Proof.
  intros Hf Hg. unfold execUnop. refine_start f Hf 1. eexists. split.
  - f_equal. unfold replaced. rewrite with_Gas_self. change (Z.of_nat 1) with 1.
    replace (SP f - 1 + 1) with (SP f) by lia. done.
  - cbn [un snd]. operands.
    apply Hg; by apply stack_lookup_ok.
Qed.

(** An index operand is only looked at below a bound, where it fits in 64 bits. *)
Lemma execIndexed_refines f d fn g :
  frame_ok f -> is_u64 d ->
  (forall i x, is_u64 i -> u256_ok x -> toZ (fn i x) = g i (toZ x)) ->
  (forall i x, B64 <= i -> 0 <= x < B256 -> g i x = g d x) ->
  refines f (execIndexed f d fn) 2 (bin g).2 0.
Proof.
  intros Hf Hd Hg Hbig. unfold execIndexed. refine_start f Hf 2. eexists. split.
  - f_equal. apply replaced_0; fcbn; lia.
  - cbn [bin snd]. operands.
    pose proof (stack_lookup_ok f (Z.to_nat (SP f - 1)) Hf) as Oa.
    pose proof (stack_lookup_ok f (Z.to_nat (SP f - 2)) Hf) as Ob.
    destruct (u256AsU64 _) as [i|] eqn:E.
    + rewrite Hg by eauto using u256AsU64_u64. apply u256AsU64_Some in E as [-> _]; done.
    + rewrite Hg by done. rewrite u256AsU64_None in E by done.
      symmetry. apply Hbig; [done | by apply toZ_range].
Qed.

Lemma execExp_refines f :
  frame_ok f ->
  refines f (execExp f) 2 (bin (fun a e => a ^ e mod B256)).2
    (50 * byte_len (map toZ (astack f) !!! 1%nat)).
Proof.
  intros Hf. unfold execExp. pose proof (fo_SP f Hf). split.
  { intros Hsp. unfold requireStack. destruct (Z.ltb_spec (SP f) 2); [done|lia]. }
  intros Hsp Hgas. unfold requireStack. destruct (Z.ltb_spec (SP f) 2); [lia|]. shape.
  rewrite operand1 in Hgas |- * by (done || lia).
  pose proof (stack_lookup_ok f (Z.to_nat (SP f - 1)) Hf) as Oa.
  pose proof (stack_lookup_ok f (Z.to_nat (SP f - 2)) Hf) as Ob.
  set (a := Stack f !!! Z.to_nat (SP f - 1)) in *. set (e := Stack f !!! Z.to_nat (SP f - 2)) in *.
  pose proof (fo_Gas f Hf) as Hg. unfold is_u64 in Hg. rewrite u256ByteLen_spec by done.
  assert (0 <= byte_len (toZ e) <= 32) as Hl.
  { rewrite <- u256ByteLen_spec by done. apply u256ByteLen_range. }
  assert (mul64 50 (byte_len (toZ e)) = 50 * byte_len (toZ e)) as -> by (apply u64_small; unfold is_u64; lia).
  unfold charge. destruct (Z.ltb_spec (Gas f) (50 * byte_len (toZ e))); [lia|].
  unfold sub64. rewrite u64_small by (unfold is_u64; lia). shape. eexists. split.
  { f_equal. unfold replaced. fcbn. f_equal. change (Z.of_nat 2) with 2. lia. }
  cbn [bin snd]. operands. by apply Exp256_spec.
Qed.

(** Every opcode of [alu] is handled by [exec_alu], with its meaning. *)
Lemma exec_alu_refines f op p :
  frame_ok f -> alu op = Some p ->
  exists h, exec_alu f op = Some h /\
    refines f h p.1 p.2 (alu_cost op (map toZ (astack f)) - opGas op).
Proof.
  intros Hf. unfold alu, exec_alu, alu_cost.
  repeat match goal with
  | |- (if op =? ?k then _ else _) = _ -> _ =>
      destruct (Z.eqb_spec op k) as [->|]; [intros [= <-]; eexists; (split; [reflexivity|])|]
  end; try done; cbn [Z.eqb Pos.eqb];
  lazymatch goal with
  | |- refines _ (execExp _) _ _ _ => rewrite Z.add_simpl_l; by apply execExp_refines
  | |- _ => rewrite Z.add_0_r, Z.sub_diag
  end;
  lazymatch goal with
  | |- refines _ (execBinop _ _) _ _ _ => apply execBinop_refines; [done|]; intros a b Ha Hb
  | |- refines _ (execTernop _ _) _ _ _ => apply execTernop_refines; [done|]; intros a b c Ha Hb Hc
  | |- refines _ (execCmp _ _) _ _ _ => apply execCmp_refines; [done|]; intros a b Ha Hb
  | |- refines _ (execUnop _ _) _ _ _ => apply execUnop_refines; [done|]; intros a Ha
  | |- _ => idtac
  end.
  all: lazymatch goal with
  | |- toZ (Add256 _ _) = _ => by apply Add256_spec
  | |- toZ (Mul256 _ _) = _ => by apply Mul256_spec
  | |- toZ (Sub256 _ _) = _ => by apply Sub256_spec
  | |- toZ (Div256 _ _) = _ => by apply Div256_spec
  | |- toZ (SDiv256 _ _) = _ => by apply SDiv256_spec
  | |- toZ (Mod256 _ _) = _ => by apply Mod256_spec
  | |- toZ (SMod256 _ _) = _ => by apply SMod256_spec
  | |- toZ (AddMod256 _ _ _) = _ => by apply AddMod256_spec
  | |- toZ (MulMod256 _ _ _) = _ => by apply MulMod256_spec
  | |- toZ (And256 _ _) = _ => by apply toZ_And256
  | |- toZ (Or256 _ _) = _ => by apply toZ_Or256
  | |- toZ (Xor256 _ _) = _ => by apply toZ_Xor256
  | |- toZ (Not256 _) = _ => by apply toZ_Not256
  | |- toZ (Shl256 _ _) = _ => by apply Shl256_spec
  | |- toZ (Shr256 _ _) = _ => by apply Shr256_spec
  | |- toZ (Sar256 _ _) = _ =>
      destruct (Sar256_spec a b Ha Hb) as [Os Es]; by rewrite toZ_toSZ, Es by done
  | |- Lt256 _ _ = _ => by apply Cmp_lt
  | |- Gt256 _ _ = _ => by apply Cmp_gt
  | |- Slt256 _ _ = _ => by apply Slt256_spec
  | |- Sgt256 _ _ = _ => by apply Sgt256_spec
  | |- Eq _ _ = _ => by apply Eq_toZ
  | |- toZ (FromU64 _) = _ => by rewrite toZ_bit, IsZero_spec
  | |- refines _ (execIndexed _ _ SignExtend256) _ _ _ =>
      apply execIndexed_refines; [done | unfold is_u64; lia | intros i x Hi Hx; by apply SignExtend256_spec |]
  | |- refines _ (execIndexed _ _ Byte256) _ _ _ =>
      apply execIndexed_refines; [done | unfold is_u64; lia | intros i x Hi Hx; apply Byte256_spec; [done | apply Hi] |]
  end.
  - intros i x Hi Hx. destruct (Z.ltb_spec i 31); [lia|]. done.
  - intros i x Hi Hx. destruct (Z.ltb_spec i 32); [lia|]. done.
Qed.

(** *** One step on the abstract stack *)

Lemma StepOne_dispatch f code :
  frame_ok f -> Status f = StatusRunning -> PC f < Z.of_nat (length code) ->
  let op := code !!! Z.to_nat (PC f) in
  opGas op <> gasInvalid -> 0 <= opGas op <= Gas f ->
  StepOne f code =
    settle (exec_op (with_PC (with_Gas f (Gas f - opGas op)) (u32 (PC f + 1))) code op).
Proof.
  intros Hf Hs Hpc op Hinv Hg. pose proof (fo_Gas f Hf) as Hg'. unfold is_u64 in Hg'.
  unfold StepOne. rewrite Hs. rewrite bool_decide_eq_true_2 by done. cbn [negb].
  destruct (Z.leb_spec (Z.of_nat (length code)) (PC f)); [lia|]. fold op.
  destruct (Z.eqb_spec (opGas op) gasInvalid); [done|].
  destruct (Z.ltb_spec (Gas f) (opGas op)); [lia|].
  unfold sub64. rewrite u64_small by (unfold is_u64; lia). done.
Qed.

Lemma alu_gas op n g :
  alu op = Some (n, g) -> is_byte op /\ 1 <= opGas op <= 10 /\ (1 <= n)%nat.
Proof.
  unfold alu, is_byte.
  repeat match goal with
  | |- (if op =? ?k then _ else _) = _ -> _ =>
      destruct (Z.eqb_spec op k) as [->|];
      [intros [= <- <-]; (split; [lia|]); (split; [vm_compute; split; discriminate | lia])|]
  end; done.
Qed.

(** An arithmetic instruction replaces its operands by the value [alu] gives, pays
    exactly [alu_cost], moves to the next instruction and touches nothing else;
    with too few operands it halts the frame. *)
Lemma StepOne_alu_post f code op n g :
  frame_ok f -> Status f = StatusRunning -> PC f < Z.of_nat (length code) ->
  code !!! Z.to_nat (PC f) = op -> alu op = Some (n, g) ->
  let st := map toZ (astack f) in
  alu_cost op st <= Gas f ->
  if (length st <? n)%nat
  then exists f', StepOne f code = Some f' /\ Status f' = StatusStackUnderflow /\ Gas f' = 0
  else exists f' v, StepOne f code = Some f' /\
    f' = with_PC (replaced f (Z.of_nat n) (alu_cost op st) v) (u32 (PC f + 1)) /\
    map toZ (astack f') = g st :: drop n st.
Proof.
  intros Hf Hs Hpc Hop Halu st Hg. destruct (alu_gas op n g Halu) as (Hb & Hc & Hn).
  assert (0 <= alu_cost op st - opGas op) as Hx.
  { unfold alu_cost. destruct (op =? 10); [|lia]. unfold byte_len. destruct (_ =? 0); [lia|].
    pose proof (Z.log2_nonneg (st !!! 1%nat)). dlia. }
  pose proof (fo_SP f Hf). pose proof (fo_Gas f Hf) as Hg64. unfold is_u64 in Hg64.
  rewrite StepOne_dispatch; rewrite ?Hop; try done; [|lia..].
  set (f1 := with_PC _ _).
  assert (frame_ok f1) as Hf1.
  { apply ok_with_PC; [|apply u32_range]. apply ok_with_Gas; [done|]. unfold is_u64; lia. }
  destruct (exec_alu_refines f1 op _ Hf1 Halu) as (h & Eh & Hunder & Hok).
  cbn [fst snd] in Hunder, Hok.
  unfold exec_op. rewrite Eh.
  change (astack f1) with (astack f) in *. fold st in Hunder, Hok. change (SP f1) with (SP f) in *.
  assert (length st = Z.to_nat (SP f)) as Hl.
  { unfold st. rewrite length_map. by apply length_astack. }
  destruct (Nat.ltb_spec (length st) n) as [Hlt|Hge].
  - eexists. rewrite Hunder by lia. split; [reflexivity|]. done.
  - destruct Hok as (v & -> & Ev); [lia | unfold f1; fcbn; lia |].
    eexists _, v. split; [reflexivity|]. split.
    + unfold replaced, f1. fcbn. by replace (Gas f - opGas op - (alu_cost op st - opGas op)) with (Gas f - alu_cost op st) by lia.
    + rewrite <- Ev. exact (replaced_astack f n (alu_cost op st) v Hf Hn ltac:(lia)).
Qed.

(** ** Jump destinations *)

(** [j] is the offset of the instruction after the one at [i]. *)
Definition next_instr (code : bytes) (i j : Z) : Prop :=
  let op := code !!! Z.to_nat i in
  0 <= i < Z.of_nat (length code) /\
  j = i + 1 + if (0x60 <=? op) && (op <=? 0x7f) then op - 0x5f else 0.

(** [d] is the offset of an instruction, not of an immediate byte. *)
Definition instr_start (code : bytes) (d : Z) : Prop := rtc (next_instr code) 0 d.

Lemma next_instr_lt code i j : next_instr code i j -> i < j.
Proof.
  unfold next_instr. intros [Hi ->]. destruct (_ && _) eqn:E; [|lia].
  rewrite andb_true_iff, !Z.leb_le in E. lia.
Qed.

Lemma rtc_next_le code i j : rtc (next_instr code) i j -> i <= j.
Proof. induction 1 as [|i k j Hs _ IH]; [lia|]. apply next_instr_lt in Hs. lia. Qed.

Lemma jump_scan_spec fuel code i d :
  0 <= i -> d < Z.of_nat (length code) -> d - i < Z.of_nat fuel ->
  jump_scan fuel code i d = d <-> rtc (next_instr code) i d.
Proof.
  revert i. induction fuel as [|fuel IH]; intros i Hi Hd Hf.
  { cbn. split; [intros ->; apply rtc_refl | intros R; apply rtc_next_le in R; lia]. }
  cbn [jump_scan]. destruct (Z.ltb_spec i d) as [Hlt|Hge].
  2: { split; [intros ->; apply rtc_refl | intros R; apply rtc_next_le in R; lia]. }
  set (j := i + 1 + if (0x60 <=? code !!! Z.to_nat i) && (code !!! Z.to_nat i <=? 0x7f)
                    then code !!! Z.to_nat i - 0x5f else 0).
  assert (next_instr code i j) as Hn by (split; [lia|done]).
  transitivity (jump_scan fuel code j d = d).
  { unfold j. destruct (_ && _); [|by rewrite Z.add_0_r]. by rewrite Z.add_assoc. }
  pose proof (next_instr_lt _ _ _ Hn).
  rewrite IH by lia. split; [eauto using rtc_l|].
  intros R. inversion R as [|? k ? Hn' R']; [lia|]; subst.
  by assert (k = j) as <- by (destruct Hn' as [_ ->]; done).
Qed.

Lemma jumpdestOK_spec code d :
  0 <= d ->
  jumpdestOK code d = true <->
  d < Z.of_nat (length code) /\ code !!! Z.to_nat d = 0x5b /\ instr_start code d.
Proof.
  intros Hd. unfold jumpdestOK.
  destruct (Z.leb_spec (Z.of_nat (length code)) d); [split; [done|lia]|].
  destruct (Z.eqb_spec (code !!! Z.to_nat d) 0x5b); cbn [negb]; [|split; [done|tauto]].
  rewrite Z.eqb_eq. rewrite jump_scan_spec by lia. unfold instr_start. tauto.
Qed.

(** ** Immediate bytes of PUSH *)

(** Byte of the code, zero past its end. *)
Definition code_byte (code : bytes) (i : Z) : Z :=
  if i <? Z.of_nat (length code) then code !!! Z.to_nat i else 0.

Definition immediate (code : bytes) (pc : Z) (n : nat) : bytes :=
  map (fun i => code_byte code (pc + Z.of_nat i)) (seq 0 n).

Lemma immediate_S code pc n :
  immediate code pc (Datatypes.S n) = code_byte code pc :: immediate code (pc + 1) n.
Proof.
  unfold immediate. cbn [seq map]. f_equal; [f_equal; lia|].
  rewrite <- seq_shift, map_map. apply map_ext. intros i. f_equal. lia.
Qed.

Lemma push_loop_spec code n k pc buf :
  (k <= 32)%nat -> length buf = 32%nat -> 0 <= pc -> pc + Z.of_nat k < 4294967296 ->
  push_loop code n k pc buf = (pc + Z.of_nat k, take (32 - k) buf ++ immediate code pc k).
Proof.
  revert pc buf. induction k as [|k IH]; intros pc buf Hk Hl Hpc Hb.
  - cbn. rewrite take_ge by lia. rewrite app_nil_r. f_equal. lia.
  - cbn [push_loop]. assert (u32 (pc + 1) = pc + 1) as -> by (apply Z.mod_small; lia).
    rewrite IH by (rewrite ?length_insert; lia). rewrite immediate_S. f_equal; [lia|].
    change (if pc <? Z.of_nat (length code) then _ else 0) with (code_byte code pc).
    replace (32 - k)%nat with (Datatypes.S (32 - Datatypes.S k)) by lia.
    rewrite (take_S_r _ _ (code_byte code pc)) by (apply list_lookup_insert_eq; lia).
    rewrite take_insert_ge by lia. by rewrite <- app_assoc.
Qed.

(** PUSHn pushes the big-endian value of the [n] bytes after the opcode and skips them. *)
Lemma execPush_post f code n :
  frame_ok f -> bytes_ok code -> (n <= 32)%nat -> PC f + Z.of_nat n < 4294967296 -> SP f < stackMax ->
  exists f', execPush f code n = Ok f' /\ PC f' = PC f + Z.of_nat n /\
    map toZ (astack f') = be_val (immediate code (PC f) n) :: map toZ (astack f).
Proof.
  intros Hf Hc Hn Hpc Hsp. pose proof (fo_SP f Hf). pose proof (fo_PC f Hf) as [Hpc0 _].
  pose proof (fo_stack_len f Hf) as Hl.
  unfold execPush, requireRoom. destruct (Z.leb_spec stackMax (SP f)); [lia|]. cbn [mbind outcome_bind].
  rewrite push_loop_spec by (rewrite ?length_zeros; lia). shape. eexists. split; [done|]. split; [done|].
  match goal with |- map toZ (astack ?g) = _ => change (astack g) with (stk (Stack g) (SP g)) end.
  fcbn.
  replace (SP f) with (SP f + 1 - 1) at 1 by lia. rewrite stk_set_top by lia.
  replace (SP f + 1 - 1) with (SP f) by lia. cbn [map]. f_equal.
  rewrite toZ_FromBytesBE. unfold zeros. rewrite take_replicate.
  replace (length _ - 32)%nat with 0%nat.
  - rewrite drop_0. apply be_val_zeros.
  - rewrite length_app, length_replicate. unfold immediate. rewrite length_map, length_seq. lia.
Qed.

(** ** DUP and SWAP *)

Lemma execDup_post f n :
  frame_ok f -> 1 <= n <= 16 -> n <= SP f < stackMax ->
  exists f', execDup f n = Ok f' /\
    astack f' = (astack f !!! Z.to_nat (n - 1)) :: astack f.
Proof.
  intros Hf Hn Hsp. pose proof (fo_stack_len f Hf) as Hl. unfold execDup, requireStack, requireRoom.
  destruct (Z.ltb_spec (SP f) n); [lia|]. destruct (Z.leb_spec stackMax (SP f)); [lia|].
  shape. eexists. split; [done|].
  change (stk (<[Z.to_nat (SP f) := Stack f !!! Z.to_nat (SP f - n)]> (Stack f)) (SP f + 1)
          = (astack f !!! Z.to_nat (n - 1)) :: astack f).
  replace (SP f) with (SP f + 1 - 1) at 1 by lia. rewrite stk_set_top by lia.
  replace (SP f + 1 - 1) with (SP f) by lia. f_equal.
  rewrite (list_lookup_total_alt (astack f)), astack_lookup by (done || lia). cbn. do 2 f_equal. lia.
Qed.

Lemma execSwap_post f n :
  frame_ok f -> 1 <= n <= 16 -> n < SP f ->
  exists f', execSwap f n = Ok f' /\
    astack f' = <[0%nat := astack f !!! Z.to_nat n]> (<[Z.to_nat n := astack f !!! 0%nat]> (astack f)).
Proof.
  intros Hf Hn Hsp. pose proof (fo_SP f Hf). pose proof (fo_stack_len f Hf) as Hl.
  pose proof (length_astack f Hf) as Hla. pose proof (execSwap_wp f n Hf Hn) as W.
  unfold execSwap, requireStack in *. destruct (Z.ltb_spec (SP f) (n + 1)); [lia|].
  revert W. shape. intros [Hf' _ _ _]. eexists. split; [done|].
  set (f' := with_Stack _ _) in *. pose proof (length_astack f' Hf') as Hla'.
  apply list_eq_same_length with (n := Z.to_nat (SP f)); [by rewrite !length_insert | done |].
  intros i a b Hi Ha Hb. rewrite astack_lookup in Ha by done. injection Ha as <-.
  revert Hb. rewrite !(list_lookup_total_alt (astack f)), !astack_lookup by (done || lia). cbn.
  rewrite !list_lookup_insert, length_insert, Hla. change (SP f') with (SP f).
  destruct (decide (i = 0%nat)) as [->|Hi0]; [|destruct (decide (i = Z.to_nat n)) as [->|Hin]].
  - rewrite decide_True by lia. intros [= <-].
    replace (SP f - 1 - Z.of_nat 0) with (SP f - 1) by lia.
    rewrite list_lookup_total_insert_ne, list_lookup_total_insert_eq by lia. do 2 f_equal. lia.
  - rewrite decide_False, decide_True by lia. intros [= <-].
    replace (Z.to_nat (SP f - 1 - Z.of_nat (Z.to_nat n))) with (Z.to_nat (SP f - 1 - n)) by lia.
    rewrite list_lookup_total_insert_eq by (rewrite length_insert; lia). do 2 f_equal. lia.
  - rewrite !decide_False by lia. rewrite astack_lookup by done. intros [= <-].
    by rewrite !list_lookup_total_insert_ne by lia.
Qed.

(** ** Memory *)

(** A successful [chargeMem], inverted. *)
Lemma chargeMem_Some f off sz f' :
  frame_ok f -> is_u64 off -> is_u64 sz -> chargeMem f off sz = Some f' ->
  frame_ok f' /\ (sz <> 0 -> off + sz <= MemorySize f') /\
  exists g m, f' = with_MemorySize (with_Gas f g) m.
Proof.
  intros Hf Ho Hs E.
  assert (wp (chargeMem_or f off sz)
    (fun f' => frame_ok f' /\ (sz <> 0 -> off + sz <= MemorySize f')) (fun _ => True)) as W.
  { apply wp_chargeMem; try done. intros f2 [] Hr. done. }
  unfold chargeMem_or in W. rewrite E in W. cbn [wp] in W. destruct W as [Hf' Hm].
  split; [done|]. split; [done|].
  rewrite chargeMem_spec in E by done. destruct (_ || _); [|done]. injection E as <-. eauto.
Qed.

(** Touching memory that is already paid for is free. *)
Lemma chargeMem_inside f off sz :
  frame_ok f -> is_u64 off -> is_u64 sz -> off + sz <= MemorySize f -> chargeMem f off sz = Some f.
Proof.
  intros Hf Ho Hs Hin. rewrite chargeMem_spec by done. destruct (fo_msize f Hf) as [Hm Hm32].
  pose proof (fo_Gas f Hf). unfold is_u64 in *.
  assert (mem_extent (MemorySize f) off sz = MemorySize f) as ->.
  { unfold mem_extent. destruct (sz =? 0); [done|]. dlia. }
  rewrite Z.sub_diag, Z.sub_0_r, frame_eta.
  destruct (Z.leb_spec (off + sz) memMax); [|lia]. destruct (Z.leb_spec 0 (Gas f)); [|lia].
  by rewrite orb_true_r.
Qed.


Lemma execMstore_inv f f1 :
  frame_ok f -> execMstore f = Ok f1 ->
  2 <= SP f /\
  exists o g m, toZ (Stack f !!! Z.to_nat (SP f - 1)) = o /\ o + 32 <= m /\
    frame_ok (with_MemorySize (with_Gas f g) m) /\
    f1 = with_SP (with_Memory (with_MemorySize (with_Gas f g) m)
           (copy_at (Memory f) (Z.to_nat o) (BytesBE (Stack f !!! Z.to_nat (SP f - 2))))) (SP f - 2).
Proof.
  intros Hf. pose proof (fo_SP f Hf). unfold execMstore, requireStack.
  destruct (Z.ltb_spec (SP f) 2); [done|]. shape.
  pose proof (stack_lookup_ok f (Z.to_nat (SP f - 1)) Hf) as Oa.
  unfold asU64_or. destruct (u256AsU64 _) as [o|] eqn:Eo; [|done]. cbn [mbind outcome_bind].
  pose proof (u256AsU64_u64 _ _ Oa Eo) as Ho. rewrite u256AsU64_Some in Eo by done.
  unfold chargeMem_or. destruct (chargeMem f o 32) as [f'|] eqn:Ec; [|done].
  destruct (chargeMem_Some f o 32 f' Hf Ho ltac:(unfold is_u64; lia) Ec) as (Hf' & Hm & g & m & ->).
  pose proof (fo_msize _ Hf') as [? _]. fcbn. unfold is_u64 in Ho. shape.
  rewrite mem_write_ok by (rewrite ?length_BytesBE; lia). shape.
  intros [= <-]. split; [lia|]. exists o, g, m. split; [apply Eo|]. split; [lia|]. done.
Qed.

(** MSTORE, then MLOAD of the same offset: the word comes back, and the second
    access is not charged for memory. *)
Lemma mstore_mload_post f f1 f2 off v :
  frame_ok f -> execMstore f = Ok f1 ->
  astack f !! 0%nat = Some off -> astack f !! 1%nat = Some v ->
  execPushWord f1 off = Ok f2 ->
  exists f3, execMload f2 = Ok f3 /\ Gas f3 = Gas f2 /\ astack f3 = v :: astack f1.
Proof.
  intros Hf E1 Hoff Hv E2. pose proof (execMstore_wp f Hf) as W1. rewrite E1 in W1.
  destruct W1 as [Hf1 _ _ _]. destruct (execMstore_inv f f1 Hf E1) as (Hsp & o & g & m & Eo & Hom & Hfm & ->).
  pose proof (fo_SP f Hf) as HSP. pose proof (fo_stack_len f Hf) as Hl. pose proof (fo_msize _ Hfm) as [Hm _].
  rewrite astack_lookup in Hoff, Hv by (done || lia). injection Hoff as <-. injection Hv as <-.
  replace (SP f - 1 - Z.of_nat 0) with (SP f - 1) in * by lia.
  replace (SP f - 1 - Z.of_nat 1) with (SP f - 2) in * by lia.
  set (off := Stack f !!! Z.to_nat (SP f - 1)) in *. set (v := Stack f !!! Z.to_nat (SP f - 2)) in *.
  assert (u256_ok off) as Ooff by by apply stack_lookup_ok.
  assert (u256_ok v) as Ov by by apply stack_lookup_ok.
  pose proof (toZ_range off Ooff) as Hr. fcbn.
  set (f1 := with_SP _ (SP f - 2)) in *.
  pose proof (execPushWord_wp f1 off Hf1 Ooff) as W2. rewrite E2 in W2. destruct W2 as [Hf2 _ _ _].
  revert E2. unfold execPushWord, requireRoom. destruct (Z.leb_spec stackMax (SP f1)); [done|].
  change (SP f1) with (SP f - 2) in *. shape. intros [= <-].
  match goal with |- context [execMload ?x] => set (f2 := x) in * end.
  assert (SP f2 = SP f - 1) as Esp by (unfold f2; fcbn; change (SP f1) with (SP f - 2); lia).
  unfold execMload, requireStack. destruct (Z.ltb_spec (SP f2) 1); [lia|]. shape.
  assert (Stack f2 !!! Z.to_nat (SP f2 - 1) = off) as ->.
  { change (Stack f2) with (<[Z.to_nat (SP f - 2) := off]> (Stack f)). rewrite Esp.
    replace (SP f - 1 - 1) with (SP f - 2) by lia. apply list_lookup_total_insert_eq. lia. }
  assert (u256AsU64 off = Some o) as Eu by (apply u256AsU64_Some; [done|lia]).
  unfold asU64_or. rewrite Eu. cbn [mbind outcome_bind].
  unfold chargeMem_or. rewrite chargeMem_inside; [|done | unfold is_u64; lia.. | done].
  cbn [mbind outcome_bind]. rewrite (add64_mem f2) by (done || (try change (MemorySize f2) with m; lia)).
  rewrite mem_read_ok by lia. shape. eexists. split; [done|]. split; [done|].
  match goal with |- astack ?a = _ => change (astack a) with (stk (Stack a) (SP a)) end. fcbn. rewrite Esp.
  change (Stack f2) with (<[Z.to_nat (SP f - 2) := off]> (Stack f)).
  change (Memory f2) with (copy_at (Memory f) (Z.to_nat o) (BytesBE v)).
  rewrite stk_set_top by (rewrite length_insert; lia).
  replace (Z.to_nat (o + 32)) with (Z.to_nat o + length (BytesBE v))%nat by (rewrite length_BytesBE; lia).
  pose proof (fo_mem_len f Hf) as Hml.
  rewrite slice_copy_at by (rewrite length_BytesBE; lia).
  rewrite FromBytesBE_BytesBE by done. f_equal.
  replace (SP f - 1 - 1) with (SP f - 2) by lia. by rewrite stk_insert_ge by lia.
Qed.

End refine.
