(* ===== verification/StateTrie.v ===== *)
(** * The journaled world state: [pkg/statetrie/account.go], [pkg/statetrie/state_trie.go]

    Accounts and storage are finite maps; every mutation appends to the journal
    the entry that undoes it; a snapshot is an index into the journal. The lock
    serialises the methods and is not modelled. Pointers do not escape: the
    journal and the accessors clone accounts, so accounts are values.

    The iteration order of a Go map is unspecified: [range] is any enumeration of
    the storage map, and may differ from one call to the next (its first
    argument). *)

From S2P Require Import Prelude Uint256 Bitwise256 Arith256 Keccak Frame.

(** ** Data *)

Record Account := MkAccount {
  Nonce : Z;
  Balance : Uint256;
  StorageRoot : bytes;
  CodeHash : bytes;
  Code : bytes;
}.

Record storageKey := SKey { sk_addr : Uint256; sk_slot : Uint256 }.

#[export] Instance storageKey_eq_dec : EqDecision storageKey.
Proof. solve_decision. Defined.
#[export] Instance storageKey_countable : Countable storageKey.
Proof. refine (inj_countable' (fun k => (sk_addr k, sk_slot k)) (fun '(a, s) => SKey a s) _). by intros []. Defined.

(** [prevAcc]/[hadAcc] and [prevVal]/[hadVal] of the source as options. *)
Inductive journalEntry :=
  | journalAcc (addr : Uint256) (prevAcc : option Account)
  | journalStor (addr slot : Uint256) (prevVal : option Uint256).

Abbreviation account_map := (gmap Uint256 Account).
Abbreviation storage_map := (gmap storageKey Uint256).

Record StateTrie := MkState {
  accounts : account_map;
  storage : storage_map;
  journal : list journalEntry;
  reverts : list Z;
}.

Definition NewStateTrie : StateTrie := MkState ∅ ∅ [] [].

(** What is observable of a state: its accounts and its storage. *)
Definition view : Type := account_map * storage_map.
Definition state_view (t : StateTrie) : view := (accounts t, storage t).

Definition with_journal (t : StateTrie) (v : view) (es : list journalEntry) : StateTrie :=
  MkState v.1 v.2 (journal t ++ es) (reverts t).

Inductive state_err := ErrInsufficientBalance | ErrProofNotFound.

Definition emptyRoot : bytes := Keccak256 [0x80].
Definition emptyCodeHash : bytes := Keccak256 [].
Definition hash0 : bytes := zeros 32.

(** ** Operations *)

(** The low 160 bits. *)
Definition normalizeAddr (addr : Uint256) : Uint256 :=
  U256 (w0 addr) (w1 addr) (Z.land (w2 addr) 0x00000000ffffffff) 0.

Definition GetAccount (t : StateTrie) (addr : Uint256) : option Account :=
  accounts t !! normalizeAddr addr.

Definition GetBalance (t : StateTrie) (addr : Uint256) : Uint256 :=
  match accounts t !! normalizeAddr addr with
  | Some acc => Balance acc
  | None => zero256
  end.

(** The account [ensureAccount] returns a pointer to. *)
Definition newAccount : Account := MkAccount 0 zero256 hash0 emptyCodeHash [].

Definition with_Balance (acc : Account) (b : Uint256) : Account :=
  MkAccount (Nonce acc) b (StorageRoot acc) (CodeHash acc) (Code acc).

(** [ensureAccount] followed by the write through the pointer it returns. *)
Definition updateBalance (t : StateTrie) (addr : Uint256) (f : Uint256 -> Uint256) : StateTrie :=
  let a := normalizeAddr addr in
  let prev := accounts t !! a in
  let acc := default newAccount prev in
  with_journal t (<[a := with_Balance acc (f (Balance acc))]> (accounts t), storage t)
    [journalAcc a prev].

Definition AddBalance (t : StateTrie) (addr delta : Uint256) : StateTrie :=
  let a := normalizeAddr addr in
  if negb (bool_decide (is_Some (accounts t !! a))) && IsZero delta then t
  else updateBalance t addr (fun b => Add256 b delta).

Definition SubBalance (t : StateTrie) (addr delta : Uint256) : outcome state_err StateTrie :=
  let a := normalizeAddr addr in
  let bal := match accounts t !! a with Some acc => Balance acc | None => zero256 end in
  if Cmp bal delta <? 0 then Err ErrInsufficientBalance
  else if negb (bool_decide (is_Some (accounts t !! a))) && IsZero delta then Ok t
  else Ok (updateBalance t addr (fun b => Sub256 b delta)).

Definition GetStorage (t : StateTrie) (addr key : Uint256) : Uint256 :=
  default zero256 (storage t !! SKey (normalizeAddr addr) key).

Definition SetStorage (t : StateTrie) (addr key val : Uint256) : StateTrie :=
  let a := normalizeAddr addr in
  let sk := SKey a key in
  let e := journalStor a key (storage t !! sk) in
  if IsZero val then with_journal t (accounts t, delete sk (storage t)) [e]
  else with_journal t (accounts t, <[sk := val]> (storage t)) [e].

Definition Snapshot (t : StateTrie) : StateTrie * Z :=
  (MkState (accounts t) (storage t) (journal t) (reverts t ++ [Z.of_nat (length (journal t))]),
   Z.of_nat (length (reverts t))).

Definition applyRevert (e : journalEntry) (v : view) : view :=
  match e with
  | journalAcc addr None => (delete addr v.1, v.2)
  | journalAcc addr (Some acc) => (<[addr := acc]> v.1, v.2)
  | journalStor addr slot None => (v.1, delete (SKey addr slot) v.2)
  | journalStor addr slot (Some val) => (v.1, <[SKey addr slot := val]> v.2)
  end.

(** [for i := len(t.journal) - 1; i >= jidx; i-- { t.applyRevert(t.journal[i]) }] *)
Definition undo (es : list journalEntry) (v : view) : view := foldr applyRevert v es.

Definition RevertToSnapshot (t : StateTrie) (revision : Z) : outcome state_err StateTrie :=
  if (revision <? 0) || (Z.of_nat (length (reverts t)) <=? revision) then Panic
  else
    let jidx := Z.to_nat (reverts t !!! Z.to_nat revision) in
    let v := undo (drop jidx (journal t)) (state_view t) in
    Ok (MkState v.1 v.2 (take jidx (journal t)) (take (Z.to_nat revision) (reverts t))).

Definition Commit (t : StateTrie) : StateTrie := MkState (accounts t) (storage t) [] [].

Definition DiscardSnapshot (t : StateTrie) (rev : Z) : StateTrie :=
  if (rev <? 0) || (Z.of_nat (length (reverts t)) <=? rev) then t
  else
    let rs := take (Z.to_nat rev) (reverts t) in
    MkState (accounts t) (storage t) (if (length rs =? 0)%nat then [] else journal t) rs.

Section set_account.
  Context (range : nat -> storage_map -> list (storageKey * Uint256)).

(** One iteration of the loop that deletes the slots of [a]. *)
Definition delete_slot (a : Uint256) (p : storage_map * list journalEntry) (kv : storageKey * Uint256) :
  storage_map * list journalEntry :=
  if bool_decide (sk_addr kv.1 = a)
  then (delete kv.1 p.1, p.2 ++ [journalStor a (sk_slot kv.1) (Some kv.2)])
  else p.

(** [SetAccount(addr, acc)]; [None] is the nil pointer, which deletes the account
    and its storage. *)
Definition SetAccount (seed : nat) (t : StateTrie) (addr : Uint256) (acc : option Account) : StateTrie :=
  let a := normalizeAddr addr in
  let e := journalAcc a (accounts t !! a) in
  match acc with
  | None =>
      let '(st, es) := foldl (delete_slot a) (storage t, [e]) (range seed (storage t)) in
      with_journal t (delete a (accounts t), st) es
  | Some acc => with_journal t (<[a := acc]> (accounts t), storage t) [e]
  end.
End set_account.

(** The state is what SLOAD and SSTORE see through [c2evm.StateAccessor]. *)
#[export] Instance StateTrie_accessor : StateAccessor StateTrie :=
  {| sa_GetStorage := GetStorage; sa_SetStorage := SetStorage |}.
