(* ===== verification/StateTrieSpec.v ===== *)
(** * The journal implements snapshots: theorems on [StateTrie]

    The specification [spec] is a machine without a journal: the current view and
    the stack of the views saved by the live snapshots. [abs] recomputes the
    saved views from the journal; every operation commutes with [abs]. *)

From S2P Require Import Prelude Uint256 Bitwise256 Arith256 Keccak Frame StateTrie.

(** ** The specification machine *)

Record spec := Spec { cur : view; saved : list view }.

Definition undo_to (t : StateTrie) (j : Z) : view := undo (drop (Z.to_nat j) (journal t)) (state_view t).

Definition abs (t : StateTrie) : spec := Spec (state_view t) (map (undo_to t) (reverts t)).

(** Effects of the mutations on a view. *)
Definition v_set_account (v : view) (addr : Uint256) (acc : option Account) : view :=
  let a := normalizeAddr addr in
  match acc with
  | Some acc => (<[a := acc]> v.1, v.2)
  | None => (delete a v.1, filter (fun kv => sk_addr kv.1 <> a) v.2)
  end.

Definition v_balance (v : view) (addr : Uint256) : Uint256 :=
  from_option Balance zero256 (v.1 !! normalizeAddr addr).

Definition v_set_balance (v : view) (addr b : Uint256) : view :=
  let a := normalizeAddr addr in
  (<[a := with_Balance (default newAccount (v.1 !! a)) b]> v.1, v.2).

(** A zero delta on an absent account does not create it. *)
Definition v_noop (v : view) (addr delta : Uint256) : bool :=
  bool_decide (v.1 !! normalizeAddr addr = None) && IsZero delta.

Definition v_set_storage (v : view) (addr key val : Uint256) : view :=
  let sk := SKey (normalizeAddr addr) key in
  (v.1, if IsZero val then delete sk v.2 else <[sk := val]> v.2).

Inductive op :=
  | OpSetAccount (seed : nat) (addr : Uint256) (acc : option Account)
  | OpAddBalance (addr delta : Uint256)
  | OpSubBalance (addr delta : Uint256)
  | OpSetStorage (addr key val : Uint256)
  | OpSnapshot
  | OpRevert (r : Z)
  | OpDiscard (r : Z)
  | OpCommit.

Definition spec_step (s : spec) (o : op) : option spec :=
  match o with
  | OpSetAccount _ addr acc => Some (Spec (v_set_account (cur s) addr acc) (saved s))
  | OpAddBalance addr delta =>
      Some (if v_noop (cur s) addr delta then s
            else Spec (v_set_balance (cur s) addr (Add256 (v_balance (cur s) addr) delta)) (saved s))
  | OpSubBalance addr delta =>
      Some (if Cmp (v_balance (cur s) addr) delta <? 0 then s
            else if v_noop (cur s) addr delta then s
            else Spec (v_set_balance (cur s) addr (Sub256 (v_balance (cur s) addr) delta)) (saved s))
  | OpSetStorage addr key val => Some (Spec (v_set_storage (cur s) addr key val) (saved s))
  | OpSnapshot => Some (Spec (cur s) (saved s ++ [cur s]))
  | OpRevert r =>
      if (r <? 0) || (Z.of_nat (length (saved s)) <=? r) then None
      else v ← saved s !! Z.to_nat r; Some (Spec v (take (Z.to_nat r) (saved s)))
  | OpDiscard r =>
      Some (if (r <? 0) || (Z.of_nat (length (saved s)) <=? r) then s
            else Spec (cur s) (take (Z.to_nat r) (saved s)))
  | OpCommit => Some (Spec (cur s) [])
  end.

(** The journal is well formed: snapshots are increasing positions in it. *)
Record journal_ok (t : StateTrie) : Prop := {
  jo_bound : Forall (fun j => 0 <= j <= Z.of_nat (length (journal t))) (reverts t);
  jo_mono i j x y : (i < j)%nat -> reverts t !! i = Some x -> reverts t !! j = Some y -> x <= y;
}.

(** ** Mutations are journalled *)

Lemma undo_app es1 es2 v : undo (es1 ++ es2) v = undo es1 (undo es2 v).
Proof. apply foldr_app. Qed.

(** [t'] is [t] with the view [v'] and journal entries that undo the change. *)
Definition journalled (t t' : StateTrie) (v' : view) : Prop :=
  exists es, t' = with_journal t v' es /\ undo es v' = state_view t.

Lemma journalled_abs t t' v' :
  journal_ok t -> journalled t t' v' -> abs t' = Spec v' (saved (abs t)) /\ journal_ok t'.
Proof.
  intros [Hb Hm] (es & -> & Hu). split; [|constructor; [|exact Hm]].
  - unfold abs. f_equal; [by destruct v'|]. cbn. apply map_ext_in. intros j Hj.
    rewrite Forall_forall in Hb. specialize (Hb j Hj).
    unfold undo_to. cbn. rewrite drop_app_le by lia. rewrite undo_app.
    change (state_view (with_journal t v' es)) with (v'.1, v'.2). destruct v'; cbn in *. by rewrite Hu.
  - cbn. rewrite length_app. apply Forall_forall. intros j Hj. rewrite Forall_forall in Hb.
    specialize (Hb j Hj). lia.
Qed.

Lemma update_journalled t addr f :
  journalled t (updateBalance t addr f)
    (v_set_balance (state_view t) addr (f (Balance (default newAccount (accounts t !! normalizeAddr addr))))).
Proof.
  eexists. split; [reflexivity|]. cbn. destruct (accounts t !! normalizeAddr addr) eqn:E; cbn.
  - rewrite insert_insert_eq, insert_id by done. done.
  - rewrite delete_insert_id by done. done.
Qed.

Lemma SetStorage_journalled t addr key val :
  journalled t (SetStorage t addr key val) (v_set_storage (state_view t) addr key val).
Proof.
  unfold SetStorage, v_set_storage. set (sk := SKey (normalizeAddr addr) key).
  destruct (IsZero val); eexists; (split; [reflexivity|]); cbn; fold sk;
    destruct (storage t !! sk) eqn:E; cbn; fold sk; unfold state_view; f_equal.
  - rewrite insert_delete_eq. by apply insert_id.
  - rewrite delete_delete_eq. by apply delete_id.
  - rewrite insert_insert_eq. by apply insert_id.
  - by apply delete_insert_id.
Qed.

(** *** Deleting an account and its storage *)

Section delete_account.
  Context (a : Uint256).
  Implicit Types l : list (storageKey * Uint256).

Definition of_addr l := filter (fun kv : storageKey * Uint256 => sk_addr kv.1 = a) l.

Lemma delete_slots_spec l st es :
  foldl (delete_slot a) (st, es) l =
  (foldl (fun st kv => delete kv.1 st) st (of_addr l),
   es ++ map (fun kv => journalStor a (sk_slot kv.1) (Some kv.2)) (of_addr l)).
Proof.
  revert st es. induction l as [|kv l IH]; intros st es; cbn [foldl of_addr filter]; [by rewrite app_nil_r|].
  unfold delete_slot at 2. unfold of_addr. rewrite filter_cons. case_bool_decide as E.
  - rewrite decide_True by done. cbn [foldl map fst snd]. rewrite IH. f_equal. by rewrite <- app_assoc.
  - rewrite decide_False by done. apply IH.
Qed.

Lemma lookup_delete_all l (st : storage_map) k :
  foldl (fun st kv => delete kv.1 st) st l !! k = if decide (k ∈ l.*1) then None else st !! k.
Proof.
  revert st. induction l as [|kv l IH]; intros st; cbn; [done|]. rewrite IH.
  destruct (decide (k ∈ l.*1)) as [H|H].
  - by rewrite decide_True by (by right).
  - destruct (decide (k = kv.1)) as [->|Hne].
    + rewrite decide_True by left. apply lookup_delete_eq.
    + rewrite decide_False by (by rewrite elem_of_cons; intros [|]).
      by apply lookup_delete_ne.
Qed.

Lemma delete_all_filter (st : storage_map) l :
  l ≡ₚ map_to_list st ->
  foldl (fun st kv => delete kv.1 st) st (of_addr l) = filter (fun kv => sk_addr kv.1 <> a) st.
Proof.
  intros Hl. apply map_eq. intros k. rewrite lookup_delete_all.
  assert (k ∈ (of_addr l).*1 <-> sk_addr k = a /\ is_Some (st !! k)) as Hk.
  { unfold of_addr. rewrite list_elem_of_fmap. split.
    - intros ([k' v] & -> & Hin). apply list_elem_of_filter in Hin as [Ha Hin]. split; [done|].
      rewrite Hl, elem_of_map_to_list in Hin. by eexists.
    - intros [Ha [v Hv]]. exists (k, v). split; [done|]. apply list_elem_of_filter. split; [done|].
      by rewrite Hl, elem_of_map_to_list. }
  destruct (decide (k ∈ (of_addr l).*1)) as [H|H].
  - apply Hk in H as [Ha _]. symmetry. apply map_lookup_filter_None. right. by intros ? _ ?.
  - destruct (st !! k) as [v|] eqn:Ev.
    + symmetry. apply map_lookup_filter_Some. split; [done|]. intros Ha. apply H, Hk. by split.
    + symmetry. apply map_lookup_filter_None. by left.
Qed.

Lemma undo_slots l acc st :
  Forall (fun kv : storageKey * Uint256 => sk_addr kv.1 = a) l ->
  undo (map (fun kv => journalStor a (sk_slot kv.1) (Some kv.2)) l) (acc, st)
  = (acc, foldr (fun kv st => <[kv.1 := kv.2]> st) st l).
Proof.
  unfold undo. induction 1 as [|[[a' s] v] l Ha _ IH]; cbn in *; [done|]. rewrite IH. cbn. by rewrite Ha.
Qed.

Lemma insert_all_filter (st : storage_map) l :
  l ≡ₚ map_to_list st ->
  foldr (fun kv st => <[kv.1 := kv.2]> st) (filter (fun kv => sk_addr kv.1 <> a) st) (of_addr l) = st.
Proof.
  intros Hl.
  assert (forall l0 (st0 : storage_map),
    foldr (fun kv st => <[kv.1 := kv.2]> st) st0 l0 = list_to_map l0 ∪ st0) as Hf.
  { intros l0 st0. induction l0 as [|kv l0 IH]; cbn; [by rewrite map_empty_union|].
    rewrite IH. by destruct kv; rewrite insert_union_l. }
  rewrite Hf. apply map_eq. intros k.
  assert (NoDup (of_addr l).*1) as Hnd.
  { assert (NoDup l.*1) as Hn by (rewrite Hl; apply NoDup_fst_map_to_list).
    unfold of_addr. clear -Hn. induction l as [|kv l IH]; [constructor|].
    rewrite fmap_cons in Hn. apply list.NoDup_cons in Hn as [Hni Hn]. rewrite filter_cons.
    destruct (decide _); [|by apply IH]. rewrite fmap_cons. apply list.NoDup_cons. split; [|by apply IH].
    intros Hin. apply Hni. apply list_elem_of_fmap in Hin as (y & -> & Hy).
    apply list_elem_of_filter in Hy as [_ Hy]. by apply list_elem_of_fmap_2. }
  destruct (decide (sk_addr k = a)) as [Ha|Ha].
  - destruct (st !! k) as [v|] eqn:E.
    + apply lookup_union_Some_l. apply elem_of_list_to_map; [done|].
      apply list_elem_of_filter. split; [done|]. by rewrite Hl, elem_of_map_to_list.
    + apply lookup_union_None. split.
      * apply not_elem_of_list_to_map. intros Hin. apply list_elem_of_fmap in Hin as ([k' v] & -> & Hin).
        apply list_elem_of_filter in Hin as [_ Hin]. rewrite Hl, elem_of_map_to_list in Hin. cbn in *. congruence.
      * apply map_lookup_filter_None. by left.
  - rewrite lookup_union_r.
    + destruct (st !! k) as [v|] eqn:E; [by apply map_lookup_filter_Some|].
      apply map_lookup_filter_None. by left.
    + apply not_elem_of_list_to_map. intros Hin. apply list_elem_of_fmap in Hin as ([k' v] & -> & Hin).
      apply list_elem_of_filter in Hin as [Ha' _]. done.
Qed.
End delete_account.

Section ops.
  Context (range : nat -> storage_map -> list (storageKey * Uint256)).
  Context (range_perm : forall seed m, range seed m ≡ₚ map_to_list m).

Lemma SetAccount_journalled seed t addr acc :
  journalled t (SetAccount range seed t addr acc) (v_set_account (state_view t) addr acc).
Proof.
  unfold SetAccount, v_set_account. set (a := normalizeAddr addr). destruct acc as [acc|].
  - eexists. split; [reflexivity|]. cbn. destruct (accounts t !! a) eqn:E; cbn; unfold state_view; f_equal.
    + rewrite insert_insert_eq. by apply insert_id.
    + by apply delete_insert_id.
  - rewrite delete_slots_spec. eexists. split.
    + cbn. rewrite (delete_all_filter a (storage t)) by apply range_perm. reflexivity.
    + change (undo (?e :: ?es) ?v) with (applyRevert e (undo es v)).
      cbn [fst snd state_view]. rewrite undo_slots.
      2: { apply Forall_forall. intros kv Hkv. apply list_elem_of_In, list_elem_of_filter in Hkv. apply Hkv. }
      rewrite insert_all_filter by apply range_perm.
      cbn. destruct (accounts t !! a) eqn:E; cbn; unfold state_view; f_equal.
      * rewrite insert_delete_eq. by apply insert_id.
      * rewrite delete_delete_eq. by apply delete_id.
Qed.

Lemma AddBalance_cases t addr delta :
  AddBalance t addr delta = t /\ v_noop (state_view t) addr delta = true \/
  v_noop (state_view t) addr delta = false /\
  journalled t (AddBalance t addr delta)
    (v_set_balance (state_view t) addr (Add256 (v_balance (state_view t) addr) delta)).
Proof.
  unfold AddBalance, v_noop, v_balance. cbn [state_view fst].
  pose proof (update_journalled t addr (fun b => Add256 b delta)) as J.
  destruct (accounts t !! normalizeAddr addr) as [acc|] eqn:E; cbn [from_option default] in *.
  - right. split; [by rewrite bool_decide_eq_false_2|]. rewrite bool_decide_eq_true_2 by eauto. exact J.
  - rewrite bool_decide_eq_false_2 by (intros [? ?]; done). rewrite bool_decide_eq_true_2 by done. cbn.
    destruct (IsZero delta); [by left | by right].
Qed.

Lemma SubBalance_cases t addr delta :
  (Cmp (v_balance (state_view t) addr) delta <? 0) = true /\ SubBalance t addr delta = Err ErrInsufficientBalance \/
  (Cmp (v_balance (state_view t) addr) delta <? 0) = false /\
  exists t', SubBalance t addr delta = Ok t' /\
    (t' = t /\ v_noop (state_view t) addr delta = true \/
     v_noop (state_view t) addr delta = false /\
     journalled t t' (v_set_balance (state_view t) addr (Sub256 (v_balance (state_view t) addr) delta))).
Proof.
  unfold SubBalance, v_noop, v_balance. cbn [state_view fst].
  pose proof (update_journalled t addr (fun b => Sub256 b delta)) as J.
  assert (match accounts t !! normalizeAddr addr with Some acc => Balance acc | None => zero256 end
          = from_option Balance zero256 (accounts t !! normalizeAddr addr)) as -> by by destruct (accounts t !! _).
  destruct (Cmp _ delta <? 0); [by left|]. right. split; [done|].
  destruct (accounts t !! normalizeAddr addr) as [acc|] eqn:E; cbn [from_option default] in *.
  - rewrite bool_decide_eq_true_2 by eauto. cbn. eexists. split; [done|]. right. by split.
  - rewrite bool_decide_eq_false_2 by (intros [? ?]; done). rewrite bool_decide_eq_true_2 by done. cbn.
    destruct (IsZero delta); eexists; (split; [done|]); [by left | by right].
Qed.

(** An operation of the code; [None] is the panic of an invalid snapshot. A failed
    [SubBalance] leaves the state as it was. *)
Definition run_op (t : StateTrie) (o : op) : option StateTrie :=
  match o with
  | OpSetAccount seed addr acc => Some (SetAccount range seed t addr acc)
  | OpAddBalance addr delta => Some (AddBalance t addr delta)
  | OpSubBalance addr delta =>
      match SubBalance t addr delta with Ok t' => Some t' | Err _ => Some t | _ => None end
  | OpSetStorage addr key val => Some (SetStorage t addr key val)
  | OpSnapshot => Some (Snapshot t).1
  | OpRevert r => match RevertToSnapshot t r with Ok t' => Some t' | _ => None end
  | OpDiscard r => Some (DiscardSnapshot t r)
  | OpCommit => Some (Commit t)
  end.

Lemma run_op_snapshot t :
  journal_ok t -> spec_step (abs t) OpSnapshot = Some (abs (Snapshot t).1) /\ journal_ok (Snapshot t).1.
Proof.
  intros [Hb Hm]. split.
  - cbn. unfold abs. cbn. f_equal. unfold undo_to. cbn. f_equal.
    rewrite map_app. cbn. f_equal. by rewrite Nat2Z.id, drop_all.
  - constructor; cbn.
    + apply Forall_app. split; [done|]. constructor; [lia|constructor].
    + intros i j x y Hij Hx Hy. apply lookup_app_Some in Hx, Hy.
      destruct Hx as [Hx|[Hi Hx]], Hy as [Hy|[Hj Hy]]; [eauto | | |].
      * apply list_lookup_singleton_Some in Hy as [_ <-].
        pose proof (Forall_lookup_1 _ _ _ _ Hb Hx). cbn in *. lia.
      * apply lookup_lt_Some in Hy. lia.
      * apply list_lookup_singleton_Some in Hx as [Hx _], Hy as [Hy _]. lia.
Qed.

Lemma run_op_revert t r :
  journal_ok t ->
  match run_op t (OpRevert r) with
  | Some t' => spec_step (abs t) (OpRevert r) = Some (abs t') /\ journal_ok t'
  | None => spec_step (abs t) (OpRevert r) = None
  end.
Proof.
  intros [Hb Hm]. unfold run_op, RevertToSnapshot, spec_step. cbn [abs saved cur]. rewrite length_map.
  destruct ((r <? 0) || (Z.of_nat (length (reverts t)) <=? r)) eqn:E; [done|].
  apply orb_false_iff in E as [E1 E2]. apply Z.ltb_ge in E1. apply Z.leb_gt in E2.
  destruct (lookup_lt_is_Some_2 (reverts t) (Z.to_nat r) ltac:(lia)) as [j Hj].
  rewrite (list_lookup_total_correct _ _ _ Hj).
  pose proof (Forall_lookup_1 _ _ _ _ Hb Hj) as Hjb. cbn in Hjb.
  change (map (undo_to t) (reverts t)) with (undo_to t <$> reverts t).
  rewrite list_lookup_fmap, Hj. cbn [fmap option_fmap option_map mbind option_bind].
  assert (forall i x, take (Z.to_nat r) (reverts t) !! i = Some x -> 0 <= x <= j) as Hle.
  { intros i x Hx. apply lookup_take_Some in Hx as [Hx Hi]. split; [|by eapply Hm].
    pose proof (Forall_lookup_1 _ _ _ _ Hb Hx). cbn in *. lia. }
  split.
  - unfold abs. cbn. f_equal. unfold undo_to at 1. f_equal.
    + by destruct (undo _ _).
    + rewrite <- fmap_take. apply map_ext_in. intros x Hx.
      apply list_elem_of_In, list_elem_of_lookup in Hx as [i Hx]. specialize (Hle i x Hx).
      unfold undo_to. cbn. rewrite <- (take_drop (Z.to_nat j) (journal t)) at 1.
      rewrite drop_app_le by (rewrite length_take; lia). rewrite undo_app.
      change (state_view _) with ((undo (drop (Z.to_nat j) (journal t)) (state_view t)).1,
        (undo (drop (Z.to_nat j) (journal t)) (state_view t)).2) at 2.
      by rewrite <- surjective_pairing.
  - constructor; cbn.
    + apply Forall_lookup_2. intros i x Hx. rewrite length_take. specialize (Hle i x Hx). lia.
    + intros i i' x y Hi Hx Hy. apply lookup_take_Some in Hx as [Hx _], Hy as [Hy _]. eauto.
Qed.

Lemma run_op_discard t r :
  journal_ok t ->
  spec_step (abs t) (OpDiscard r) = Some (abs (DiscardSnapshot t r)) /\ journal_ok (DiscardSnapshot t r).
Proof.
  intros [Hb Hm]. unfold spec_step, DiscardSnapshot. cbn [abs saved cur]. rewrite length_map.
  destruct ((r <? 0) || (Z.of_nat (length (reverts t)) <=? r)) eqn:E; [done|].
  set (rs := take (Z.to_nat r) (reverts t)).
  assert (forall i x, rs !! i = Some x -> reverts t !! i = Some x) as Hrs.
  { intros i x Hx. by apply lookup_take_Some in Hx as [Hx _]. }
  destruct (Nat.eqb_spec (length rs) 0) as [Hz|Hnz].
  - apply nil_length_inv in Hz. split.
    + unfold abs. cbn. rewrite Hz. f_equal. f_equal. rewrite firstn_map. fold rs. by rewrite Hz.
    + rewrite Hz. constructor; cbn; [constructor | intros ? ? ? ? ? Hx; done].
  - split.
    + unfold abs. cbn. f_equal. f_equal. rewrite firstn_map. done.
    + constructor; cbn; [apply Forall_lookup_2; intros i x Hx; apply (Forall_lookup_1 _ _ _ _ Hb (Hrs _ _ Hx))|].
      intros i j x y Hij Hx Hy. eapply Hm; eauto.
Qed.

(** Every operation of the code is the operation of the specification. *)
Lemma run_op_refines t o :
  journal_ok t ->
  match run_op t o with
  | Some t' => spec_step (abs t) o = Some (abs t') /\ journal_ok t'
  | None => spec_step (abs t) o = None
  end.
Proof.
  intros Ht. destruct o as [seed addr acc|addr delta|addr delta|addr key val| |r|r|].
  - destruct (journalled_abs _ _ _ Ht (SetAccount_journalled seed t addr acc)) as [E ?]. cbn. by rewrite E.
  - cbn [run_op spec_step]. change (cur (abs t)) with (state_view t).
    destruct (AddBalance_cases t addr delta) as [[E N]|[N J]]; rewrite N; [by rewrite E|].
    destruct (journalled_abs _ _ _ Ht J) as [E ?]. by rewrite E.
  - cbn [run_op spec_step]. change (cur (abs t)) with (state_view t).
    destruct (SubBalance_cases t addr delta) as [[C E]|[C (t' & E & [[-> N]|[N J]])]]; rewrite C, E; [done| |];
      rewrite N; [done|]. destruct (journalled_abs _ _ _ Ht J) as [E' ?]. by rewrite E'.
  - destruct (journalled_abs _ _ _ Ht (SetStorage_journalled t addr key val)) as [E ?].
    cbn [run_op spec_step]. by rewrite E.
  - by apply run_op_snapshot.
  - by apply run_op_revert.
  - by apply run_op_discard.
  - cbn. split; [done|]. constructor; cbn; [constructor | done].
Qed.

Fixpoint run_ops (t : StateTrie) (os : list op) : option StateTrie :=
  match os with
  | [] => Some t
  | o :: os => t' ← run_op t o; run_ops t' os
  end.

(** Operations that do not touch the snapshot [id] or an earlier one. *)
Definition above (id : Z) (o : op) : Prop :=
  match o with
  | OpRevert r | OpDiscard r => id < r
  | OpCommit => False
  | _ => True
  end.

Lemma spec_step_above id s s' o :
  0 <= id < Z.of_nat (length (saved s)) -> above id o -> spec_step s o = Some s' ->
  take (S (Z.to_nat id)) (saved s') = take (S (Z.to_nat id)) (saved s) /\
  id < Z.of_nat (length (saved s')).
Proof.
  intros [Hid0 Hid] Ha E.
  destruct o as [seed addr acc|addr delta|addr delta|addr key val| |r|r|]; cbn in E, Ha.
  - by injection E as <-.
  - injection E as <-. by destruct (v_noop _ _ _).
  - injection E as <-. destruct (_ <? 0); [done|]. by destruct (v_noop _ _ _).
  - by injection E as <-.
  - injection E as <-. cbn. rewrite take_app_le by lia. rewrite length_app. split; [done|lia].
  - destruct (_ || _) eqn:B; [done|]. apply orb_false_iff in B as [B1 B2].
    apply Z.ltb_ge in B1. apply Z.leb_gt in B2. destruct (saved s !! _); [|done]. injection E as <-. cbn.
    rewrite take_take, length_take. split; [f_equal|]; lia.
  - injection E as <-. destruct (_ || _) eqn:B; [split; [done|lia]|]. apply orb_false_iff in B as [B1 B2].
    apply Z.ltb_ge in B1. apply Z.leb_gt in B2. cbn.
    rewrite take_take, length_take. split; [f_equal|]; lia.
  - done.
Qed.

Lemma run_ops_above id t os t' :
  journal_ok t -> 0 <= id < Z.of_nat (length (reverts t)) -> Forall (above id) os ->
  run_ops t os = Some t' ->
  journal_ok t' /\ id < Z.of_nat (length (reverts t')) /\
  take (S (Z.to_nat id)) (saved (abs t')) = take (S (Z.to_nat id)) (saved (abs t)).
Proof.
  intros Ht Hid Hos. revert t Ht Hid. induction Hos as [|o os Ho _ IH]; intros t Ht Hid E; cbn in E.
  { injection E as <-. split_and!; done || lia. }
  pose proof (run_op_refines t o Ht) as R. destruct (run_op t o) as [t1|]; [|done].
  destruct R as [R Ht1]. cbn in E.
  assert (forall x, length (saved (abs x)) = length (reverts x)) as L by (intros; apply length_map).
  destruct (spec_step_above id (abs t) (abs t1) o ltac:(rewrite L; done) Ho R) as [Hsv Hlt].
  rewrite L in Hlt. destruct (IH t1 Ht1 ltac:(lia) E) as (? & ? & ->). done.
Qed.

(** Taking a snapshot, running any operations that leave it alone (nested snapshots
    and reverts included) and reverting to it gives back the state, with the earlier
    snapshots. *)
Lemma snapshot_revert_post t os t2 :
  journal_ok t ->
  Forall (above (Snapshot t).2) os ->
  run_ops (Snapshot t).1 os = Some t2 ->
  exists t3, RevertToSnapshot t2 (Snapshot t).2 = Ok t3 /\ abs t3 = abs t /\ journal_ok t3.
Proof.
  intros Ht Hos E. destruct (run_op_snapshot t Ht) as [_ Ht1].
  set (id := (Snapshot t).2) in *. cbn in id.
  destruct (run_ops_above id _ _ _ Ht1 ltac:(cbn; rewrite length_app; cbn; lia) Hos E) as (Ht2 & Hlt & Htk).
  pose proof (run_op_revert t2 id Ht2) as R. unfold run_op in R.
  destruct (RevertToSnapshot t2 id) as [t3|e| |] eqn:Er.
  - exists t3. split; [done|]. destruct R as [R ?]. split; [|done].
    cbn in R. destruct (_ || _); [done|].
    destruct (map (undo_to t2) (reverts t2) !! Z.to_nat id) as [v|] eqn:Ev; [|done].
    cbn -[abs] in R. apply (f_equal (default (abs t))) in R. cbn -[abs] in R. rewrite <- R. clear R.
    cbn in Htk. rewrite map_app in Htk. cbn in Htk.
    unfold id in *. rewrite Nat2Z.id in *.
    assert (take (S (length (reverts t))) (map (undo_to t2) (reverts t2)) =
            map (undo_to (Snapshot t).1) (reverts t) ++ [undo_to (Snapshot t).1 (Z.of_nat (length (journal t)))]) as Hk.
    { rewrite Htk. rewrite take_ge; [done|]. rewrite length_app, length_map. cbn. lia. }
    unfold abs. f_equal.
    + assert (take (S (length (reverts t))) (map (undo_to t2) (reverts t2)) !! length (reverts t) = Some v) as Hv
        by (rewrite lookup_take_lt by lia; done).
      rewrite Hk in Hv. rewrite lookup_app_r in Hv by (rewrite length_map; lia).
      rewrite length_map, Nat.sub_diag in Hv. cbn in Hv. injection Hv as <-.
      unfold undo_to. cbn. by rewrite Nat2Z.id, drop_all.
    + transitivity (take (length (reverts t)) (take (S (length (reverts t))) (map (undo_to t2) (reverts t2)))).
      { rewrite take_take. f_equal. lia. }
      rewrite Hk. apply take_app_length'. by rewrite length_map.
  - unfold RevertToSnapshot in Er. by destruct (_ || _).
  - cbn in R. rewrite length_map in R.
    destruct (Z.ltb_spec id 0); [lia|]. destruct (Z.leb_spec (Z.of_nat (length (reverts t2))) id); [lia|].
    cbn in R. destruct (lookup_lt_is_Some_2 (map (undo_to t2) (reverts t2)) (Z.to_nat id)) as [v Hv];
      [rewrite length_map; lia|]. by rewrite Hv in R.
  - unfold RevertToSnapshot in Er. by destruct (_ || _).
Qed.
End ops.

(** ** Reads after writes *)

Lemma normalize_ok a : u256_ok a -> u256_ok (normalizeAddr a).
Proof.
  intros (H0 & H1 & H2 & H3). unfold normalizeAddr, u256_ok. cbn [w0 w1 w2 w3].
  refine (conj H0 (conj H1 (conj _ _))); [by apply land_u64_l | unfold is_u64; lia].
Qed.

(** Addresses are the low 160 bits of a word. *)
Lemma toZ_normalize a : u256_ok a -> toZ (normalizeAddr a) = toZ a mod 2 ^ 160.
Proof.
  intros (H0 & H1 & H2 & H3). unfold normalizeAddr, toZ, is_u64 in *. cbn [w0 w1 w2 w3].
  change 0x00000000ffffffff with (Z.ones 32). rewrite Z.land_ones by lia.
  change (2 ^ 32) with 4294967296.
  change (2 ^ 160) with (B64 * (B64 * 4294967296)).
  pose proof (Z.div_mod (w2 a) 4294967296 ltac:(lia)).
  pose proof (Z.mod_pos_bound (w2 a) 4294967296 ltac:(lia)).
  apply (Z.mod_unique_pos _ _ (w2 a / 4294967296 + 4294967296 * w3 a)); lia.
Qed.

Lemma normalize_idem a : u256_ok a -> normalizeAddr (normalizeAddr a) = normalizeAddr a.
Proof.
  intros Ha. pose proof (normalize_ok a Ha) as Hn. apply toZ_inj; [by apply normalize_ok|done|].
  rewrite !toZ_normalize by done. apply Z.mod_mod. lia.
Qed.

Lemma GetStorage_SetStorage t a k v a' k' :
  u256_ok v ->
  GetStorage (SetStorage t a k v) a' k' =
  if bool_decide (normalizeAddr a = normalizeAddr a' /\ k = k') then v else GetStorage t a' k'.
Proof.
  intros Hv. unfold GetStorage, SetStorage.
  case_bool_decide as E.
  - destruct E as [-> ->]. destruct (IsZero v) eqn:Z.
    + apply IsZero_zero in Z as ->; [|done]. cbn. by rewrite lookup_delete_eq.
    + cbn. by rewrite lookup_insert_eq.
  - assert (SKey (normalizeAddr a) k <> SKey (normalizeAddr a') k') as Hne.
    { intros Hk. apply E. split; [by apply (f_equal sk_addr) in Hk | by apply (f_equal sk_slot) in Hk]. }
    destruct (IsZero v); cbn; [by rewrite lookup_delete_ne | by rewrite lookup_insert_ne].
Qed.

Lemma GetBalance_view t a : GetBalance t a = v_balance (state_view t) a.
Proof. unfold GetBalance, v_balance. cbn. by destruct (accounts t !! _). Qed.

(** ** Balances *)

Record account_ok (acc : Account) : Prop := {
  ao_nonce : is_u64 (Nonce acc);
  ao_balance : u256_ok (Balance acc);
  ao_root : bytes_ok (StorageRoot acc) /\ length (StorageRoot acc) = 32%nat;
  ao_hash : bytes_ok (CodeHash acc) /\ length (CodeHash acc) = 32%nat;
  ao_code : bytes_ok (Code acc);
}.

(** Keys are normalised addresses; words are words; no zero is stored. *)
Record view_ok (v : view) : Prop := {
  vo_accounts a acc : v.1 !! a = Some acc -> u256_ok a /\ normalizeAddr a = a /\ account_ok acc;
  vo_storage k x : v.2 !! k = Some x ->
    u256_ok (sk_addr k) /\ normalizeAddr (sk_addr k) = sk_addr k /\ u256_ok (sk_slot k) /\
    u256_ok x /\ x <> zero256;
}.

Definition spec_ok (s : spec) : Prop := view_ok (cur s) /\ Forall view_ok (saved s).

(** The invariant of the state, snapshots included. *)
Definition state_ok (t : StateTrie) : Prop := journal_ok t /\ spec_ok (abs t).

Definition op_ok (o : op) : Prop :=
  match o with
  | OpSetAccount _ addr acc => u256_ok addr /\ from_option account_ok True acc
  | OpAddBalance addr delta | OpSubBalance addr delta => u256_ok addr /\ u256_ok delta
  | OpSetStorage addr key val => u256_ok addr /\ u256_ok key /\ u256_ok val
  | _ => True
  end.

Lemma newAccount_ok : account_ok newAccount.
Proof.
  constructor; cbn [newAccount Nonce Balance StorageRoot CodeHash Code].
  - unfold is_u64; lia.
  - apply zero256_ok.
  - split; [apply zeros_ok | done].
  - split; [apply Keccak256_ok | apply length_Keccak256].
  - constructor.
Qed.

Lemma v_balance_ok v a : view_ok v -> u256_ok (v_balance v a).
Proof.
  intros [Ha _]. unfold v_balance. destruct (v.1 !! _) eqn:E; cbn; [|apply zero256_ok].
  by apply Ha in E as (_ & _ & []).
Qed.

Lemma v_set_balance_ok v a b : view_ok v -> u256_ok a -> u256_ok b -> view_ok (v_set_balance v a b).
Proof.
  intros [Ha Hs] Hok Hb. constructor; [|exact Hs]. cbn. intros a' acc'.
  destruct (decide (normalizeAddr a = a')) as [<-|Hne].
  - rewrite lookup_insert_eq. intros [= <-]. split; [by apply normalize_ok|].
    split; [by apply normalize_idem|].
    assert (account_ok (default newAccount (v.1 !! normalizeAddr a))) as [].
    { destruct (v.1 !! normalizeAddr a) eqn:E; cbn; [by apply Ha in E as (_ & _ & ?) | apply newAccount_ok]. }
    by constructor.
  - rewrite lookup_insert_ne by done. apply Ha.
Qed.

Lemma v_set_storage_ok v a k x :
  view_ok v -> u256_ok a -> u256_ok k -> u256_ok x -> view_ok (v_set_storage v a k x).
Proof.
  intros [Ha Hs] Hok Hk Hx. constructor; [exact Ha|]. cbn. intros k' x'.
  destruct (IsZero x) eqn:Z.
  - intros E. apply lookup_delete_Some in E as [_ E]. by apply Hs.
  - destruct (decide (SKey (normalizeAddr a) k = k')) as [<-|Hne].
    + rewrite lookup_insert_eq. intros [= <-]. cbn. split; [by apply normalize_ok|].
      split; [by apply normalize_idem|]. split; [done|]. split; [done|].
      intros ->. by apply not_true_iff_false in Z.
    + rewrite lookup_insert_ne by done. apply Hs.
Qed.

Lemma v_set_account_ok v a acc :
  view_ok v -> u256_ok a -> from_option account_ok True acc -> view_ok (v_set_account v a acc).
Proof.
  intros [Ha Hs] Hok Hacc. unfold v_set_account. destruct acc as [acc|]; constructor; cbn; try exact Hs.
  - intros a' acc'. destruct (decide (normalizeAddr a = a')) as [<-|Hne].
    + rewrite lookup_insert_eq. intros [= <-]. split; [by apply normalize_ok|].
      split; [by apply normalize_idem | done].
    + rewrite lookup_insert_ne by done. apply Ha.
  - intros a' acc' E. apply lookup_delete_Some in E as [_ E]. by apply Ha.
  - intros k x E. apply map_lookup_filter_Some in E as [E _]. by apply Hs.
Qed.

Lemma spec_step_ok s o s' : spec_ok s -> op_ok o -> spec_step s o = Some s' -> spec_ok s'.
Proof.
  intros [Hc Hs] Ho E. destruct o as [seed addr acc|addr delta|addr delta|addr key val| |r|r|]; cbn in E, Ho.
  - injection E as <-. split; [apply v_set_account_ok; [done | apply Ho..] | done].
  - injection E as <-. destruct (v_noop _ _ _); [done|]. split; [|done].
    apply v_set_balance_ok; [done | apply Ho | apply Add256_spec; [by apply v_balance_ok | apply Ho]].
  - injection E as <-. destruct (_ <? 0); [done|]. destruct (v_noop _ _ _); [done|]. split; [|done].
    apply v_set_balance_ok; [done | apply Ho | apply Sub256_spec; [by apply v_balance_ok | apply Ho]].
  - injection E as <-. split; [apply v_set_storage_ok; [done | apply Ho..] | done].
  - injection E as <-. split; [done|]. apply Forall_app. split; [done|]. constructor; [done|constructor].
  - destruct (_ || _); [done|]. destruct (saved s !! _) eqn:Es; [|done]. injection E as <-.
    split; [by apply (Forall_lookup_1 _ _ _ _ Hs Es) | by apply Forall_take].
  - injection E as <-. destruct (_ || _); [done|]. split; [done | by apply Forall_take].
  - injection E as <-. split; [done | constructor].
Qed.

Lemma NewStateTrie_ok : state_ok NewStateTrie.
Proof.
  split; [constructor; cbn; [constructor | done]|]. split; [|constructor].
  constructor; cbn; intros ? ? E; by rewrite lookup_empty in E.
Qed.

Lemma run_op_ok range (range_perm : forall seed m, range seed m ≡ₚ map_to_list m) t o t' :
  state_ok t -> op_ok o -> run_op range t o = Some t' -> state_ok t'.
Proof.
  intros [Hj Hs] Ho E. pose proof (run_op_refines range range_perm t o Hj) as R. rewrite E in R.
  destruct R as [R Hj']. split; [done|]. by eapply spec_step_ok.
Qed.

(** *** Balances of single operations *)

Lemma AddBalance_post t a d a' :
  state_ok t -> u256_ok a -> u256_ok d ->
  toZ (GetBalance (AddBalance t a d) a') =
  if bool_decide (normalizeAddr a = normalizeAddr a')
  then (toZ (GetBalance t a) + toZ d) mod B256 else toZ (GetBalance t a').
Proof.
  intros [_ [Hv _]] Ha Hd. rewrite !GetBalance_view.
  change (cur (abs t)) with (state_view t) in Hv. pose proof (v_balance_ok _ a Hv) as Hb.
  destruct (AddBalance_cases t a d) as [[-> N]|[N (es & -> & _)]].
  - case_bool_decide as E; [|done]. unfold v_noop in N. apply andb_true_iff in N as [N1 N2].
    apply bool_decide_eq_true in N1. apply IsZero_zero in N2 as ->; [|done].
    unfold v_balance. rewrite <- E, N1. done.
  - unfold v_balance at 1. cbn. case_bool_decide as E.
    + rewrite <- E, lookup_insert_eq. cbn. by apply Add256_spec.
    + by rewrite lookup_insert_ne.
Qed.

(** A subtraction that the balance does not cover is refused; otherwise it is exact. *)
Lemma SubBalance_post t a d :
  state_ok t -> u256_ok a -> u256_ok d ->
  if toZ (GetBalance t a) <? toZ d then SubBalance t a d = Err ErrInsufficientBalance
  else exists t', SubBalance t a d = Ok t' /\
    forall a', toZ (GetBalance t' a') =
      if bool_decide (normalizeAddr a = normalizeAddr a')
      then toZ (GetBalance t a) - toZ d else toZ (GetBalance t a').
Proof.
  intros [_ [Hv _]] Ha Hd. rewrite (GetBalance_view t a).
  change (cur (abs t)) with (state_view t) in Hv. pose proof (v_balance_ok _ a Hv) as Hb. pose proof (Cmp_lt _ _ Hb Hd) as C.
  destruct (SubBalance_cases t a d) as [[C' E]|[C' (t' & E & H)]]; rewrite C' in C; rewrite <- C; [done|].
  exists t'. split; [done|]. intros a'. rewrite !GetBalance_view. symmetry in C. apply Z.ltb_ge in C.
  destruct H as [[-> N]|[N (es & -> & _)]].
  - case_bool_decide as Ea; [|done]. unfold v_noop in N. apply andb_true_iff in N as [N1 N2].
    apply bool_decide_eq_true in N1. apply IsZero_zero in N2 as ->; [|done].
    unfold v_balance. rewrite <- Ea, N1. done.
  - unfold v_balance at 1. cbn. case_bool_decide as Ea.
    + rewrite <- Ea, lookup_insert_eq. etransitivity; [apply (Sub256_spec _ _ Hb Hd)|].
      pose proof (toZ_range _ Hb). pose proof (toZ_range _ Hd). apply Z.mod_small. lia.
    + by rewrite lookup_insert_ne.
Qed.

(** ** The state as a [StateAccessor] *)

#[export] Program Instance StateTrie_laws : StateAccessorLaws StateTrie := {| sa_inv := state_ok |}.
Next Obligation.
  intros s addr key [_ [[_ Hs] _]] Ha Hk. cbn. unfold GetStorage.
  destruct (storage s !! _) as [x|] eqn:E; cbn; [|apply zero256_ok]. by apply Hs in E as (_ & _ & _ & ? & _).
Qed.
Next Obligation.
  intros s addr key v [Hj Hv] Ha Hk Hx. cbn.
  destruct (journalled_abs _ _ _ Hj (SetStorage_journalled s addr key v)) as [E ?]. split; [done|].
  rewrite E. split; [by apply v_set_storage_ok; [apply Hv|..] | apply Hv].
Qed.
