(* ===== verification/Trie.v ===== *)
(** * The Merkle Patricia trie: [pkg/statetrie/arena.go] and the node encoding of
    [pkg/statetrie/state_trie.go]

    Nodes are an inductive type; the arena counts the nodes allocated and panics
    when its capacity is exhausted. The byte area of the arena only hands out
    slices that are never written again, so nibbles and values are modelled by
    value. *)

From S2P Require Import Prelude Uint256 Keccak Mpt StateTrie.

(** ** Nodes *)

#[local] Set Warnings "-register-all".

Inductive mptNode :=
  | mptLeaf (nibbles value : bytes)
  | mptExt (nibbles : bytes) (child : mptNode)
  | mptBranch (children : list (option mptNode)) (value : bytes).

(** Induction through the list of children. *)
Section mptNode_ind.
  Context (P : mptNode -> Prop).
  Context (P_leaf : forall nib v, P (mptLeaf nib v)).
  Context (P_ext : forall nib c, P c -> P (mptExt nib c)).
  Context (P_branch : forall ch v, (forall i c, ch !! i = Some (Some c) -> P c) -> P (mptBranch ch v)).

Fixpoint mptNode_ind' (n : mptNode) : P n.
Proof.
  destruct n as [nib v|nib c|ch v].
  - apply P_leaf.
  - apply P_ext, mptNode_ind'.
  - apply P_branch. induction ch as [|[c|] ch IH]; intros [|i] c' E; try discriminate E; cbn in E.
    + injection E as <-. apply mptNode_ind'.
    + exact (IH i c' E).
    + exact (IH i c' E).
Defined.
End mptNode_ind.

(** ** The arena *)

Record mptArena := Arena { node_cap : Z; nodeCount : Z }.

Definition arenaM (A : Type) : Type := mptArena -> outcome Empty_set (A * mptArena).

#[export] Instance arenaM_ret : MRet arenaM := fun A x a => Ok (x, a).
#[export] Instance arenaM_bind : MBind arenaM := fun A B f m a =>
  match m a with
  | Ok (x, a') => f x a'
  | Err e => Err e
  | Panic => Panic
  | OutOfFuel => OutOfFuel
  end.

Definition ensureNodes (a : mptArena) (n : Z) : mptArena := Arena (Z.max (node_cap a) n) (nodeCount a).
Definition reset (a : mptArena) : mptArena := Arena (node_cap a) 0.

(** The node returned is blank; its fields are written by the caller. *)
Definition allocNode : arenaM unit := fun a =>
  if node_cap a <=? nodeCount a then Panic else Ok (tt, Arena (node_cap a) (nodeCount a + 1)).

(** [br.children[i] = c], and the index check of the array. *)
Definition set_child (ch : list (option mptNode)) (i : Z) (c : mptNode) : arenaM (list (option mptNode)) :=
  fun a => if (0 <=? i) && (i <? 16) then Ok (<[Z.to_nat i := Some c]> ch, a) else Panic.

Definition newLeaf (key value : bytes) : arenaM mptNode := _ ← allocNode; mret (mptLeaf key value).
Definition newExt (key : bytes) (child : mptNode) : arenaM mptNode := _ ← allocNode; mret (mptExt key child).

(** ** Insertion *)

Fixpoint commonPrefix (a b : bytes) : nat :=
  match a, b with
  | x :: a, y :: b => if x =? y then S (commonPrefix a b) else 0%nat
  | _, _ => 0%nat
  end.

Definition splitToBranch (oldRest oldVal : bytes) (oldNode : option mptNode) (newRest newVal : bytes) :
  arenaM mptNode :=
  _ ← allocNode;
  let ch := replicate 16 None in
  '(ch, val) ← match oldRest with
               | [] => mret (ch, oldVal)
               | o :: rest =>
                   n ← match oldNode with Some n => mret n | None => newLeaf rest oldVal end;
                   ch ← set_child ch o n;
                   mret (ch, [])
               end;
  match newRest with
  | [] => mret (mptBranch ch newVal)
  | k :: rest =>
      n ← newLeaf rest newVal;
      ch ← set_child ch k n;
      mret (mptBranch ch val)
  end.

Definition insertLeaf (nibbles oldVal key value : bytes) : arenaM mptNode :=
  if bool_decide (nibbles = key) then mret (mptLeaf nibbles value)
  else
    let cp := commonPrefix nibbles key in
    br ← splitToBranch (drop cp nibbles) oldVal None (drop cp key) value;
    if (0 <? cp)%nat then newExt (take cp nibbles) br else mret br.

(** The part of [insertExt] where the key leaves the extension's path. *)
Definition insertExt_split (nibbles : bytes) (oldChild : mptNode) (key value : bytes) : arenaM mptNode :=
  let cp := commonPrefix nibbles key in
  let oldRest := drop cp nibbles in
  oldNode ← (if (length oldRest =? 1)%nat then mret oldChild else newExt (drop 1 oldRest) oldChild);
  br ← splitToBranch oldRest [] (Some oldNode) (drop cp key) value;
  if (0 <? cp)%nat then newExt (take cp nibbles) br else mret br.

(** [f] applied to the child at index [i]. *)
Definition update_child (f : option mptNode -> arenaM mptNode) :=
  fix go (ch : list (option mptNode)) (i : nat) : arenaM (list (option mptNode)) :=
    match ch, i with
    | [], _ => fun _ => Panic
    | c :: ch, O => c ← f c; mret (Some c :: ch)
    | c :: ch, S i => ch ← go ch i; mret (c :: ch)
    end.

Fixpoint insertNode (n : mptNode) (key value : bytes) {struct n} : arenaM mptNode :=
  match n with
  | mptLeaf nibbles oldVal => insertLeaf nibbles oldVal key value
  | mptExt nibbles child =>
      let cp := commonPrefix nibbles key in
      if (cp =? length nibbles)%nat then
        c ← insertNode child (drop cp key) value; mret (mptExt nibbles c)
      else insertExt_split nibbles child key value
  | mptBranch children v =>
      match key with
      | [] => mret (mptBranch children value)
      | k :: rest =>
          ch ← update_child (fun c => match c with
                                      | None => newLeaf rest value
                                      | Some c => insertNode c rest value
                                      end) children (Z.to_nat k);
          mret (mptBranch ch v)
      end
  end.

(** [insertNode] on a possibly nil root. *)
Definition insertRoot (n : option mptNode) (key value : bytes) : arenaM mptNode :=
  match n with None => newLeaf key value | Some n => insertNode n key value end.

(** ** Encoding *)

Fixpoint encodeNode (n : mptNode) : bytes :=
  match n with
  | mptLeaf nibbles value => MptEncodeLeaf nibbles value
  | mptExt nibbles child => MptEncodeExtension nibbles (encodeNode child)
  | mptBranch children value =>
      MptEncodeBranch (map (fun c => match c with Some c => Some (encodeNode c) | None => None end) children) value
  end.

Definition hashRoot (n : option mptNode) : bytes :=
  match n with None => emptyRoot | Some n => Keccak256 (encodeNode n) end.

Definition hashToNibbles (h : bytes) : bytes :=
  concat (map (fun b => [Z.shiftr b 4; Z.land b 0x0f]) h).

Definition addrKey (addr : Uint256) : bytes :=
  hashToNibbles (Keccak256 (slice (BytesBE (normalizeAddr addr)) 12 32)).

(** ** Reading a trie: the reference the insertion is specified against *)

(** [d] where there is no child. *)
Definition with_child {A} (f : mptNode -> A) (d : A) :=
  fix go (ch : list (option mptNode)) (i : nat) : A :=
    match ch, i with
    | [], _ => d
    | Some c :: _, O => f c
    | None :: _, O => d
    | _ :: ch, S i => go ch i
    end.

Fixpoint strip (p key : bytes) : option bytes :=
  match p, key with
  | [], _ => Some key
  | x :: p, y :: key => if x =? y then strip p key else None
  | _ :: _, [] => None
  end.

Fixpoint tget (n : mptNode) (key : bytes) : option bytes :=
  match n with
  | mptLeaf nibbles v => if bool_decide (nibbles = key) then Some v else None
  | mptExt nibbles c =>
      match strip nibbles key with Some rest => tget c rest | None => None end
  | mptBranch ch v =>
      match key with
      | [] => match v with [] => None | _ => Some v end
      | k :: rest => with_child (fun c => tget c rest) None ch (Z.to_nat k)
      end
  end.
