(* ===== verification/TrieSpec.v ===== *)
(** * The trie is a map, and it is canonical: theorems on [insertNode]

    [wf] is the shape of the tries the code builds; insertion preserves it,
    updates [tget] at the inserted key and only there, and allocates at most four
    nodes. Two well-formed tries with the same contents are equal, so the root
    does not depend on the order of the insertions. *)

From S2P Require Import Prelude Uint256 Keccak Mpt StateTrie Trie.

(** ** Shape *)

Definition nibble (b : Z) : Prop := 0 <= b < 16.
Definition nibs (l : bytes) : Prop := Forall nibble l.

Definition is_branch (n : mptNode) : Prop := match n with mptBranch _ _ => True | _ => False end.

(** Number of non-nil children. *)
Definition occupied (ch : list (option mptNode)) : nat := length (filter is_Some ch).

Inductive wf : mptNode -> Prop :=
  | wf_leaf nib v : nibs nib -> v <> [] -> wf (mptLeaf nib v)
  | wf_ext nib c : nibs nib -> nib <> [] -> is_branch c -> wf c -> wf (mptExt nib c)
  | wf_branch ch v :
      length ch = 16%nat ->
      (forall i c, ch !! i = Some (Some c) -> wf c) ->
      (2 <= occupied ch + (if bool_decide (v = []) then 0 else 1))%nat ->
      wf (mptBranch ch v).

(** ** Children *)

Lemma with_child_lookup {A} (f : mptNode -> A) d ch i :
  with_child f d ch i = match ch !! i with Some (Some c) => f c | _ => d end.
Proof.
  revert i. induction ch as [|c ch IH]; intros [|i]; cbn; try done; destruct c; try done; apply IH.
Qed.

Lemma occupied_insert_Some ch i c :
  (i < length ch)%nat ->
  occupied (<[i := Some c]> ch) =
  (occupied ch + (if bool_decide (is_Some (ch !!! i)) then 0 else 1))%nat.
Proof.
  revert i. induction ch as [|o ch IH]; intros [|i] Hi; cbn in Hi; try lia.
  - change (<[0%nat := Some c]> (o :: ch)) with (Some c :: ch). change ((o :: ch) !!! 0%nat) with o.
    unfold occupied. rewrite !filter_cons. rewrite decide_True by eauto. cbn [length].
    destruct o.
    + rewrite decide_True by eauto. rewrite bool_decide_eq_true_2 by eauto. cbn [length]. lia.
    + rewrite decide_False by (intros [? ?]; done).
      rewrite bool_decide_eq_false_2 by (intros [? ?]; done). lia.
  - change (<[S i := Some c]> (o :: ch)) with (o :: <[i := Some c]> ch).
    change ((o :: ch) !!! S i) with (ch !!! i). specialize (IH i ltac:(lia)).
    unfold occupied in *. rewrite !filter_cons. destruct (decide (is_Some o)); cbn [length]; lia.
Qed.

(** ** Prefixes *)

Lemma commonPrefix_le_l a b : (commonPrefix a b <= length a)%nat.
Proof. revert b; induction a as [|x a IH]; intros [|y b]; cbn; try lia. destruct (x =? y); [|lia]. specialize (IH b). lia. Qed.

Lemma commonPrefix_le_r a b : (commonPrefix a b <= length b)%nat.
Proof. revert b; induction a as [|x a IH]; intros [|y b]; cbn; try lia. destruct (x =? y); [|lia]. specialize (IH b). lia. Qed.

Lemma commonPrefix_take a b : take (commonPrefix a b) a = take (commonPrefix a b) b.
Proof.
  revert b; induction a as [|x a IH]; intros [|y b]; cbn; try done.
  destruct (Z.eqb_spec x y) as [->|]; [|done]. cbn. by rewrite IH.
Qed.

(** After the common prefix the two rests differ at once. *)
Definition diverge (a b : bytes) : Prop :=
  match a, b with
  | [], [] => False
  | x :: _, y :: _ => x <> y
  | _, _ => True
  end.

Lemma commonPrefix_diverge a b :
  a <> b -> diverge (drop (commonPrefix a b) a) (drop (commonPrefix a b) b).
Proof.
  revert b; induction a as [|x a IH]; intros [|y b] Hne; cbn; try done.
  destruct (Z.eqb_spec x y) as [->|]; [|done]. cbn. apply IH. intros ->. done.
Qed.

Lemma strip_Some p k r : strip p k = Some r <-> k = p ++ r.
Proof.
  revert k; induction p as [|x p IH]; intros k; cbn; [split; [by intros [= ->] | by intros ->]|].
  destruct k as [|y k]; [split; done|].
  destruct (Z.eqb_spec x y) as [->|Hne]; [rewrite IH; split; [by intros -> | by intros [= ->]]|].
  split; [done|]. intros [= ? ?]. done.
Qed.

Lemma strip_app p r : strip p (p ++ r) = Some r.
Proof. by apply strip_Some. Qed.

Lemma strip_app_common p q r : strip (p ++ q) (p ++ r) = strip q r.
Proof. induction p as [|x p IH]; cbn; [done|]. by rewrite Z.eqb_refl. Qed.

Lemma strip_app_l p q k :
  strip (p ++ q) k = match strip p k with Some r => strip q r | None => None end.
Proof.
  revert k; induction p as [|x p IH]; intros k; cbn; [done|]. destruct k as [|y k]; [done|].
  destruct (x =? y); [apply IH | done].
Qed.

Lemma strip_self p : strip p p = Some [].
Proof. apply strip_Some. by rewrite app_nil_r. Qed.

(** ** One insertion *)

(** What an insertion into [n] at [key] returns: a well-formed trie with [value] at
    [key] and the old contents [old] elsewhere, after at most [budget] allocations. *)
Definition inserted (budget : Z) (old : bytes -> option bytes) (key value : bytes) (a : mptArena)
  (r : outcome Empty_set (mptNode * mptArena)) (Q : mptNode -> Prop) : Prop :=
  exists n a', r = Ok (n, a') /\ node_cap a' = node_cap a /\
    nodeCount a <= nodeCount a' <= nodeCount a + budget /\
    wf n /\ Q n /\
    forall k, nibs k -> tget n k = if bool_decide (k = key) then Some value else old k.

Lemma allocNode_ok a :
  nodeCount a < node_cap a -> allocNode a = Ok (tt, Arena (node_cap a) (nodeCount a + 1)).
Proof. intros. unfold allocNode. destruct (Z.leb_spec (node_cap a) (nodeCount a)); [lia|done]. Qed.

Lemma set_child_ok ch i c a : nibble i -> set_child ch i c a = Ok (<[Z.to_nat i := Some c]> ch, a).
Proof.
  unfold nibble, set_child. intros. destruct (Z.leb_spec 0 i), (Z.ltb_spec i 16); try lia. done.
Qed.

Lemma newLeaf_ok key value a :
  nodeCount a < node_cap a ->
  newLeaf key value a = Ok (mptLeaf key value, Arena (node_cap a) (nodeCount a + 1)).
Proof. intros. unfold newLeaf, mbind, arenaM_bind. by rewrite allocNode_ok. Qed.

Lemma newExt_ok key c a :
  nodeCount a < node_cap a ->
  newExt key c a = Ok (mptExt key c, Arena (node_cap a) (nodeCount a + 1)).
Proof. intros. unfold newExt, mbind, arenaM_bind. by rewrite allocNode_ok. Qed.

(** The node for the old contents below a split: [None] while it is a leaf to be built. *)
Definition old_node (o : option mptNode) (rest oldVal : bytes) : mptNode :=
  match o with Some n => n | None => mptLeaf rest oldVal end.

(** The branch [splitToBranch] builds, and its cost. *)
Definition split_children (oldRest oldVal : bytes) (oldNode : option mptNode) (newRest newVal : bytes) :
  list (option mptNode) :=
  let ch := match oldRest with
            | [] => replicate 16 None
            | o :: rest => <[Z.to_nat o := Some (old_node oldNode rest oldVal)]> (replicate 16 None)
            end in
  match newRest with
  | [] => ch
  | k :: rest => <[Z.to_nat k := Some (mptLeaf rest newVal)]> ch
  end.
Definition split_value (oldRest oldVal newRest newVal : bytes) : bytes :=
  match newRest with
  | [] => newVal
  | _ => match oldRest with [] => oldVal | _ => [] end
  end.

Definition split_cost (oldNode : option mptNode) : Z := match oldNode with Some _ => 2 | None => 3 end.

Lemma splitToBranch_ok oldRest oldVal oldNode newRest newVal a :
  nibs oldRest -> nibs newRest ->
  nodeCount a + split_cost oldNode <= node_cap a ->
  exists a', splitToBranch oldRest oldVal oldNode newRest newVal a =
    Ok (mptBranch (split_children oldRest oldVal oldNode newRest newVal)
                  (split_value oldRest oldVal newRest newVal), a') /\
    node_cap a' = node_cap a /\
    nodeCount a < nodeCount a' <= nodeCount a + split_cost oldNode.
Proof.
  intros Ho Hn Hcap. unfold splitToBranch, mbind, arenaM_bind.
  unfold split_cost in *. assert (nodeCount a + 2 <= node_cap a) by (destruct oldNode; lia).
  rewrite allocNode_ok by lia. cbn [mret arenaM_ret].
  destruct oldRest as [|o orest]; cbn [split_children split_value mret arenaM_ret].
  - destruct newRest as [|k rest]; cbn.
    + eexists. split; [done|]. cbn. destruct oldNode; lia.
    + apply Forall_cons_iff in Hn as [Hk _].
      rewrite newLeaf_ok by (cbn; lia). rewrite set_child_ok by done. cbn.
      eexists. split; [done|]. cbn. destruct oldNode; lia.
  - apply Forall_cons_iff in Ho as [Ho _]. destruct oldNode as [on|]; cbn [mret arenaM_ret old_node].
    + rewrite set_child_ok by done. destruct newRest as [|k rest]; cbn.
      * eexists. split; [done|]. cbn. lia.
      * apply Forall_cons_iff in Hn as [Hk _].
        rewrite newLeaf_ok by (cbn; lia). rewrite set_child_ok by done. cbn.
        eexists. split; [done|]. cbn. lia.
    + rewrite newLeaf_ok by (cbn; lia). rewrite set_child_ok by done. destruct newRest as [|k rest]; cbn.
      * eexists. split; [done|]. cbn. lia.
      * apply Forall_cons_iff in Hn as [Hk _].
        rewrite newLeaf_ok by (cbn; lia). rewrite set_child_ok by done. cbn.
        eexists. split; [done|]. cbn. lia.
Qed.

(** *** The new branch *)

Lemma tget_branch ch v x k :
  tget (mptBranch ch v) (x :: k) =
  match ch !! Z.to_nat x with Some (Some c) => tget c k | _ => None end.
Proof. cbn. apply with_child_lookup. Qed.

Lemma tget_branch_nil ch v : tget (mptBranch ch v) [] = if bool_decide (v = []) then None else Some v.
Proof. by destruct v. Qed.

(** Contents below the split before the insertion. *)
Definition old_content (oldRest oldVal : bytes) (oldNode : option mptNode) (k : bytes) : option bytes :=
  match oldRest with
  | [] => if bool_decide (k = []) then Some oldVal else None
  | o :: rest =>
      match k with
      | x :: k => if x =? o then tget (old_node oldNode rest oldVal) k else None
      | [] => None
      end
  end.

Lemma nibble_eq x y : nibble x -> nibble y -> Z.to_nat x = Z.to_nat y -> x = y.
Proof. unfold nibble. lia. Qed.

Lemma replicate_None_lookup n i : replicate n (@None mptNode) !! i = Some None \/ replicate n (@None mptNode) !! i = None.
Proof. destruct (replicate n None !! i) eqn:E; [|by right]. apply lookup_replicate in E as [-> _]. by left. Qed.

Lemma tget_insert_child ch v i c x k :
  nibble i -> nibble x -> length ch = 16%nat ->
  tget (mptBranch (<[Z.to_nat i := Some c]> ch) v) (x :: k) =
  if x =? i then tget c k else tget (mptBranch ch v) (x :: k).
Proof.
  intros Hi Hx Hl. rewrite !tget_branch. destruct (Z.eqb_spec x i) as [->|Hne].
  - rewrite list_lookup_insert_eq by (unfold nibble in *; lia). done.
  - rewrite list_lookup_insert_ne by (intros E; apply Hne; symmetry; by apply nibble_eq). done.
Qed.

Lemma tget_empty_branch v x k : tget (mptBranch (replicate 16 None) v) (x :: k) = None.
Proof. rewrite tget_branch. by destruct (replicate_None_lookup 16 (Z.to_nat x)) as [-> | ->]. Qed.

Lemma occupied_replicate n : occupied (replicate n None) = 0%nat.
Proof. induction n; [done|]. exact IHn. Qed.

(** The children of a set of writes into an empty branch are the nodes written. *)
Lemma insert_child_wf ch i c :
  nibble i -> length ch = 16%nat -> wf c ->
  (forall j c', ch !! j = Some (Some c') -> wf c') ->
  forall j c', <[Z.to_nat i := Some c]> ch !! j = Some (Some c') -> wf c'.
Proof.
  intros Hi Hl Hc Hch j c'. rewrite list_lookup_insert. case_decide; [by intros [= <-]|]. apply Hch.
Qed.

Lemma empty_children_wf j c : replicate 16 None !! j = Some (Some c) -> wf c.
Proof. intros E. by apply lookup_replicate in E as [? _]. Qed.

Ltac nib := unfold nibble in *; lia.

Lemma split_branch_spec oldRest oldVal oldNode newRest newVal :
  nibs oldRest -> nibs newRest -> diverge oldRest newRest -> newVal <> [] ->
  (forall o rest, oldRest = o :: rest -> wf (old_node oldNode rest oldVal)) ->
  (oldRest = [] -> oldVal <> []) ->
  let br := mptBranch (split_children oldRest oldVal oldNode newRest newVal)
                      (split_value oldRest oldVal newRest newVal) in
  wf br /\
  forall k, nibs k ->
    tget br k = if bool_decide (k = newRest) then Some newVal else old_content oldRest oldVal oldNode k.
Proof.
  intros Ho Hn Hd Hv Hwf Hov br. unfold br, split_children, split_value, old_content.
  destruct oldRest as [|o orest], newRest as [|x xrest]; [done| | |].
  - apply Forall_cons_iff in Hn as [Hx Hxr]. specialize (Hov eq_refl). split.
    + constructor; [by rewrite length_insert| |].
      * apply insert_child_wf; [done..| |apply empty_children_wf]. by constructor.
      * rewrite occupied_insert_Some by (rewrite length_replicate; nib). rewrite occupied_replicate.
        rewrite lookup_total_replicate_2 by nib. rewrite bool_decide_eq_false_2 by (intros [? ?]; done).
        rewrite bool_decide_eq_false_2 by done. lia.
    + intros [|y k] Hk.
      * rewrite tget_branch_nil. rewrite !bool_decide_eq_false_2 by done. by rewrite bool_decide_eq_true_2.
      * apply Forall_cons_iff in Hk as [Hy Hk]. rewrite tget_insert_child, tget_empty_branch by done.
        rewrite (bool_decide_eq_false_2 (y :: k = [])) by done.
        destruct (Z.eqb_spec y x) as [->|Hne].
        -- cbn. destruct (bool_decide_reflect (xrest = k)) as [->|E].
           ++ by rewrite bool_decide_eq_true_2.
           ++ rewrite bool_decide_eq_false_2; [done|]. by intros [= ->].
        -- rewrite bool_decide_eq_false_2; [done|]. by intros [= -> _].
  - apply Forall_cons_iff in Ho as [Ho Hor]. specialize (Hwf o orest eq_refl). split.
    + constructor; [by rewrite length_insert| |].
      * apply insert_child_wf; [done..|apply empty_children_wf].
      * rewrite occupied_insert_Some by (rewrite length_replicate; nib). rewrite occupied_replicate.
        rewrite lookup_total_replicate_2 by nib. rewrite bool_decide_eq_false_2 by (intros [? ?]; done).
        rewrite bool_decide_eq_false_2 by done. lia.
    + intros [|y k] Hk.
      * rewrite tget_branch_nil. rewrite bool_decide_eq_false_2 by done. by rewrite bool_decide_eq_true_2.
      * apply Forall_cons_iff in Hk as [Hy Hk]. rewrite tget_insert_child, tget_empty_branch by done.
        by rewrite bool_decide_eq_false_2.
  - apply Forall_cons_iff in Ho as [Ho Hor]. apply Forall_cons_iff in Hn as [Hx Hxr].
    specialize (Hwf o orest eq_refl). cbn in Hd. split.
    + constructor; [by rewrite !length_insert| |].
      * apply insert_child_wf; [done|by rewrite length_insert|by constructor|].
        apply insert_child_wf; [done..|apply empty_children_wf].
      * rewrite occupied_insert_Some by (rewrite length_insert, length_replicate; nib).
        rewrite list_lookup_total_insert_ne by (intros E; apply Hd; by apply nibble_eq).
        rewrite occupied_insert_Some by (rewrite length_replicate; nib). rewrite occupied_replicate.
        rewrite !lookup_total_replicate_2 by nib.
        rewrite !bool_decide_eq_false_2 by (intros [? ?]; done). lia.
    + intros [|y k] Hk.
      * rewrite tget_branch_nil. rewrite bool_decide_eq_true_2 by done. by rewrite bool_decide_eq_false_2.
      * apply Forall_cons_iff in Hk as [Hy Hk]. rewrite !tget_insert_child, tget_empty_branch by
          (rewrite ?length_insert; done).
        destruct (Z.eqb_spec y x) as [->|Hne].
        -- cbn. destruct (Z.eqb_spec x o); [congruence|].
           destruct (bool_decide_reflect (xrest = k)) as [->|E].
           ++ by rewrite bool_decide_eq_true_2.
           ++ rewrite bool_decide_eq_false_2; [done|]. by intros [= ->].
        -- rewrite bool_decide_eq_false_2; [done|]. by intros [= -> _].
Qed.

(** *** Splitting a leaf or an extension *)

Lemma nibs_take n l : nibs l -> nibs (take n l).
Proof. apply Forall_take. Qed.
Lemma nibs_drop n l : nibs l -> nibs (drop n l).
Proof. apply Forall_drop. Qed.
Lemma nibs_app l1 l2 : nibs (l1 ++ l2) -> nibs l1 /\ nibs l2.
Proof. apply Forall_app. Qed.

(** The part common to [insertLeaf] and [insertExt]: split, then put the common
    prefix back as an extension. *)
Definition split_wrap (nib oldVal : bytes) (oldNode : option mptNode) (key value : bytes) : arenaM mptNode :=
  let cp := commonPrefix nib key in
  br ← splitToBranch (drop cp nib) oldVal oldNode (drop cp key) value;
  if (0 <? cp)%nat then newExt (take cp nib) br else mret br.

Lemma split_wrap_spec nib oldVal oldNode key value old a :
  let p := take (commonPrefix nib key) nib in
  let oldRest := drop (commonPrefix nib key) nib in
  nibs nib -> nibs key -> nib <> key -> value <> [] ->
  (forall o rest, oldRest = o :: rest -> wf (old_node oldNode rest oldVal)) ->
  (oldRest = [] -> oldVal <> []) ->
  (forall k, nibs k ->
     old k = match strip p k with Some r => old_content oldRest oldVal oldNode r | None => None end) ->
  nodeCount a + split_cost oldNode + 1 <= node_cap a ->
  inserted (split_cost oldNode + 1) old key value a (split_wrap nib oldVal oldNode key value a) (fun _ => True).
Proof.
  intros p oldRest Hnib Hkey Hne Hv Hwf Hov Hold Hcap. unfold split_wrap.
  set (cp := commonPrefix nib key) in *. cbn zeta.
  pose proof (nibs_drop cp _ Hnib) as Hd1. pose proof (nibs_drop cp _ Hkey) as Hd2.
  destruct (splitToBranch_ok (drop cp nib) oldVal oldNode (drop cp key) value a Hd1 Hd2 ltac:(lia))
    as (a1 & E & Ecap & Hcnt).
  unfold mbind, arenaM_bind. rewrite E. clear E.
  destruct (split_branch_spec (drop cp nib) oldVal oldNode (drop cp key) value Hd1 Hd2
              (commonPrefix_diverge _ _ Hne) Hv Hwf Hov) as [Wbr Gbr].
  set (br := mptBranch _ _) in *.
  assert (key = p ++ drop cp key) as Ekey.
  { unfold p, cp. by rewrite commonPrefix_take, take_drop. }
  assert (forall k, nibs k ->
    (match strip p k with Some r => tget br r | None => None end) =
    if bool_decide (k = key) then Some value else old k) as G.
  { intros k Hk. rewrite (Hold k Hk). destruct (strip p k) as [r|] eqn:Es.
    - apply strip_Some in Es as ->. apply nibs_app in Hk as [_ Hr]. rewrite (Gbr r Hr).
      destruct (bool_decide_reflect (r = drop cp key)) as [->|Er].
      + by rewrite bool_decide_eq_true_2.
      + rewrite bool_decide_eq_false_2; [done|]. rewrite Ekey at 1. intros Ea. by apply app_inv_head in Ea.
    - rewrite bool_decide_eq_false_2; [done|]. intros ->. rewrite Ekey, strip_app in Es. done. }
  destruct (Nat.ltb_spec 0 cp).
  - rewrite newExt_ok by lia. eexists _, _. split; [done|]. cbn [node_cap nodeCount].
    split; [done|]. split; [lia|]. split; [|split; [done|exact G]].
    constructor; [by apply nibs_take | | done | done].
    pose proof (commonPrefix_le_l nib key) as Hcp. change (commonPrefix nib key) with cp in Hcp.
    intros Ep. apply (f_equal length) in Ep. rewrite length_take in Ep. cbn in Ep. lia.
  - assert (cp = 0%nat) as Ecp by lia. unfold p in G. rewrite Ecp in G. cbn [take strip] in G.
    eexists _, _. split; [done|]. split; [done|]. split; [lia|]. split; [done|]. split; [done|exact G].
Qed.

Lemma insertLeaf_spec nib oldVal key value a :
  wf (mptLeaf nib oldVal) -> nibs key -> value <> [] -> nodeCount a + 4 <= node_cap a ->
  inserted 4 (tget (mptLeaf nib oldVal)) key value a (insertLeaf nib oldVal key value a) (fun _ => True).
Proof.
  intros Hwf Hkey Hv Hcap. inversion Hwf as [? ? Hnib Hov| |]; subst. unfold insertLeaf.
  case_bool_decide as E.
  - subst key. eexists _, _. split; [done|]. split; [done|]. split; [lia|].
    split; [by constructor|]. split; [done|]. intros k Hk. cbn.
    destruct (bool_decide_reflect (nib = k)) as [->|]; [by rewrite bool_decide_eq_true_2|].
    by rewrite bool_decide_eq_false_2.
  - apply split_wrap_spec; try done.
    + intros o rest Er. constructor; [|done]. apply (nibs_drop (commonPrefix nib key)) in Hnib.
      rewrite Er in Hnib. by apply Forall_cons_iff in Hnib as [_ Hnib].
    + intros k Hk. rewrite <- (take_drop (commonPrefix nib key) nib) at 1.
      set (p := take _ nib). set (r0 := drop _ nib). cbn.
      destruct (strip p k) as [r|] eqn:Es.
      * apply strip_Some in Es as ->. destruct r0 as [|o rest]; cbn.
        -- rewrite app_nil_r. destruct r as [|y r]; cbn.
           ++ rewrite app_nil_r. by rewrite !bool_decide_eq_true_2.
           ++ rewrite !bool_decide_eq_false_2; [done..|]. intros Ep.
              apply (f_equal length) in Ep. rewrite length_app in Ep. cbn in Ep. lia.
        -- destruct r as [|y r].
           ++ rewrite bool_decide_eq_false_2; [done|]. intros Ep.
              apply (f_equal length) in Ep. rewrite !length_app in Ep. cbn in Ep. lia.
           ++ destruct (Z.eqb_spec y o) as [->|Hyo].
              ** destruct (bool_decide_reflect (rest = r)) as [->|Hr].
                 --- by rewrite bool_decide_eq_true_2.
                 --- rewrite bool_decide_eq_false_2; [done|]. intros Ep. apply app_inv_head in Ep. congruence.
              ** rewrite bool_decide_eq_false_2; [done|]. intros Ep. apply app_inv_head in Ep. congruence.
      * rewrite bool_decide_eq_false_2; [done|]. intros <-. by rewrite strip_app in Es.
    + cbn [split_cost]. lia.
Qed.

Lemma insertExt_split_spec nib c key value a :
  wf (mptExt nib c) -> nibs key -> value <> [] -> commonPrefix nib key <> length nib ->
  nodeCount a + 4 <= node_cap a ->
  inserted 4 (tget (mptExt nib c)) key value a (insertExt_split nib c key value a) (fun _ => True).
Proof.
  intros Hwf Hkey Hv Hcp Hcap. inversion Hwf as [|? ? Hnib Hne Hb Hc|]; subst.
  set (cp := commonPrefix nib key) in *.
  pose proof (commonPrefix_le_l nib key) as Hle. fold cp in Hle.
  destruct (drop cp nib) as [|o rest] eqn:Er.
  { apply (f_equal length) in Er. rewrite length_drop in Er. cbn in Er. lia. }
  assert (nibs (o :: rest)) as Hor by (rewrite <- Er; by apply nibs_drop).
  (* the node kept for the old contents, and the arena after building it *)
  assert (exists on a1, (if (length (o :: rest) =? 1)%nat then mret c else newExt (drop 1 (o :: rest)) c) a
                        = Ok (on, a1) /\ node_cap a1 = node_cap a /\
            nodeCount a <= nodeCount a1 <= nodeCount a + 1 /\ wf on /\
            forall k, tget on k = match strip rest k with Some r => tget c r | None => None end)
    as (on & a1 & E1 & Ecap & Hcnt & Won & Gon).
  { destruct rest as [|x rest]; cbn [length Nat.eqb drop].
    - eexists _, _. split; [done|]. split_and!; try done; lia.
    - rewrite newExt_ok by lia. eexists _, _. split; [done|]. cbn [node_cap nodeCount].
      split_and!; try done; try lia. constructor; try done. by apply Forall_cons_iff in Hor as [_ Hor]. }
  unfold insertExt_split. fold cp. rewrite Er. unfold mbind, arenaM_bind at 1. rewrite E1.
  pose proof (split_wrap_spec nib [] (Some on) key value (tget (mptExt nib c)) a1) as W.
  unfold split_wrap in W. cbn zeta in W. fold cp in W. rewrite Er in W.
  destruct W as (n & a' & E & Hcap' & Hcnt' & Hwf' & HQ & G); try done; cbn [split_cost] in *; try lia.
  - intros E. apply Hcp. unfold cp. rewrite E. clear. induction key as [|x l IH]; cbn; [done|].
    by rewrite Z.eqb_refl, IH.
  - intros k Hk. change (tget (mptExt nib c) k)
      with (match strip nib k with Some r => tget c r | None => None end).
    rewrite <- (take_drop cp nib) at 1. rewrite Er, strip_app_l.
    destruct (strip (take cp nib) k) as [[|y r]|]; [done| |done]. cbn [strip old_content].
    rewrite Z.eqb_sym. destruct (y =? o); [|done]. cbn [old_node]. by rewrite Gon.
  - exists n, a'. rewrite <- Hcap', Ecap in *. split; [exact E|]. split_and!; try done; lia.
Qed.

(** *** Descending *)

Lemma update_child_spec f ch i c c' a a' :
  ch !! i = Some c -> f c a = Ok (c', a') ->
  update_child f ch i a = Ok (<[i := Some c']> ch, a').
Proof.
  revert i. induction ch as [|o ch IH]; intros [|i] Hl Hf; try done; cbn in Hl |- *.
  - injection Hl as ->. unfold mbind, arenaM_bind. by rewrite Hf.
  - unfold mbind, arenaM_bind. by rewrite (IH i Hl Hf).
Qed.

Lemma occupied_insert_ge ch i c : (occupied ch <= occupied (<[i := Some c]> ch))%nat.
Proof.
  destruct (decide (i < length ch)%nat).
  - rewrite occupied_insert_Some by done. lia.
  - by rewrite list_insert_ge by lia.
Qed.

Lemma insertNode_spec n key value a :
  wf n -> nibs key -> value <> [] -> nodeCount a + 4 <= node_cap a ->
  inserted 4 (tget n) key value a (insertNode n key value a) (fun n' => is_branch n -> is_branch n').
Proof.
  revert key a. induction n as [nib v|nib c IH|ch v IH] using mptNode_ind'; intros key a Hwf Hkey Hv Hcap.
  - destruct (insertLeaf_spec nib v key value a Hwf Hkey Hv Hcap) as (n & a' & E & ? & ? & ? & _ & ?).
    exists n, a'. split_and!; try done; lia.
  - cbn [insertNode]. destruct (Nat.eqb_spec (commonPrefix nib key) (length nib)) as [Ecp|Ecp].
    2: { destruct (insertExt_split_spec nib c key value a) as (n & a' & E & ? & ? & ? & _ & ?); try done.
         exists n, a'. split_and!; try done; lia. }
    inversion Hwf as [|? ? Hnib Hne Hb Hc|]; subst.
    destruct (IH (drop (length nib) key) a) as (c' & a' & E & ? & ? & ? & Hb' & G);
      [done | by apply nibs_drop | done | done |].
    rewrite Ecp. unfold mbind, arenaM_bind. rewrite E. eexists _, a'. split; [done|].
    split_and!; try done; try lia; [by constructor; auto|]. intros k Hk. cbn [tget].
    assert (key = nib ++ drop (length nib) key) as Ekey.
    { rewrite <- (take_drop (length nib) key) at 1. f_equal.
      rewrite <- Ecp, <- commonPrefix_take, Ecp. by apply take_ge. }
    destruct (strip nib k) as [r|] eqn:Es.
    + apply strip_Some in Es as ->. apply nibs_app in Hk as [_ Hr]. rewrite (G r Hr).
      destruct (bool_decide_reflect (r = drop (length nib) key)) as [->|Er].
      * by rewrite bool_decide_eq_true_2.
      * rewrite bool_decide_eq_false_2; [done|]. rewrite Ekey at 1. intros Ea. by apply app_inv_head in Ea.
    + rewrite bool_decide_eq_false_2; [done|]. intros ->. by rewrite Ekey, strip_app in Es.
  - inversion Hwf as [| |? ? Hlen Hch Hocc]; subst. cbn [insertNode]. destruct key as [|x rest].
    { eexists _, a. split; [done|]. split_and!; try done; try lia.
      - constructor; try done. rewrite bool_decide_eq_false_2 by done. destruct (bool_decide (v = [])); lia.
      - intros [|y k] Hk.
        + rewrite !tget_branch_nil. rewrite bool_decide_eq_false_2 by done. by rewrite bool_decide_eq_true_2.
        + rewrite !tget_branch. by rewrite bool_decide_eq_false_2. }
    apply Forall_cons_iff in Hkey as [Hx Hrest].
    destruct (lookup_lt_is_Some_2 ch (Z.to_nat x) ltac:(nib)) as [oc Eoc].
    set (f := fun c : option mptNode => match c with None => newLeaf rest value | Some c => insertNode c rest value end).
    assert (exists c' a', f oc a = Ok (c', a') /\ node_cap a' = node_cap a /\
              nodeCount a <= nodeCount a' <= nodeCount a + 4 /\ wf c' /\
              forall k, nibs k -> tget c' k = if bool_decide (k = rest) then Some value
                else match oc with Some c => tget c k | None => None end)
      as (c' & a' & Ef & Ecap & Hcnt & Wc' & Gc').
    { destruct oc as [c|]; cbn [f].
      - destruct (IH (Z.to_nat x) c Eoc rest a) as (c' & a' & E & ? & ? & ? & _ & ?); try done; [by eapply Hch|].
        exists c', a'. done.
      - rewrite newLeaf_ok by lia. eexists _, _. split; [done|]. cbn [node_cap nodeCount].
        split_and!; try done; try lia; [by constructor|]. intros k _. cbn.
        destruct (bool_decide_reflect (rest = k)) as [->|]; [by rewrite bool_decide_eq_true_2|].
        by rewrite bool_decide_eq_false_2. }
    unfold mbind, arenaM_bind. rewrite (update_child_spec f ch (Z.to_nat x) oc c' a a' Eoc Ef).
    eexists _, a'. split; [done|]. split_and!; try done; try lia.
    + constructor; [by rewrite length_insert | by apply insert_child_wf |].
      pose proof (occupied_insert_ge ch (Z.to_nat x) c'). lia.
    + intros [|y k] Hk.
      * rewrite !tget_branch_nil. by rewrite (bool_decide_eq_false_2 ([] = x :: rest)).
      * apply Forall_cons_iff in Hk as [Hy Hk]. rewrite tget_insert_child by done.
        destruct (Z.eqb_spec y x) as [->|Hne].
        -- rewrite (Gc' k Hk), tget_branch, Eoc. destruct (bool_decide_reflect (k = rest)) as [->|Hkr].
           ++ by rewrite bool_decide_eq_true_2.
           ++ rewrite bool_decide_eq_false_2; [by destruct oc|]. congruence.
        -- by rewrite bool_decide_eq_false_2 by congruence.
Qed.

(** ** Canonicity *)

Lemma occupied_Some c ch : occupied (Some c :: ch) = S (occupied ch).
Proof. done. Qed.
Lemma occupied_None ch : occupied (None :: ch) = occupied ch.
Proof. done. Qed.

Lemma occupied_ge1 ch : (1 <= occupied ch)%nat -> exists i c, ch !! i = Some (Some c).
Proof.
  induction ch as [|[c|] ch IH]; rewrite ?occupied_Some, ?occupied_None; intros Ho.
  - cbn in Ho. lia.
  - by exists 0%nat, c.
  - destruct IH as (i & c & E); [exact Ho|]. by exists (S i), c.
Qed.

Lemma occupied_ge2 ch :
  (2 <= occupied ch)%nat ->
  exists i c j d, i <> j /\ ch !! i = Some (Some c) /\ ch !! j = Some (Some d).
Proof.
  induction ch as [|[c|] ch IH]; rewrite ?occupied_Some, ?occupied_None; intros Ho.
  - cbn in Ho. lia.
  - destruct (occupied_ge1 ch) as (i & d & E); [lia|]. by exists 0%nat, c, (S i), d.
  - destruct IH as (i & c & j & d & ? & ? & ?); [exact Ho|]. exists (S i), c, (S j), d. split_and!; auto.
Qed.

Lemma child_nibble (ch : list (option mptNode)) i oc :
  length ch = 16%nat -> ch !! i = Some oc -> nibble (Z.of_nat i) /\ Z.to_nat (Z.of_nat i) = i.
Proof. intros Hl E. apply lookup_lt_Some in E. unfold nibble. lia. Qed.

Lemma tget_child ch v i c k :
  ch !! i = Some (Some c) -> tget (mptBranch ch v) (Z.of_nat i :: k) = tget c k.
Proof. intros E. by rewrite tget_branch, Nat2Z.id, E. Qed.

(** A well-formed trie is not empty. *)
Lemma wf_nonempty n : wf n -> exists k x, nibs k /\ tget n k = Some x.
Proof.
  induction n as [nib v|nib c IH|ch v IH] using mptNode_ind'; intros Hwf;
    inversion Hwf as [| |? ? Hl Hch Hocc]; subst.
  - exists nib, v. split; [done|]. cbn. by rewrite bool_decide_eq_true_2.
  - destruct IH as (k & x & Hk & E); [done|]. exists (nib ++ k), x.
    split; [by apply Forall_app|]. cbn. by rewrite strip_app.
  - case_bool_decide as Hv.
    + destruct (occupied_ge1 ch) as (i & c & E); [lia|].
      destruct (IH i c E) as (k & x & Hk & Et); [eauto|]. destruct (child_nibble ch i _ ltac:(done) E).
      exists (Z.of_nat i :: k), x. split; [by constructor|]. by rewrite (tget_child _ _ _ c).
    + exists [], v. split; [constructor|]. rewrite tget_branch_nil. by rewrite bool_decide_eq_false_2.
Qed.

(** A branch holds two keys that diverge at once. *)
Lemma wf_branch_two ch v :
  wf (mptBranch ch v) ->
  exists k1 x1 k2 x2, nibs k1 /\ nibs k2 /\ diverge k1 k2 /\
    tget (mptBranch ch v) k1 = Some x1 /\ tget (mptBranch ch v) k2 = Some x2.
Proof.
  intros Hwf. inversion Hwf as [| |? ? Hl Hch Hocc]; subst.
  assert (forall i c, ch !! i = Some (Some c) -> nibble (Z.of_nat i) /\
    exists k x, nibs (Z.of_nat i :: k) /\ tget (mptBranch ch v) (Z.of_nat i :: k) = Some x) as Hc.
  { intros i c E. destruct (child_nibble ch i _ Hl E) as [Hi _]. split; [done|].
    destruct (wf_nonempty c) as (k & x & Hk & Et); [eauto|].
    exists k, x. split; [by constructor|]. by rewrite (tget_child _ _ _ c). }
  case_bool_decide as Hv.
  - destruct (occupied_ge2 ch) as (i & c & j & d & Hij & Ei & Ej); [lia|].
    destruct (Hc i c Ei) as (_ & k1 & x1 & ? & ?). destruct (Hc j d Ej) as (_ & k2 & x2 & ? & ?).
    exists (Z.of_nat i :: k1), x1, (Z.of_nat j :: k2), x2. split_and!; try done. cbn. lia.
  - destruct (occupied_ge1 ch) as (i & c & Ei); [lia|]. destruct (Hc i c Ei) as (_ & k1 & x1 & ? & ?).
    exists [], v, (Z.of_nat i :: k1), x1. split_and!; try done; [constructor|].
    rewrite tget_branch_nil. by rewrite bool_decide_eq_false_2.
Qed.

(** Two keys that diverge after [p] have no longer common prefix. *)
Lemma diverge_prefix p q a b r1 r2 :
  diverge a b -> p ++ a = q ++ r1 -> p ++ b = q ++ r2 -> exists s, p = q ++ s.
Proof.
  revert q. induction p as [|x p IH]; intros q Hd E1 E2.
  - destruct q as [|y q]; [by exists []|]. destruct a as [|a0 a], b as [|b0 b]; cbn in *; try done. congruence.
  - destruct q as [|y q]; [by exists (x :: p)|]. cbn in E1, E2. injection E1 as -> E1. injection E2 as E2.
    destruct (IH q Hd E1 E2) as [s ->]. by exists s.
Qed.

Lemma prefix_antisym (p q s1 s2 : bytes) : p = q ++ s1 -> q = p ++ s2 -> p = q.
Proof.
  intros E1 E2. assert (s1 = []) as ->; [|by rewrite app_nil_r in E1].
  apply (f_equal length) in E1, E2. rewrite length_app in E1, E2. destruct s1; [done|]. cbn in *. lia.
Qed.

Lemma tget_ext nib c k x : tget (mptExt nib c) k = Some x -> exists r, k = nib ++ r.
Proof. cbn. destruct (strip nib k) as [r|] eqn:E; [|done]. intros _. exists r. by apply strip_Some. Qed.

(** The same trie up to contents. *)
Definition same_contents (n1 n2 : mptNode) : Prop := forall k, nibs k -> tget n1 k = tget n2 k.

Lemma leaf_not_two nib v n k1 x1 k2 x2 :
  same_contents (mptLeaf nib v) n -> nibs k1 -> nibs k2 -> k1 <> k2 ->
  tget n k1 = Some x1 -> tget n k2 = Some x2 -> False.
Proof.
  intros Hs H1 H2 Hne E1 E2. rewrite <- (Hs k1 H1) in E1. rewrite <- (Hs k2 H2) in E2. cbn in E1, E2.
  destruct (bool_decide_reflect (nib = k1)), (bool_decide_reflect (nib = k2)); congruence.
Qed.

Lemma diverge_ne a b : diverge a b -> a <> b.
Proof. by intros H ->; destruct b. Qed.

(** The keys of an extension all start with its path. *)
Lemma ext_two nib c :
  wf (mptExt nib c) ->
  exists a b x1 x2, diverge a b /\ nibs (nib ++ a) /\ nibs (nib ++ b) /\
    tget (mptExt nib c) (nib ++ a) = Some x1 /\ tget (mptExt nib c) (nib ++ b) = Some x2.
Proof.
  intros Hwf. inversion Hwf as [|? ? Hnib Hne Hb Hc|]; subst. destruct c as [| |ch v]; try done.
  destruct (wf_branch_two ch v Hc) as (a & x1 & b & x2 & ? & ? & ? & E1 & E2).
  exists a, b, x1, x2. split_and!; try done; try (by apply Forall_app);
    cbn [tget]; by rewrite strip_app.
Qed.

Lemma ext_branch_absurd nib c ch v :
  wf (mptExt nib c) -> wf (mptBranch ch v) -> same_contents (mptExt nib c) (mptBranch ch v) -> False.
Proof.
  intros Hwf Hb Hs. destruct (wf_branch_two ch v Hb) as (a & x1 & b & x2 & Ha & Hbb & Hd & E1 & E2).
  rewrite <- (Hs a Ha) in E1. rewrite <- (Hs b Hbb) in E2.
  apply tget_ext in E1 as [r1 ->], E2 as [r2 ->]. inversion Hwf; subst.
  destruct nib; [done|]. by apply Hd.
Qed.

Lemma trie_canonical_post n1 n2 : wf n1 -> wf n2 -> same_contents n1 n2 -> n1 = n2.
Proof.
  revert n2. induction n1 as [nib v|nib c IH|ch v IH] using mptNode_ind'; intros n2 H1 H2 Hs.
  - destruct n2 as [nib' v'|nib' c'|ch' v'].
    + inversion H1; subst. pose proof (Hs nib ltac:(done)) as E. cbn in E.
      rewrite bool_decide_eq_true_2 in E by done.
      destruct (bool_decide_reflect (nib' = nib)) as [->|]; congruence.
    + exfalso. destruct (ext_two _ _ H2) as (a & b & x1 & x2 & Hd & Ha & Hb & E1 & E2).
      eapply (leaf_not_two nib v _ _ _ _ _ Hs Ha Hb); eauto. intros E. apply app_inv_head in E.
      by apply (diverge_ne a b).
    + exfalso. destruct (wf_branch_two _ _ H2) as (a & x1 & b & x2 & Ha & Hb & Hd & E1 & E2).
      eapply (leaf_not_two nib v _ _ _ _ _ Hs Ha Hb); eauto. by apply diverge_ne.
  - destruct n2 as [nib' v'|nib' c'|ch' v'].
    + exfalso. destruct (ext_two _ _ H1) as (a & b & x1 & x2 & Hd & Ha & Hb & E1 & E2).
      eapply (leaf_not_two nib' v' _ _ _ _ _ (fun k Hk => eq_sym (Hs k Hk)) Ha Hb); eauto.
      intros E. apply app_inv_head in E. by apply (diverge_ne a b).
    + destruct (ext_two _ _ H1) as (a & b & x1 & x2 & Hd & Ha & Hb & E1 & E2).
      destruct (ext_two _ _ H2) as (a' & b' & x1' & x2' & Hd' & Ha' & Hb' & E1' & E2').
      rewrite (Hs _ Ha) in E1. rewrite (Hs _ Hb) in E2. rewrite <- (Hs _ Ha') in E1'. rewrite <- (Hs _ Hb') in E2'.
      apply tget_ext in E1 as [r1 E1], E2 as [r2 E2], E1' as [r1' E1'], E2' as [r2' E2'].
      destruct (diverge_prefix _ _ _ _ _ _ Hd E1 E2) as [s Es].
      destruct (diverge_prefix _ _ _ _ _ _ Hd' E1' E2') as [s' Es'].
      assert (nib = nib') as <- by by eapply prefix_antisym.
      f_equal. inversion H1; subst. inversion H2; subst. apply IH; [done..|].
      intros k Hk. specialize (Hs (nib ++ k) ltac:(by apply Forall_app)). cbn in Hs.
      by rewrite !strip_app in Hs.
    + exfalso. by eapply ext_branch_absurd.
  - destruct n2 as [nib' v'|nib' c'|ch' v'].
    + exfalso. destruct (wf_branch_two _ _ H1) as (a & x1 & b & x2 & Ha & Hb & Hd & E1 & E2).
      eapply (leaf_not_two nib' v' _ _ _ _ _ (fun k Hk => eq_sym (Hs k Hk)) Ha Hb); eauto. by apply diverge_ne.
    + exfalso. eapply (ext_branch_absurd nib' c' ch v); try done. intros k Hk. symmetry. by apply Hs.
    + inversion H1 as [| |? ? Hl Hch _]; subst. inversion H2 as [| |? ? Hl' Hch' _]; subst. f_equal.
      * apply list_eq_same_length with (n := 16%nat); [done..|]. intros i oc oc' Hi E E'.
        destruct (child_nibble ch i oc Hl E) as [Hni _].
        assert (forall k, nibs k -> tget (mptBranch ch v) (Z.of_nat i :: k) = tget (mptBranch ch' v') (Z.of_nat i :: k))
          as Hk by (intros k Hk; apply Hs; by constructor).
        destruct oc as [c|], oc' as [c'|]; [| | |done].
        -- f_equal. apply (IH i c E); eauto. intros k Hnk. specialize (Hk k Hnk).
           by rewrite (tget_child ch v i c k E), (tget_child ch' v' i c' k E') in Hk.
        -- exfalso. destruct (wf_nonempty c) as (k & x & Hnk & Ex); [eauto|]. specialize (Hk k Hnk).
           rewrite (tget_child ch v i c k E), Ex, tget_branch, Nat2Z.id, E' in Hk. done.
        -- exfalso. destruct (wf_nonempty c') as (k & x & Hnk & Ex); [eauto|]. specialize (Hk k Hnk).
           rewrite (tget_child ch' v' i c' k E'), Ex, tget_branch, Nat2Z.id, E in Hk. done.
      * specialize (Hs [] ltac:(constructor)). rewrite !tget_branch_nil in Hs.
        destruct (bool_decide_reflect (v = [])), (bool_decide_reflect (v' = [])); congruence.
Qed.

(** ** Tries built by successive insertions *)

(** A possibly empty trie. *)
Definition oget (n : option mptNode) (k : bytes) : option bytes :=
  match n with None => None | Some n => tget n k end.
Definition owf (n : option mptNode) : Prop := match n with None => True | Some n => wf n end.

Lemma insertRoot_spec n key value a :
  owf n -> nibs key -> value <> [] -> nodeCount a + 4 <= node_cap a ->
  inserted 4 (oget n) key value a (insertRoot n key value a) (fun _ => True).
Proof.
  intros Hwf Hkey Hv Hcap. destruct n as [n|]; cbn [insertRoot oget].
  - destruct (insertNode_spec n key value a Hwf Hkey Hv Hcap) as (n' & a' & E & ? & ? & ? & _ & ?).
    by exists n', a'.
  - rewrite newLeaf_ok by lia. eexists _, _. split; [done|]. cbn [node_cap nodeCount].
    split; [done|]. split; [lia|]. split; [by constructor|]. split; [done|]. intros k _. cbn.
    destruct (bool_decide_reflect (key = k)) as [->|]; [by rewrite bool_decide_eq_true_2|].
    by rewrite bool_decide_eq_false_2.
Qed.

(** Inserting a list of pairs from left to right. *)
Fixpoint insert_all (n : option mptNode) (l : list (bytes * bytes)) : arenaM (option mptNode) :=
  match l with
  | [] => mret n
  | (k, v) :: l => n' ← insertRoot n k v; insert_all (Some n') l
  end.

(** Contents after the insertions: the last write of each key wins. *)
Definition contents (old : bytes -> option bytes) (l : list (bytes * bytes)) : bytes -> option bytes :=
  foldl (fun old kv k => if bool_decide (k = kv.1) then Some kv.2 else old k) old l.

Definition pair_ok (kv : bytes * bytes) : Prop := nibs kv.1 /\ kv.2 <> [].

Lemma contents_ext old old' l k :
  nibs k -> (forall k, nibs k -> old k = old' k) -> contents old l k = contents old' l k.
Proof.
  revert old old'. induction l as [|kv l IH]; intros old old' Hk Ho; cbn; [by apply Ho|].
  apply IH; [done|]. intros k' Hk'. destruct (bool_decide _); auto.
Qed.

Lemma insert_all_spec n l a :
  owf n -> Forall pair_ok l -> nodeCount a + 4 * Z.of_nat (length l) <= node_cap a ->
  exists n' a', insert_all n l a = Ok (n', a') /\ node_cap a' = node_cap a /\
    nodeCount a <= nodeCount a' <= nodeCount a + 4 * Z.of_nat (length l) /\ owf n' /\
    (n <> None \/ l <> [] -> n' <> None) /\
    forall k, nibs k -> oget n' k = contents (oget n) l k.
Proof.
  revert n a. induction l as [|[key v] l IH]; intros n a Hwf Hl Hcap; cbn [insert_all length] in *.
  { exists n, a. split; [done|]. split; [done|]. split; [lia|]. split; [done|]. split; [by intros [|]|done]. }
  apply Forall_cons_iff in Hl as [[Hk Hv] Hl]. cbn in Hk, Hv.
  destruct (insertRoot_spec n key v a Hwf Hk Hv ltac:(lia)) as (n1 & a1 & E & Ecap & Hcnt & Hwf1 & _ & G).
  unfold mbind, arenaM_bind. rewrite E.
  destruct (IH (Some n1) a1 Hwf1 Hl ltac:(lia)) as (n' & a' & E' & Ecap' & Hcnt' & Hwf' & Hne & G').
  exists n', a'. split; [done|]. split; [congruence|]. split; [lia|]. split; [done|].
  split; [intros _; apply Hne; by left|].
  intros k Hnk. rewrite (G' k Hnk). cbn. by apply contents_ext.
Qed.

(** With distinct keys the contents are those of the map of the pairs. *)
Lemma contents_map old l k :
  NoDup l.*1 ->
  contents old l k = match (list_to_map l : gmap bytes bytes) !! k with Some v => Some v | None => old k end.
Proof.
  revert old. induction l as [|[key v] l IH]; intros old Hnd; cbn; [by rewrite lookup_empty|].
  rewrite fmap_cons in Hnd. apply list.NoDup_cons in Hnd as [Hni Hnd]. rewrite (IH _ Hnd).
  destruct (bool_decide_reflect (k = key)) as [->|Hne].
  - rewrite lookup_insert_eq. by rewrite not_elem_of_list_to_map_1.
  - by rewrite lookup_insert_ne.
Qed.

(** The trie of a set of pairs does not depend on the order of their insertion. *)
Lemma insert_all_perm l1 l2 a1 a2 :
  l1 ≡ₚ l2 -> NoDup l1.*1 -> Forall pair_ok l1 ->
  nodeCount a1 + 4 * Z.of_nat (length l1) <= node_cap a1 ->
  nodeCount a2 + 4 * Z.of_nat (length l2) <= node_cap a2 ->
  exists n a1' a2', insert_all None l1 a1 = Ok (n, a1') /\ insert_all None l2 a2 = Ok (n, a2').
Proof.
  intros Hp Hnd Hok Hc1 Hc2.
  assert (Forall pair_ok l2) as Hok2 by by rewrite <- Hp.
  assert (NoDup l2.*1) as Hnd2 by by rewrite <- Hp.
  destruct (insert_all_spec None l1 a1 I Hok Hc1) as (n1 & a1' & E1 & _ & _ & W1 & N1 & G1).
  destruct (insert_all_spec None l2 a2 I Hok2 Hc2) as (n2 & a2' & E2 & _ & _ & W2 & N2 & G2).
  assert (n1 = n2) as <-; [|by exists n1, a1', a2'].
  assert (forall k, nibs k -> oget n1 k = oget n2 k) as G.
  { intros k Hk. rewrite (G1 k Hk), (G2 k Hk), !contents_map by done.
    by rewrite (list_to_map_proper l1 l2) by done. }
  destruct n1 as [n1|], n2 as [n2|]; cbn in *; [|exfalso..|done].
  - f_equal. by apply trie_canonical_post.
  - destruct (wf_nonempty n1 W1) as (k & x & Hk & E). by rewrite (G k Hk) in E.
  - destruct (wf_nonempty n2 W2) as (k & x & Hk & E). by rewrite <- (G k Hk) in E.
Qed.
