(* ===== verification/StateRoot.v ===== *)
(** * State roots: [pkg/statetrie/arena.go], [pkg/statetrie/state_trie.go]

    Account and storage values are RLP encoded and inserted in tries keyed by the
    nibbles of Keccak digests; [ComputeRoot] hashes the account trie. The two maps
    are enumerated in an unspecified order ([range_storage], [range_accounts]). *)

From S2P Require Import Prelude Uint256 Keccak Mpt StateTrie Trie.

(** ** Encodings *)

(** [for n != 0 { i--; tmp[i] = byte(n); n >>= 8 }]; [fuel] is the size of [tmp]. *)
Fixpoint uint_bytes (fuel : nat) (n : Z) (tmp : bytes) : bytes :=
  match fuel with
  | O => tmp
  | S fuel => if n =? 0 then tmp else uint_bytes fuel (shr64 n 8) (u8 n :: tmp)
  end.

Definition rlpEncodeUint64 (n : Z) : bytes :=
  if n =? 0 then [0x80] else RlpEncodeBytes (uint_bytes 8 n []).

(** [for i < 32 && be[i] == 0 { i++ }] *)
Fixpoint skip_zeros (be : bytes) : bytes :=
  match be with
  | b :: r => if b =? 0 then skip_zeros r else be
  | [] => []
  end.

Definition rlpEncodeUint256 (z : Uint256) : bytes :=
  if IsZero z then [0x80] else RlpEncodeBytes (skip_zeros (BytesBE z)).

Definition encodeAccount (nonce : Z) (balance : Uint256) (storageRoot codeHash : bytes) : bytes :=
  let n := rlpEncodeUint64 nonce in
  let b := rlpEncodeUint256 balance in
  let s := RlpEncodeBytes storageRoot in
  let c := RlpEncodeBytes codeHash in
  let payload := Z.of_nat (length n + length b + length s + length c) in
  RlpEncodeListHeader payload ++ n ++ b ++ s ++ c.

(** ** Storage tries *)

Record storageEntry := SEntry { se_addr : Uint256; se_slot : Uint256; se_val : Uint256 }.

Definition slotKey (slot : Uint256) : bytes := hashToNibbles (Keccak256 (BytesBE slot)).

(** Entries share an address; only slots and values matter. *)
Fixpoint buildStorageTrieRange (n : option mptNode) (entries : list storageEntry) : arenaM (option mptNode) :=
  match entries with
  | [] => mret n
  | e :: entries =>
      n' ← insertRoot n (slotKey (se_slot e)) (rlpEncodeUint256 (se_val e));
      buildStorageTrieRange (Some n') entries
  end.

Definition storageRootOfRange (entries : list storageEntry) : arenaM bytes :=
  match entries with
  | [] => mret emptyRoot
  | _ => n ← buildStorageTrieRange None entries; mret (hashRoot n)
  end.

(** [slotPair]: the same without the address, in an arena of its own. *)
Definition slotPair : Type := Uint256 * Uint256.

Fixpoint insert_slots (n : option mptNode) (slots : list slotPair) : arenaM (option mptNode) :=
  match slots with
  | [] => mret n
  | (slot, val) :: slots =>
      n' ← insertRoot n (slotKey slot) (rlpEncodeUint256 val);
      insert_slots (Some n') slots
  end.

Definition buildStorageTrie (slots : list slotPair) : outcome Empty_set (option mptNode) :=
  match insert_slots None slots (ensureNodes (Arena 0 0) (4 * Z.of_nat (length slots) + 64)) with
  | Ok (n, _) => Ok n
  | Err e => Err e
  | Panic => Panic
  | OutOfFuel => OutOfFuel
  end.

Definition hashStorage (slots : list slotPair) : outcome Empty_set bytes :=
  match slots with
  | [] => Ok emptyRoot
  | _ => n ← buildStorageTrie slots; Ok (hashRoot n)
  end.

(** ** The account trie *)

(** The comparison functions given to [slices.SortFunc]. *)
Definition entry_le (x y : storageEntry) : bool :=
  let c := Cmp (se_addr x) (se_addr y) in
  if negb (c =? 0) then c <? 0 else Cmp (se_slot x) (se_slot y) <=? 0.
Definition account_le (x y : Uint256 * Account) : bool := Cmp x.1 y.1 <=? 0.

(** Insertion sort with respect to a boolean order: any sorting function gives this
    list, since the keys are distinct. *)
Fixpoint insert_sorted {A} (le : A -> A -> bool) (x : A) (l : list A) : list A :=
  match l with
  | [] => [x]
  | y :: l => if le x y then x :: y :: l else y :: insert_sorted le x l
  end.
Definition sort_by {A} (le : A -> A -> bool) (l : list A) : list A := foldr (insert_sorted le) [] l.

(** [for ei < len(entries) && entries[ei].addr == addr { ei++ }]: the group and the rest. *)
Fixpoint take_group (addr : Uint256) (entries : list storageEntry) : list storageEntry * list storageEntry :=
  match entries with
  | e :: entries' =>
      if bool_decide (se_addr e = addr)
      then let '(g, r) := take_group addr entries' in (e :: g, r) else ([], entries)
  | [] => ([], [])
  end.

Definition insertAccount (root : option mptNode) (addr : Uint256) (nonce : Z) (bal : Uint256) (sr codeHash : bytes) :
  arenaM (option mptNode) :=
  n ← insertRoot root (hashToNibbles (Keccak256 (slice (BytesBE addr) 12 32)))
        (encodeAccount nonce bal sr codeHash);
  mret (Some n).

(** Storage groups without an account, up to the address [bound]; [fuel] bounds the
    number of groups. *)
Fixpoint insert_orphans (fuel : nat) (bound : option Uint256) (root : option mptNode) (entries : list storageEntry) :
  arenaM (option mptNode * list storageEntry) :=
  match fuel, entries with
  | S fuel, e :: _ =>
      if match bound with Some b => Cmp (se_addr e) b <? 0 | None => true end then
        let '(g, rest) := take_group (se_addr e) entries in
        sr ← storageRootOfRange g;
        root ← insertAccount root (se_addr e) 0 zero256 sr emptyCodeHash;
        insert_orphans fuel bound root rest
      else mret (root, entries)
  | _, _ => mret (root, entries)
  end.

Fixpoint insert_accounts (accts : list (Uint256 * Account)) (root : option mptNode) (entries : list storageEntry) :
  arenaM (option mptNode * list storageEntry) :=
  match accts with
  | [] => mret (root, entries)
  | (addr, acc) :: accts =>
      '(root, entries) ← insert_orphans (length entries) (Some addr) root entries;
      let '(g, rest) := take_group addr entries in
      sr ← storageRootOfRange g;
      let codeHash := if bool_decide (CodeHash acc = hash0) then emptyCodeHash else CodeHash acc in
      root ← insertAccount root addr (Nonce acc) (Balance acc) sr codeHash;
      insert_accounts accts root rest
  end.

Section compute_root.
  Context (range_storage : nat -> storage_map -> list (storageKey * Uint256)).
  Context (range_accounts : nat -> account_map -> list (Uint256 * Account)).

(** [reserveArena] on the arena left by the previous computation. *)
Definition reserveArena (t : StateTrie) (a : mptArena) : mptArena :=
  let n := Z.of_nat (size (accounts t) + size (storage t)) in
  if n =? 0 then a else ensureNodes a (8 * n + 256).

Definition storage_entries (seed : nat) (t : StateTrie) : list storageEntry :=
  sort_by entry_le (map (fun kv => SEntry (sk_addr kv.1) (sk_slot kv.1) kv.2) (range_storage seed (storage t))).
Definition account_entries (seed : nat) (t : StateTrie) : list (Uint256 * Account) :=
  sort_by account_le (range_accounts seed (accounts t)).

Definition buildAccountTrie (seed : nat) (t : StateTrie) (a : mptArena) :
  outcome Empty_set (option mptNode * mptArena) :=
  let a := reset (reserveArena t a) in
  (let entries := storage_entries seed t in
   '(root, entries) ← insert_accounts (account_entries seed t) None entries;
   '(root, _) ← insert_orphans (length entries) None root entries;
   mret root) a.

Definition ComputeRoot (seed : nat) (t : StateTrie) (a : mptArena) : outcome Empty_set bytes :=
  if (size (accounts t) =? 0)%nat && (size (storage t) =? 0)%nat then Ok emptyRoot
  else '(n, _) ← buildAccountTrie seed t a; Ok (hashRoot n).
End compute_root.

(** ** Proofs of accounts *)

(** The walk of [GenerateProof] from the node [n]: whether the account was found, and
    the encodings appended to the proof. *)
Fixpoint walk_account (n : mptNode) (key : bytes) : bool * list bytes :=
  let visit c key :=
    let '(found, proof) := walk_account c key in
    let enc := encodeNode c in
    (found, if (32 <=? length enc)%nat then enc :: proof else proof) in
  match n with
  | mptLeaf nibbles _ => (bool_decide (nibbles = key), [])
  | mptExt nibbles child =>
      match strip nibbles key with
      | Some rest => visit child rest
      | None => (false, [])
      end
  | mptBranch children value =>
      match key with
      | [] => ((0 <? length value)%nat, [])
      | k :: rest => with_child (fun c => visit c rest) (false, []) children (Z.to_nat k)
      end
  end.

Definition GenerateProof (range_storage : nat -> storage_map -> list (storageKey * Uint256))
  (range_accounts : nat -> account_map -> list (Uint256 * Account)) (seed : nat)
  (t : StateTrie) (a : mptArena) (addr : Uint256) : outcome state_err (list bytes) :=
  match buildAccountTrie range_storage range_accounts seed t a with
  | Ok (Some root, _) =>
      let '(found, proof) := walk_account root (addrKey addr) in
      if found then Ok (encodeNode root :: proof) else Err ErrProofNotFound
  | Ok (None, _) => Err ErrProofNotFound
  | _ => Panic
  end.
