(* ===== verification/StateRootSpec.v ===== *)
(** * State roots are total and deterministic: theorems on [ComputeRoot]

    The capacity [reserveArena] gives the arena is enough for every state; the
    root depends on the accounts and the storage only, neither on the order in
    which the maps are enumerated nor on the arena left by earlier calls. *)

From S2P Require Import Prelude Uint256 Keccak Mpt StateTrie Trie TrieSpec StateRoot.

(** ** Encodings *)

Lemma uint_bytes_spec fuel n tmp :
  0 <= n < 256 ^ Z.of_nat fuel ->
  exists l, uint_bytes fuel n tmp = l ++ tmp /\ bytes_ok l /\ be_val l = n /\ (l !! 0%nat <> Some 0).
Proof.
  revert n tmp. induction fuel as [|fuel IH]; intros n tmp Hn; cbn [uint_bytes].
  { exists []. simpl in Hn. split_and!; try done; [constructor | unfold be_val; simpl; lia]. }
  destruct (Z.eqb_spec n 0) as [->|Hz].
  { exists []. split_and!; try done. constructor. }
  rewrite Nat2Z.inj_succ, Z.pow_succ_r in Hn by lia.
  rewrite shr64_div by lia. change (2 ^ 8) with 256.
  destruct (IH (n / 256) (u8 n :: tmp)) as (l & -> & Hl & Ev & Hh).
  { split; [apply Z.div_pos; lia | apply Z.div_lt_upper_bound; lia]. }
  exists (l ++ [u8 n]). rewrite <- app_assoc. split; [done|].
  split; [apply bytes_ok_app; [done|]; constructor; [apply u8_byte|constructor]|].
  split; [rewrite be_val_snoc, Ev; unfold u8; dlia|].
  destruct l as [|b l]; [|done]. cbn. unfold be_val in Ev. cbn in Ev. intros [= E]. unfold u8 in E. dlia.
Qed.

Lemma skip_zeros_spec be :
  exists n, be = zeros n ++ skip_zeros be /\ (skip_zeros be !! 0%nat <> Some 0).
Proof.
  induction be as [|b be (n & E & H)]; cbn; [by exists 0%nat|].
  destruct (Z.eqb_spec b 0) as [->|Hb].
  - exists (S n). cbn. split; [by rewrite E at 1 | done].
  - exists 0%nat. split; [done|]. cbn. congruence.
Qed.

Lemma RlpEncodeBytes_ne data : RlpEncodeBytes data <> [].
Proof. unfold RlpEncodeBytes. destruct (single_byte data) eqn:E; [by intros ->|]. by gtest. Qed.

Lemma rlpEncodeUint256_ne z : rlpEncodeUint256 z <> [].
Proof. unfold rlpEncodeUint256. destruct (IsZero z); [done|]. apply RlpEncodeBytes_ne. Qed.

Lemma encodeAccount_ne n b s c : encodeAccount n b s c <> [].
Proof.
  unfold encodeAccount, RlpEncodeListHeader. by destruct (_ <? 56).
Qed.

Lemma hashToNibbles_nibs h : bytes_ok h -> nibs (hashToNibbles h).
Proof.
  induction 1 as [|b h Hb _ IH]; cbn; [constructor|]. unfold is_byte in Hb.
  constructor; [|constructor; [|exact IH]]; unfold nibble.
  - rewrite Z.shiftr_div_pow2 by lia. dlia.
  - change 15 with (Z.ones 4). rewrite Z.land_ones by lia. dlia.
Qed.

Lemma length_hashToNibbles h : length (hashToNibbles h) = (2 * length h)%nat.
Proof. induction h as [|b h IH]; cbn in *; [done|]. unfold hashToNibbles in IH. rewrite IH. lia. Qed.

Lemma slotKey_nibs slot : nibs (slotKey slot).
Proof. apply hashToNibbles_nibs, Keccak256_ok. Qed.

Definition acctKey (addr : Uint256) : bytes := hashToNibbles (Keccak256 (slice (BytesBE addr) 12 32)).
Lemma acctKey_nibs addr : nibs (acctKey addr).
Proof. apply hashToNibbles_nibs, Keccak256_ok. Qed.

(** ** Building is inserting a list of pairs *)

Definition storage_pairs (g : list storageEntry) : list (bytes * bytes) :=
  map (fun e => (slotKey (se_slot e), rlpEncodeUint256 (se_val e))) g.

Lemma storage_pairs_ok g : Forall pair_ok (storage_pairs g).
Proof.
  unfold storage_pairs. apply Forall_map, Forall_true. intros e.
  split; [apply slotKey_nibs | apply rlpEncodeUint256_ne].
Qed.

Lemma buildStorageTrieRange_pairs n g a :
  buildStorageTrieRange n g a = insert_all n (storage_pairs g) a.
Proof.
  revert n a. induction g as [|e g IH]; intros n a; [done|]. cbn.
  unfold mbind, arenaM_bind. destruct (insertRoot _ _ _ _) as [[n' a']| | |]; [apply IH|done..].
Qed.

Lemma insert_slots_pairs n slots a :
  insert_slots n slots a =
  insert_all n (map (fun sv : slotPair => (slotKey sv.1, rlpEncodeUint256 sv.2)) slots) a.
Proof.
  revert n a. induction slots as [|[s v] slots IH]; intros n a; [done|]. cbn.
  unfold mbind, arenaM_bind. destruct (insertRoot _ _ _ _) as [[n' a']| | |]; [apply IH|done..].
Qed.

(** The result of an insertion does not depend on the arena. *)
Lemma owf_canonical n1 n2 :
  owf n1 -> owf n2 -> (forall k, nibs k -> oget n1 k = oget n2 k) -> n1 = n2.
Proof.
  intros W1 W2 G. destruct n1 as [n1|], n2 as [n2|]; cbn in *; [|exfalso..|done].
  - f_equal. by apply trie_canonical_post.
  - destruct (wf_nonempty n1 W1) as (k & x & Hk & E). by rewrite (G k Hk) in E.
  - destruct (wf_nonempty n2 W2) as (k & x & Hk & E). by rewrite <- (G k Hk) in E.
Qed.

(** The trie of a list of pairs, in an arena of its own size. *)
Definition trie_of (n : option mptNode) (l : list (bytes * bytes)) : option mptNode :=
  match insert_all n l (Arena (4 * Z.of_nat (length l)) 0) with Ok (n', _) => n' | _ => None end.

Lemma insert_all_trie_of n l a :
  owf n -> Forall pair_ok l -> nodeCount a + 4 * Z.of_nat (length l) <= node_cap a ->
  owf (trie_of n l) /\ (forall k, nibs k -> oget (trie_of n l) k = contents (oget n) l k) /\
  exists a', insert_all n l a = Ok (trie_of n l, a') /\ node_cap a' = node_cap a /\
    nodeCount a <= nodeCount a' <= nodeCount a + 4 * Z.of_nat (length l).
Proof.
  intros Hn Hl Ha.
  destruct (insert_all_spec n l a Hn Hl Ha) as (n1 & a1 & E1 & C1 & K1 & W1 & _ & G1).
  destruct (insert_all_spec n l (Arena (4 * Z.of_nat (length l)) 0) Hn Hl ltac:(cbn; lia))
    as (n2 & a2 & E2 & C2 & K2 & W2 & _ & G2).
  assert (trie_of n l = n2) as Et by (unfold trie_of; by rewrite E2). rewrite Et.
  assert (n1 = n2) as <-.
  { apply owf_canonical; [done..|]. intros k Hk. by rewrite (G1 k Hk), (G2 k Hk). }
  split; [done|]. split; [done|]. by exists a1.
Qed.

Definition storage_root_of (g : list storageEntry) : bytes :=
  match g with [] => emptyRoot | _ => hashRoot (trie_of None (storage_pairs g)) end.

Lemma storageRootOfRange_spec g a :
  nodeCount a + 4 * Z.of_nat (length g) <= node_cap a ->
  exists a', storageRootOfRange g a = Ok (storage_root_of g, a') /\ node_cap a' = node_cap a /\
    nodeCount a <= nodeCount a' <= nodeCount a + 4 * Z.of_nat (length g).
Proof.
  intros Ha. unfold storageRootOfRange, storage_root_of. destruct g as [|e g].
  { exists a. split; [done|]. split; [done|]. cbn. lia. }
  set (g' := e :: g) in *. unfold mbind, arenaM_bind. rewrite buildStorageTrieRange_pairs.
  assert (length (storage_pairs g') = length g') as El by apply length_map.
  destruct (insert_all_trie_of None (storage_pairs g') a I (storage_pairs_ok g') ltac:(rewrite El; lia))
    as (_ & _ & a' & E & C & K). rewrite E. exists a'. split; [done|]. rewrite El in K. done.
Qed.

(** *** Groups of storage entries *)

Lemma take_group_length addr es :
  (length (take_group addr es).1 + length (take_group addr es).2 = length es)%nat.
Proof.
  induction es as [|e es IH]; cbn; [done|]. destruct (bool_decide _); [|done].
  destruct (take_group addr es) as [g r]. cbn in *. lia.
Qed.

Lemma take_group_head e es : (1 <= length (take_group (se_addr e) (e :: es)).1)%nat.
Proof. cbn. rewrite bool_decide_eq_true_2 by done. destruct (take_group _ es). cbn. lia. Qed.

Definition orphan_before (bound : option Uint256) (e : storageEntry) : bool :=
  match bound with Some b => Cmp (se_addr e) b <? 0 | None => true end.

(** The pairs inserted for storage without an account, and the entries left. *)
Fixpoint orphan_pairs (fuel : nat) (bound : option Uint256) (entries : list storageEntry) :
  list (bytes * bytes) * list storageEntry :=
  match fuel, entries with
  | S fuel, e :: _ =>
      if orphan_before bound e then
        let '(g, rest) := take_group (se_addr e) entries in
        let '(ps, rest') := orphan_pairs fuel bound rest in
        ((acctKey (se_addr e), encodeAccount 0 zero256 (storage_root_of g) emptyCodeHash) :: ps, rest')
      else ([], entries)
  | _, _ => ([], entries)
  end.

Fixpoint account_pairs (accts : list (Uint256 * Account)) (entries : list storageEntry) :
  list (bytes * bytes) * list storageEntry :=
  match accts with
  | [] => ([], entries)
  | (addr, acc) :: accts =>
      let '(ops, entries) := orphan_pairs (length entries) (Some addr) entries in
      let '(g, rest) := take_group addr entries in
      let codeHash := if bool_decide (CodeHash acc = hash0) then emptyCodeHash else CodeHash acc in
      let '(ps, rest') := account_pairs accts rest in
      (ops ++ (acctKey addr, encodeAccount (Nonce acc) (Balance acc) (storage_root_of g) codeHash) :: ps, rest')
  end.

(** All the pairs of the account trie, in the order of their insertion. *)
Definition state_pairs (accts : list (Uint256 * Account)) (entries : list storageEntry) : list (bytes * bytes) :=
  let '(ps, rest) := account_pairs accts entries in ps ++ (orphan_pairs (length rest) None rest).1.

Lemma insertAccount_pair root addr nonce bal sr ch a :
  insertAccount root addr nonce bal sr ch a = insert_all root [(acctKey addr, encodeAccount nonce bal sr ch)] a.
Proof. cbn. unfold insertAccount, mbind, arenaM_bind. by destruct (insertRoot _ _ _ _) as [[]| | |]. Qed.

Lemma acct_pair_ok addr n b s c : pair_ok (acctKey addr, encodeAccount n b s c).
Proof. split; [apply acctKey_nibs | apply encodeAccount_ne]. Qed.

Lemma orphan_pairs_length fuel bound es :
  (length (orphan_pairs fuel bound es).1 + length (orphan_pairs fuel bound es).2 <= length es)%nat.
Proof.
  revert es. induction fuel as [|fuel IH]; intros [|e es]; cbn [orphan_pairs]; try (cbn; lia).
  destruct (orphan_before bound e); [|cbn; lia].
  pose proof (take_group_length (se_addr e) (e :: es)). pose proof (take_group_head e es).
  destruct (take_group (se_addr e) (e :: es)) as [g rest]. specialize (IH rest).
  destruct (orphan_pairs fuel bound rest). cbn in *. lia.
Qed.

Lemma insert_all_app n l1 l2 a :
  insert_all n (l1 ++ l2) a = match insert_all n l1 a with
                              | Ok (n', a') => insert_all n' l2 a'
                              | Err e => Err e | Panic => Panic | OutOfFuel => OutOfFuel
                              end.
Proof.
  revert n a. induction l1 as [|[k v] l1 IH]; intros n a; [done|]. cbn.
  unfold mbind, arenaM_bind. destruct (insertRoot _ _ _ _) as [[n' a']| | |]; [apply IH|done..].
Qed.

Lemma trie_of_app n l1 l2 :
  owf n -> Forall pair_ok l1 -> Forall pair_ok l2 -> trie_of (trie_of n l1) l2 = trie_of n (l1 ++ l2).
Proof.
  intros Hn H1 H2. set (a := Arena (4 * Z.of_nat (length (l1 ++ l2))) 0).
  destruct (insert_all_trie_of n l1 a Hn H1) as (W1 & _ & a1 & E1 & C1 & K1);
    [cbn; rewrite length_app; lia|].
  destruct (insert_all_trie_of (trie_of n l1) l2 a1 W1 H2) as (_ & _ & a2 & E2 & _ & _).
  { rewrite C1. cbn in *. rewrite length_app. lia. }
  unfold trie_of at 3. fold a. by rewrite insert_all_app, E1, E2.
Qed.

Lemma trie_of_nil n : trie_of n [] = n.
Proof. done. Qed.

Lemma trie_of_cons n p l :
  owf n -> pair_ok p -> Forall pair_ok l -> trie_of (trie_of n [p]) l = trie_of n (p :: l).
Proof. intros. rewrite trie_of_app; [done | done | by constructor | done]. Qed.

Lemma trie_of_owf n l : owf n -> Forall pair_ok l -> owf (trie_of n l).
Proof.
  intros Hn Hl. apply (insert_all_trie_of n l (Arena (4 * Z.of_nat (length l)) 0) Hn Hl). cbn. lia.
Qed.

Lemma orphan_pairs_ok fuel bound es : Forall pair_ok (orphan_pairs fuel bound es).1.
Proof.
  revert es. induction fuel as [|fuel IH]; intros [|e es]; cbn [orphan_pairs]; try constructor.
  destruct (orphan_before bound e); [|constructor].
  destruct (take_group (se_addr e) (e :: es)) as [g rest]. specialize (IH rest).
  destruct (orphan_pairs fuel bound rest). constructor; [apply acct_pair_ok | exact IH].
Qed.

Lemma insertAccount_spec root addr nonce bal sr ch a :
  owf root -> nodeCount a + 4 <= node_cap a ->
  exists a', insertAccount root addr nonce bal sr ch a =
      Ok (trie_of root [(acctKey addr, encodeAccount nonce bal sr ch)], a') /\
    node_cap a' = node_cap a /\ nodeCount a <= nodeCount a' <= nodeCount a + 4.
Proof.
  intros Hr Ha. rewrite insertAccount_pair.
  destruct (insert_all_trie_of root [(acctKey addr, encodeAccount nonce bal sr ch)] a Hr) as (_ & _ & a' & ? & ? & ?).
  - constructor; [apply acct_pair_ok | constructor].
  - cbn. lia.
  - by exists a'.
Qed.

(** Every consumed storage entry costs at most 8 nodes: 4 in its storage trie and,
    for a group without an account, 4 in the account trie. *)
Lemma insert_orphans_spec fuel bound root es a :
  let '(ps, rest) := orphan_pairs fuel bound es in
  let cost := 8 * (Z.of_nat (length es) - Z.of_nat (length rest)) in
  owf root -> nodeCount a + cost <= node_cap a ->
  exists a', insert_orphans fuel bound root es a = Ok ((trie_of root ps, rest), a') /\
    node_cap a' = node_cap a /\ nodeCount a <= nodeCount a' <= nodeCount a + cost.
Proof.
  revert root es a. induction fuel as [|fuel IH]; intros root [|e es] a; cbn [orphan_pairs insert_orphans].
  1-3: intros Hr Ha; exists a; (split; [done|]); (split; [done|]); cbn; lia.
  change (match bound with Some b => Cmp (se_addr e) b <? 0 | None => true end) with (orphan_before bound e).
  destruct (orphan_before bound e).
  2: { intros Hr Ha; exists a; (split; [done|]); (split; [done|]); cbn; lia. }
  pose proof (take_group_length (se_addr e) (e :: es)) as Hlen. pose proof (take_group_head e es) as Hpos.
  destruct (take_group (se_addr e) (e :: es)) as [g rest]. cbn [fst snd] in Hlen, Hpos.
  pose proof (orphan_pairs_length fuel bound rest) as Hlen'. pose proof (orphan_pairs_ok fuel bound rest) as Hok.
  set (p := (acctKey (se_addr e), encodeAccount 0 zero256 (storage_root_of g) emptyCodeHash)).
  specialize (IH (trie_of root [p]) rest).
  destruct (orphan_pairs fuel bound rest) as [ps rest']. cbn [fst snd] in *. intros Hr Ha.
  destruct (storageRootOfRange_spec g a) as (a1 & E1 & C1 & K1); [lia|].
  unfold mbind, arenaM_bind. rewrite E1.
  destruct (insertAccount_spec root (se_addr e) 0 zero256 (storage_root_of g) emptyCodeHash a1 Hr)
    as (a2 & E2 & C2 & K2); [lia|]. rewrite E2. fold p.
  assert (Forall pair_ok [p]) as Hp by (constructor; [apply acct_pair_ok | constructor]).
  destruct (IH a2 (trie_of_owf root [p] Hr Hp)) as (a3 & E3 & C3 & K3); [lia|]. rewrite E3.
  exists a3. split; [|split; [congruence|lia]].
  rewrite trie_of_cons; [done | done | apply acct_pair_ok | done].
Qed.

Lemma account_pairs_ok accts es : Forall pair_ok (account_pairs accts es).1.
Proof.
  revert es. induction accts as [|[addr acc] accts IH]; intros es; cbn [account_pairs]; [constructor|].
  pose proof (orphan_pairs_ok (length es) (Some addr) es) as Hok.
  destruct (orphan_pairs _ _ es) as [ops es1]. destruct (take_group addr es1) as [g rest].
  specialize (IH rest). destruct (account_pairs accts rest). cbn [fst] in *.
  apply Forall_app. split; [done|]. constructor; [apply acct_pair_ok | done].
Qed.

Lemma account_pairs_length accts es :
  (length (account_pairs accts es).2 <= length es)%nat.
Proof.
  revert es. induction accts as [|[addr acc] accts IH]; intros es; cbn [account_pairs]; [done|].
  pose proof (orphan_pairs_length (length es) (Some addr) es) as Hl.
  destruct (orphan_pairs _ _ es) as [ops es1]. pose proof (take_group_length addr es1) as Hg.
  destruct (take_group addr es1) as [g rest]. specialize (IH rest).
  destruct (account_pairs accts rest). cbn [fst snd] in *. lia.
Qed.

Lemma insert_accounts_spec accts root es a :
  let '(ps, rest) := account_pairs accts es in
  let cost := 8 * (Z.of_nat (length es) - Z.of_nat (length rest)) + 4 * Z.of_nat (length accts) in
  owf root -> nodeCount a + cost <= node_cap a ->
  exists a', insert_accounts accts root es a = Ok ((trie_of root ps, rest), a') /\
    node_cap a' = node_cap a /\ nodeCount a <= nodeCount a' <= nodeCount a + cost.
Proof.
  revert root es a. induction accts as [|[addr acc] accts IH]; intros root es a; cbn [account_pairs insert_accounts].
  { intros Hr Ha. exists a. split; [done|]. split; [done|]. cbn. lia. }
  pose proof (insert_orphans_spec (length es) (Some addr) root es a) as Ho.
  pose proof (orphan_pairs_length (length es) (Some addr) es) as Hl.
  pose proof (orphan_pairs_ok (length es) (Some addr) es) as Hok.
  destruct (orphan_pairs (length es) (Some addr) es) as [ops es1]. cbn [fst snd] in *.
  pose proof (take_group_length addr es1) as Hg.
  destruct (take_group addr es1) as [g rest] eqn:Eg. cbn [fst snd] in *.
  set (ch := if bool_decide (CodeHash acc = hash0) then emptyCodeHash else CodeHash acc).
  set (p := (acctKey addr, encodeAccount (Nonce acc) (Balance acc) (storage_root_of g) ch)).
  pose proof (account_pairs_length accts rest) as Hl2. pose proof (account_pairs_ok accts rest) as Hok2.
  specialize (IH (trie_of (trie_of root ops) [p]) rest).
  destruct (account_pairs accts rest) as [ps rest']. cbn [fst snd length] in *. intros Hr Ha.
  destruct (Ho Hr ltac:(lia)) as (a1 & E1 & C1 & K1). unfold mbind, arenaM_bind. rewrite E1, Eg.
  destruct (storageRootOfRange_spec g a1) as (a2 & E2 & C2 & K2); [lia|]. rewrite E2.
  pose proof (trie_of_owf root ops Hr Hok) as Hr1.
  destruct (insertAccount_spec (trie_of root ops) addr (Nonce acc) (Balance acc) (storage_root_of g) ch a2 Hr1)
    as (a3 & E3 & C3 & K3); [lia|]. fold ch. rewrite E3. fold p.
  assert (Forall pair_ok [p]) as Hp by (constructor; [apply acct_pair_ok | constructor]).
  destruct (IH a3 (trie_of_owf _ [p] Hr1 Hp)) as (a4 & E4 & C4 & K4); [lia|]. rewrite E4.
  exists a4. split; [|split; [congruence|lia]].
  rewrite trie_of_cons; [|done | apply acct_pair_ok | done].
  rewrite trie_of_app; [done | done | done |]. constructor; [apply acct_pair_ok | done].
Qed.

(** ** The whole computation *)

Lemma state_pairs_ok accts es : Forall pair_ok (state_pairs accts es).
Proof.
  unfold state_pairs. pose proof (account_pairs_ok accts es).
  destruct (account_pairs accts es) as [ps rest]. cbn [fst] in *.
  apply Forall_app. split; [done | apply orphan_pairs_ok].
Qed.

Lemma length_insert_sorted {A} le (x : A) l : length (insert_sorted le x l) = S (length l).
Proof. induction l as [|y l IH]; cbn; [done|]. destruct (le x y); cbn; lia. Qed.
Lemma length_sort_by {A} le (l : list A) : length (sort_by le l) = length l.
Proof. induction l as [|x l IH]; cbn; [done|]. rewrite length_insert_sorted. by f_equal. Qed.

Lemma insert_sorted_perm {A} le (x : A) l : insert_sorted le x l ≡ₚ x :: l.
Proof.
  induction l as [|y l IH]; cbn; [done|]. destruct (le x y); [done|]. rewrite IH. apply perm_swap.
Qed.
Lemma sort_by_perm {A} le (l : list A) : sort_by le l ≡ₚ l.
Proof. induction l as [|x l IH]; cbn; [done|]. rewrite insert_sorted_perm. by rewrite IH. Qed.

(** An order total and transitive on the elements makes [sort_by] sort. *)
Section sorting.
  Context {A} (le : A -> A -> bool) (P : A -> Prop).
  Context (le_total : forall x y, P x -> P y -> le x y = true \/ le y x = true).
  Context (le_trans : forall x y z, P x -> P y -> P z -> le x y = true -> le y z = true -> le x z = true).

Lemma insert_sorted_sorted x l :
  P x -> Forall P l ->
  StronglySorted (fun x y => le x y = true) l -> StronglySorted (fun x y => le x y = true) (insert_sorted le x l).
Proof.
  intros Hx Hl Hs. induction Hs as [|y l Hs IH Hy]; cbn; [constructor; constructor|].
  apply Forall_cons_iff in Hl as [Hpy Hl]. rewrite Forall_forall in Hl.
  destruct (le x y) eqn:E.
  - constructor; [by constructor|]. constructor; [done|].
    apply Forall_forall. intros z Hz. rewrite Forall_forall in Hy. eauto.
  - constructor; [apply IH; by apply Forall_forall|]. rewrite insert_sorted_perm. constructor; [|done].
    destruct (le_total x y); auto; congruence.
Qed.

Lemma sort_by_sorted l : Forall P l -> StronglySorted (fun x y => le x y = true) (sort_by le l).
Proof.
  induction 1 as [|x l Hx Hl IH]; cbn; [constructor|].
  change (foldr (insert_sorted le) [] l) with (sort_by le l) in *.
  apply insert_sorted_sorted; [done | by rewrite sort_by_perm | done].
Qed.

(** Sorting two permutations of a list whose elements are told apart by the order. *)
Lemma sort_by_unique l1 l2 :
  Forall P l1 -> l1 ≡ₚ l2 ->
  (forall x y, x ∈ l1 -> y ∈ l1 -> le x y = true -> le y x = true -> x = y) ->
  sort_by le l1 = sort_by le l2.
Proof.
  intros Hl Hp Ha. apply (StronglySorted_unique_strong (fun x y => le x y = true)).
  - intros x y Hx Hy. rewrite sort_by_perm in Hx. rewrite sort_by_perm in Hy. rewrite <- Hp in Hy. eauto.
  - by apply sort_by_sorted.
  - apply sort_by_sorted. by rewrite <- Hp.
  - by rewrite !sort_by_perm.
Qed.
End sorting.

Definition entry_ok (e : storageEntry) : Prop := u256_ok (se_addr e) /\ u256_ok (se_slot e).

Lemma Cmp_le a b : u256_ok a -> u256_ok b -> (Cmp a b <=? 0) = (toZ a <=? toZ b).
Proof. intros. rewrite Cmp_compare by done. unfold Z.leb. by destruct (toZ a ?= toZ b). Qed.
Lemma Cmp_eq a b : u256_ok a -> u256_ok b -> (Cmp a b =? 0) = (toZ a =? toZ b).
Proof.
  intros. rewrite Cmp_compare by done. destruct (Z.compare_spec (toZ a) (toZ b)) as [E|E|E];
    destruct (Z.eqb_spec (toZ a) (toZ b)); try lia; done.
Qed.

Lemma entry_le_spec x y :
  entry_ok x -> entry_ok y ->
  entry_le x y = true <->
  toZ (se_addr x) < toZ (se_addr y) \/
  toZ (se_addr x) = toZ (se_addr y) /\ toZ (se_slot x) <= toZ (se_slot y).
Proof.
  intros [Hx1 Hx2] [Hy1 Hy2]. unfold entry_le. rewrite Cmp_eq, Cmp_lt, Cmp_le by done.
  destruct (Z.eqb_spec (toZ (se_addr x)) (toZ (se_addr y))); cbn [negb]; rewrite ?Z.ltb_lt, ?Z.leb_le; lia.
Qed.

Section compute_root.
  Context (range_storage : nat -> storage_map -> list (storageKey * Uint256)).
  Context (range_accounts : nat -> account_map -> list (Uint256 * Account)).
  Context (storage_perm : forall seed m, range_storage seed m ≡ₚ map_to_list m).
  Context (accounts_perm : forall seed m, range_accounts seed m ≡ₚ map_to_list m).

Lemma storage_entries_length seed t : length (storage_entries range_storage seed t) = size (storage t).
Proof.
  unfold storage_entries. rewrite length_sort_by, length_map, storage_perm. by rewrite length_map_to_list.
Qed.
Lemma account_entries_length seed t : length (account_entries range_accounts seed t) = size (accounts t).
Proof. unfold account_entries. rewrite length_sort_by, accounts_perm. by rewrite length_map_to_list. Qed.

(** The capacity reserved is enough, whatever the state: at most 4 nodes per account
    and 8 per storage slot are allocated. *)
Lemma buildAccountTrie_spec seed t a :
  0 <= node_cap a ->
  exists a', buildAccountTrie range_storage range_accounts seed t a =
      Ok (trie_of None (state_pairs (account_entries range_accounts seed t) (storage_entries range_storage seed t)), a') /\
    nodeCount a' <= 4 * Z.of_nat (size (accounts t)) + 8 * Z.of_nat (size (storage t)).
Proof.
  intros Ha. unfold buildAccountTrie. cbn zeta. set (es := storage_entries _ seed t). set (accts := account_entries _ seed t).
  set (a0 := reset (reserveArena t a)).
  assert (nodeCount a0 = 0) as Hz by done.
  assert (4 * Z.of_nat (size (accounts t)) + 8 * Z.of_nat (size (storage t)) <= node_cap a0) as Hcap.
  { unfold a0, reserveArena. destruct (Z.eqb_spec (Z.of_nat (size (accounts t) + size (storage t))) 0); cbn; lia. }
  pose proof (storage_entries_length seed t) as Les. pose proof (account_entries_length seed t) as Lac.
  fold es in Les. fold accts in Lac.
  pose proof (insert_accounts_spec accts None es a0) as Hacc.
  pose proof (account_pairs_ok accts es) as Hok1. pose proof (account_pairs_length accts es) as Hl.
  unfold state_pairs. destruct (account_pairs accts es) as [ps rest]. cbn [fst snd] in *.
  unfold mbind, arenaM_bind.
  destruct (Hacc I ltac:(lia)) as (a1 & E1 & C1 & K1). rewrite E1. cbn beta iota.
  pose proof (insert_orphans_spec (length rest) None (trie_of None ps) rest a1) as Ho.
  pose proof (orphan_pairs_ok (length rest) None rest) as Hok2.
  destruct (orphan_pairs (length rest) None rest) as [ops rest']. cbn [fst snd] in *.
  destruct (Ho (trie_of_owf None ps I Hok1) ltac:(lia)) as (a2 & E2 & C2 & K2). rewrite E2.
  exists a2. split; [by rewrite trie_of_app|]. lia.
Qed.

(** Two states with the same accounts and storage have the same sorted entries. *)
Lemma storage_entries_unique seed seed' t t' :
  storage t = storage t' ->
  (forall k x, storage t !! k = Some x -> u256_ok (sk_addr k) /\ u256_ok (sk_slot k)) ->
  storage_entries range_storage seed t = storage_entries range_storage seed' t'.
Proof.
  intros Est Hok. unfold storage_entries. rewrite <- Est.
  assert (Forall entry_ok (map (fun kv => SEntry (sk_addr kv.1) (sk_slot kv.1) kv.2) (range_storage seed (storage t)))) as Hall.
  { apply Forall_map, Forall_forall. intros [k x] Hin. apply list_elem_of_In in Hin.
    rewrite storage_perm, elem_of_map_to_list in Hin. by apply Hok in Hin. }
  apply (sort_by_unique entry_le entry_ok); [| |done| |].
  - intros x y Hx Hy. rewrite !entry_le_spec by done. lia.
  - intros x y z Hx Hy Hz. rewrite !entry_le_spec by done. lia.
  - by rewrite !storage_perm.
  - intros x y Hx Hy Lxy Lyx. rewrite Forall_forall in Hall.
    pose proof (Hall x ltac:(by apply list_elem_of_In)) as Ox. pose proof (Hall y ltac:(by apply list_elem_of_In)) as Oy.
    rewrite entry_le_spec in Lxy, Lyx by done.
    apply list_elem_of_fmap in Hx as ([[a1 s1] v1] & -> & Hx). apply list_elem_of_fmap in Hy as ([[a2 s2] v2] & -> & Hy).
    rewrite storage_perm, elem_of_map_to_list in Hx, Hy. unfold entry_ok in *. cbn in *.
    assert (a1 = a2) as -> by (apply toZ_inj; [tauto | tauto | lia]).
    assert (s1 = s2) as -> by (apply toZ_inj; [tauto | tauto | lia]). congruence.
Qed.

Lemma account_entries_unique seed seed' t t' :
  accounts t = accounts t' ->
  (forall a acc, accounts t !! a = Some acc -> u256_ok a) ->
  account_entries range_accounts seed t = account_entries range_accounts seed' t'.
Proof.
  intros Est Hok. unfold account_entries. rewrite <- Est.
  assert (Forall (fun p : Uint256 * Account => u256_ok p.1) (range_accounts seed (accounts t))) as Hall.
  { apply Forall_forall. intros [k x] Hin. apply list_elem_of_In in Hin.
    rewrite accounts_perm, elem_of_map_to_list in Hin. by eapply Hok. }
  apply (sort_by_unique account_le (fun p => u256_ok p.1)); [| |done| |].
  - intros x y Hx Hy. unfold account_le. rewrite !Cmp_le, !Z.leb_le by done. lia.
  - intros x y z Hx Hy Hz. unfold account_le. rewrite !Cmp_le, !Z.leb_le by done. lia.
  - by rewrite !accounts_perm.
  - intros [k1 x] [k2 y] Hx Hy Lxy Lyx. rewrite Forall_forall in Hall.
    pose proof (Hall _ ltac:(by apply list_elem_of_In, Hx)) as Ox. pose proof (Hall _ ltac:(by apply list_elem_of_In, Hy)) as Oy.
    cbn in Ox, Oy. unfold account_le in *. rewrite Cmp_le, Z.leb_le in Lxy, Lyx by done. cbn in *.
    assert (k1 = k2) as -> by (apply toZ_inj; [done | done | lia]).
    rewrite accounts_perm, elem_of_map_to_list in Hx, Hy. congruence.
Qed.

(** [ComputeRoot] never exhausts its arena, and is a function of the view. *)
Lemma ComputeRoot_det seed seed' t t' a a' :
  state_view t = state_view t' ->
  (forall k x, storage t !! k = Some x -> u256_ok (sk_addr k) /\ u256_ok (sk_slot k)) ->
  (forall k acc, accounts t !! k = Some acc -> u256_ok k) ->
  0 <= node_cap a -> 0 <= node_cap a' ->
  exists h, ComputeRoot range_storage range_accounts seed t a = Ok h /\
    ComputeRoot range_storage range_accounts seed' t' a' = Ok h.
Proof.
  intros Ev Hs Hac Ha Ha'. injection Ev as Eacc Est. unfold ComputeRoot. rewrite <- Eacc, <- Est.
  destruct (_ && _); [by eexists|].
  destruct (buildAccountTrie_spec seed t a Ha) as (b & E & _).
  destruct (buildAccountTrie_spec seed' t' a' Ha') as (b' & E' & _).
  rewrite E, E'. cbn. eexists. split; [done|].
  by rewrite (storage_entries_unique seed seed' t t'), (account_entries_unique seed seed' t t').
Qed.
End compute_root.
