(* ===== verification/RlpFacts.v ===== *)
(** * Facts on RLP encodings

    Headers, integers and lists as [Mpt] encodes them, for the two decoders that
    read them back ([BatchRlp] and [TxDecode]). *)

From S2P Require Import Prelude Uint256 Mpt StateRoot StateRootSpec.

(** ** Slices *)

Lemma slice_split {A} (l : list A) lo hi :
  (lo <= hi <= length l)%nat -> l = take lo l ++ slice l lo hi ++ drop hi l.
Proof.
  intros H. unfold slice. rewrite <- (take_drop lo l) at 1. f_equal.
  rewrite <- (take_drop (hi - lo) (drop lo l)) at 1. f_equal. rewrite drop_drop. f_equal. lia.
Qed.

Lemma slice_drop {A} (l : list A) lo : slice l lo (length l) = drop lo l.
Proof. unfold slice. apply take_ge. rewrite length_drop. lia. Qed.

Lemma go_slice_mid {E A} (a p r : list A) lo hi :
  lo = Z.of_nat (length a) -> hi = lo + Z.of_nat (length p) -> go_slice (E := E) (a ++ p ++ r) lo hi = Ok p.
Proof.
  intros -> ->. rewrite go_slice_ok by (rewrite ?length_app; lia).
  rewrite <- Nat2Z.inj_add, !Nat2Z.id. by rewrite slice_mid.
Qed.

Lemma go_slice_end {E A} (a r : list A) lo hi :
  lo = Z.of_nat (length a) -> hi = lo + Z.of_nat (length r) -> go_slice (E := E) (a ++ r) lo hi = Ok r.
Proof. intros -> ->. rewrite <- (app_nil_r r) at 1. by apply go_slice_mid. Qed.

Lemma go_slice_panic {E A} (b : list A) lo hi : hi < lo -> go_slice (E := E) b lo hi = Panic.
Proof. intros H. unfold go_slice. destruct (0 <=? lo); [|done]. by destruct (Z.leb_spec lo hi); [lia|]. Qed.

(** ** Headers and lists *)

Lemma RlpEncodeListHeader_ne n : RlpEncodeListHeader n <> [].
Proof. unfold RlpEncodeListHeader. by gtest. Qed.

Definition rlp_header (base n : Z) : bytes :=
  if n <? 56 then [base + n]
  else base + 55 + Z.of_nat (rlpIntLen n) :: rlpWriteInt n (rlpIntLen n).

Lemma RlpEncodeListHeader_header n : 0 <= n < B64 -> RlpEncodeListHeader n = rlp_header 0xc0 n.
Proof.
  intros Hn. unfold RlpEncodeListHeader, rlp_header, u8. gtest; [by rewrite Z.mod_small by lia|].
  destruct (rlpIntLen_spec n); [lia|]. rewrite Z.mod_small by lia. done.
Qed.

Lemma RlpEncodeBytes_header b :
  Z.of_nat (length b) < B64 ->
  RlpEncodeBytes b = if single_byte b then b else rlp_header 0x80 (Z.of_nat (length b)) ++ b.
Proof.
  intros Hn. unfold RlpEncodeBytes, rlp_header, u8. destruct (single_byte b); [done|].
  gtest; [by rewrite Z.mod_small by lia|]. destruct (rlpIntLen_spec (Z.of_nat (length b))); [lia|].
  rewrite Z.mod_small by lia. done.
Qed.

Lemma length_RlpEncodeBytes_ge b : (length b <= length (RlpEncodeBytes b))%nat.
Proof.
  unfold RlpEncodeBytes. destruct (single_byte b); [lia|]. gtest; cbn [length]; rewrite ?length_app; lia.
Qed.

Lemma payload_length (items : list bytes) (a : Z) :
  foldl (fun p it => p + Z.of_nat (length it)) a items = a + Z.of_nat (length (concat items)).
Proof. revert a. induction items as [|x l IH]; intros a; cbn [foldl concat length]; [lia|]. rewrite IH, length_app. lia. Qed.

(** ** Integers *)

Lemma shift_or n c : 0 <= n -> is_byte c -> Z.lor (Z.shiftl n 8) c = n * 256 + c.
Proof.
  intros Hn Hc. rewrite Z.lor_comm, Z.shiftl_mul_pow2, (Z.mul_comm n) by lia.
  rewrite lor_disjoint_add; [lia|lia|exact Hc].
Qed.

Lemma rlp_uint_string n : is_u64 n -> exists b,
  (if n =? 0 then [0x80] else RlpEncodeBytes (uint_bytes 8 n [])) = RlpEncodeBytes b /\ bytes_ok b /\ (length b <= 8)%nat /\
  be_val b = n /\ b !! 0%nat <> Some 0.
Proof.
  intros Hn. destruct (Z.eqb_spec n 0) as [->|Hz].
  { exists []. split_and!; try done; [constructor|cbn; lia]. }
  destruct (uint_bytes_spec 8 n []) as (l & E & Hl & Ev & Hh); [exact Hn|]. rewrite E, app_nil_r.
  exists l. split_and!; try done.
  destruct (decide (length l <= 8)%nat) as [|Hlen]; [done|]. exfalso. destruct l as [|c l]; [cbn in Hlen; lia|].
  apply Forall_cons_iff in Hl as [Hc Hl]. unfold is_byte in Hc. rewrite be_val_cons in Ev.
  pose proof (be_val_range l Hl). assert (c <> 0) by (cbn in Hh; congruence). cbn [length] in Hlen.
  assert (256 ^ 8 <= 256 ^ Z.of_nat (length l)) by (apply Z.pow_le_mono_r; lia). change (256 ^ 8) with B64 in *.
  unfold is_u64 in Hn. nia.
Qed.

Lemma rlp_word_string z : u256_ok z -> exists b,
  (if IsZero z then [0x80] else RlpEncodeBytes (skip_zeros (BytesBE z))) = RlpEncodeBytes b /\ bytes_ok b /\ (length b <= 32)%nat /\
  be_val b = toZ z /\ b !! 0%nat <> Some 0.
Proof.
  intros Hz. rewrite IsZero_spec by done. destruct (Z.eqb_spec (toZ z) 0) as [->|Hne].
  { exists []. split_and!; try done; [constructor|cbn; lia]. }
  destruct (skip_zeros_spec (BytesBE z)) as (n & E & Hh). exists (skip_zeros (BytesBE z)).
  pose proof (length_BytesBE z) as Hl. pose proof (BytesBE_ok z) as Hok. pose proof (be_val_BytesBE z Hz) as Hv.
  rewrite E in Hl, Hok, Hv. rewrite length_app, length_zeros in Hl. rewrite be_val_zeros in Hv.
  apply Forall_app in Hok as [_ Hok]. split_and!; try done. lia.
Qed.

Lemma fold_shift b n :
  bytes_ok b -> 0 <= n -> n * 256 ^ Z.of_nat (length b) + be_val b < B64 ->
  foldl (fun n c => Z.lor (shl64 n 8) c) n b = n * 256 ^ Z.of_nat (length b) + be_val b.
Proof.
  intros Hb. revert n. induction Hb as [|c b Hc Hb IH]; intros n Hn Hlt; cbn [foldl].
  { unfold be_val. cbn. lia. }
  rewrite be_val_cons in *. cbn [length] in *. rewrite Nat2Z.inj_succ, Z.pow_succ_r in * by lia.
  pose proof (be_val_range b Hb). unfold is_byte in Hc.
  assert (0 < 256 ^ Z.of_nat (length b)) by (apply Z.pow_pos_nonneg; lia).
  unfold shl64. rewrite u64_small by (unfold is_u64; rewrite Z.shiftl_mul_pow2 by lia; nia).
  rewrite shift_or by done. rewrite IH by lia. lia.
Qed.

