(* ===== verification/StorageProof.v ===== *)
(** * Storage proofs: [pkg/statetrie/storage_proof.go]

    Offsets and lengths are Go [int]s: their arithmetic wraps ([i64]), which a
    length prefix of 8 bytes can reach. Indexing and slicing out of range are
    [Panic]. The loop of [walkProof] that counts the items of a node has no bound
    of its own: it runs with [fuel]. *)

From S2P Require Import Prelude Uint256 Keccak Mpt StateTrie Trie StateRoot.

(** ** Generation *)

Definition EncodeStorageValue (val : Uint256) : bytes := rlpEncodeUint256 val.

(** The encodings that [collectStorageProof] appends below the node [n]. *)
Fixpoint collect_below (n : mptNode) (key : bytes) : list bytes :=
  let visit c key :=
    let enc := encodeNode c in
    let proof := collect_below c key in
    if (32 <=? length enc)%nat then enc :: proof else proof in
  match n with
  | mptLeaf _ _ => []
  | mptExt nibbles child =>
      match strip nibbles key with Some rest => visit child rest | None => [] end
  | mptBranch children _ =>
      match key with
      | [] => []
      | k :: rest => with_child (fun c => visit c rest) [] children (Z.to_nat k)
      end
  end.

Definition collectStorageProof (root : option mptNode) (key : bytes) : list bytes :=
  match root with
  | None => []
  | Some n => encodeNode n :: collect_below n key
  end.

Definition GenerateStorageProof (range_storage : nat -> storage_map -> list (storageKey * Uint256))
  (seed : nat) (t : StateTrie) (addr slot : Uint256) : outcome Empty_set (bytes * list bytes) :=
  let a := normalizeAddr addr in
  let slots : list slotPair := map (fun kv => (sk_slot kv.1, kv.2))
    (filter (fun kv => sk_addr kv.1 = a) (range_storage seed (storage t))) in
  root ← buildStorageTrie slots;
  match root with
  | None => Ok (emptyRoot, [[0x80]])
  | Some _ => Ok (hashRoot root, collectStorageProof root (slotKey slot))
  end.

(** ** Reading RLP *)

Abbreviation check := (outcome Empty_set).

Definition index (b : bytes) (i : Z) : check Z :=
  if (0 <=? i) && (i <? Z.of_nat (length b)) then Ok (b !!! Z.to_nat i) else Panic.
Definition subslice (b : bytes) (lo hi : Z) : check bytes :=
  if (0 <=? lo) && (lo <=? hi) && (hi <=? Z.of_nat (length b))
  then Ok (slice b (Z.to_nat lo) (Z.to_nat hi)) else Panic.

(** [n = n<<8 | int(c)] over the prefix. *)
Definition rlpLen (prefix : bytes) : option Z :=
  if (length prefix =? 0)%nat || (8 <? length prefix)%nat then None
  else Some (foldl (fun n c => i64 (Z.lor (Z.shiftl n 8) c)) 0 prefix).

Record rlp_item := Item { it_list : bool; it_off : Z; it_len : Z; it_next : Z }.

(** The cases with a one-byte header, and with [ll] length bytes. *)
Definition short_item (isList : bool) (b : bytes) (off l : Z) : option rlp_item :=
  if Z.of_nat (length b) <? i64 (off + 1 + l) then None
  else Some (Item isList (off + 1) l (i64 (off + 1 + l))).
Definition long_item (isList : bool) (b : bytes) (off ll : Z) : option rlp_item :=
  if Z.of_nat (length b) <? off + 1 + ll then None
  else
    match rlpLen (slice b (Z.to_nat (off + 1)) (Z.to_nat (off + 1 + ll))) with
    | None => None
    | Some l =>
        if Z.of_nat (length b) <? i64 (off + 1 + ll + l) then None
        else Some (Item isList (off + 1 + ll) l (i64 (off + 1 + ll + l)))
    end.

(** [None] is [ok = false]. *)
Definition rlpItem (b : bytes) (off : Z) : option rlp_item :=
  if (off <? 0) || (Z.of_nat (length b) <=? off) then None
  else
    let p := b !!! Z.to_nat off in
    if p <? 0x80 then Some (Item false off 1 (off + 1))
    else if p <=? 0xb7 then short_item false b off (p - 0x80)
    else if p <=? 0xbf then long_item false b off (p - 0xb7)
    else if p <=? 0xf7 then short_item true b off (p - 0xc0)
    else long_item true b off (p - 0xf7).

(** ** Verification *)

Definition isNullRLP (v : bytes) : bool := bool_decide (v = [0x80]).

Definition keyNibble (keyHash : bytes) (idx : Z) : Z :=
  let b := keyHash !!! Z.to_nat (Z.shiftr idx 1) in
  if Z.land idx 1 =? 0 then Z.shiftr b 4 else Z.land b 0x0f.

(** [(isLeaf, odd, pathLen)]; [None] is [ok = false]. *)
Definition compactInfo (node : bytes) (off length : Z) : check (option (bool * bool * Z)) :=
  if length =? 0 then Ok None
  else
    b ← index node off;
    let flag := Z.shiftr b 4 in
    let isLeaf := negb (Z.land flag 2 =? 0) in
    let odd := negb (Z.land flag 1 =? 0) in
    let pathLen := (length - 1) * 2 in
    Ok (Some (isLeaf, odd, if odd then pathLen + 1 else pathLen)).

Definition compactNibble (node : bytes) (off : Z) (odd : bool) (j : Z) : check Z :=
  if odd && (j =? 0) then b ← index node off; Ok (Z.land b 0x0f)
  else
    let j := if odd then j - 1 else j in
    b ← index node (off + 1 + Z.quot j 2);
    Ok (if Z.land j 1 =? 0 then Z.shiftr b 4 else Z.land b 0x0f).

(** The loop of [pathMatches] with [n] nibbles left, at nibble [j]. *)
Fixpoint path_loop (n : nat) (node : bytes) (off : Z) (odd : bool) (keyHash : bytes) (pos j : Z) : check bool :=
  match n with
  | O => Ok true
  | S n =>
      c ← compactNibble node off odd j;
      if negb (c =? keyNibble keyHash (pos + j)) then Ok false
      else path_loop n node off odd keyHash pos (j + 1)
  end.

Definition pathMatches (node : bytes) (off : Z) (odd : bool) (pathLen : Z) (keyHash : bytes) (pos : Z) : check bool :=
  if 64 <? pos + pathLen then Ok false else path_loop (Z.to_nat pathLen) node off odd keyHash pos 0.

(** [for o := dataOff; o < end; { ... }]: the number of items, or [None] when an item
    does not parse. *)
Fixpoint count_items (fuel : nat) (node : bytes) (o end_ : Z) (cnt : Z) : check (option Z) :=
  match fuel with
  | O => OutOfFuel
  | S fuel =>
      if o <? end_ then
        match rlpItem node o with
        | None => Ok None
        | Some it => count_items fuel node (it_next it) end_ (cnt + 1)
        end
      else Ok (Some cnt)
  end.

Section walk.
  Context (fuel : nat) (proof : list bytes) (keyHash expected : bytes).

(** [walk] is [walkProof] one level deeper. *)
Definition descendProof (walk : nat -> bytes -> Z -> check bool)
  (ptr : nat) (node : bytes) (itemStart : Z) (it : rlp_item) (pos : Z) : check bool :=
  if it_list it then
    child ← subslice node itemStart (it_next it);
    walk ptr child pos
  else if it_len it =? 0 then Ok (isNullRLP expected)
  else if negb (it_len it =? 32) then Ok false
  else if (length proof <=? S ptr)%nat then Ok false
  else
    let child := proof !!! S ptr in
    h ← subslice node (it_off it) (it_off it + 32);
    if negb (bool_decide (Keccak256 child = h)) then Ok false
    else walk (S ptr) child pos.

(** A node of two items: a leaf or an extension. *)
Definition walk_pair (walk : nat -> bytes -> Z -> check bool)
  (ptr : nat) (node : bytes) (dataOff pos : Z) : check bool :=
  match rlpItem node dataOff with
  | None => Ok false
  | Some i1 =>
      match rlpItem node (it_next i1) with
      | None => Ok false
      | Some i2 =>
          if it_list i1 || it_list i2 then Ok false
          else
            info ← compactInfo node (it_off i1) (it_len i1);
            match info : option (bool * bool * Z) with
            | None => Ok false
            | Some (isLeaf, odd, pathLen) =>
                if isLeaf then
                  if negb (pos + pathLen =? 64) then Ok (isNullRLP expected)
                  else
                    m ← pathMatches node (it_off i1) odd pathLen keyHash pos;
                    if negb m then Ok (isNullRLP expected)
                    else
                      v ← subslice node (it_off i2) (it_off i2 + it_len i2);
                      Ok (bool_decide (v = expected))
                else if 64 <=? pos + pathLen then Ok (isNullRLP expected)
                else
                  m ← pathMatches node (it_off i1) odd pathLen keyHash pos;
                  if negb m then Ok (isNullRLP expected)
                  else descendProof walk ptr node (it_next i1) i2 (pos + pathLen)
            end
      end
  end.

(** A node of seventeen items: the child loop at index [i], with [n] children left. *)
Fixpoint walk_branch (walk : nat -> bytes -> Z -> check bool)
  (n : nat) (ptr : nat) (node : bytes) (off i pos : Z) : check bool :=
  match n with
  | O =>
      match rlpItem node off with
      | None => Ok false
      | Some it =>
          if it_list it then Ok false
          else if pos =? 64 then
            if it_len it =? 0 then Ok (isNullRLP expected)
            else
              v ← subslice node (it_off it) (it_off it + it_len it);
              Ok (bool_decide (v = expected))
          else Ok false
      end
  | S n =>
      match rlpItem node off with
      | None => Ok false
      | Some it =>
          if negb (64 <=? pos) && (i =? keyNibble keyHash pos)
          then descendProof walk ptr node off it (pos + 1)
          else walk_branch walk n ptr node (it_next it) (i + 1) pos
      end
  end.

(** [depth] is the number of levels left: 65 minus the source's [depth]. *)
Fixpoint walkProof (depth : nat) (ptr : nat) (node : bytes) (pos : Z) : check bool :=
  match depth with
  | O => Ok false
  | S depth =>
      match rlpItem node 0 with
      | None => Ok false
      | Some it =>
          if negb (it_list it) then Ok false
          else
            cnt ← count_items fuel node (it_off it) (i64 (it_off it + it_len it)) 0;
            match cnt with
            | None => Ok false
            | Some cnt =>
                if cnt =? 2 then walk_pair (walkProof depth) ptr node (it_off it) pos
                else if cnt =? 17 then walk_branch (walkProof depth) 16 ptr node (it_off it) 0 pos
                else Ok false
            end
      end
  end.
End walk.

Definition VerifyStorageProof (fuel : nat) (storageRoot keyHash expected : bytes) (proof : list bytes) : check bool :=
  match proof with
  | [] => Ok false
  | p0 :: _ =>
      if negb (bool_decide (Keccak256 p0 = storageRoot)) then Ok false
      else if bool_decide (p0 = [0x80]) then Ok (isNullRLP expected)
      else walkProof fuel proof keyHash expected 65 0 p0 0
  end.
