(* ===== verification/StorageProofSpec.v ===== *)
(** * Storage proofs bind the root to the value: theorems on [VerifyStorageProof] *)

From S2P Require Import Prelude Uint256 Keccak Mpt StateTrie Trie StateRoot StorageProof.

(** ** Soundness

    Two proofs accepted for the same root and key prove the same value, unless an
    entry of the first and an entry of the second are a Keccak collision. *)

Definition collision (p1 p2 : list bytes) : Prop :=
  exists x y, x ∈ p1 /\ y ∈ p2 /\ x <> y /\ Keccak256 x = Keccak256 y.

Lemma count_items_mono f f' node o e c r :
  count_items f node o e c = Ok r -> (f <= f')%nat -> count_items f' node o e c = Ok r.
Proof.
  revert f' o c. induction f as [|f IH]; intros [|f'] o c E Hle; cbn in *; try done; [lia|].
  destruct (o <? e); [|done]. destruct (rlpItem node o); [|done]. apply IH; [done|lia].
Qed.

Lemma count_items_agree f f' node o e c r r' :
  count_items f node o e c = Ok r -> count_items f' node o e c = Ok r' -> r = r'.
Proof.
  intros E E'. apply (count_items_mono _ (Nat.max f f')) in E; [|lia].
  apply (count_items_mono _ (Nat.max f f')) in E'; [|lia]. congruence.
Qed.

Lemma isNull_agree e1 e2 : isNullRLP e1 = true -> isNullRLP e2 = true -> e1 = e2.
Proof. unfold isNullRLP. rewrite !bool_decide_eq_true. by intros -> ->. Qed.

Lemma lookup_total_elem (p : list bytes) i : (i < length p)%nat -> p !!! i ∈ p.
Proof.
  intros Hi. apply list_elem_of_lookup. exists i. by apply list_lookup_lookup_total_lt.
Qed.

Section soundness.
  Context (keyHash : bytes) (f1 f2 : nat) (p1 p2 : list bytes) (e1 e2 : bytes).

Definition agree : Prop := e1 = e2 \/ collision p1 p2.

Definition walks_agree (w1 w2 : nat -> bytes -> Z -> check bool) : Prop :=
  forall ptr1 ptr2 node pos, w1 ptr1 node pos = Ok true -> w2 ptr2 node pos = Ok true -> agree.

Lemma descend_agree w1 w2 ptr1 ptr2 node s it pos :
  walks_agree w1 w2 ->
  descendProof p1 e1 w1 ptr1 node s it pos = Ok true ->
  descendProof p2 e2 w2 ptr2 node s it pos = Ok true -> agree.
Proof.
  intros Hw. unfold descendProof. destruct (it_list it).
  { destruct (subslice node s (it_next it)); cbn; try done. apply Hw. }
  destruct (it_len it =? 0).
  { intros [= E1] [= E2]. left. by apply isNull_agree. }
  destruct (negb (it_len it =? 32)); [done|].
  destruct (Nat.leb_spec (length p1) (S ptr1)) as [|H1]; [done|].
  destruct (Nat.leb_spec (length p2) (S ptr2)) as [|H2]; [done|].
  destruct (subslice node (it_off it) (it_off it + 32)) as [h| | |]; cbn; try done.
  case_bool_decide as K1; [|done]. case_bool_decide as K2; [|done]. cbn.
  destruct (decide (p1 !!! S ptr1 = p2 !!! S ptr2)) as [E|Hne].
  - rewrite E. apply Hw.
  - intros _ _. right. exists (p1 !!! S ptr1), (p2 !!! S ptr2).
    split_and!; auto using lookup_total_elem. congruence.
Qed.

Lemma pair_agree w1 w2 ptr1 ptr2 node dataOff pos :
  walks_agree w1 w2 ->
  walk_pair p1 keyHash e1 w1 ptr1 node dataOff pos = Ok true ->
  walk_pair p2 keyHash e2 w2 ptr2 node dataOff pos = Ok true -> agree.
Proof.
  intros Hw. unfold walk_pair. destruct (rlpItem node dataOff) as [i1|]; [|done].
  destruct (rlpItem node (it_next i1)) as [i2|]; [|done]. destruct (_ || _); [done|].
  destruct (compactInfo _ _ _) as [[[[isLeaf odd] pathLen]|]| | |]; cbn; try done.
  destruct isLeaf.
  - destruct (negb _); [intros [= E1] [= E2]; left; by apply isNull_agree|].
    destruct (pathMatches _ _ _ _ _ _) as [m| | |]; cbn; try done.
    destruct (negb m); [intros [= E1] [= E2]; left; by apply isNull_agree|].
    destruct (subslice _ _ _) as [v| | |]; cbn; try done.
    intros [= E1] [= E2]. apply bool_decide_eq_true in E1, E2. left. congruence.
  - destruct (64 <=? _); [intros [= E1] [= E2]; left; by apply isNull_agree|].
    destruct (pathMatches _ _ _ _ _ _) as [m| | |]; cbn; try done.
    destruct (negb m); [intros [= E1] [= E2]; left; by apply isNull_agree|].
    by apply descend_agree.
Qed.

Lemma branch_agree w1 w2 n ptr1 ptr2 node off i pos :
  walks_agree w1 w2 ->
  walk_branch p1 keyHash e1 w1 n ptr1 node off i pos = Ok true ->
  walk_branch p2 keyHash e2 w2 n ptr2 node off i pos = Ok true -> agree.
Proof.
  intros Hw. revert off i. induction n as [|n IH]; intros off i; cbn [walk_branch];
    destruct (rlpItem node off) as [it|]; try done.
  - destruct (it_list it); [done|]. destruct (pos =? 64); [|done].
    destruct (it_len it =? 0); [intros [= E1] [= E2]; left; by apply isNull_agree|].
    destruct (subslice _ _ _) as [v| | |]; cbn; try done.
    intros [= E1] [= E2]. apply bool_decide_eq_true in E1, E2. left. congruence.
  - destruct (_ && _); [by apply descend_agree | apply IH].
Qed.

Lemma walk_agree depth : walks_agree (walkProof f1 p1 keyHash e1 depth) (walkProof f2 p2 keyHash e2 depth).
Proof.
  induction depth as [|depth IH]; intros ptr1 ptr2 node pos; cbn [walkProof]; [done|].
  destruct (rlpItem node 0) as [it|]; [|done]. destruct (negb (it_list it)); [done|].
  set (end_ := i64 (it_off it + it_len it)).
  destruct (count_items f1 node (it_off it) end_ 0) as [c1| | |] eqn:C1; try done.
  destruct (count_items f2 node (it_off it) end_ 0) as [c2| | |] eqn:C2; cbn [mbind outcome_bind]; [|intros; discriminate..].
  assert (c1 = c2) as <- by by eapply count_items_agree.
  destruct c1 as [cnt|]; [|done].
  destruct (cnt =? 2); [by apply pair_agree|]. destruct (cnt =? 17); [by eapply branch_agree | done].
Qed.

Lemma verify_agree root :
  VerifyStorageProof f1 root keyHash e1 p1 = Ok true ->
  VerifyStorageProof f2 root keyHash e2 p2 = Ok true -> agree.
Proof.
  unfold VerifyStorageProof. destruct p1 as [|x r1] eqn:Ep1, p2 as [|y r2] eqn:Ep2; try done.
  destruct (bool_decide_reflect (Keccak256 x = root)) as [K1|]; [|intros V; discriminate V].
  destruct (bool_decide_reflect (Keccak256 y = root)) as [K2|]; [|intros _ V; discriminate V].
  cbn [negb].
  destruct (decide (x = y)) as [<-|Hne].
  - case_bool_decide as N; [intros [= E1] [= E2]; left; by apply isNull_agree|].
    rewrite <- Ep1, <- Ep2. apply walk_agree.
  - intros _ _. right. exists x, y. rewrite Ep1, Ep2. split_and!; [by left | by left | done | congruence].
Qed.
End soundness.

(** ** The counting loop can run for ever

    An item whose length prefix is 8 bytes of value 2^64 - 9 makes the next offset
    the current one. *)
Definition looping_node : bytes := [0xc9; 0xbf; 0xff; 0xff; 0xff; 0xff; 0xff; 0xff; 0xff; 0xf7].

Lemma looping_node_diverges fuel cnt : count_items fuel looping_node 1 10 cnt = OutOfFuel.
Proof.
  revert cnt. induction fuel as [|fuel IH]; intros cnt; [done|]. cbn [count_items].
  change (1 <? 10) with true. cbn iota.
  replace (rlpItem looping_node 1) with (Some (Item false 10 (-9) 1)) by (vm_compute; reflexivity).
  apply IH.
Qed.

Lemma VerifyStorageProof_diverges fuel keyHash expected :
  VerifyStorageProof fuel (Keccak256 looping_node) keyHash expected [looping_node] = OutOfFuel.
Proof.
  unfold VerifyStorageProof. rewrite bool_decide_eq_true_2 by done. cbn [negb].
  rewrite bool_decide_eq_false_2 by done. change 65%nat with (S 64). generalize 64%nat. intros depth.
  cbn [walkProof].
  replace (rlpItem looping_node 0) with (Some (Item true 1 9 10)) by (vm_compute; reflexivity).
  cbn [it_list negb it_off it_len]. change (i64 (1 + 9)) with 10. by rewrite looping_node_diverges.
Qed.
