(* ===== verification/BlockTypes.v ===== *)
(** * Data of blocks: [pkg/c2block/types.go]

    Addresses and hashes are byte strings of length 20 and 32 ([tx_ok] states the
    lengths); a nil [*Address] is [None]. *)

From S2P Require Import Prelude Uint256.

Abbreviation TxLegacy := 0.
Abbreviation TxAccessList := 1.
Abbreviation TxDynamicFee := 2.
Abbreviation TxBlob := 3.

Abbreviation Address := bytes.
Abbreviation Hash := bytes.

Record AccessTuple := MkAccessTuple { at_address : Address; at_keys : list Hash }.

Record Transaction := MkTx {
  tx_Type : Z;
  tx_ChainID : Uint256;
  tx_Nonce : Z;
  tx_GasPrice : Uint256;
  tx_GasTipCap : Uint256;
  tx_GasFeeCap : Uint256;
  tx_Gas : Z;
  tx_To : option Address;
  tx_Value : Uint256;
  tx_Data : bytes;
  tx_AccessList : list AccessTuple;
  tx_BlobFeeCap : Uint256;
  tx_BlobHashes : list Hash;
  tx_V : Uint256;
  tx_R : Uint256;
  tx_S : Uint256;
  tx_From : Address;
  tx_Hash : Hash;
}.

Record BlockHeader := MkHeader {
  h_ParentHash : Hash;
  h_Coinbase : Address;
  h_StateRoot : Hash;
  h_ReceiptsRoot : Hash;
  h_Bloom : bytes;
  h_Number : Z;
  h_GasLimit : Z;
  h_GasUsed : Z;
  h_Timestamp : Z;
  h_Extra : bytes;
  h_MixDigest : Hash;
  h_Nonce : Z;
  h_BaseFee : Uint256;
  h_BlobGasUsed : Z;
  h_ExcessBlobGas : Z;
  h_Difficulty : Uint256;
  h_ChainID : Uint256;
}.

Record Log := MkLog { log_Address : Address; log_Topics : list Hash; log_Data : bytes }.

Record Receipt := MkReceipt {
  r_Status : Z;
  r_CumulativeGasUsed : Z;
  r_Bloom : bytes;
  r_Logs : list Log;
  r_TxHash : Hash;
  r_ContractAddress : Address;
  r_GasUsed : Z;
  r_ReturnData : bytes;
}.

Record BlockResult := MkResult {
  res_Receipts : list Receipt;
  res_GasUsed : Z;
  res_ReceiptsRoot : Hash;
  res_Bloom : bytes;
  res_StateRoot : Hash;
}.

#[export] Instance AccessTuple_eq_dec : EqDecision AccessTuple.
Proof. solve_decision. Defined.
#[export] Instance Transaction_eq_dec : EqDecision Transaction.
Proof. solve_decision. Defined.

Definition is_address (a : Address) : Prop := bytes_ok a /\ length a = 20%nat.
Definition is_hash (h : Hash) : Prop := bytes_ok h /\ length h = 32%nat.

(** The fields a batch carries are in their Go types. *)
Record tx_ok (tx : Transaction) : Prop := {
  to_type : 0 <= tx_Type tx < 256;
  to_nonce : is_u64 (tx_Nonce tx);
  to_gas : is_u64 (tx_Gas tx);
  to_tip : u256_ok (tx_GasTipCap tx);
  to_fee : u256_ok (tx_GasFeeCap tx);
  to_price : u256_ok (tx_GasPrice tx);
  to_to : match tx_To tx with Some a => is_address a | None => True end;
  to_value : u256_ok (tx_Value tx);
  to_data : bytes_ok (tx_Data tx);
  to_from : is_address (tx_From tx);
  to_hash : is_hash (tx_Hash tx);
}.
