(* ===== verification/GasMath.v ===== *)
(** * Checked gas and fee arithmetic: [pkg/c2seq/retryable.go] *)

From S2P Require Import Prelude Uint256 Arith256.

Inductive seq_err :=
  | ErrNilTx | ErrDuplicate | ErrUnderpriced
  | ErrExpressWindow | ErrExpressFull
  | ErrGasOverflow | ErrGasUnderflow | ErrSubmissionFee | ErrDeposit | ErrTicketMissing | ErrTicketState
  | ErrBatchFormat | ErrBatchTooLarge.

Definition SafeAddGas (a b : Z) : outcome seq_err Z :=
  let '(sum, c) := Add64 a b 0 in
  if negb (c =? 0) then Err ErrGasOverflow else Ok sum.

Definition SafeSubGas (a b : Z) : outcome seq_err Z :=
  let '(d, br) := Sub64 a b 0 in
  if negb (br =? 0) then Err ErrGasUnderflow else Ok d.

Definition SafeMulGas (a b : Z) : outcome seq_err Z :=
  let '(hi, lo) := Mul64 a b in
  if negb (hi =? 0) then Err ErrGasOverflow else Ok lo.

Definition addU256Checked (a b : Uint256) : outcome seq_err Uint256 :=
  let out := Add256 a b in
  if negb (IsZero b) && (Cmp out a <? 0) then Err ErrGasOverflow else Ok out.

(** The loop over the limbs of [a], lowest first; the result is built limb by limb. *)
Fixpoint mul_limbs (a : list Z) (n carry : Z) : outcome seq_err (list Z * Z) :=
  match a with
  | [] => Ok ([], carry)
  | x :: a =>
      let '(hi, lo) := Mul64 x n in
      let '(sum, c1) := Add64 lo carry 0 in
      let '(next, c2) := Add64 hi 0 c1 in
      if negb (c2 =? 0) then Err ErrGasOverflow
      else '(out, carry) ← mul_limbs a n next; Ok (sum :: out, carry)
  end.

Definition mulU256U64Checked (a : Uint256) (n : Z) : outcome seq_err Uint256 :=
  '(out, carry) ← mul_limbs [w0 a; w1 a; w2 a; w3 a] n 0;
  if negb (carry =? 0) then Err ErrGasOverflow
  else Ok (U256 (out !!! 0%nat) (out !!! 1%nat) (out !!! 2%nat) (out !!! 3%nat)).

(** ** Each operation is exact, or reports that the exact result does not fit *)

Lemma SafeAddGas_spec a b :
  is_u64 a -> is_u64 b -> SafeAddGas a b = if a + b <? B64 then Ok (a + b) else Err ErrGasOverflow.
Proof.
  unfold is_u64. intros Ha Hb. unfold SafeAddGas, Add64. rewrite Z.add_0_r.
  destruct (Z.ltb_spec (a + b) B64).
  - rewrite Z.div_small, Z.mod_small by lia. done.
  - assert ((a + b) / B64 = 1) as -> by dlia. done.
Qed.

Lemma SafeSubGas_spec a b :
  is_u64 a -> is_u64 b -> SafeSubGas a b = if b <=? a then Ok (a - b) else Err ErrGasUnderflow.
Proof.
  unfold is_u64. intros Ha Hb. unfold SafeSubGas, Sub64. rewrite Z.add_0_r, Z.sub_0_r.
  destruct (Z.ltb_spec a b), (Z.leb_spec b a); try lia; cbn; [done|].
  by rewrite Z.mod_small by lia.
Qed.

Lemma SafeMulGas_spec a b :
  is_u64 a -> is_u64 b -> SafeMulGas a b = if a * b <? B64 then Ok (a * b) else Err ErrGasOverflow.
Proof.
  unfold is_u64. intros Ha Hb. unfold SafeMulGas, Mul64. assert (0 <= a * b) by nia.
  destruct (Z.ltb_spec (a * b) B64).
  - rewrite Z.div_small, Z.mod_small by lia. done.
  - assert (1 <= a * b / B64) by (apply Z.div_le_lower_bound; lia).
    destruct (Z.eqb_spec (a * b / B64) 0); [lia|done].
Qed.

Lemma addU256Checked_spec a b :
  u256_ok a -> u256_ok b ->
  if toZ a + toZ b <? B256
  then exists r, addU256Checked a b = Ok r /\ u256_ok r /\ toZ r = toZ a + toZ b
  else addU256Checked a b = Err ErrGasOverflow.
Proof.
  intros Ha Hb. destruct (Add256_spec a b Ha Hb) as [Hr Er]. unfold addU256Checked.
  rewrite IsZero_spec, Cmp_lt, Er by done.
  pose proof (toZ_range a Ha). pose proof (toZ_range b Hb).
  destruct (Z.ltb_spec (toZ a + toZ b) B256).
  - rewrite Z.mod_small in * by lia. destruct (Z.ltb_spec (toZ a + toZ b) (toZ a)); [lia|].
    rewrite andb_false_r. eauto.
  - assert ((toZ a + toZ b) mod B256 = toZ a + toZ b - B256) as ->
      by (symmetry; apply (Z.mod_unique_pos _ _ 1); lia).
    destruct (Z.eqb_spec (toZ b) 0); [lia|]. destruct (Z.ltb_spec (toZ a + toZ b - B256) (toZ a)); [done|lia].
Qed.

(** Little-endian value of a list of limbs. *)
Fixpoint limbs_val (l : list Z) : Z := match l with [] => 0 | x :: l => x + B64 * limbs_val l end.

Lemma mul_limbs_spec a n carry :
  Forall is_u64 a -> is_u64 n -> is_u64 carry ->
  exists out c, mul_limbs a n carry = Ok (out, c) /\ length out = length a /\ Forall is_u64 out /\ is_u64 c /\
    limbs_val out + B64 ^ Z.of_nat (length a) * c = limbs_val a * n + carry.
Proof.
  intros Ha Hn. revert carry. induction Ha as [|x a Hx Ha IH]; intros carry Hc; cbn [mul_limbs].
  { exists [], carry. cbn [length limbs_val]. split_and!; try done. lia. }
  pose proof (Mul64_spec x n Hx Hn) as M. destruct (Mul64 x n) as [hi lo]. destruct M as (EM & Hlo & Hhi).
  pose proof (Add64_spec lo carry 0) as A1. pose proof (Add64_carry lo carry 0 Hlo Hc ltac:(lia)) as K1.
  destruct (Add64 lo carry 0) as [s c1]. destruct A1 as [A1 Hs]. cbn [snd] in K1.
  pose proof (Add64_spec hi 0 c1) as A2. pose proof (Add64_carry hi 0 c1 ltac:(unfold is_u64; lia) ltac:(unfold is_u64; lia) ltac:(lia)) as K2.
  destruct (Add64 hi 0 c1) as [next c2]. destruct A2 as [A2 Hnext]. cbn [snd] in K2.
  assert (c2 = 0) as -> by (unfold is_u64 in *; lia). cbn [negb Z.eqb].
  destruct (IH next Hnext) as (out & c & E & L & Ho & Hc' & V). rewrite E. cbn.
  exists (s :: out), c. split; [done|]. split; [cbn; by f_equal|]. split; [by constructor|]. split; [done|].
  cbn [limbs_val length]. rewrite Nat2Z.inj_succ, Z.pow_succ_r by lia. lia.
Qed.

Lemma mulU256U64Checked_spec a n :
  u256_ok a -> is_u64 n ->
  if toZ a * n <? B256
  then exists r, mulU256U64Checked a n = Ok r /\ u256_ok r /\ toZ r = toZ a * n
  else mulU256U64Checked a n = Err ErrGasOverflow.
Proof.
  intros (H0 & H1 & H2 & H3) Hn. unfold mulU256U64Checked.
  destruct (mul_limbs_spec [w0 a; w1 a; w2 a; w3 a] n 0) as (out & c & E & L & Ho & Hc & V);
    [repeat (constructor; [done|]); constructor | done | unfold is_u64; lia |].
  rewrite E. cbn [mbind outcome_bind].
  destruct out as [|o0 [|o1 [|o2 [|o3 [|]]]]]; try discriminate L. cbn [limbs_val length] in V.
  change (B64 ^ Z.of_nat 4) with B256 in V.
  assert (toZ a * n = o0 + B64 * (o1 + B64 * (o2 + B64 * o3)) + B256 * c) as EV by (unfold toZ; lia).
  rewrite !Forall_cons_iff in Ho. destruct Ho as (O0 & O1 & O2 & O3 & _).
  assert (0 <= o0 + B64 * (o1 + B64 * (o2 + B64 * o3)) < B256) as R by (unfold is_u64 in *; lia).
  destruct (Z.ltb_spec (toZ a * n) B256) as [Hlt|Hge].
  - assert (c = 0) as -> by (unfold is_u64 in Hc; lia). cbn. eexists. split; [done|].
    split; [done|]. unfold toZ at 1. cbn [w0 w1 w2 w3]. lia.
  - destruct (Z.eqb_spec c 0); [lia|]. done.
Qed.
