(* ===== verification/Mempool.v ===== *)
(** * The transaction pool: [pkg/c2seq/mempool.go]

    [byHash] and [bySender] are the two maps of the source; transactions are
    values, since the pool never writes through its pointers. The iteration order
    of the map of heads is unspecified: [range] is any enumeration of it. *)

From S2P Require Import Prelude Uint256 BlockTypes GasMath.

(** ** Ordering *)

(** [bytes.Compare]. *)
Fixpoint bytes_compare (a b : bytes) : Z :=
  match a, b with
  | [], [] => 0
  | [], _ => -1
  | _, [] => 1
  | x :: a, y :: b => if x <? y then -1 else if y <? x then 1 else bytes_compare a b
  end.

Definition txTip (tx : Transaction) : Uint256 :=
  if negb (IsZero (tx_GasTipCap tx)) then tx_GasTipCap tx else tx_GasPrice tx.

Definition tipCmp (a b : Transaction) : Z :=
  let c := Cmp (txTip a) (txTip b) in
  if negb (c =? 0) then c else bytes_compare (tx_Hash a) (tx_Hash b).

Definition popPrefer (a b : Transaction) : bool :=
  if tx_Nonce a <? tx_Nonce b then true
  else if tx_Nonce b <? tx_Nonce a then false
  else 0 <? tipCmp a b.

(** ** State and operations *)

Record Mempool := MkPool {
  byHash : gmap bytes Transaction;
  bySender : gmap bytes (list Transaction);
}.

Definition NewMempool : Mempool := MkPool ∅ ∅.

(** The first transaction of the list with nonce [n], and its index. *)
Fixpoint find_nonce (n : Z) (l : list Transaction) : option (nat * Transaction) :=
  match l with
  | [] => None
  | ex :: l =>
      if tx_Nonce ex =? n then Some (0%nat, ex)
      else match find_nonce n l with Some (i, t) => Some (S i, t) | None => None end
  end.

(** [ins]: the index of the first transaction with a larger nonce, or the length. *)
Fixpoint insert_pos (n : Z) (l : list Transaction) : nat :=
  match l with
  | [] => 0
  | ex :: l => if n <? tx_Nonce ex then 0 else S (insert_pos n l)
  end.

Definition AddTx (m : Mempool) (otx : option Transaction) : outcome seq_err Mempool :=
  match otx with
  | None => Err ErrNilTx
  | Some tx =>
      if bool_decide (is_Some (byHash m !! tx_Hash tx)) then Err ErrDuplicate
      else
        let l := default [] (bySender m !! tx_From tx) in
        match find_nonce (tx_Nonce tx) l with
        | Some (i, ex) =>
            if Cmp (txTip tx) (txTip ex) <=? 0 then Err ErrUnderpriced
            else Ok (MkPool (<[tx_Hash tx := tx]> (delete (tx_Hash ex) (byHash m)))
                            (<[tx_From tx := <[i := tx]> l]> (bySender m)))
        | None =>
            let ins := insert_pos (tx_Nonce tx) l in
            Ok (MkPool (<[tx_Hash tx := tx]> (byHash m))
                       (<[tx_From tx := take ins l ++ tx :: drop ins l]> (bySender m)))
        end
  end.

(** The list without the first transaction of hash [h]. *)
Fixpoint remove_hash (h : Hash) (l : list Transaction) : list Transaction :=
  match l with
  | [] => []
  | ex :: l => if bool_decide (tx_Hash ex = h) then l else ex :: remove_hash h l
  end.

Definition removeLocked (m : Mempool) (h : Hash) : Mempool :=
  match byHash m !! h with
  | None => m
  | Some tx =>
      let l := remove_hash h (default [] (bySender m !! tx_From tx)) in
      MkPool (delete h (byHash m))
             (match l with
              | [] => delete (tx_From tx) (bySender m)
              | _ => <[tx_From tx := l]> (bySender m)
              end)
  end.

Definition RemoveTx (m : Mempool) (h : Hash) : Mempool := removeLocked m h.
Definition Count (m : Mempool) : nat := size (byHash m).

Section pop.
  Context (range : nat -> gmap bytes Z -> list (bytes * Z)).

(** The transaction an entry of [heads] stands for, when it fits in the gas left. *)
Definition candidate (m : Mempool) (maxGas used : Z) (e : bytes * Z) : option Transaction :=
  let l := default [] (bySender m !! e.1) in
  if (e.2 <? 0) || (Z.of_nat (length l) <=? e.2) then None
  else
    tx ← l !! Z.to_nat e.2;
    if maxGas <? tx_Gas tx then None
    else match SafeSubGas maxGas used with
         | Ok remain => if remain <? tx_Gas tx then None else Some tx
         | _ => None
         end.

Definition better (m : Mempool) (maxGas used : Z) (best : option (Transaction * bytes)) (e : bytes * Z) :
  option (Transaction * bytes) :=
  match candidate m maxGas used e with
  | None => best
  | Some tx =>
      match best with
      | None => Some (tx, e.1)
      | Some (b, _) => if popPrefer tx b then Some (tx, e.1) else best
      end
  end.

(** The loop of [PopBatch]; [fuel] bounds the number of rounds. *)
Fixpoint pop_loop (fuel seed : nat) (maxGas maxCount : Z) (m : Mempool) (heads : gmap bytes Z)
  (out : list Transaction) (used : Z) : outcome seq_err (Mempool * list Transaction) :=
  match fuel with
  | O => OutOfFuel
  | S fuel =>
      if (0 <? maxCount) && (maxCount <=? Z.of_nat (length out)) then Ok (m, out)
      else
        match foldl (better m maxGas used) None (range (seed + fuel) heads) with
        | None => Ok (m, out)
        | Some (best, bestAddr) =>
            match SafeAddGas used (tx_Gas best) with
            | Ok next =>
                let m := removeLocked m (tx_Hash best) in
                let heads := if bool_decide (is_Some (bySender m !! bestAddr))
                             then <[bestAddr := 0]> heads else delete bestAddr heads in
                pop_loop fuel seed maxGas maxCount m heads (out ++ [best]) next
            | _ => pop_loop fuel seed maxGas maxCount m (<[bestAddr := -1]> heads) out used
            end
        end
  end.

Definition PopBatch (fuel seed : nat) (m : Mempool) (maxGas maxCount : Z) :
  outcome seq_err (Mempool * list Transaction) :=
  if (maxCount =? 0) || (maxGas =? 0) then Ok (m, [])
  else pop_loop fuel seed maxGas maxCount m ((fun _ => 0) <$> bySender m) [] 0.
End pop.
