(* ===== verification/MempoolSpec.v ===== *)
(** * The transaction pool is two consistent indexes of the same transactions

    Each sender's queue is strictly sorted by nonce, and a batch is taken from the
    heads of the queues, best first, within the gas and count limits. *)

From S2P Require Import Prelude Uint256 BlockTypes GasMath Mempool.

(** ** Invariant *)

Record pool_ok (m : Mempool) : Prop := {
  po_hash h tx : byHash m !! h = Some tx ->
    tx_ok tx /\ tx_Hash tx = h /\ exists l, bySender m !! tx_From tx = Some l /\ tx ∈ l;
  po_sender a l : bySender m !! a = Some l ->
    l <> [] /\ StronglySorted (fun x y => tx_Nonce x < tx_Nonce y) l /\
    forall tx, tx ∈ l -> tx_From tx = a /\ byHash m !! tx_Hash tx = Some tx;
}.

(** ** Lemmas *)

Lemma NewMempool_ok : pool_ok NewMempool.
Proof. constructor; intros ? ? E; cbn in E; by rewrite lookup_empty in E. Qed.

Lemma bytes_compare_spec a b :
  (bytes_compare a b = 0 <-> a = b) /\ bytes_compare b a = - bytes_compare a b.
Proof.
  revert b. induction a as [|x a IH]; intros [|y b]; cbn; try (split; [split; congruence | done]).
  destruct (IH b) as [I1 I2].
  destruct (Z.ltb_spec x y), (Z.ltb_spec y x); try lia;
    try (split; [split; [done|intros [= E _]; lia]|done]).
  assert (x = y) as -> by lia. split; [|done]. rewrite I1. split; [congruence|by intros [= ->]].
Qed.

Lemma find_nonce_Some n l i ex :
  find_nonce n l = Some (i, ex) -> l !! i = Some ex /\ tx_Nonce ex = n.
Proof.
  revert i. induction l as [|x l IH]; intros i; cbn; [done|].
  destruct (Z.eqb_spec (tx_Nonce x) n) as [<-|]; [by intros [= <- <-]|].
  destruct (find_nonce n l) as [[j t]|]; [|done]. intros [= <- <-]. by apply IH.
Qed.

Lemma find_nonce_None n l tx : find_nonce n l = None -> tx ∈ l -> tx_Nonce tx <> n.
Proof.
  induction l as [|x l IH]; cbn; [intros _ Hin; by apply not_elem_of_nil in Hin|].
  destruct (Z.eqb_spec (tx_Nonce x) n) as [|Hne]; [done|].
  destruct (find_nonce n l) as [[j t]|]; [done|]. intros _ Hin.
  apply elem_of_cons in Hin as [->|Hin]; [done|]. by apply IH.
Qed.

Abbreviation nonce_lt := (fun x y : Transaction => tx_Nonce x < tx_Nonce y).

Lemma sorted_insert_pos l tx :
  StronglySorted nonce_lt l -> (forall x, x ∈ l -> tx_Nonce x <> tx_Nonce tx) ->
  StronglySorted nonce_lt (take (insert_pos (tx_Nonce tx) l) l ++ tx :: drop (insert_pos (tx_Nonce tx) l) l).
Proof.
  induction 1 as [|x l Hs IH Hx]; intros Hne; cbn; [repeat constructor|].
  destruct (Z.ltb_spec (tx_Nonce tx) (tx_Nonce x)) as [Hlt|Hge]; cbn.
  - constructor; [by constructor|]. constructor; [done|].
    eapply Forall_impl; [|exact Hx]. cbn. intros. lia.
  - assert (tx_Nonce x < tx_Nonce tx) by (specialize (Hne x ltac:(left)); lia).
    constructor; [apply IH; intros y Hy; apply Hne; by right|].
    rewrite Forall_app, Forall_cons_iff. rewrite <- (take_drop (insert_pos (tx_Nonce tx) l) l) in Hx at 1.
    apply Forall_app in Hx as [? ?]. done.
Qed.

Lemma sorted_replace l i ex tx :
  StronglySorted nonce_lt l -> l !! i = Some ex -> tx_Nonce ex = tx_Nonce tx ->
  StronglySorted nonce_lt (<[i := tx]> l).
Proof.
  intros Hs. revert i. induction Hs as [|x l Hs IH Hx]; intros [|i] Hl E; try done; cbn in Hl |- *.
  - injection Hl as ->. constructor; [done|]. eapply Forall_impl; [|exact Hx]. cbn. intros. lia.
  - constructor; [by apply IH|]. apply Forall_insert; [done|].
    pose proof (Forall_lookup_1 _ _ _ _ Hx Hl). cbn in *. lia.
Qed.

(** ** The order of the heads *)

Lemma bytes_compare_trans a b c : 0 < bytes_compare a b -> 0 < bytes_compare b c -> 0 < bytes_compare a c.
Proof.
  revert b c. induction a as [|x a IH]; intros [|y b] [|z c]; cbn; try lia.
  repeat gtest; try lia. apply IH.
Qed.

Lemma tipCmp_sym a b : u256_ok (txTip a) -> u256_ok (txTip b) -> tipCmp b a = - tipCmp a b.
Proof.
  intros Ha Hb. unfold tipCmp. rewrite !Cmp_compare by done. rewrite (Z.compare_antisym (toZ (txTip a))).
  destruct (toZ (txTip a) ?= toZ (txTip b)); cbn; try done. apply bytes_compare_spec.
Qed.

Lemma tipCmp_pos a b :
  u256_ok (txTip a) -> u256_ok (txTip b) ->
  0 < tipCmp a b <-> toZ (txTip b) < toZ (txTip a) \/
                     toZ (txTip a) = toZ (txTip b) /\ 0 < bytes_compare (tx_Hash a) (tx_Hash b).
Proof.
  intros Ha Hb. unfold tipCmp. rewrite !Cmp_compare by done.
  destruct (Z.compare_spec (toZ (txTip a)) (toZ (txTip b))); cbn; lia.
Qed.

Lemma tx_tip_ok tx : tx_ok tx -> u256_ok (txTip tx).
Proof. intros []. unfold txTip. by destruct (negb _). Qed.

Lemma popPrefer_spec a b :
  tx_ok a -> tx_ok b ->
  popPrefer a b = true <->
    tx_Nonce a < tx_Nonce b \/
    tx_Nonce a = tx_Nonce b /\
      (toZ (txTip b) < toZ (txTip a) \/
       toZ (txTip a) = toZ (txTip b) /\ 0 < bytes_compare (tx_Hash a) (tx_Hash b)).
Proof.
  intros Ha Hb. unfold popPrefer. rewrite <- tipCmp_pos by by apply tx_tip_ok.
  repeat gtest; split; intros; try done; lia.
Qed.

Lemma popPrefer_trans a b c :
  tx_ok a -> tx_ok b -> tx_ok c -> popPrefer a b = true -> popPrefer b c = true -> popPrefer a c = true.
Proof.
  intros Ha Hb Hc. rewrite !popPrefer_spec by done. intros [?|[? [?|[? ?]]]] [?|[? [?|[? ?]]]]; try lia.
  right. split; [lia|]. right. split; [lia|]. by eapply bytes_compare_trans.
Qed.

Lemma popPrefer_total a b :
  tx_ok a -> tx_ok b -> tx_Hash a <> tx_Hash b -> popPrefer a b = negb (popPrefer b a).
Proof.
  intros Ha Hb Hne. unfold popPrefer. rewrite (tipCmp_sym a b) by by apply tx_tip_ok.
  assert (tipCmp a b <> 0).
  { unfold tipCmp. intros E. apply Hne, bytes_compare_spec. destruct (Z.eqb_spec (Cmp (txTip a) (txTip b)) 0) as [E'|E']; cbn [negb] in E; [done|lia]. }
  repeat gtest; try done; lia.
Qed.

(** ** The pool as a map from senders and nonces to transactions *)

Definition queue (m : Mempool) (a : Address) : list Transaction := default [] (bySender m !! a).
Definition slot (m : Mempool) (a : Address) (n : Z) : option Transaction := snd <$> find_nonce n (queue m a).

Section pool.
  Context (m : Mempool) (Hm : pool_ok m).

Lemma queue_sorted a : StronglySorted nonce_lt (queue m a).
Proof.
  unfold queue. destruct (bySender m !! a) as [l|] eqn:E; [|constructor].
  by apply (po_sender m Hm) in E as (_ & ? & _).
Qed.

Lemma queue_elem a tx : tx ∈ queue m a -> tx_ok tx /\ tx_From tx = a /\ byHash m !! tx_Hash tx = Some tx.
Proof.
  unfold queue. destruct (bySender m !! a) as [l|] eqn:E; [|intros H; by apply not_elem_of_nil in H].
  apply (po_sender m Hm) in E as (_ & _ & H). intros Hin. destruct (H _ Hin) as [? Hb].
  split; [|done]. by apply (po_hash m Hm) in Hb as [? _].
Qed.

Lemma queue_hash h tx : byHash m !! h = Some tx -> tx ∈ queue m (tx_From tx).
Proof. intros E. apply (po_hash m Hm) in E as (_ & _ & l & El & ?). unfold queue. by rewrite El. Qed.

Lemma slot_elem a n tx : slot m a n = Some tx <-> tx ∈ queue m a /\ tx_Nonce tx = n.
Proof.
  unfold slot. pose proof (queue_sorted a) as Hs. split.
  - destruct (find_nonce n (queue m a)) as [[i t]|] eqn:E; [|done]. cbn. intros [= <-].
    apply find_nonce_Some in E as [E ?]. split; [|done]. by eapply list_elem_of_lookup_2.
  - intros [Hin E]. induction Hs as [|x l Hs IH Hx]; [by apply not_elem_of_nil in Hin|]. cbn.
    apply elem_of_cons in Hin as [->|Hin]; [by rewrite E, Z.eqb_refl|].
    rewrite Stdlib.Lists.List.Forall_forall in Hx. specialize (Hx tx (proj1 (list_elem_of_In _ _) Hin)). cbn in Hx.
    gtest; [lia|]. specialize (IH Hin). by destruct (find_nonce n l) as [[j t]|].
Qed.
End pool.

Lemma find_nonce_insert_pos n l tx :
  StronglySorted nonce_lt l -> find_nonce (tx_Nonce tx) l = None ->
  let p := insert_pos (tx_Nonce tx) l in
  snd <$> find_nonce n (take p l ++ tx :: drop p l) =
  if tx_Nonce tx =? n then Some tx else snd <$> find_nonce n l.
Proof.
  cbn zeta. induction 1 as [|x l Hs IH Hx]; cbn [find_nonce insert_pos].
  - intros _. cbn. by destruct (tx_Nonce tx =? n).
  - destruct (Z.eqb_spec (tx_Nonce x) (tx_Nonce tx)) as [|Hne]; [done|].
    destruct (find_nonce (tx_Nonce tx) l) as [[? ?]|]; [done|]. intros _. specialize (IH eq_refl).
    destruct (Z.ltb_spec (tx_Nonce tx) (tx_Nonce x)); cbn [take drop app find_nonce].
    + destruct (tx_Nonce tx =? n); [done|]. by destruct (tx_Nonce x =? n), (find_nonce n l) as [[? ?]|].
    + destruct (Z.eqb_spec (tx_Nonce x) n) as [<-|].
      * destruct (Z.eqb_spec (tx_Nonce tx) (tx_Nonce x)); [lia|done].
      * destruct (find_nonce n (take _ _ ++ _)) as [[? ?]|], (find_nonce n l) as [[? ?]|]; cbn in *; done.
Qed.

Lemma find_nonce_replace n l i ex tx :
  find_nonce (tx_Nonce tx) l = Some (i, ex) ->
  snd <$> find_nonce n (<[i := tx]> l) = if tx_Nonce tx =? n then Some tx else snd <$> find_nonce n l.
Proof.
  revert i. induction l as [|x l IH]; intros i; cbn [find_nonce]; [done|].
  destruct (Z.eqb_spec (tx_Nonce x) (tx_Nonce tx)) as [E|Hne].
  - intros [= <- <-]. cbn. rewrite E. by destruct (tx_Nonce tx =? n).
  - destruct (find_nonce (tx_Nonce tx) l) as [[j t]|]; [|done]. intros [= <- <-]. cbn.
    specialize (IH j eq_refl). destruct (Z.eqb_spec (tx_Nonce x) n) as [<-|].
    + destruct (Z.eqb_spec (tx_Nonce tx) (tx_Nonce x)); [lia|done].
    + destruct (find_nonce n (<[j:=tx]> l)) as [[? ?]|], (find_nonce n l) as [[? ?]|]; cbn in *; done.
Qed.

(** The pool after a queue is replaced. *)
Lemma slot_insert m bh a l b n :
  slot (MkPool bh (<[a := l]> (bySender m))) b n =
  if bool_decide (b = a) then snd <$> find_nonce n l else slot m b n.
Proof.
  unfold slot, queue. cbn. case_bool_decide as E; [subst; by rewrite lookup_insert_eq|by rewrite lookup_insert_ne].
Qed.

Lemma sorted_replace_elem l i ex tx t :
  StronglySorted nonce_lt l -> l !! i = Some ex -> tx_Nonce ex = tx_Nonce tx ->
  t ∈ <[i := tx]> l <-> t = tx \/ t ∈ l /\ tx_Nonce t <> tx_Nonce tx.
Proof.
  intros Hs. revert i. induction Hs as [|x l Hs IH Hx]; intros [|i] Hl E; try done; cbn in Hl |- *;
    rewrite Stdlib.Lists.List.Forall_forall in Hx; setoid_rewrite <- list_elem_of_In in Hx; rewrite !elem_of_cons.
  - injection Hl as ->. split; [|naive_solver]. intros [->|Ht]; [tauto|].
    right. split; [tauto|]. specialize (Hx t Ht). lia.
  - rewrite (IH i) by done. pose proof (Hx ex (list_elem_of_lookup_2 _ _ _ Hl)).
    assert (tx_Nonce x <> tx_Nonce tx) by (cbn in *; lia). naive_solver.
Qed.

Lemma elem_of_insert_at {A} (t x : A) p l : t ∈ take p l ++ x :: drop p l <-> t = x \/ t ∈ l.
Proof. rewrite <- (take_drop p l) at 3. rewrite !elem_of_app, elem_of_cons. tauto. Qed.

Lemma nonce_sorted_NoDup l : StronglySorted nonce_lt l -> NoDup l.
Proof.
  induction 1 as [|x l Hs IH Hx]; [constructor|]. constructor; [|done]. intros Hin.
  rewrite Stdlib.Lists.List.Forall_forall in Hx. specialize (Hx x (proj1 (list_elem_of_In _ _) Hin)). cbn in Hx. lia.
Qed.

(** Writing [tx] in its slot: the new queue and the new index agree. *)
Lemma pool_put m tx l bh :
  pool_ok m -> tx_ok tx -> byHash m !! tx_Hash tx = None -> StronglySorted nonce_lt l ->
  (forall t, t ∈ l <-> t = tx \/ t ∈ queue m (tx_From tx) /\ tx_Nonce t <> tx_Nonce tx) ->
  (forall h t, bh !! h = Some t <->
     h = tx_Hash tx /\ t = tx \/
     byHash m !! h = Some t /\ ~ (tx_From t = tx_From tx /\ tx_Nonce t = tx_Nonce tx)) ->
  pool_ok (MkPool bh (<[tx_From tx := l]> (bySender m))).
Proof.
  intros Hm Htx Hnew Hs Hl Hb. constructor; cbn.
  - intros h t. rewrite Hb. intros [[-> ->]|[Ht Hn]].
    + split_and!; try done. exists l. rewrite lookup_insert_eq. split; [done|]. apply Hl. by left.
    + pose proof (po_hash m Hm h t Ht) as (? & ? & l' & El & Hin). split_and!; try done.
      destruct (decide (tx_From t = tx_From tx)) as [E|E].
      * exists l. rewrite E, lookup_insert_eq. split; [done|]. apply Hl. right. split; [|naive_solver].
        rewrite <- E. by eapply queue_hash.
      * exists l'. by rewrite lookup_insert_ne by done.
  - intros a l'. destruct (decide (a = tx_From tx)) as [->|Ha].
    + rewrite lookup_insert_eq. intros [= <-]. split.
      { intros ->. specialize (Hl tx). rewrite elem_of_nil in Hl. tauto. }
      split; [done|]. intros t. rewrite Hl, Hb. intros [->|[Hin Hn]]; [tauto|].
      apply (queue_elem m Hm) in Hin as (_ & ? & ?). tauto.
    + rewrite lookup_insert_ne by done. intros E. destruct (po_sender m Hm a l' E) as (? & ? & H).
      split_and!; try done. intros t Ht. apply H in Ht as [? ?]. split; [done|]. rewrite Hb. right.
      split; [done|]. intros [? _]. congruence.
Qed.

Lemma AddTx_post m tx :
  pool_ok m -> tx_ok tx ->
  let a := tx_From tx in let n := tx_Nonce tx in
  match AddTx m (Some tx) with
  | Ok m' => pool_ok m' /\ byHash m !! tx_Hash tx = None /\
      (forall ex, slot m a n = Some ex -> toZ (txTip ex) < toZ (txTip tx)) /\
      forall b k, slot m' b k = if bool_decide (b = a) && (n =? k) then Some tx else slot m b k
  | Err ErrDuplicate => is_Some (byHash m !! tx_Hash tx)
  | Err ErrUnderpriced => byHash m !! tx_Hash tx = None /\
      exists ex, slot m a n = Some ex /\ toZ (txTip tx) <= toZ (txTip ex)
  | _ => False
  end.
Proof.
  intros Hm Htx a n. subst a n. cbn [AddTx].
  destruct (bool_decide_reflect (is_Some (byHash m !! tx_Hash tx))) as [Hd|Hd]; [done|].
  rewrite <- eq_None_not_Some in Hd. change (default [] (bySender m !! tx_From tx)) with (queue m (tx_From tx)).
  pose proof (queue_sorted m Hm (tx_From tx)) as Hs.
  destruct (find_nonce (tx_Nonce tx) (queue m (tx_From tx))) as [[i ex]|] eqn:E.
  - assert (slot m (tx_From tx) (tx_Nonce tx) = Some ex) as Hslot by (unfold slot; by rewrite E).
    destruct (proj1 (slot_elem m Hm _ _ _) Hslot) as [Hin Hn].
    pose proof (queue_elem m Hm _ _ Hin) as (Hex & Hfrom & Hex_h).
    rewrite Z.leb_antisym, Cmp_gt by by apply tx_tip_ok.
    destruct (Z.ltb_spec (toZ (txTip ex)) (toZ (txTip tx))) as [Hlt|Hge]; cbn [negb]; [|split; [done|exists ex; split; [done|lia]]].
    pose proof (find_nonce_Some _ _ _ _ E) as [Ei _]. pose proof (lookup_lt_Some _ _ _ Ei) as Hi.
    split; [|split; [done|split]].
    + apply pool_put; try done.
      * by eapply sorted_replace.
      * intros t. by eapply sorted_replace_elem.
      * intros h t. destruct (decide (h = tx_Hash tx)) as [->|Hh].
        { rewrite lookup_insert_eq, Hd. naive_solver. }
        rewrite lookup_insert_ne by done. destruct (decide (h = tx_Hash ex)) as [->|Hh'].
        { rewrite lookup_delete_eq, Hex_h. naive_solver. }
        rewrite lookup_delete_ne by done. split; [|naive_solver]. intros Ht. right. split; [done|].
        intros [E1 E2]. pose proof (queue_hash m Hm h t Ht) as Hint. rewrite E1 in Hint.
        pose proof (proj2 (slot_elem m Hm _ _ _) (conj Hint E2)). pose proof (po_hash m Hm _ _ Ht). naive_solver.
    + intros ex' E'. congruence.
    + intros b k. rewrite slot_insert, (find_nonce_replace k _ i ex tx E).
      case_bool_decide as Eb; cbn; [subst; by destruct (_ =? k)|done].
  - split; [|split; [done|split]].
    + apply pool_put; try done.
      * apply sorted_insert_pos; [done|]. intros x Hx. by eapply find_nonce_None.
      * intros t. rewrite elem_of_insert_at.
        pose proof (find_nonce_None (tx_Nonce tx) (queue m (tx_From tx)) t E). tauto.
      * intros h t. destruct (decide (h = tx_Hash tx)) as [->|Hh].
        { rewrite lookup_insert_eq, Hd. naive_solver. }
        rewrite lookup_insert_ne by done. split; [|naive_solver]. intros Ht. right. split; [done|].
        intros [E1 E2]. pose proof (queue_hash m Hm h t Ht) as Hin. rewrite E1 in Hin.
        by apply (find_nonce_None _ _ _ E Hin).
    + intros ex E'. unfold slot in E'. by rewrite E in E'.
    + intros b k. rewrite slot_insert, (find_nonce_insert_pos k _ tx Hs E).
      case_bool_decide as Eb; cbn; [subst; by destruct (_ =? k)|done].
Qed.

(** ** Removing a transaction *)

Lemma queue_hash_NoDup m a : pool_ok m -> NoDup (tx_Hash <$> queue m a).
Proof.
  intros Hm. apply NoDup_fmap_2_strong; [|apply nonce_sorted_NoDup, queue_sorted, Hm].
  intros x y Hx Hy E. apply (queue_elem m Hm) in Hx as (_ & _ & Hx). apply (queue_elem m Hm) in Hy as (_ & _ & Hy).
  rewrite E in Hx. congruence.
Qed.

Lemma filter_all {A} (P : A -> Prop) `{!forall x, Decision (P x)} (l : list A) : (forall x, x ∈ l -> P x) -> filter P l = l.
Proof.
  induction l as [|x l IH]; intros Hp; [done|]. rewrite filter_cons, decide_True by (apply Hp; left).
  f_equal. apply IH. intros y Hy. apply Hp. by right.
Qed.

Lemma StronglySorted_filter {A} (R : A -> A -> Prop) (P : A -> Prop) `{!forall x, Decision (P x)} (l : list A) :
  StronglySorted R l -> StronglySorted R (filter P l).
Proof.
  induction 1 as [|x l Hs IH Hx]; [constructor|]. rewrite filter_cons. destruct (decide (P x)); [|done].
  constructor; [done|]. rewrite Stdlib.Lists.List.Forall_forall in Hx |- *. intros y Hy. apply Hx.
  apply list_elem_of_In. apply list_elem_of_In in Hy. by apply list_elem_of_filter in Hy as [_ ?].
Qed.

Lemma remove_hash_filter h l :
  NoDup (tx_Hash <$> l) -> remove_hash h l = filter (fun t => tx_Hash t <> h) l.
Proof.
  induction l as [|x l IH]; [done|]. rewrite fmap_cons. intros [Hx Hnd]%list.NoDup_cons. cbn [remove_hash].
  rewrite filter_cons. case_bool_decide as E; destruct (decide (tx_Hash x <> h)); try done.
  - subst. rewrite filter_all; [done|]. intros y Hy E. apply Hx. rewrite list_elem_of_fmap. eauto.
  - by rewrite IH.
Qed.

Lemma queue_removeLocked m h b :
  pool_ok m -> queue (removeLocked m h) b = filter (fun t => tx_Hash t <> h) (queue m b).
Proof.
  intros Hm. unfold removeLocked. destruct (byHash m !! h) as [tx|] eqn:E.
  - assert (tx_Hash tx = h) as Htx by by apply (po_hash m Hm) in E as (_ & ? & _).
    change (default [] (bySender m !! tx_From tx)) with (queue m (tx_From tx)).
    rewrite remove_hash_filter by by apply queue_hash_NoDup.
    destruct (decide (b = tx_From tx)) as [->|Hb].
    + unfold queue at 1. cbn. destruct (filter _ (queue m (tx_From tx))) eqn:F; cbn;
        [by rewrite lookup_delete_eq|by rewrite lookup_insert_eq].
    + rewrite (filter_all _ (queue m b)).
      * unfold queue at 1. cbn. destruct (filter _ (queue m (tx_From tx))); cbn;
          [by rewrite lookup_delete_ne|by rewrite lookup_insert_ne].
      * intros t Ht. apply (queue_elem m Hm) in Ht as (_ & Ef & Eh). intros <-. congruence.
  - rewrite filter_all; [done|]. intros t Ht. apply (queue_elem m Hm) in Ht as (_ & _ & Eh). intros <-. congruence.
Qed.

Lemma byHash_removeLocked m h : byHash (removeLocked m h) = delete h (byHash m).
Proof. unfold removeLocked. destruct (byHash m !! h) eqn:E; [done|]. by rewrite delete_id. Qed.

Lemma queue_of_lookup m a l : bySender m !! a = Some l -> queue m a = l.
Proof. unfold queue. by intros ->. Qed.

Lemma bySender_removeLocked m h a l :
  pool_ok m -> bySender (removeLocked m h) !! a = Some l -> l <> [].
Proof.
  intros Hm. unfold removeLocked. destruct (byHash m !! h) as [tx|] eqn:E; cbn.
  2: { intros El. by apply (po_sender m Hm) in El as [? _]. }
  intros El Hl. subst l. destruct (remove_hash _ _) as [|x l'] eqn:R.
  - apply lookup_delete_Some in El as [_ El]. by apply (po_sender m Hm) in El as [? _].
  - apply lookup_insert_Some in El as [[_ ?]|[_ El]]; [done|]. by apply (po_sender m Hm) in El as [? _].
Qed.

Lemma removeLocked_ok m h : pool_ok m -> pool_ok (removeLocked m h).
Proof.
  intros Hm. constructor.
  - intros h' tx. rewrite byHash_removeLocked, lookup_delete_Some. intros [Hne E].
    pose proof (queue_hash m Hm h' tx E) as Hin. apply (po_hash m Hm) in E as (? & E & _). split_and!; try done.
    assert (tx ∈ queue (removeLocked m h) (tx_From tx)) as Hin'.
    { rewrite queue_removeLocked by done. apply list_elem_of_filter. split; [congruence|done]. }
    unfold queue in Hin'. destruct (bySender (removeLocked m h) !! tx_From tx) as [l|] eqn:El; [eauto|].
    by apply not_elem_of_nil in Hin'.
  - intros a l El. split; [by eapply bySender_removeLocked|].
    pose proof (queue_removeLocked m h a Hm) as Q. rewrite (queue_of_lookup _ _ _ El) in Q. subst l. split.
    + apply StronglySorted_filter, queue_sorted, Hm.
    + intros t Ht. apply list_elem_of_filter in Ht as [Hne Ht]. apply (queue_elem m Hm) in Ht as (_ & ? & ?).
      split; [done|]. by rewrite byHash_removeLocked, lookup_delete_ne by congruence.
Qed.

(** ** Batches *)

Definition heads_of (m : Mempool) : gmap bytes Z := (fun _ => 0) <$> bySender m.

(** The transaction at the head of [a]'s queue, if it fits in the gas left. *)
Definition fits (m : Mempool) (left : Z) (a : Address) (tx : Transaction) : Prop :=
  head (queue m a) = Some tx /\ tx_Gas tx <= left.

(** Greedy selection: [used] gas and [n] transactions are taken already. *)
Inductive greedy (maxGas maxCount : Z) : Z -> nat -> Mempool -> list Transaction -> Mempool -> Prop :=
  | greedy_full used n m : 0 < maxCount <= Z.of_nat n -> greedy maxGas maxCount used n m [] m
  | greedy_none used n m : (maxCount <= 0 \/ Z.of_nat n < maxCount) ->
      (forall a tx, ~ fits m (maxGas - used) a tx) -> greedy maxGas maxCount used n m [] m
  | greedy_pick used n m a tx out m' : (maxCount <= 0 \/ Z.of_nat n < maxCount) ->
      fits m (maxGas - used) a tx ->
      (forall b t, fits m (maxGas - used) b t -> t = tx \/ popPrefer tx t = true) ->
      greedy maxGas maxCount (used + tx_Gas tx) (S n) (removeLocked m (tx_Hash tx)) out m' ->
      greedy maxGas maxCount used n m (tx :: out) m'.

Lemma fits_elem m left a tx : fits m left a tx -> tx ∈ queue m a.
Proof. intros [H _]. destruct (queue m a); [done|]. injection H as ->. left. Qed.

Lemma candidate_fits m maxGas used a tx :
  pool_ok m -> is_u64 maxGas -> is_u64 used -> used <= maxGas ->
  candidate m maxGas used (a, 0) = Some tx <-> fits m (maxGas - used) a tx.
Proof.
  intros Hm HG Hu Hle. unfold candidate, fits. cbn [fst snd].
  change (default [] (bySender m !! a)) with (queue m a). rewrite SafeSubGas_spec by done.
  rewrite (proj2 (Z.leb_le used maxGas)) by done.
  destruct (queue m a) as [|t l]; [cbn; naive_solver|].
  replace ((0 <? 0) || (Z.of_nat (length (t :: l)) <=? 0)) with false by (symmetry; cbn [length]; gtest; [lia|done]).
  change ((t :: l) !! Z.to_nat 0) with (Some t). cbn. unfold is_u64 in *. repeat gtest; (split; [intros Heq|intros [Heq ?]]); 
    cbn in Heq; simplify_eq; first [done | split; [done|lia] | lia].
Qed.

Definition in_pool (m : Mempool) (tx : Transaction) : Prop := byHash m !! tx_Hash tx = Some tx.

Lemma candidate_in_pool m maxGas used e tx :
  pool_ok m -> candidate m maxGas used e = Some tx -> in_pool m tx.
Proof.
  intros Hm. unfold candidate. destruct (_ || _); [done|]. intros E.
  apply bind_Some in E as (t & El & E). apply list_elem_of_lookup_2, (queue_elem m Hm) in El as (_ & _ & El).
  destruct (maxGas <? tx_Gas t); [done|]. destruct (SafeSubGas maxGas used) as [r|?| |]; [|done..].
  destruct (r <? tx_Gas t); [done|]. by injection E as <-.
Qed.

Definition at_least (b t : Transaction) : Prop := t = b \/ popPrefer b t = true.

Section order.
  Context (m : Mempool) (Hm : pool_ok m).

Lemma in_pool_ok tx : in_pool m tx -> tx_ok tx.
Proof. intros H. by apply (po_hash m Hm) in H as [? _]. Qed.

Lemma prefer_cases a b : in_pool m a -> in_pool m b -> popPrefer a b = false -> at_least b a.
Proof.
  intros Ha Hb E. destruct (decide (tx_Hash a = tx_Hash b)) as [Eh|Eh].
  - left. unfold in_pool in *. congruence.
  - right. rewrite popPrefer_total in E by eauto using in_pool_ok. by destruct (popPrefer b a).
Qed.

Lemma at_least_trans a b c : in_pool m a -> in_pool m b -> in_pool m c -> at_least a b -> at_least b c -> at_least a c.
Proof.
  intros Ha Hb Hc [->|Hab] [->|Hbc]; try (by left); try (by right).
  right. eapply (popPrefer_trans a b c); eauto using in_pool_ok.
Qed.

Lemma at_least_antisym a b : in_pool m a -> in_pool m b -> at_least a b -> at_least b a -> a = b.
Proof.
  intros Ha Hb [E1|H1] [E2|H2]; try done.
  destruct (decide (tx_Hash a = tx_Hash b)) as [Eh|Eh]; [unfold in_pool in *; congruence|].
  rewrite popPrefer_total in H1 by eauto using in_pool_ok. by rewrite H2 in H1.
Qed.

Lemma best_spec maxGas used l best0 :
  (forall t a, best0 = Some (t, a) -> in_pool m t) ->
  match foldl (better m maxGas used) best0 l with
  | None => best0 = None /\ forall e, e ∈ l -> candidate m maxGas used e = None
  | Some (b, a) => in_pool m b /\
      (best0 = Some (b, a) \/ exists i, (a, i) ∈ l /\ candidate m maxGas used (a, i) = Some b) /\
      (forall t a', best0 = Some (t, a') -> at_least b t) /\
      forall e t, e ∈ l -> candidate m maxGas used e = Some t -> at_least b t
  end.
Proof.
  revert best0. induction l as [|e l IH]; intros best0 H0; cbn [foldl].
  { destruct best0 as [[b a]|].
    - split; [by eapply H0|]. split; [by left|]. split; [intros ? ? [= <- <-]; by left|].
      intros e t H. by apply not_elem_of_nil in H.
    - split; [done|]. intros e H. by apply not_elem_of_nil in H. }
  unfold better at 2. destruct (candidate m maxGas used e) as [tx|] eqn:Ec.
  - pose proof (candidate_in_pool m _ _ _ _ Hm Ec) as Htx.
    set (best1 := match best0 with Some (b, _) => if popPrefer tx b then Some (tx, e.1) else best0 | None => Some (tx, e.1) end).
    assert (exists t1 a1, best1 = Some (t1, a1) /\ in_pool m t1 /\ at_least t1 tx /\
      (forall t a', best0 = Some (t, a') -> at_least t1 t) /\ (best0 = Some (t1, a1) \/ t1 = tx /\ a1 = e.1)) as (t1 & a1 & E1 & H1 & Htx1 & Hb1 & Hc1).
    { subst best1. destruct best0 as [[b a]|]; [destruct (popPrefer tx b) eqn:Ep|];
        eexists _, _; (split; [done|]); split_and!; try (by eauto); try (by left); try done.
      - intros ? ? [= <- <-]. by right.
      - apply prefer_cases; eauto.
      - intros ? ? [= <- <-]. by left. }
    specialize (IH best1). rewrite E1 in IH |- *.
    assert (forall t a, Some (t1, a1) = Some (t, a) -> in_pool m t) as H1' by (by intros ? ? [= <- <-]).
    specialize (IH H1'). destruct (foldl _ _ l) as [[b a]|]; [|by destruct IH].
    destruct IH as (Hb & Hor & Hmax & Hl). pose proof (Hmax _ _ eq_refl) as Hb1'. split; [done|]. split_and!.
    + destruct Hor as [[= -> ->]|(i & Hi & Ei)]; [|right; exists i; split; [by right|done]].
      destruct Hc1 as [->|[-> ->]]; [by left|right]. exists e.2. rewrite <- surjective_pairing. split; [left|done].
    + intros t a' Et. eapply (at_least_trans b t1 t); eauto.
    + intros e' t [->|He']%elem_of_cons Et; [|by eapply Hl]. rewrite Ec in Et. injection Et as <-.
      by eapply (at_least_trans b t1 tx).
  - specialize (IH best0 H0). destruct (foldl _ _ l) as [[b a]|].
    + destruct IH as (Hb & Hor & Hmax & Hl). split; [done|]. split_and!; [|done|].
      * destruct Hor as [?|(i & ? & ?)]; [by left|right; exists i; split; [by right|done]].
      * intros e' t [->|He']%elem_of_cons Et; [congruence|by eapply Hl].
    + destruct IH as [? Hl]. split; [done|]. intros e' [->|He']%elem_of_cons; [done|by apply Hl].
Qed.
End order.

Lemma bySender_removeLocked_ne m h tx a :
  pool_ok m -> byHash m !! h = Some tx -> a <> tx_From tx -> bySender (removeLocked m h) !! a = bySender m !! a.
Proof.
  intros Hm E Ha. unfold removeLocked. rewrite E. cbn.
  destruct (remove_hash _ _); [by apply lookup_delete_ne|by apply lookup_insert_ne].
Qed.

Lemma heads_removeLocked m tx :
  pool_ok m -> in_pool m tx ->
  heads_of (removeLocked m (tx_Hash tx)) =
    if bool_decide (is_Some (bySender (removeLocked m (tx_Hash tx)) !! tx_From tx))
    then <[tx_From tx := 0]> (heads_of m) else delete (tx_From tx) (heads_of m).
Proof.
  intros Hm Hin. unfold heads_of. apply map_eq. intros a. rewrite lookup_fmap.
  destruct (decide (a = tx_From tx)) as [->|Ha].
  - case_bool_decide as E.
    + destruct E as [l ->]. by rewrite lookup_insert_eq.
    + rewrite <- eq_None_not_Some in E. by rewrite E, lookup_delete_eq.
  - rewrite (bySender_removeLocked_ne m _ tx) by done.
    case_bool_decide; rewrite ?lookup_insert_ne, ?lookup_delete_ne, ?lookup_fmap by done; done.
Qed.

Lemma Count_removeLocked m tx : in_pool m tx -> Count m = S (Count (removeLocked m (tx_Hash tx))).
Proof.
  intros Hin. unfold Count. rewrite byHash_removeLocked. rewrite map_size_delete_Some by eauto.
  assert (size (byHash m) <> 0%nat); [|lia]. intros E. apply map_size_empty_iff in E. unfold in_pool in Hin.
  by rewrite E, lookup_empty in Hin.
Qed.

Section pop.
  Context (range : nat -> gmap bytes Z -> list (bytes * Z)).
  Context (range_perm : forall seed m, range seed m ≡ₚ map_to_list m).

Lemma elem_of_heads m seed e : e ∈ range seed (heads_of m) <-> is_Some (bySender m !! e.1) /\ e.2 = 0.
Proof.
  rewrite range_perm. destruct e as [a i]. rewrite elem_of_map_to_list. unfold heads_of.
  rewrite lookup_fmap_Some. cbn. unfold is_Some. naive_solver.
Qed.

(** The best head, whatever the order the heads are visited in. *)
Lemma best_head m seed maxGas used :
  pool_ok m -> is_u64 maxGas -> is_u64 used -> used <= maxGas ->
  match foldl (better m maxGas used) None (range seed (heads_of m)) with
  | None => forall a tx, ~ fits m (maxGas - used) a tx
  | Some (b, a) => in_pool m b /\ a = tx_From b /\ fits m (maxGas - used) a b /\
      forall a' t, fits m (maxGas - used) a' t -> at_least b t
  end.
Proof.
  intros Hm HG Hu Hle.
  assert (forall a t, fits m (maxGas - used) a t -> (a, 0) ∈ range seed (heads_of m) /\ candidate m maxGas used (a, 0) = Some t) as Hfit.
  { intros a t Hf. rewrite candidate_fits by done. split; [|done]. apply elem_of_heads. split; [|done]. cbn.
    destruct Hf as [Hf _]. unfold queue in Hf. destruct (bySender m !! a); [eauto|done]. }
  pose proof (best_spec m Hm maxGas used (range seed (heads_of m)) None ltac:(done)) as B.
  destruct (foldl _ _ _) as [[b a]|].
  - destruct B as (Hb & [?|(i & Hi & Ec)] & _ & Hmax); [done|].
    apply elem_of_heads in Hi as [_ Ei]. cbn in Ei. subst i. rewrite candidate_fits in Ec by done.
    split; [done|]. split; [symmetry; apply (queue_elem m Hm a b), (fits_elem _ _ _ _ Ec)|]. split; [done|].
    intros a' t Hf. apply Hfit in Hf as [? ?]. by eapply Hmax.
  - destruct B as [_ Hn]. intros a t Hf. apply Hfit in Hf as [Hi Ei]. specialize (Hn _ Hi). congruence.
Qed.

Lemma pop_loop_greedy fuel seed maxGas maxCount m out used :
  pool_ok m -> is_u64 maxGas -> is_u64 used -> used <= maxGas -> (Count m < fuel)%nat ->
  exists sel m', pop_loop range fuel seed maxGas maxCount m (heads_of m) out used = Ok (m', out ++ sel) /\
    greedy maxGas maxCount used (length out) m sel m'.
Proof.
  intros Hm HG. revert m out used Hm. induction fuel as [|fuel IH]; intros m out used Hm Hu Hle Hf; [lia|].
  cbn [pop_loop]. destruct ((0 <? maxCount) && (maxCount <=? Z.of_nat (length out))) eqn:Ec.
  { exists [], m. rewrite app_nil_r. split; [done|]. constructor. lia. }
  assert (maxCount <= 0 \/ Z.of_nat (length out) < maxCount) as Hc by lia.
  pose proof (best_head m (seed + fuel) maxGas used Hm HG Hu Hle) as B. destruct (foldl _ _ _) as [[b a]|].
  - destruct B as (Hb & -> & Hfit & Hmax). pose proof (in_pool_ok m Hm b Hb) as Hok.
    assert (0 <= tx_Gas b <= maxGas - used) as Hg by (split; [apply Hok|apply Hfit]).
    rewrite SafeAddGas_spec by (try apply Hok; done). unfold is_u64 in HG, Hu.
    destruct (Z.ltb_spec (used + tx_Gas b) B64); [|lia].
    rewrite <- heads_removeLocked by done. rewrite (Count_removeLocked m b Hb) in Hf.
    destruct (IH (removeLocked m (tx_Hash b)) (out ++ [b]) (used + tx_Gas b)) as (sel & m' & E & G);
      [by apply removeLocked_ok | unfold is_u64; lia | lia | lia |].
    exists (b :: sel), m'. rewrite E, <- app_assoc. split; [done|].
    eapply greedy_pick; try done. by rewrite length_app, Nat.add_1_r in G.
  - exists [], m. rewrite app_nil_r. split; [done|]. by constructor.
Qed.

Lemma PopBatch_greedy fuel seed maxGas maxCount m :
  pool_ok m -> is_u64 maxGas -> maxCount <> 0 -> maxGas <> 0 -> (Count m < fuel)%nat ->
  exists m' out, PopBatch range fuel seed m maxGas maxCount = Ok (m', out) /\ greedy maxGas maxCount 0 0 m out m'.
Proof.
  intros Hm HG Hc Hg Hf. unfold PopBatch. do 2 (gtest; [lia|]). cbn [orb].
  unfold is_u64 in HG. destruct (pop_loop_greedy fuel seed maxGas maxCount m [] 0) as (sel & m' & E & G);
    try done; unfold is_u64; try lia. by exists m', sel.
Qed.
End pop.

(** ** Consequences of greedy selection *)

Lemma greedy_det maxGas maxCount used n m o1 m1 o2 m2 :
  pool_ok m -> greedy maxGas maxCount used n m o1 m1 -> greedy maxGas maxCount used n m o2 m2 -> o1 = o2 /\ m1 = m2.
Proof.
  intros Hm G1. revert o2 m2. induction G1 as [|? ? ? ? Hn|used n m a tx out m' Hc Hfit Hmax G1 IH]; intros o2 m2 G2.
  - inversion G2; subst; try done; lia.
  - inversion G2; subst; try done; naive_solver.
  - inversion G2 as [|? ? ? ? Hn|? ? ? a' tx' out' ? Hc' Hfit' Hmax' G']; subst; [lia|naive_solver|].
    pose proof (queue_elem m Hm _ _ (fits_elem _ _ _ _ Hfit)) as (_ & _ & H1).
    pose proof (queue_elem m Hm _ _ (fits_elem _ _ _ _ Hfit')) as (_ & _ & H2).
    assert (tx = tx') as <- by (apply (at_least_antisym m Hm); try done; [by eapply Hmax|by eapply Hmax']).
    destruct (IH (removeLocked_ok _ _ Hm) _ _ G') as [-> ->]. done.
Qed.

Lemma filter_head_removeLocked m tx l a :
  pool_ok m -> queue m a = tx :: l -> queue (removeLocked m (tx_Hash tx)) a = l.
Proof.
  intros Hm Q. rewrite queue_removeLocked, Q by done. rewrite filter_cons_False by tauto. apply filter_all.
  intros t Ht. pose proof (queue_hash_NoDup m a Hm) as Hnd. rewrite Q, fmap_cons in Hnd.
  apply list.NoDup_cons in Hnd as [Hnd _]. intros E. apply Hnd. rewrite <- E. by apply list_elem_of_fmap_2.
Qed.

Lemma greedy_post maxGas maxCount used n m out m' :
  pool_ok m -> greedy maxGas maxCount used n m out m' ->
  pool_ok m' /\
  (used <= maxGas -> used + foldr (fun tx s => tx_Gas tx + s) 0 out <= maxGas) /\
  (0 < maxCount -> Z.of_nat n <= maxCount -> Z.of_nat (n + length out) <= maxCount) /\
  (forall a, queue m a = filter (fun tx => tx_From tx = a) out ++ queue m' a) /\
  byHash m' = foldl (fun bh tx => delete (tx_Hash tx) bh) (byHash m) out /\
  (0 < maxCount <= Z.of_nat (n + length out) \/
   forall a tx, ~ fits m' (maxGas - used - foldr (fun tx s => tx_Gas tx + s) 0 out) a tx).
Proof.
  intros Hm G. induction G as [|used n m Hc Hn|used n m a tx out m' Hc Hfit Hmax G IH]; cbn [foldr length foldl].
  - split_and!; try done; try lia.
  - split_and!; try done; try lia. right. intros a tx. replace (maxGas - used - 0) with (maxGas - used) by lia. apply Hn.
  - destruct (IH (removeLocked_ok _ _ Hm)) as (Hm' & Hg & Hcn & Hq & Hb & Hend).
    pose proof (queue_elem m Hm _ _ (fits_elem _ _ _ _ Hfit)) as (_ & Hfrom & Hin).
    destruct Hfit as [Hhd Hgas]. split_and!; try done.
    + intros _. specialize (Hg ltac:(lia)). lia.
    + intros ? ?. specialize (Hcn ltac:(lia) ltac:(lia)). lia.
    + intros b. rewrite filter_cons. destruct (decide (tx_From tx = b)) as [<-|Hb'].
      * rewrite <- Hfrom in Hhd. destruct (queue m (tx_From tx)) as [|t l] eqn:Q; [done|]. cbn in Hhd. injection Hhd as ->.
        rewrite <- app_comm_cons, <- Hq. f_equal. symmetry. by apply filter_head_removeLocked.
      * rewrite <- Hq, queue_removeLocked by done. symmetry. apply filter_all. intros t Ht E.
        apply (queue_elem m Hm) in Ht as (_ & ? & ?). congruence.
    + by rewrite Hb, byHash_removeLocked.
    + destruct Hend as [Hend|Hend]; [left; lia|right]. intros b t.
      replace (maxGas - used - _) with (maxGas - (used + tx_Gas tx) - foldr (fun tx s => tx_Gas tx + s) 0 out) by lia. apply Hend.
Qed.
