(* ===== verification/SeqQueues.v ===== *)
(** * The sequencer's two queues: the express lane ([pkg/c2seq/timeboost.go]) and
    the delayed inbox ([pkg/c2seq/sequencer.go]) *)

From S2P Require Import Prelude Uint256 BlockTypes GasMath.

(** ** Express lane *)

Abbreviation DefaultExpressWindow := 60.
Abbreviation MaxExpressQueue := 1024.

Record expressItem := MkItem { ei_tx : Transaction; ei_deadline : Z }.
Record Timeboost := MkTimeboost { tb_window : Z; tb_items : list expressItem }.

Definition NewTimeboost (window : Z) : Timeboost :=
  MkTimeboost (if window =? 0 then DefaultExpressWindow else window) [].

Definition PushExpress (t : Timeboost) (otx : option Transaction) (now : Z) : outcome seq_err Timeboost :=
  match otx with
  | None => Err ErrNilTx
  | Some tx =>
      if MaxExpressQueue <=? Z.of_nat (length (tb_items t)) then Err ErrExpressFull
      else
        let dl := match SafeAddGas now (tb_window t) with Ok d => d | _ => B64 - 1 end in
        Ok (MkTimeboost (tb_window t) (tb_items t ++ [MkItem tx dl]))
  end.

Fixpoint drain_loop (now : Z) (items : list expressItem) (out : list Transaction) : list Transaction :=
  match items with
  | [] => out
  | it :: items => drain_loop now items (if ei_deadline it <? now then out else out ++ [ei_tx it])
  end.

Definition Drain (t : Timeboost) (now : Z) : Timeboost * list Transaction :=
  match tb_items t with
  | [] => (t, [])
  | _ => (MkTimeboost (tb_window t) [], drain_loop now (tb_items t) [])
  end.

(** ** Delayed inbox *)

Abbreviation MsgEthDeposit := 0.
Abbreviation MsgRetryable := 1.

Record DelayedMessage := MkMsg {
  m_Kind : Z;
  m_From : Address;
  m_To : option Address;
  m_Value : Uint256;
  m_Data : bytes;
  m_GasLimit : Z;
  m_MaxFeePerGas : Uint256;
  m_Deposit : Uint256;
  m_MaxSubmissionFee : Uint256;
  m_L1BaseFee : Uint256;
  m_GasProvided : Z;
  m_PostedAt : Z;
}.

Record DelayedInbox := MkInbox { di_delay : Z; di_q : list DelayedMessage }.

Definition NewDelayedInbox (delay : Z) : DelayedInbox := MkInbox delay [].

Definition Enqueue (d : DelayedInbox) (msg : DelayedMessage) : DelayedInbox :=
  MkInbox (di_delay d) (di_q d ++ [msg]).

(** The loop of [PopReady]: [ready] and [keep] grow at the end. *)
Fixpoint ready_loop (delay now : Z) (q ready keep : list DelayedMessage) :
  list DelayedMessage * list DelayedMessage :=
  match q with
  | [] => (ready, keep)
  | m :: q =>
      if now <? m_PostedAt m then ready_loop delay now q ready (keep ++ [m])
      else match SafeSubGas now (m_PostedAt m) with
           | Ok elapsed =>
               if elapsed <? delay then ready_loop delay now q ready (keep ++ [m])
               else ready_loop delay now q (ready ++ [m]) keep
           | _ => ready_loop delay now q ready (keep ++ [m])
           end
  end.

Definition PopReady (d : DelayedInbox) (now : Z) : DelayedInbox * list DelayedMessage :=
  let '(ready, keep) := ready_loop (di_delay d) now (di_q d) [] [] in
  (MkInbox (di_delay d) keep, ready).

(** ** Lemmas *)

(** The deadline of an item pushed at [now]: the addition saturates. *)
Definition deadline (window now : Z) : Z := Z.min (now + window) (B64 - 1).

Lemma PushExpress_spec t tx now :
  is_u64 (tb_window t) -> is_u64 now ->
  PushExpress t (Some tx) now =
    if decide (length (tb_items t) < 1024)%nat
    then Ok (MkTimeboost (tb_window t) (tb_items t ++ [MkItem tx (deadline (tb_window t) now)]))
    else Err ErrExpressFull.
Proof.
  intros Hw Hn. unfold PushExpress, deadline. rewrite SafeAddGas_spec by done. unfold is_u64 in *.
  replace (match (if now + tb_window t <? B64 then _ else _) with Ok d => d | _ => B64 - 1 end)
    with (Z.min (now + tb_window t) (B64 - 1)) by (gtest; lia).
  destruct (decide _); gtest; try lia; done.
Qed.

Lemma drain_loop_spec now items out :
  drain_loop now items out = out ++ (ei_tx <$> filter (fun it => now <= ei_deadline it) items).
Proof.
  revert out. induction items as [|it items IH]; intros out; cbn [drain_loop].
  - by rewrite app_nil_r.
  - rewrite IH, filter_cons. gtest; destruct (decide _); try lia; [done|]. by rewrite <- app_assoc.
Qed.

Lemma Drain_spec t now :
  Drain t now =
    (MkTimeboost (tb_window t) [], ei_tx <$> filter (fun it => now <= ei_deadline it) (tb_items t)).
Proof. destruct t as [w [|it l]]; [done|]. unfold Drain. cbn [tb_items tb_window]. by rewrite drain_loop_spec. Qed.

(** What is drained at [now] from the pushes of a list of transactions and times. *)
Lemma push_all_Drain w pushes now :
  is_u64 w -> Forall (fun p => is_u64 p.2) pushes -> (length pushes <= 1024)%nat ->
  exists t, foldl (fun r p => t ← r; PushExpress t (Some p.1) p.2) (Ok (MkTimeboost w [])) pushes = Ok t /\
    length (tb_items t) = length pushes /\
    Drain t now = (MkTimeboost w [], (filter (fun p => now <= deadline w p.2) pushes).*1).
Proof.
  intros Hw. assert (forall l, Forall (fun p => is_u64 p.2) l -> (length l <= 1024)%nat ->
    foldl (fun r p => t ← r; PushExpress t (Some p.1) p.2) (Ok (MkTimeboost w [])) l =
    Ok (MkTimeboost w ((fun p => MkItem p.1 (deadline w p.2)) <$> l))) as P.
  { induction l as [|p l IH] using rev_ind; [done|]. rewrite Forall_app, length_app. cbn [length].
    intros [Hl Hp] Hlen. apply Forall_inv in Hp. rewrite foldl_app, IH by (done || lia). cbn [foldl mbind outcome_bind].
    rewrite (PushExpress_spec (MkTimeboost w _) p.1 p.2 Hw Hp). cbn [tb_items tb_window].
    rewrite decide_True by (rewrite length_fmap; lia). by rewrite fmap_app. }
  intros Hl Hlen. eexists. rewrite P by done. split; [done|]. cbn [tb_items]. rewrite length_fmap. split; [done|].
  rewrite Drain_spec. cbn [tb_window tb_items]. f_equal. clear. induction pushes as [|p l IH]; [done|].
  rewrite fmap_cons, !filter_cons. cbn [ei_deadline]. destruct (decide _); [|done]. rewrite !fmap_cons. by rewrite IH.
Qed.

Definition is_ready (delay now : Z) (m : DelayedMessage) : Prop := m_PostedAt m + delay <= now.
#[export] Instance is_ready_dec delay now m : Decision (is_ready delay now m).
Proof. unfold is_ready. apply _. Defined.

Lemma ready_loop_spec delay now q ready keep :
  is_u64 now -> is_u64 delay -> Forall (fun m => is_u64 (m_PostedAt m)) q ->
  ready_loop delay now q ready keep =
    (ready ++ filter (is_ready delay now) q, keep ++ filter (fun m => ~ is_ready delay now m) q).
Proof.
  intros Hn Hd Hq. revert ready keep. induction Hq as [|m q Hm Hq IH]; intros ready keep; cbn [ready_loop].
  - by rewrite !app_nil_r.
  - rewrite !filter_cons. rewrite SafeSubGas_spec by done. unfold is_ready, is_u64 in *.
    destruct (decide (m_PostedAt m + delay <= now)), (decide (~ m_PostedAt m + delay <= now)); try lia;
      repeat gtest; try lia; rewrite IH, <- app_assoc; done.
Qed.

Lemma PopReady_spec d now :
  is_u64 now -> is_u64 (di_delay d) -> Forall (fun m => is_u64 (m_PostedAt m)) (di_q d) ->
  PopReady d now = (MkInbox (di_delay d) (filter (fun m => ~ is_ready (di_delay d) now m) (di_q d)),
                    filter (is_ready (di_delay d) now) (di_q d)).
Proof. intros. unfold PopReady. by rewrite ready_loop_spec. Qed.

(** A message enqueued is delivered once, at the first poll at or after its time. *)
Lemma PopReady_perm d now :
  is_u64 now -> is_u64 (di_delay d) -> Forall (fun m => is_u64 (m_PostedAt m)) (di_q d) ->
  let '(d', ready) := PopReady d now in
  ready ++ di_q d' ≡ₚ di_q d /\ Forall (is_ready (di_delay d) now) ready /\
  Forall (fun m => ~ is_ready (di_delay d) now m) (di_q d') /\
  forall now', is_u64 now' -> now' <= now -> (PopReady d' now').2 = [].
Proof.
  intros Hn Hd Hq. rewrite PopReady_spec by done. cbn [di_q].
  split; [apply filter_app_complement|]. split; [apply Forall_forall; intros m Hm; apply list_elem_of_In, list_elem_of_filter in Hm; tauto|].
  assert (Forall (fun m => ~ is_ready (di_delay d) now m) (filter (fun m => ~ is_ready (di_delay d) now m) (di_q d))) as Hk.
  { apply Forall_forall. intros m Hm. apply list_elem_of_In, list_elem_of_filter in Hm. tauto. }
  split; [done|]. intros now' Hn' Hle. rewrite PopReady_spec; cbn [di_delay di_q snd]; try done.
  - generalize (di_q d) as q. intros q. induction q as [|m q IH]; [done|]. rewrite !filter_cons.
    destruct (decide _) as [Hr|Hr]; [|done]. rewrite filter_cons, decide_False; [done|]. unfold is_ready in *. lia.
  - rewrite list.Forall_forall in Hq |- *. intros m Hm. apply list_elem_of_filter in Hm as [_ Hm]. by apply Hq.
Qed.
