(* ===== verification/Retryable.v ===== *)
(** * Retryable tickets: [pkg/c2seq/retryable.go]

    The engine is the map of tickets; a ticket is a value, written back by the
    operations that change it. *)

From S2P Require Import Prelude Uint256 Keccak BlockTypes GasMath.

Abbreviation retryableOverheadGas := 1400.
Abbreviation retryablePerByteGas := 6.

Inductive RetryableStatus := RetryableCreated | RetryableAutoRedeemed | RetryableManualRedeemed.
#[export] Instance RetryableStatus_eq_dec : EqDecision RetryableStatus.
Proof. solve_decision. Defined.

Record RetryableParams := MkParams {
  p_From : Address;
  p_To : option Address;
  p_CallValue : Uint256;
  p_Deposit : Uint256;
  p_MaxSubmissionFee : Uint256;
  p_ExcessFeeRefundTo : Address;
  p_CallValueRefundTo : Address;
  p_GasLimit : Z;
  p_MaxFeePerGas : Uint256;
  p_Data : bytes;
  p_L1BaseFee : Uint256;
  p_GasProvided : Z;
}.

Record RetryableTicket := MkTicket {
  t_ID : Hash;
  t_From : Address;
  t_To : option Address;
  t_CallValue : Uint256;
  t_Deposit : Uint256;
  t_MaxSubmissionFee : Uint256;
  t_ExcessFeeRefundTo : Address;
  t_CallValueRefundTo : Address;
  t_GasLimit : Z;
  t_MaxFeePerGas : Uint256;
  t_Data : bytes;
  t_Status : RetryableStatus;
  t_SubmissionGas : Z;
  t_SubmissionFee : Uint256;
}.

Abbreviation RetryableEngine := (gmap bytes RetryableTicket).

Definition NewRetryableEngine : RetryableEngine := ∅.

Definition submissionGas (dataLen : Z) : outcome seq_err Z :=
  if dataLen <? 0 then Err ErrGasUnderflow
  else n ← SafeMulGas retryablePerByteGas (u64 dataLen); SafeAddGas retryableOverheadGas n.

Definition quoteRetryable (p : RetryableParams) : outcome seq_err (Z * Uint256 * Uint256 * Uint256) :=
  subGas ← submissionGas (Z.of_nat (length (p_Data p)));
  subFee ← mulU256U64Checked (p_L1BaseFee p) subGas;
  if 0 <? Cmp subFee (p_MaxSubmissionFee p) then Err ErrSubmissionFee
  else
    exec ← mulU256U64Checked (p_MaxFeePerGas p) (p_GasLimit p);
    total ← addU256Checked subFee exec;
    total ← addU256Checked total (p_CallValue p);
    if Cmp (p_Deposit p) total <? 0 then Err ErrDeposit
    else _ ← SafeSubGas (p_GasProvided p) subGas; Ok (subGas, subFee, exec, total).

(** What [ticketID] hashes. *)
Definition ticket_preimage (p : RetryableParams) : bytes :=
  p_From p ++ (match p_To p with Some a => 1 :: a | None => [0] end) ++
  BytesBE (p_CallValue p) ++ p_Data p ++ BytesBE (FromU64 (p_GasLimit p)).

Definition ticketID (p : RetryableParams) : Hash := Keccak256 (ticket_preimage p).

Definition ticketToTx (t : RetryableTicket) (nonce : Z) : Transaction :=
  {| tx_Type := TxDynamicFee;
     tx_ChainID := zero256;
     tx_Nonce := nonce;
     tx_GasPrice := t_MaxFeePerGas t;
     tx_GasTipCap := t_MaxFeePerGas t;
     tx_GasFeeCap := t_MaxFeePerGas t;
     tx_Gas := t_GasLimit t;
     tx_To := t_To t;
     tx_Value := t_CallValue t;
     tx_Data := t_Data t;
     tx_AccessList := [];
     tx_BlobFeeCap := zero256;
     tx_BlobHashes := [];
     tx_V := zero256;
     tx_R := zero256;
     tx_S := zero256;
     tx_From := t_From t;
     tx_Hash := match t_ID t with b :: l => Z.lxor b 0xa5 :: l | [] => [] end |}.

Definition with_status (t : RetryableTicket) (s : RetryableStatus) : RetryableTicket :=
  MkTicket (t_ID t) (t_From t) (t_To t) (t_CallValue t) (t_Deposit t) (t_MaxSubmissionFee t)
    (t_ExcessFeeRefundTo t) (t_CallValueRefundTo t) (t_GasLimit t) (t_MaxFeePerGas t) (t_Data t)
    s (t_SubmissionGas t) (t_SubmissionFee t).

Definition with_gas (t : RetryableTicket) (gasLimit : Z) (maxFee : Uint256) : RetryableTicket :=
  MkTicket (t_ID t) (t_From t) (t_To t) (t_CallValue t) (t_Deposit t) (t_MaxSubmissionFee t)
    (t_ExcessFeeRefundTo t) (t_CallValueRefundTo t) gasLimit maxFee (t_Data t)
    (t_Status t) (t_SubmissionGas t) (t_SubmissionFee t).

Definition new_ticket (p : RetryableParams) (subGas : Z) (subFee : Uint256) : RetryableTicket :=
  MkTicket (ticketID p) (p_From p) (p_To p) (p_CallValue p) (p_Deposit p) (p_MaxSubmissionFee p)
    (p_ExcessFeeRefundTo p) (p_CallValueRefundTo p) (p_GasLimit p) (p_MaxFeePerGas p) (p_Data p)
    RetryableCreated subGas subFee.

Definition Create (e : RetryableEngine) (p : RetryableParams) :
  outcome seq_err (RetryableEngine * RetryableTicket * option Transaction) :=
  '(subGas, subFee, _, _) ← quoteRetryable p;
  left ← SafeSubGas (p_GasProvided p) subGas;
  let t := new_ticket p subGas subFee in
  let e := <[t_ID t := t]> e in
  if p_GasLimit p =? 0 then Ok (e, t, None)
  else if left <? p_GasLimit p then Ok (e, t, None)
  else let t := with_status t RetryableAutoRedeemed in
       Ok (<[t_ID t := t]> e, t, Some (ticketToTx t 0)).

Definition AutoRedeem (e : RetryableEngine) (id : Hash) : outcome seq_err (RetryableEngine * Transaction) :=
  match e !! id with
  | None => Err ErrTicketMissing
  | Some t =>
      if negb (bool_decide (t_Status t = RetryableCreated)) then Err ErrTicketState
      else if t_GasLimit t =? 0 then Err ErrTicketState
      else let t := with_status t RetryableAutoRedeemed in
           Ok (<[id := t]> e, ticketToTx t 0)
  end.

Definition ManualRedeem (e : RetryableEngine) (id : Hash) (gasLimit : Z) (maxFee : Uint256) :
  outcome seq_err (RetryableEngine * Transaction) :=
  _ ← mulU256U64Checked maxFee gasLimit;
  match e !! id with
  | None => Err ErrTicketMissing
  | Some t =>
      if negb (bool_decide (t_Status t = RetryableCreated)) then Err ErrTicketState
      else if gasLimit =? 0 then Err ErrTicketState
      else let t := with_status (with_gas t gasLimit maxFee) RetryableManualRedeemed in
           Ok (<[id := t]> e, ticketToTx t 0)
  end.

Definition Get (e : RetryableEngine) (id : Hash) : option RetryableTicket := e !! id.

(** ** Quotes *)

Record params_ok (p : RetryableParams) : Prop := {
  pp_from : is_address (p_From p);
  pp_to : match p_To p with Some a => is_address a | None => True end;
  pp_value : u256_ok (p_CallValue p);
  pp_deposit : u256_ok (p_Deposit p);
  pp_maxsub : u256_ok (p_MaxSubmissionFee p);
  pp_gas : is_u64 (p_GasLimit p);
  pp_fee : u256_ok (p_MaxFeePerGas p);
  pp_data : bytes_ok (p_Data p) /\ Z.of_nat (length (p_Data p)) < 2 ^ 63;
  pp_l1 : u256_ok (p_L1BaseFee p);
  pp_provided : is_u64 (p_GasProvided p);
}.

(** The price of a submission, over the integers. *)
Definition sub_gas (p : RetryableParams) : Z := 1400 + 6 * Z.of_nat (length (p_Data p)).
Definition sub_fee (p : RetryableParams) : Z := toZ (p_L1BaseFee p) * sub_gas p.
Definition exec_fee (p : RetryableParams) : Z := toZ (p_MaxFeePerGas p) * p_GasLimit p.

(** Whether the parameters pay for themselves. *)
Definition fundable (p : RetryableParams) : Prop :=
  sub_fee p <= toZ (p_MaxSubmissionFee p) /\
  sub_fee p + exec_fee p + toZ (p_CallValue p) <= toZ (p_Deposit p) /\
  sub_gas p <= p_GasProvided p.

Lemma submissionGas_spec n :
  0 <= n < 2 ^ 63 ->
  submissionGas n = if 1400 + 6 * n <? B64 then Ok (1400 + 6 * n) else Err ErrGasOverflow.
Proof.
  intros Hn. unfold submissionGas. rewrite (u64_small n) by (unfold is_u64; lia).
  destruct (Z.ltb_spec n 0); [lia|]. rewrite SafeMulGas_spec by (unfold is_u64; lia).
  destruct (Z.ltb_spec (6 * n) B64); cbn [mbind outcome_bind].
  - by rewrite SafeAddGas_spec by (unfold is_u64; lia).
  - gtest; [lia|done].
Qed.

(** A quote succeeds exactly on the fundable parameters, with the exact amounts. *)
Lemma quoteRetryable_spec p :
  params_ok p ->
  match quoteRetryable p with
  | Ok (g, fee, exec, total) => fundable p /\ g = sub_gas p /\ u256_ok fee /\ toZ fee = sub_fee p /\
      toZ exec = exec_fee p /\ toZ total = sub_fee p + exec_fee p + toZ (p_CallValue p)
  | Err e => ~ fundable p /\ e ∈ [ErrGasOverflow; ErrSubmissionFee; ErrDeposit; ErrGasUnderflow]
  | _ => False
  end.
Proof.
  intros [Hfrom Hto Hval Hdep Hms Hg Hfee [Hdat Hlen] Hl1 Hprov]. unfold quoteRetryable, fundable.
  rewrite submissionGas_spec by lia. fold (sub_gas p). unfold is_u64 in Hprov.
  destruct (Z.ltb_spec (sub_gas p) B64) as [H1|H1]; cbn [mbind outcome_bind]; [|split; [lia|set_solver]].
  assert (is_u64 (sub_gas p)) as Hsg by (unfold is_u64, sub_gas in *; lia).
  pose proof (mulU256U64Checked_spec (p_L1BaseFee p) (sub_gas p) Hl1 Hsg) as M. fold (sub_fee p) in M.
  pose proof (toZ_range _ Hms). pose proof (toZ_range _ Hdep). pose proof (toZ_range _ Hval). pose proof (toZ_range _ Hl1).
  assert (0 <= sub_fee p) by (unfold sub_fee, is_u64 in *; nia).
  assert (0 <= exec_fee p) by (pose proof (toZ_range _ Hfee); unfold exec_fee, is_u64 in *; nia).
  destruct (Z.ltb_spec (sub_fee p) B256); [destruct M as (fee & -> & Hf & Ef)|rewrite M];
    cbn [mbind outcome_bind]; [|split; [lia|set_solver]].
  rewrite Cmp_gt, Ef by done. gtest; [split; [lia|set_solver]|].
  pose proof (mulU256U64Checked_spec (p_MaxFeePerGas p) (p_GasLimit p) Hfee Hg) as M'. fold (exec_fee p) in M'.
  destruct (Z.ltb_spec (exec_fee p) B256); [destruct M' as (exec & -> & He & Ee)|rewrite M'];
    cbn [mbind outcome_bind]; [|split; [lia|set_solver]].
  pose proof (addU256Checked_spec fee exec Hf He) as A. rewrite Ef, Ee in A.
  destruct (Z.ltb_spec (sub_fee p + exec_fee p) B256); [destruct A as (t1 & -> & Ht1 & E1)|rewrite A];
    cbn [mbind outcome_bind]; [|split; [lia|set_solver]].
  pose proof (addU256Checked_spec t1 (p_CallValue p) Ht1 Hval) as A'. rewrite E1 in A'.
  destruct (Z.ltb_spec (sub_fee p + exec_fee p + toZ (p_CallValue p)) B256); [destruct A' as (t2 & -> & Ht2 & E2)|rewrite A'];
    cbn [mbind outcome_bind]; [|split; [lia|set_solver]].
  rewrite Cmp_lt, E2 by done. gtest; [split; [lia|set_solver]|].
  rewrite SafeSubGas_spec by done. gtest; cbn [mbind outcome_bind]; [|split; [lia|set_solver]].
  split_and!; try done; lia.
Qed.

(** ** Identifiers *)

Lemma ticket_preimage_inj p q :
  params_ok p -> params_ok q -> ticket_preimage p = ticket_preimage q ->
  p_From p = p_From q /\ p_To p = p_To q /\ p_CallValue p = p_CallValue q /\ p_Data p = p_Data q /\
  p_GasLimit p = p_GasLimit q.
Proof.
  intros Hp Hq E. unfold ticket_preimage in E. destruct Hp as [[_ Lp] Hpto Hpv _ _ Hpg _ _ _ _], Hq as [[_ Lq] Hqto Hqv _ _ Hqg _ _ _ _].
  apply app_inj_1 in E as [-> E]; [|congruence]. split; [done|].
  assert (p_To p = p_To q /\ BytesBE (p_CallValue p) ++ p_Data p ++ BytesBE (FromU64 (p_GasLimit p)) =
    BytesBE (p_CallValue q) ++ p_Data q ++ BytesBE (FromU64 (p_GasLimit q))) as [Eto E'].
  { destruct (p_To p) as [a|], (p_To q) as [b|]; try discriminate E.
    - destruct Hpto, Hqto. apply app_inj_1 in E as [Ea E]; [by injection Ea as ->|cbn; congruence].
    - by apply app_inj_1 in E as [_ E]. }
  clear E. split; [done|]. apply app_inj_1 in E' as [Ev E]; [|by rewrite !length_BytesBE].
  apply app_inj_2 in E as [Ed Eg]; [|by rewrite !length_BytesBE].
  split; [by rewrite <- (FromBytesBE_BytesBE (p_CallValue p)), <- (FromBytesBE_BytesBE (p_CallValue q)), Ev|].
  split; [done|]. apply (f_equal FromBytesBE) in Eg.
  rewrite !FromBytesBE_BytesBE in Eg by by apply FromU64_ok. by injection Eg.
Qed.

Lemma length_ticketID p : length (ticketID p) = 32%nat.
Proof. apply length_Keccak256. Qed.

(** ** Operations *)

Lemma Create_spec e p :
  params_ok p ->
  match Create e p with
  | Ok (e', t, otx) => fundable p /\ t_ID t = ticketID p /\ e' = <[ticketID p := t]> e /\
      t_SubmissionGas t = sub_gas p /\ toZ (t_SubmissionFee t) = sub_fee p /\
      (if bool_decide (0 < p_GasLimit p <= p_GasProvided p - sub_gas p)
       then t_Status t = RetryableAutoRedeemed /\ otx = Some (ticketToTx t 0)
       else t_Status t = RetryableCreated /\ otx = None)
  | Err _ => ~ fundable p
  | _ => False
  end.
Proof.
  intros Hp. unfold Create. pose proof (quoteRetryable_spec p Hp) as Q.
  destruct (quoteRetryable p) as [[[[g fee] exec] total]|er| |]; cbn [mbind outcome_bind]; [|by destruct Q|done..].
  destruct Q as (HF & -> & Hfee & Ef & _ & _). pose proof Hp as [_ _ _ _ _ Hg _ _ _ Hpr]. destruct HF as (F1 & F2 & F3).
  assert (is_u64 (sub_gas p)) by (unfold is_u64, sub_gas in *; lia).
  rewrite SafeSubGas_spec by done. destruct (Z.leb_spec (sub_gas p) (p_GasProvided p)); [|lia]. cbn [mbind outcome_bind].
  unfold is_u64 in Hg.
  destruct (Z.eqb_spec (p_GasLimit p) 0), (Z.ltb_spec (p_GasProvided p - sub_gas p) (p_GasLimit p));
    (split; [done|]); split_and!; try done; try (rewrite bool_decide_eq_false_2; [done|lia]);
    [cbn; apply insert_insert_eq|rewrite bool_decide_eq_true_2; [done|lia]].
Qed.

Lemma AutoRedeem_spec e id :
  match AutoRedeem e id with
  | Ok (e', tx) => exists t t', e !! id = Some t /\ t_Status t = RetryableCreated /\ t_GasLimit t <> 0 /\
      t' = with_status t RetryableAutoRedeemed /\ e' = <[id := t']> e /\ tx = ticketToTx t' 0
  | Err ErrTicketMissing => e !! id = None
  | Err ErrTicketState => exists t, e !! id = Some t /\ (t_Status t <> RetryableCreated \/ t_GasLimit t = 0)
  | _ => False
  end.
Proof.
  unfold AutoRedeem. destruct (e !! id) as [t|] eqn:E; [|done]. case_bool_decide; cbn [negb]; [|eauto].
  destruct (Z.eqb_spec (t_GasLimit t) 0); eauto 10.
Qed.

Lemma ManualRedeem_spec e id g fee :
  u256_ok fee -> is_u64 g ->
  match ManualRedeem e id g fee with
  | Ok (e', tx) => exists t t', e !! id = Some t /\ t_Status t = RetryableCreated /\ g <> 0 /\ toZ fee * g < B256 /\
      t' = with_status (with_gas t g fee) RetryableManualRedeemed /\ e' = <[id := t']> e /\ tx = ticketToTx t' 0
  | Err ErrGasOverflow => B256 <= toZ fee * g
  | Err ErrTicketMissing => e !! id = None
  | Err ErrTicketState => exists t, e !! id = Some t /\ (t_Status t <> RetryableCreated \/ g = 0)
  | _ => False
  end.
Proof.
  intros Hf Hg. unfold ManualRedeem. pose proof (mulU256U64Checked_spec fee g Hf Hg) as M.
  destruct (Z.ltb_spec (toZ fee * g) B256); [destruct M as (r & -> & _)|by rewrite M]; cbn [mbind outcome_bind].
  destruct (e !! id) as [t|] eqn:E; [|done]. case_bool_decide; cbn [negb]; [|eauto].
  destruct (Z.eqb_spec g 0); [eauto|]. eexists _, _. split_and!; done.
Qed.

(** ** A ticket is redeemed at most once *)

Inductive retry_op := OpCreate (p : RetryableParams) | OpAuto (id : Hash) | OpManual (id : Hash) (g : Z) (fee : Uint256).

(** One call: the engine after it, and the transaction it emits with the ticket it comes from. *)
Definition retry_step (e : RetryableEngine) (o : retry_op) : RetryableEngine * option (Hash * Transaction) :=
  match o with
  | OpCreate p => match Create e p with
                  | Ok (e', t, Some tx) => (e', Some (t_ID t, tx))
                  | Ok (e', t, None) => (e', None)
                  | _ => (e, None)
                  end
  | OpAuto id => match AutoRedeem e id with Ok (e', tx) => (e', Some (id, tx)) | _ => (e, None) end
  | OpManual id g fee => match ManualRedeem e id g fee with Ok (e', tx) => (e', Some (id, tx)) | _ => (e, None) end
  end.

Definition retry_run (e : RetryableEngine) (os : list retry_op) : RetryableEngine * list (Hash * Transaction) :=
  foldl (fun '(e, out) o => let '(e', r) := retry_step e o in (e', out ++ option_list r)) (e, []) os.

Definition creates (id : Hash) (o : retry_op) : bool :=
  match o with OpCreate p => bool_decide (ticketID p = id) | _ => false end.
Definition op_typed (o : retry_op) : Prop :=
  match o with OpCreate p => params_ok p | OpAuto _ => True | OpManual _ g fee => u256_ok fee /\ is_u64 g end.

Definition emitted (id : Hash) (l : list (Hash * Transaction)) : nat := length (filter (fun x => x.1 = id) l).
Definition redeemable (e : RetryableEngine) (id : Hash) : nat :=
  match e !! id with Some t => if bool_decide (t_Status t = RetryableCreated) then 1 else 0 | None => 0 end.

Lemma emitted_snoc id l r : emitted id (l ++ option_list r) = (emitted id l + emitted id (option_list r))%nat.
Proof. unfold emitted. by rewrite list.filter_app, length_app. Qed.

Lemma redeem_potential e i t t' tx id :
  e !! i = Some t -> t_Status t = RetryableCreated -> t_Status t' <> RetryableCreated ->
  (emitted id [(i, tx)] + redeemable (<[i := t']> e) id <= redeemable e id)%nat.
Proof.
  intros Et Es Hs. unfold redeemable, emitted. rewrite filter_cons. cbn [fst]. destruct (decide (i = id)) as [->|Hi].
  - rewrite lookup_insert_eq, Et, bool_decide_eq_false_2, bool_decide_eq_true_2 by done. cbn. lia.
  - rewrite lookup_insert_ne by done. cbn. lia.
Qed.

(** The tickets of [id] emitted plus those still to be redeemed: one per creation at most. *)
Lemma retry_step_potential e o id :
  op_typed o ->
  let '(e', r) := retry_step e o in
  (emitted id (option_list r) + redeemable e' id <= redeemable e id + (if creates id o then 1 else 0))%nat.
Proof.
  intros Ho. destruct o as [p|i|i g fee]; cbn [retry_step creates].
  - pose proof (Create_spec e p Ho) as C. destruct (Create e p) as [[[e' t] otx]|er| |]; cbn; [|lia..].
    destruct C as (_ & Eid & -> & _ & _ & C). unfold redeemable, emitted.
    destruct (decide (ticketID p = id)) as [<-|Hid].
    + rewrite (bool_decide_eq_true_2 (ticketID p = _)) by done.
      destruct (bool_decide (0 < _ <= _)); destruct C as [Es ->]; cbn [option_list]; rewrite lookup_insert_eq, Es; [|rewrite bool_decide_eq_true_2 by done; cbn; lia]. rewrite bool_decide_eq_false_2 by done.
      cbn. destruct (decide _); cbn; lia.
    + rewrite (bool_decide_eq_false_2 (ticketID p = _)) by done.
      destruct (bool_decide (0 < _ <= _)); destruct C as [Es ->]; cbn [option_list]; rewrite lookup_insert_ne by done; [|cbn; lia].
      cbn. destruct (decide _); [congruence|cbn; lia].
  - pose proof (AutoRedeem_spec e i) as C. destruct (AutoRedeem e i) as [[e' tx]|er| |]; cbn; [|lia..].
    destruct C as (t & t' & Et & Es & _ & -> & -> & ->). rewrite Nat.add_0_r. by eapply redeem_potential.
  - destruct Ho as [Hf Hg]. pose proof (ManualRedeem_spec e i g fee Hf Hg) as C.
    destruct (ManualRedeem e i g fee) as [[e' tx]|er| |]; cbn; [|lia..].
    destruct C as (t & t' & Et & Es & _ & _ & -> & -> & ->). rewrite Nat.add_0_r. by eapply redeem_potential.
Qed.

Lemma retry_run_snoc e os o :
  retry_run e (os ++ [o]) =
    let '(e1, out) := retry_run e os in let '(e2, r) := retry_step e1 o in (e2, out ++ option_list r).
Proof. unfold retry_run. rewrite foldl_app. cbn. by destruct (foldl _ _ os). Qed.

Lemma retry_run_once e os id :
  Forall op_typed os ->
  let '(e', out) := retry_run e os in
  (emitted id out + redeemable e' id <= redeemable e id + length (filter (fun o => creates id o = true) os))%nat.
Proof.
  induction os as [|o os IH] using rev_ind; [cbn; lia|]. rewrite Forall_app. intros [Hos Ho]. apply Forall_inv in Ho.
  rewrite retry_run_snoc. specialize (IH Hos). destruct (retry_run e os) as [e1 out].
  pose proof (retry_step_potential e1 o id Ho) as P. destruct (retry_step e1 o) as [e2 r].
  rewrite emitted_snoc, list.filter_app, length_app, filter_cons.
  destruct (creates id o); [rewrite decide_True by done|rewrite decide_False by done]; cbn [length filter list_filter]; cbn; lia.
Qed.
