(* ===== verification/BatchRlp.v ===== *)
(** * Batches: [pkg/c2seq/batch_poster.go]

    A batch is the RLP list of its transactions, framed as one uncompressed Brotli
    meta-block. [rlpDecode] recurses on nested lists: [fuel] bounds the nesting. *)

From S2P Require Import Prelude Uint256 Mpt StateRoot BlockTypes GasMath.

Abbreviation maxBatchPlain := 524288.

(** ** Encoding *)

Definition rlpBytes (b : bytes) : bytes := RlpEncodeBytes b.

Definition rlpList (items : list bytes) : bytes :=
  let payload := foldl (fun p it => p + Z.of_nat (length it)) 0 items in
  RlpEncodeListHeader payload ++ concat items.

Definition rlpU64 (n : Z) : bytes := if n =? 0 then [0x80] else rlpBytes (uint_bytes 8 n []).

Definition rlpU256 (z : Uint256) : bytes :=
  if IsZero z then [0x80] else rlpBytes (skip_zeros (BytesBE z)).

Definition encodeTx (tx : Transaction) : bytes :=
  let to := match tx_To tx with Some a => a | None => [] end in
  rlpList [rlpU64 (tx_Type tx); rlpU64 (tx_Nonce tx); rlpU64 (tx_Gas tx);
           rlpU256 (tx_GasTipCap tx); rlpU256 (tx_GasFeeCap tx); rlpU256 (tx_GasPrice tx);
           rlpBytes to; rlpU256 (tx_Value tx); rlpBytes (tx_Data tx);
           rlpBytes (tx_From tx); rlpBytes (tx_Hash tx)].

(** [put]: [acc |= v << nb; nb += n]. *)
Definition put (v n : Z) (s : Z * Z) : Z * Z := (Z.lor s.1 (shl64 v s.2), s.2 + n).

(** [for nb%8 != 0 { put(0, 1) }]: at most seven rounds. *)
Fixpoint put_pad (fuel : nat) (s : Z * Z) : Z * Z :=
  match fuel with
  | O => s
  | S fuel => if s.2 mod 8 =? 0 then s else put_pad fuel (put 0 1 s)
  end.

(** [for i := 0; i < nb; i += 8 { out = append(out, byte(acc>>i)) }] *)
Definition put_bytes (s : Z * Z) : bytes :=
  map (fun k => u8 (shr64 s.1 (8 * Z.of_nat k))) (seq 0 (Z.to_nat ((s.2 + 7) / 8))).

Definition brotliUncompressed (payload : bytes) : outcome seq_err bytes :=
  let mlen := Z.of_nat (length payload) in
  if mlen =? 0 then Ok [0x06]
  else if maxBatchPlain <? mlen then Err ErrBatchTooLarge
  else
    let m1 := mlen - 1 in
    let pick := if m1 <? Z.shiftl 1 16 then Some (0, 16) else if m1 <? Z.shiftl 1 20 then Some (1, 20)
                else if m1 <? Z.shiftl 1 24 then Some (2, 24) else None in
    match pick with
    | None => Err ErrBatchTooLarge
    | Some (nib, nbits) =>
        let s := put 1 1 (put m1 nbits (put nib 2 (put 0 1 (put 0 1 (0, 0))))) in
        Ok (put_bytes (put_pad 8 s) ++ payload ++ [0x03])
    end.

(** The first loop of [Pack]. *)
Fixpoint pack_items (txs : list (option Transaction)) (total : Z) : outcome seq_err (list bytes) :=
  match txs with
  | [] => Ok []
  | None :: _ => Err ErrNilTx
  | Some tx :: txs =>
      let enc := encodeTx tx in
      let total := total + Z.of_nat (length enc) in
      if maxBatchPlain <? total then Err ErrBatchTooLarge
      else items ← pack_items txs total; Ok (enc :: items)
  end.

Definition pack_plain (txs : list (option Transaction)) : outcome seq_err bytes :=
  items ← pack_items txs 0;
  let plain := rlpList items in
  if maxBatchPlain <? Z.of_nat (length plain) then Err ErrBatchTooLarge else Ok plain.

Definition Pack (txs : list (option Transaction)) : outcome seq_err bytes :=
  plain ← pack_plain txs; brotliUncompressed plain.

(** ** Decoding *)

(** [rlpVal{list, b, elts}]. *)
Inductive rlpVal := RStr (b : bytes) | RList (elts : list rlpVal).

Fixpoint read_int_loop (b : bytes) (n : Z) : outcome seq_err Z :=
  match b with
  | [] => Ok n
  | c :: b => if 36028797018963967 <? n then Err ErrBatchTooLarge else read_int_loop b (Z.lor (Z.shiftl n 8) c)
  end.

Definition rlpReadInt (b : bytes) : outcome seq_err Z :=
  let n := length b in
  if (n =? 0)%nat || (8 <? n)%nat then Err ErrBatchFormat
  else if (1 <? n)%nat && (b !!! 0%nat =? 0) then Err ErrBatchFormat
  else read_int_loop b 0.

(** The long form of a string or a list: [llen] length bytes, then the payload. *)
Definition read_long (buf : bytes) (llen : Z) : outcome seq_err (bytes * bytes) :=
  let len := Z.of_nat (length buf) in
  if (llen =? 0) || (len - 1 <? llen) then Err ErrBatchFormat
  else
    lb ← go_slice buf 1 (1 + llen);
    match rlpReadInt lb with
    | Ok n =>
        if n <? 56 then Err ErrBatchFormat
        else if (len <? 1 + llen) || (len - (1 + llen) <? n) then Err ErrBatchFormat
        else
          payload ← go_slice buf (1 + llen) (1 + llen + n);
          rest ← go_slice buf (1 + llen + n) len;
          Ok (payload, rest)
    | Err _ => Err ErrBatchFormat
    | Panic => Panic
    | OutOfFuel => OutOfFuel
    end.

Definition read_short (buf : bytes) (n : Z) : outcome seq_err (bytes * bytes) :=
  let len := Z.of_nat (length buf) in
  if len - 1 <? n then Err ErrBatchFormat
  else
    payload ← go_slice buf 1 (1 + n);
    rest ← go_slice buf (1 + n) len;
    Ok (payload, rest).

(** The items a list may have. *)
Definition maxListItems : nat := 4096.

(** The loop over the items of a list; [k] items may still be read. *)
Fixpoint rlp_items (decode : bytes -> outcome seq_err (rlpVal * bytes)) (k : nat) (payload : bytes)
  (items : list rlpVal) : outcome seq_err (list rlpVal) :=
  match payload with
  | [] => Ok items
  | _ =>
      match k with
      | O => Err ErrBatchTooLarge
      | S k => '(v, next) ← decode payload; rlp_items decode k next (items ++ [v])
      end
  end.

Fixpoint rlpDecode (fuel : nat) (buf : bytes) : outcome seq_err (rlpVal * bytes) :=
  match fuel with
  | O => OutOfFuel
  | S fuel =>
      match buf with
      | [] => Err ErrBatchFormat
      | b :: tl =>
          if b <? 0x80 then Ok (RStr [b], tl)
          else if b <? 0xb8 then
            let n := b - 0x80 in
            if (n =? 1) && (1 <? Z.of_nat (length buf)) && (buf !!! 1%nat <? 0x80) then Err ErrBatchFormat
            else '(p, rest) ← read_short buf n; Ok (RStr p, rest)
          else if b <? 0xc0 then '(p, rest) ← read_long buf (b - 0xb7); Ok (RStr p, rest)
          else
            '(payload, rest) ← (if b <? 0xf8 then read_short buf (b - 0xc0) else read_long buf (b - 0xf7));
            items ← rlp_items (rlpDecode fuel) maxListItems payload [];
            Ok (RList items, rest)
      end
  end.

Definition rlpToU64 (v : rlpVal) : outcome seq_err Z :=
  match v with
  | RList _ => Err ErrBatchFormat
  | RStr b =>
      if (length b =? 0)%nat then Ok 0
      else if (8 <? length b)%nat || (b !!! 0%nat =? 0) then Err ErrBatchFormat
      else Ok (foldl (fun n c => Z.lor (shl64 n 8) c) 0 b)
  end.

Definition rlpToU256 (v : rlpVal) : outcome seq_err Uint256 :=
  match v with
  | RList _ => Err ErrBatchFormat
  | RStr b =>
      if (32 <? length b)%nat then Err ErrBatchFormat
      else if (1 <? length b)%nat && (b !!! 0%nat =? 0) then Err ErrBatchFormat
      else Ok (FromBytesBE b)
  end.

Definition rlp_string (v : rlpVal) : outcome seq_err bytes :=
  match v with RList _ => Err ErrBatchFormat | RStr b => Ok b end.

Definition rlp_fixed (n : nat) (v : rlpVal) : outcome seq_err bytes :=
  b ← rlp_string v; if (length b =? n)%nat then Ok b else Err ErrBatchFormat.

Definition decodeTx (v : rlpVal) : outcome seq_err Transaction :=
  match v with
  | RList [e0; e1; e2; e3; e4; e5; e6; e7; e8; e9; e10] =>
      typ ← rlpToU64 e0;
      nonce ← rlpToU64 e1;
      gas ← rlpToU64 e2;
      tip ← rlpToU256 e3;
      fee ← rlpToU256 e4;
      price ← rlpToU256 e5;
      to ← (b ← rlp_string e6;
            if (length b =? 20)%nat then Ok (Some b)
            else if negb (length b =? 0)%nat then Err ErrBatchFormat else Ok None);
      value ← rlpToU256 e7;
      data ← rlp_string e8;
      from ← rlp_fixed 20 e9;
      hash ← rlp_fixed 32 e10;
      Ok (MkTx (u8 typ) zero256 nonce price tip fee gas to value data [] zero256 [] zero256 zero256 zero256 from hash)
  | _ => Err ErrBatchFormat
  end.

Fixpoint decode_txs (l : list rlpVal) : outcome seq_err (list Transaction) :=
  match l with
  | [] => Ok []
  | v :: l => tx ← decodeTx v; txs ← decode_txs l; Ok (tx :: txs)
  end.

(** [Unpack] after decompression. *)
Definition unpack_plain (fuel : nat) (plain : bytes) : outcome seq_err (list Transaction) :=
  match plain with
  | [] => Ok []
  | _ =>
      '(v, rest) ← rlpDecode fuel plain;
      match rest, v with
      | [], RList elts => decode_txs elts
      | _, _ => Err ErrBatchFormat
      end
  end.
