(* ===== verification/BatchSpec.v ===== *)
(** * Batches are read back: theorems on the RLP codec and the batch poster

    [rlpDecode] is total, accepts canonical encodings only, and inverts the
    encoder; unpacking a packed batch gives back the transactions, up to the
    fields a batch does not carry, as long as it has at most 4096 of them. *)

From S2P Require Import Prelude Uint256 Mpt StateRoot StateRootSpec RlpFacts BlockTypes GasMath BatchRlp.

(** ** The reference encoder *)

Fixpoint rlp_encode (v : rlpVal) : bytes :=
  match v with
  | RStr b => rlpBytes b
  | RList l => rlpList (map rlp_encode l)
  end.

(** Induction with hypotheses on the elements. *)
Lemma rlpVal_ind' (P : rlpVal -> Prop) :
  (forall b, P (RStr b)) -> (forall l, Forall P l -> P (RList l)) -> forall v, P v.
Proof.
  intros Hs Hl. fix IH 1. intros [b|l]; [apply Hs|]. apply Hl. induction l; constructor; auto.
Qed.

Lemma rlpList_eq items :
  rlpList items = RlpEncodeListHeader (Z.of_nat (length (concat items))) ++ concat items.
Proof. unfold rlpList. by rewrite payload_length. Qed.

Lemma rlp_encode_ne v : rlp_encode v <> [].
Proof.
  destruct v as [b|l]; cbn; [apply RlpEncodeBytes_ne|]. unfold rlpList.
  intros [H _]%app_eq_nil. by apply RlpEncodeListHeader_ne in H.
Qed.

(** ** Lengths *)

Lemma read_int_loop_Ok b n r :
  bytes_ok b -> 0 <= n -> read_int_loop b n = Ok r -> r = n * 256 ^ Z.of_nat (length b) + be_val b.
Proof.
  intros Hb. revert n. induction Hb as [|c b Hc Hb IH]; intros n Hn; cbn [read_int_loop].
  { intros [= <-]. unfold be_val. cbn. lia. }
  gtest; [done|]. rewrite shift_or by done. intros E. apply IH in E; [|unfold is_byte in Hc; lia].
  rewrite be_val_cons. cbn [length]. rewrite Nat2Z.inj_succ, Z.pow_succ_r by lia. lia.
Qed.

Lemma read_int_loop_small b n :
  bytes_ok b -> 0 <= n -> n * 256 ^ Z.of_nat (length b) + be_val b < 2 ^ 63 ->
  read_int_loop b n = Ok (n * 256 ^ Z.of_nat (length b) + be_val b).
Proof.
  intros Hb Hn Hlt. destruct (read_int_loop b n) as [r| | |] eqn:E.
  - f_equal. by apply read_int_loop_Ok.
  - exfalso. revert n Hn Hlt E. induction Hb as [|c b Hc Hb IH]; intros n Hn Hlt; cbn [read_int_loop]; [done|].
    rewrite be_val_cons in Hlt. cbn [length] in Hlt. rewrite Nat2Z.inj_succ, Z.pow_succ_r in Hlt by lia.
    pose proof (be_val_range b Hb). unfold is_byte in Hc.
    assert (0 < 256 ^ Z.of_nat (length b)) by (apply Z.pow_pos_nonneg; lia).
    gtest; [nia|]. rewrite shift_or by done. apply IH; lia.
  - exfalso. clear -E. revert n E. induction b as [|c b IH]; intros n; cbn [read_int_loop]; [done|]. gtest; [done|apply IH].
  - exfalso. clear -E. revert n E. induction b as [|c b IH]; intros n; cbn [read_int_loop]; [done|]. gtest; [done|apply IH].
Qed.

Lemma rlpReadInt_write n :
  0 < n < 2 ^ 63 -> rlpReadInt (rlpWriteInt n (rlpIntLen n)) = Ok n.
Proof.
  intros Hn. destruct (rlpIntLen_spec n) as [Hl Hr]; [lia|]. unfold rlpReadInt.
  rewrite length_rlpWriteInt. destruct (Nat.eqb_spec (rlpIntLen n) 0); [lia|].
  destruct (Nat.ltb_spec 8 (rlpIntLen n)); [lia|]. cbn [orb].
  assert (be_val (rlpWriteInt n (rlpIntLen n)) = n) as Hv by (rewrite rlpWriteInt_be, be_val_bytes, Z.mod_small by lia; lia).
  destruct ((1 <? rlpIntLen n)%nat && (rlpWriteInt n (rlpIntLen n) !!! 0%nat =? 0)) eqn:Ez.
  - exfalso. apply andb_prop in Ez as [_ Ez%Z.eqb_eq]. pose proof (length_rlpWriteInt n (rlpIntLen n)) as Hlen.
    pose proof (rlpWriteInt_ok n (rlpIntLen n)) as Hok. destruct (rlpWriteInt n (rlpIntLen n)) as [|c b]; [cbn in *; lia|].
    cbn in Ez. subst c. apply Forall_cons_iff in Hok as [_ Hok]. rewrite be_val_cons in Hv. cbn [length] in Hlen.
    pose proof (be_val_range b Hok). replace (Z.of_nat (rlpIntLen n) - 1) with (Z.of_nat (length b)) in Hr by lia. lia.
  - rewrite read_int_loop_small; [f_equal; lia | apply rlpWriteInt_ok | lia | lia].
Qed.

Lemma rlpReadInt_canonical b n :
  bytes_ok b -> rlpReadInt b = Ok n -> 56 <= n -> rlpIntLen n = length b /\ b = rlpWriteInt n (length b) /\ n < B64.
Proof.
  intros Hb E Hn. unfold rlpReadInt in E.
  destruct (Nat.eqb_spec (length b) 0), (Nat.ltb_spec 8 (length b)); try discriminate E. cbn [orb] in E.
  destruct (_ && _) eqn:Ez; [done|]. apply read_int_loop_Ok in E; [|done|lia].
  assert (n = be_val b) as -> by lia. clear E. pose proof (be_val_range b Hb) as Hr.
  assert (256 ^ Z.of_nat (length b) <= 256 ^ 8) as H8 by (apply Z.pow_le_mono_r; lia).
  change (256 ^ 8) with B64 in H8. split_and!; [| |lia].
  - destruct (rlpIntLen_spec (be_val b)) as [Hl [Hlo Hhi]]; [lia|].
    assert (256 ^ (Z.of_nat (length b) - 1) <= be_val b) as Hlo'.
    { destruct b as [|c b]; [done|]. cbn [length] in *. replace (Z.of_nat (S (length b)) - 1) with (Z.of_nat (length b)) by lia.
      apply Forall_cons_iff in Hb as [Hc Hb]. rewrite be_val_cons in *. pose proof (be_val_range b Hb). unfold is_byte in Hc.
      assert (0 < 256 ^ Z.of_nat (length b)) by (apply Z.pow_pos_nonneg; lia).
      destruct b as [|d b]; [cbn [length] in *; change (256 ^ Z.of_nat 0) with 1; lia|].
      cbn in Ez. destruct (Z.eqb_spec c 0); [done|]. nia. }
    assert (Z.of_nat (rlpIntLen (be_val b)) - 1 < Z.of_nat (length b)) by (apply (Z.pow_lt_mono_r_iff 256); lia).
    assert (Z.of_nat (length b) - 1 < Z.of_nat (rlpIntLen (be_val b))) by (apply (Z.pow_lt_mono_r_iff 256); lia).
    lia.
  - rewrite rlpWriteInt_be. symmetry. by apply be_bytes_val.
Qed.

(** ** Headers *)

Lemma read_short_app h p rest : read_short (h :: p ++ rest) (Z.of_nat (length p)) = Ok (p, rest).
Proof.
  unfold read_short. cbn [length]. rewrite length_app. gtest; [lia|].
  rewrite !go_slice_ok by (cbn [length]; rewrite ?length_app; lia). cbn [mbind outcome_bind]. do 2 f_equal.
  - change (h :: p ++ rest) with ([h] ++ p ++ rest).
    replace (Z.to_nat (1 + Z.of_nat (length p))) with (length [h] + length p)%nat by (cbn; lia). apply slice_mid.
  - change (h :: p ++ rest) with (([h] ++ p) ++ rest).
    replace (Z.to_nat (1 + Z.of_nat (length p))) with (length ([h] ++ p)) by (cbn; lia).
    replace (Z.to_nat _) with (length (([h] ++ p) ++ rest)) by (cbn [length app]; rewrite ?length_app; lia). apply slice_to_end.
Qed.

Lemma read_long_app h p rest :
  56 <= Z.of_nat (length p) < 2 ^ 63 ->
  let n := Z.of_nat (length p) in
  read_long (h :: rlpWriteInt n (rlpIntLen n) ++ p ++ rest) (Z.of_nat (rlpIntLen n)) = Ok (p, rest).
Proof.
  intros Hn n. destruct (rlpIntLen_spec n) as [Hl _]; [lia|]. unfold read_long.
  assert (rlpReadInt (rlpWriteInt n (rlpIntLen n)) = Ok n) as HR by (apply rlpReadInt_write; lia).
  pose proof (length_rlpWriteInt n (rlpIntLen n)) as Llb. revert HR Llb Hl. assert (n = Z.of_nat (length p)) as Ep by done.
  clearbody n. generalize (rlpWriteInt n (rlpIntLen n)) as lb. generalize (rlpIntLen n) as k. intros k lb HR Llb Hl.
  assert (length (h :: lb ++ p ++ rest) = S (k + (length p + length rest)))%nat as Len by (cbn [length]; rewrite !length_app; lia).
  rewrite !Len. repeat (gtest; try lia). cbn [orb]. rewrite go_slice_ok by lia. cbn [mbind outcome_bind].
  replace (slice _ _ _) with lb; [rewrite HR|].
  2: { symmetry. change (h :: lb ++ p ++ rest) with ([h] ++ lb ++ p ++ rest).
       replace (Z.to_nat (1 + Z.of_nat k)) with (length [h] + length lb)%nat by (cbn [length]; lia). apply slice_mid. }
  repeat (gtest; try lia). cbn [orb]. rewrite !go_slice_ok by lia. cbn [mbind outcome_bind].
  assert (Z.to_nat (1 + Z.of_nat k) = length ([h] ++ lb)) as -> by (rewrite length_app; cbn [length]; lia).
  assert (Z.to_nat (1 + Z.of_nat k + n) = length ([h] ++ lb) + length p)%nat as -> by (rewrite length_app; cbn [length]; lia).
  change (h :: lb ++ p ++ rest) with (([h] ++ lb) ++ p ++ rest). rewrite slice_mid, <- length_app.
  replace (Z.to_nat _) with (length ((([h] ++ lb) ++ p) ++ rest)) by (rewrite !length_app; cbn [length]; lia).
  by rewrite app_assoc, slice_to_end.
Qed.

(** ** The decoder inverts the encoder *)

Lemma rlpDecode_string fuel b rest :
  bytes_ok b -> Z.of_nat (length b) < 2 ^ 63 -> rlpDecode (S fuel) (rlpBytes b ++ rest) = Ok (RStr b, rest).
Proof.
  intros Hb Hl. rewrite RlpEncodeBytes_header by lia. destruct (single_byte b) eqn:Es.
  { destruct b as [|c [|]]; try done. cbn in Es. cbn [app rlpDecode]. by rewrite Es. }
  unfold rlp_header. destruct (Z.ltb_spec (Z.of_nat (length b)) 56) as [H56|H56].
  - cbn [app rlpDecode]. set (h := 0x80 + Z.of_nat (length b)) in *.
    destruct (Z.ltb_spec h 0x80); [lia|]. destruct (Z.ltb_spec h 0xb8); [|lia].
    destruct (_ && _) eqn:E1.
    { exfalso. apply andb_prop in E1 as [E1 E2]. apply andb_prop in E1 as [E1%Z.eqb_eq _].
      destruct b as [|c [|]]; cbn in *; try lia. }
    replace (h - 0x80) with (Z.of_nat (length b)) by lia. by rewrite read_short_app.
  - destruct (rlpIntLen_spec (Z.of_nat (length b))) as [Hk _]; [lia|].
    cbn [app rlpDecode]. rewrite <- app_assoc. repeat (gtest; try lia).
    replace (0x80 + 55 + _ - 0xb7) with (Z.of_nat (rlpIntLen (Z.of_nat (length b)))) by lia.
    by rewrite read_long_app by lia.
Qed.

Definition decodes (fuel : nat) (it : bytes) (v : rlpVal) : Prop :=
  it <> [] /\ forall rest, rlpDecode fuel (it ++ rest) = Ok (v, rest).

Lemma rlp_items_app fuel k items vals acc :
  Forall2 (decodes fuel) items vals -> (length items <= k)%nat ->
  rlp_items (rlpDecode fuel) k (concat items) acc = Ok (acc ++ vals).
Proof.
  intros H. revert k acc. induction H as [|it v items vals [Hne Hd] H IH]; intros k acc Hk.
  { cbn. rewrite app_nil_r. by destruct k. }
  cbn [concat length] in *. destruct k as [|k]; [lia|].
  destruct (it ++ concat items) as [|c l] eqn:E; [by apply app_eq_nil in E as [? _]|].
  cbn [rlp_items]. rewrite <- E, Hd. cbn [mbind outcome_bind]. rewrite IH by lia. by rewrite <- app_assoc.
Qed.

Lemma rlp_items_too_many fuel k items vals acc :
  Forall2 (decodes fuel) items vals -> (k < length items)%nat ->
  rlp_items (rlpDecode fuel) k (concat items) acc = Err ErrBatchTooLarge.
Proof.
  intros H. revert k acc. induction H as [|it v items vals [Hne Hd] H IH]; intros k acc Hk; cbn [length] in Hk; [lia|].
  cbn [concat]. destruct (it ++ concat items) as [|c l] eqn:E; [by apply app_eq_nil in E as [? _]|].
  destruct k as [|k]; [done|]. cbn [rlp_items]. rewrite <- E, Hd. cbn [mbind outcome_bind]. apply IH. lia.
Qed.

(** A list header leaves the payload to be read item by item. *)
(** A bind on a result, rewritten rather than computed: the continuation is not unfolded. *)
Lemma bind_result {A B} (f : A -> outcome seq_err B) a : mbind f (Ok a) = f a.
Proof. reflexivity. Qed.

Lemma rlpDecode_list_header fuel payload rest :
  Z.of_nat (length payload) < 2 ^ 63 ->
  rlpDecode (S fuel) (RlpEncodeListHeader (Z.of_nat (length payload)) ++ payload ++ rest) =
    (items ← rlp_items (rlpDecode fuel) maxListItems payload []; Ok (RList items, rest)).
Proof.
  intros Hl. rewrite RlpEncodeListHeader_header by lia. unfold rlp_header.
  destruct (Z.ltb_spec (Z.of_nat (length payload)) 56) as [H56|H56].
  - cbn [app rlpDecode]. repeat (gtest; try lia).
    replace (0xc0 + _ - 0xc0) with (Z.of_nat (length payload)) by lia. rewrite read_short_app, bind_result. reflexivity.
  - destruct (rlpIntLen_spec (Z.of_nat (length payload))) as [Hk _]; [lia|].
    cbn [app rlpDecode]. repeat (gtest; try lia).
    replace (0xc0 + 55 + _ - 0xf7) with (Z.of_nat (rlpIntLen (Z.of_nat (length payload)))) by lia.
    rewrite read_long_app, bind_result by lia. reflexivity.
Qed.

Lemma rlpDecode_list fuel items vals rest :
  Forall2 (decodes fuel) items vals -> (length items <= maxListItems)%nat -> Z.of_nat (length (concat items)) < 2 ^ 63 ->
  rlpDecode (S fuel) (rlpList items ++ rest) = Ok (RList vals, rest).
Proof.
  intros H Hk Hl. rewrite rlpList_eq, <- app_assoc, rlpDecode_list_header by done.
  by rewrite (rlp_items_app fuel _ items vals).
Qed.

(** ** The decoder is total and accepts canonical encodings only *)

Lemma read_short_total h tl n :
  0 <= n ->
  match read_short (h :: tl) n with
  | Ok (p, rest) => tl = p ++ rest /\ Z.of_nat (length p) = n
  | Err _ => Z.of_nat (length tl) < n
  | _ => False
  end.
Proof.
  intros Hn. unfold read_short. cbn [length]. gtest; [lia|].
  rewrite !go_slice_ok by (cbn [length]; lia). cbn [mbind outcome_bind].
  replace (Z.to_nat (1 + n)) with (S (Z.to_nat n)) by lia. rewrite Nat2Z.id. change (Z.to_nat 1) with 1%nat.
  change (S (length tl)) with (length (h :: tl)). rewrite slice_drop. cbn [drop]. unfold slice. cbn [drop].
  replace (S (Z.to_nat n) - 1)%nat with (Z.to_nat n) by lia. rewrite take_drop, length_take, drop_0. split; [done|lia].
Qed.

Lemma rlpReadInt_total b : match rlpReadInt b with Ok _ | Err _ => True | _ => False end.
Proof.
  unfold rlpReadInt. destruct (_ || _); [done|]. destruct (_ && _); [done|]. generalize 0 as n.
  induction b as [|c b IH]; intros n; cbn [read_int_loop]; [done|]. gtest; [done|apply IH].
Qed.

Lemma read_long_total h tl llen :
  0 <= llen ->
  match read_long (h :: tl) llen with
  | Ok (p, rest) => exists lb, tl = lb ++ p ++ rest /\ Z.of_nat (length lb) = llen /\
                      rlpReadInt lb = Ok (Z.of_nat (length p)) /\ (56 <= length p)%nat
  | Err _ => True
  | _ => False
  end.
Proof.
  intros Hl. unfold read_long. cbn [length]. destruct (_ || _) eqn:E0; [done|].
  apply orb_false_iff in E0 as [E0%Z.eqb_neq E1%Z.ltb_ge].
  rewrite go_slice_ok by (cbn [length]; lia). cbn [mbind outcome_bind].
  set (lb := slice (h :: tl) (Z.to_nat 1) (Z.to_nat (1 + llen))).
  pose proof (rlpReadInt_total lb) as RT. destruct (rlpReadInt lb) as [n|e| |] eqn:ER; try done.
  destruct (Z.ltb_spec n 56); [done|]. destruct (_ || _) eqn:E2; [done|].
  apply orb_false_iff in E2 as [E2%Z.ltb_ge E3%Z.ltb_ge].
  rewrite !go_slice_ok by (cbn [length]; lia). cbn [mbind outcome_bind].
  assert (lb = take (Z.to_nat llen) tl) as Elb.
  { unfold lb, slice. cbn [drop]. f_equal. lia. }
  exists lb. replace (Z.to_nat (1 + llen)) with (S (Z.to_nat llen)) by lia.
  replace (Z.to_nat (1 + llen + n)) with (S (Z.to_nat (llen + n))) by lia. rewrite Nat2Z.id.
  change (S (length tl)) with (length (h :: tl)). rewrite slice_drop.
  assert (slice (h :: tl) (S (Z.to_nat llen)) (S (Z.to_nat (llen + n))) = slice tl (Z.to_nat llen) (Z.to_nat (llen + n))) as -> by done.
  cbn [drop]. rewrite ER, Elb, length_slice, length_take by lia. split; [apply slice_split; lia|].
  split; [lia|]. split; [f_equal; lia|lia].
Qed.

Definition decode_total (fuel : nat) : Prop :=
  forall buf, (length buf < fuel)%nat ->
  match rlpDecode fuel buf with
  | Ok (_, rest) => (length rest < length buf)%nat
  | Err _ => True
  | _ => False
  end.

Lemma rlp_items_total fuel k payload acc :
  decode_total fuel -> (length payload < fuel)%nat ->
  match rlp_items (rlpDecode fuel) k payload acc with Ok _ | Err _ => True | _ => False end.
Proof.
  intros HD. revert payload acc. induction k as [|k IH]; intros payload acc Hp; destruct payload as [|c p]; try done.
  cbn [rlp_items]. pose proof (HD (c :: p) Hp) as D. destruct (rlpDecode fuel (c :: p)) as [[v next]| | |]; try done.
  cbn [mbind outcome_bind]. apply IH. lia.
Qed.

Lemma rlpDecode_total fuel : decode_total fuel.
Proof.
  induction fuel as [|fuel IH]; intros buf Hl; [lia|]. destruct buf as [|b tl]; [done|]. cbn [rlpDecode length] in *.
  destruct (Z.ltb_spec b 0x80); [lia|]. destruct (Z.ltb_spec b 0xb8).
  { destruct (_ && _); [done|]. pose proof (read_short_total b tl (b - 0x80) ltac:(lia)) as R.
    destruct (read_short _ _) as [[p rest]| | |]; cbn; try done. destruct R as [-> _]. rewrite length_app. lia. }
  destruct (Z.ltb_spec b 0xc0).
  { pose proof (read_long_total b tl (b - 0xb7) ltac:(lia)) as R.
    destruct (read_long _ _) as [[p rest]| | |]; cbn; try done. destruct R as (lb & -> & _). rewrite !length_app. lia. }
  assert (match (if b <? 0xf8 then read_short (b :: tl) (b - 0xc0) else read_long (b :: tl) (b - 0xf7)) with
    | Ok (p, rest) => (length p + length rest <= length tl)%nat | Err _ => True | _ => False end) as R.
  { gtest.
    - pose proof (read_short_total b tl (b - 0xc0) ltac:(lia)) as R.
      destruct (read_short _ _) as [[p rest]| | |]; try done. destruct R as [-> _]. rewrite length_app. lia.
    - pose proof (read_long_total b tl (b - 0xf7) ltac:(lia)) as R.
      destruct (read_long _ _) as [[p rest]| | |]; try done. destruct R as (lb & -> & _). rewrite !length_app. lia. }
  destruct (if b <? 0xf8 then _ else _) as [[p rest]| | |]; try done. rewrite bind_result.
  pose proof (rlp_items_total fuel maxListItems p [] IH ltac:(lia)) as T.
  destruct (rlp_items _ _ _ _); try done. rewrite bind_result. lia.
Qed.

Lemma rlp_items_canonical fuel k payload acc vals :
  (forall buf v rest, bytes_ok buf -> rlpDecode fuel buf = Ok (v, rest) -> buf = rlp_encode v ++ rest /\ bytes_ok rest) ->
  bytes_ok payload -> rlp_items (rlpDecode fuel) k payload acc = Ok vals ->
  exists new, vals = acc ++ new /\ payload = concat (map rlp_encode new) /\ (length new <= k)%nat.
Proof.
  intros HD. revert payload acc. induction k as [|k IH]; intros payload acc Hp; destruct payload as [|c p]; try done;
    cbn [rlp_items]; intros E.
  1,2: injection E as <-; exists []; rewrite app_nil_r; cbn; split_and!; try done; lia.
  inv_bind E. destruct r as [v next]. apply HD in E0 as [-> Hnext]; [|done].
  apply IH in E as (new & -> & -> & Hk); [|done]. exists (v :: new). rewrite <- app_assoc. cbn. split_and!; try done. lia.
Qed.

(** What is accepted is the encoding of the value returned. *)
Lemma header_canonical base b tl p rest llen :
  bytes_ok (b :: tl) -> read_long (b :: tl) llen = Ok (p, rest) -> 0 <= llen -> b = base + 55 + llen ->
  b :: tl = rlp_header base (Z.of_nat (length p)) ++ p ++ rest /\ Z.of_nat (length p) < B64 /\ bytes_ok p /\ bytes_ok rest /\
  (56 <= length p)%nat.
Proof.
  intros Hok E Hl Hb. pose proof (read_long_total b tl llen Hl) as R. rewrite E in R.
  destruct R as (lb & -> & Hlb & ER & Hp). apply Forall_cons_iff in Hok as [_ Hok].
  apply Forall_app in Hok as [Hlbok Hok]. apply Forall_app in Hok as [Hpok Hrest].
  apply rlpReadInt_canonical in ER as (Ek & Ew & HB); [|done|lia]. split_and!; try done.
  unfold rlp_header. gtest; [lia|]. rewrite Ek, <- Ew. cbn [app]. f_equal. lia.
Qed.

Lemma short_canonical base b tl p rest :
  bytes_ok (b :: tl) -> read_short (b :: tl) (b - base) = Ok (p, rest) -> 0 <= b - base < 56 ->
  b :: tl = rlp_header base (Z.of_nat (length p)) ++ p ++ rest /\ Z.of_nat (length p) < B64 /\ bytes_ok p /\ bytes_ok rest /\
  Z.of_nat (length p) = b - base /\ tl = p ++ rest.
Proof.
  intros Hok E Hb. pose proof (read_short_total b tl (b - base) ltac:(lia)) as R. rewrite E in R.
  destruct R as [-> Hp]. apply Forall_cons_iff in Hok as [_ Hok]. apply Forall_app in Hok as [? ?].
  split_and!; try done; [|lia]. unfold rlp_header. gtest; [|lia]. cbn [app]. f_equal. lia.
Qed.

Lemma rlpDecode_canonical fuel buf v rest :
  bytes_ok buf -> rlpDecode fuel buf = Ok (v, rest) -> buf = rlp_encode v ++ rest /\ bytes_ok rest.
Proof.
  revert buf v rest. induction fuel as [|fuel IH]; intros buf v rest Hok; [done|].
  destruct buf as [|b tl]; [done|]. cbn [rlpDecode]. pose proof Hok as [Hb Htl]%Forall_cons_iff. unfold is_byte in Hb.
  destruct (Z.ltb_spec b 0x80).
  { intros [= <- <-]. split; [|done]. cbn. unfold rlpBytes, RlpEncodeBytes. cbn [single_byte]. gtest; [done|lia]. }
  destruct (Z.ltb_spec b 0xb8).
  { destruct (_ && _) eqn:E1; [done|]. intros E. inv_bind E. destruct r as [p rest']. injection E as <- <-.
    apply (short_canonical 0x80) in E0 as (-> & HB & Hp & Hr & Hlen & Et); [|done|lia]. split; [|done].
    cbn [rlp_encode]. rewrite RlpEncodeBytes_header by done. destruct (single_byte p) eqn:Es; [|by rewrite <- app_assoc].
    exfalso. destruct p as [|c [|]]; try done. subst tl. cbn in Es, Hlen, E1. rewrite Es in E1.
    destruct (Z.eqb_spec (b - 128) 1), (Z.ltb_spec 1 (Z.of_nat (S (S (length rest'))))); (done || lia). }
  destruct (Z.ltb_spec b 0xc0).
  { intros E. inv_bind E. destruct r as [p rest']. injection E as <- <-.
    apply (header_canonical 0x80) in E0 as (-> & HB & Hp & Hr & Hlen); [|done|lia|lia]. split; [|done].
    cbn [rlp_encode]. rewrite RlpEncodeBytes_header by done. destruct (single_byte p) eqn:Es; [|by rewrite <- app_assoc].
    destruct p as [|c [|]]; cbn in *; done || lia. }
  intros E. inv_bind E. destruct r as [payload rest']. inv_bind E. injection E as <- <-.
  assert (b :: tl = rlp_header 0xc0 (Z.of_nat (length payload)) ++ payload ++ rest' /\
    Z.of_nat (length payload) < B64 /\ bytes_ok payload /\ bytes_ok rest') as (-> & HB & Hp & Hr).
  { destruct (Z.ltb_spec b 0xf8).
    - apply (short_canonical 0xc0) in E0 as (? & ? & ? & ? & _); [done|done|lia].
    - apply (header_canonical 0xc0) in E0 as (? & ? & ? & ? & _); [done|done|lia|lia]. }
  split; [|done]. apply rlp_items_canonical in E1 as (new & -> & -> & _); [|apply IH|done].
  cbn [app rlp_encode]. rewrite rlpList_eq, RlpEncodeListHeader_header by lia. by rewrite <- app_assoc.
Qed.

(** ** Transactions *)

Lemma rlpToU64_string b n :
  is_u64 n -> bytes_ok b -> (length b <= 8)%nat -> be_val b = n -> b !! 0%nat <> Some 0 -> rlpToU64 (RStr b) = Ok n.
Proof.
  intros Hn Hb Hl Hv Hh. unfold rlpToU64. destruct (Nat.eqb_spec (length b) 0) as [E|E].
  { destruct b; [|done]. by rewrite <- Hv. }
  destruct (Nat.ltb_spec 8 (length b)); [lia|]. destruct b as [|c b]; [done|]. cbn [orb lookup_total list_lookup_total].
  destruct (Z.eqb_spec c 0) as [->|]; [by cbn in Hh|]. unfold is_u64 in Hn.
  rewrite fold_shift by (done || lia). f_equal. lia.
Qed.

Lemma rlpToU256_string b z :
  u256_ok z -> bytes_ok b -> (length b <= 32)%nat -> be_val b = toZ z -> b !! 0%nat <> Some 0 -> rlpToU256 (RStr b) = Ok z.
Proof.
  intros Hz Hb Hl Hv Hh. unfold rlpToU256. destruct (Nat.ltb_spec 32 (length b)); [lia|].
  destruct b as [|c b]; [by apply (f_equal Ok), toZ_inj|]. destruct (_ && _) eqn:E.
  { apply andb_prop in E as [_ E%Z.eqb_eq]. cbn in E, Hh. congruence. }
  f_equal. apply toZ_inj; [by apply FromBytesBE_ok|done|]. rewrite toZ_FromBytesBE.
  replace (length (c :: b) - 32)%nat with 0%nat by lia. by rewrite drop_0.
Qed.

(** The fields a batch carries. *)
Definition carried (tx : Transaction) : Transaction :=
  MkTx (tx_Type tx) zero256 (tx_Nonce tx) (tx_GasPrice tx) (tx_GasTipCap tx) (tx_GasFeeCap tx) (tx_Gas tx) (tx_To tx)
    (tx_Value tx) (tx_Data tx) [] zero256 [] zero256 zero256 zero256 (tx_From tx) (tx_Hash tx).

Lemma decodes_string fuel b : bytes_ok b -> Z.of_nat (length b) < 2 ^ 63 -> decodes (S fuel) (rlpBytes b) (RStr b).
Proof.
  intros Hb Hl. split; [apply RlpEncodeBytes_ne|]. intros rest. by apply rlpDecode_string.
Qed.

Lemma decodes_u64 n : is_u64 n -> exists v, (forall fuel, decodes (S fuel) (rlpU64 n) v) /\ rlpToU64 v = Ok n.
Proof.
  intros Hn. destruct (rlp_uint_string n Hn) as (b & E & Hb & Hl & Hv & Hh). change (rlpU64 n = rlpBytes b) in E. rewrite E. exists (RStr b).
  split; [intros fuel; apply decodes_string; [done|lia]|by apply rlpToU64_string].
Qed.

Lemma decodes_u256 z : u256_ok z -> exists v, (forall fuel, decodes (S fuel) (rlpU256 z) v) /\ rlpToU256 v = Ok z.
Proof.
  intros Hz. destruct (rlp_word_string z Hz) as (b & E & Hb & Hl & Hv & Hh). change (rlpU256 z = rlpBytes b) in E. rewrite E. exists (RStr b).
  split; [intros fuel; apply decodes_string; [done|lia]|by apply rlpToU256_string].
Qed.

Lemma length_data_encodeTx tx : (length (tx_Data tx) <= length (encodeTx tx))%nat.
Proof.
  unfold encodeTx. rewrite rlpList_eq, length_app. cbn [concat]. rewrite !length_app.
  pose proof (length_RlpEncodeBytes_ge (tx_Data tx)) as H. change (RlpEncodeBytes (tx_Data tx)) with (rlpBytes (tx_Data tx)) in H. lia.
Qed.

Lemma encodeTx_decodes tx :
  tx_ok tx -> Z.of_nat (length (encodeTx tx)) < 2 ^ 63 ->
  exists v, (forall fuel, decodes (S (S fuel)) (encodeTx tx) v) /\ decodeTx v = Ok (carried tx).
Proof.
  intros [Hty Hno Hga Hti Hfe Hpr Hto Hva Hda [Hfr Lfr] [Hha Lha]] Hlen.
  pose proof (length_data_encodeTx tx) as Ldata.
  destruct (decodes_u64 (tx_Type tx)) as (v0 & D0 & E0); [unfold is_u64; lia|].
  destruct (decodes_u64 _ Hno) as (v1 & D1 & E1). destruct (decodes_u64 _ Hga) as (v2 & D2 & E2).
  destruct (decodes_u256 _ Hti) as (v3 & D3 & E3). destruct (decodes_u256 _ Hfe) as (v4 & D4 & E4).
  destruct (decodes_u256 _ Hpr) as (v5 & D5 & E5). destruct (decodes_u256 _ Hva) as (v7 & D7 & E7).
  set (to := match tx_To tx with Some a => a | None => [] end).
  assert (bytes_ok to /\ (length to <= 20)%nat) as [Oto Lto].
  { subst to. destruct (tx_To tx) as [a|]; [destruct Hto; split; [done|lia]|split; [constructor|cbn; lia]]. }
  assert (forall fuel, decodes (S fuel) (rlpBytes to) (RStr to)) as D6 by (intros fuel; apply decodes_string; [done|lia]).
  assert (forall fuel, decodes (S fuel) (rlpBytes (tx_Data tx)) (RStr (tx_Data tx))) as D8 by (intros fuel; apply decodes_string; [done|lia]).
  assert (forall fuel, decodes (S fuel) (rlpBytes (tx_From tx)) (RStr (tx_From tx))) as D9 by (intros fuel; apply decodes_string; [done|lia]).
  assert (forall fuel, decodes (S fuel) (rlpBytes (tx_Hash tx)) (RStr (tx_Hash tx))) as D10 by (intros fuel; apply decodes_string; [done|lia]).
  exists (RList [v0; v1; v2; v3; v4; v5; RStr to; v7; RStr (tx_Data tx); RStr (tx_From tx); RStr (tx_Hash tx)]).
  split.
  - intros fuel. unfold encodeTx in *. fold to in Hlen |- *. rewrite rlpList_eq, length_app in Hlen.
    split; [intros [H _]%app_eq_nil; by apply RlpEncodeListHeader_ne in H|]. intros rest.
    apply rlpDecode_list; [repeat (constructor; [done|]); constructor|cbn [length]; unfold maxListItems; lia|lia].
  - cbn [decodeTx]. rewrite E0, E1, E2, E3, E4, E5, E7. unfold rlp_fixed, rlp_string. cbn [mbind outcome_bind].
    rewrite Lfr, Lha. cbn [Nat.eqb mbind outcome_bind]. unfold u8. rewrite Z.mod_small by lia.
    subst to. unfold carried. destruct (tx_To tx) as [a|]; [|done]. destruct Hto as [_ ->]. done.
Qed.

(** ** Batches *)

Lemma pack_items_Ok txs total items :
  pack_items txs total = Ok items -> 0 <= total ->
  exists l, txs = Some <$> l /\ items = map encodeTx l /\
    (items <> [] -> total + Z.of_nat (length (concat items)) <= maxBatchPlain).
Proof.
  revert total items. induction txs as [|[tx|] txs IH]; intros total items; cbn [pack_items]; [|gtest; [done|]|done].
  - intros [= <-] _. exists []. split_and!; done.
  - intros E Ht. inv_bind E. injection E as <-. apply IH in E0 as (l & -> & -> & Hl); [|lia].
    exists (tx :: l). split_and!; try done. intros _. cbn [map concat]. rewrite length_app.
    destruct l as [|t l]; [cbn; lia|]. specialize (Hl ltac:(done)). lia.
Qed.

Lemma map_decodes l :
  Forall tx_ok l -> Z.of_nat (length (concat (map encodeTx l))) < 2 ^ 63 ->
  exists vals, (forall fuel, Forall2 (decodes (S (S fuel))) (map encodeTx l) vals) /\ decode_txs vals = Ok (map carried l).
Proof.
  induction 1 as [|tx l Htx Hl IH]; intros Hlen; [exists []; split; [constructor|done]|].
  cbn [map concat] in Hlen |- *. rewrite length_app in Hlen. destruct IH as (vals & Hv & E); [lia|].
  destruct (encodeTx_decodes tx Htx ltac:(lia)) as (v & Hd & Ev).
  exists (v :: vals). split; [intros fuel; constructor; auto|]. cbn [decode_txs]. rewrite Ev. cbn [mbind outcome_bind].
  by rewrite E.
Qed.

(** Unpacking a packed batch: the transactions it carries, or an error past 4096 of them. *)
Lemma unpack_pack fuel txs plain :
  Forall (fun o => match o with Some tx => tx_ok tx | None => True end) txs -> pack_plain txs = Ok plain ->
  exists l, txs = Some <$> l /\ Z.of_nat (length plain) <= maxBatchPlain /\
    unpack_plain (S (S (S fuel))) plain =
      if decide (length l <= maxListItems)%nat then Ok (map carried l) else Err ErrBatchTooLarge.
Proof.
  intros Hok E. unfold pack_plain in E. inv_bind E. destruct (Z.ltb_spec maxBatchPlain (Z.of_nat (length (rlpList r)))); [done|].
  injection E as <-. apply pack_items_Ok in E0 as (l & -> & -> & _); [|lia]. exists l. split; [done|]. split; [lia|].
  assert (Forall tx_ok l) as Hl by by (clear -Hok; induction l; [constructor|]; inversion Hok; subst; constructor; auto).
  rewrite rlpList_eq, length_app in H. unfold unpack_plain. rewrite rlpList_eq.
  destruct (RlpEncodeListHeader _ ++ _) as [|c tl] eqn:Ep; [by apply app_eq_nil in Ep as [Ep%RlpEncodeListHeader_ne _]|].
  rewrite <- Ep. clear c tl Ep. pose proof (rlpDecode_list_header (S (S fuel)) (concat (map encodeTx l)) [] ltac:(lia)) as HD.
  rewrite app_nil_r in HD. rewrite HD.
  destruct (map_decodes l Hl) as (vals & Hv & Ed); [lia|].
  destruct (decide (length l <= maxListItems)%nat).
  - rewrite (rlp_items_app _ _ _ vals) by (done || rewrite length_map; done). cbn [mbind outcome_bind app]. done.
  - rewrite (rlp_items_too_many _ _ _ vals) by (done || rewrite length_map; lia). done.
Qed.
