(* ===== verification/TxRlp.v ===== *)
(** * RLP encoders of [pkg/c2block/tx_decode.go]

    The encoders shared by transactions, receipts and contract addresses. *)

From S2P Require Import Prelude Uint256 Keccak Mpt StateRoot BlockTypes.

Definition keccak32 (b : bytes) : Hash := Keccak256 b.

Definition rlpBytesEnc (b : bytes) : bytes := RlpEncodeBytes b.

Definition rlpListEnc (items : list bytes) : bytes :=
  let payload := foldl (fun p it => p + Z.of_nat (length it)) 0 items in
  RlpEncodeListHeader payload ++ concat items.

Definition rlpU64Enc (n : Z) : bytes := if n =? 0 then [0x80] else rlpBytesEnc (uint_bytes 8 n []).

Definition rlpU256Enc (z : Uint256) : bytes :=
  if IsZero z then [0x80] else rlpBytesEnc (skip_zeros (BytesBE z)).

Definition rlpAddrEnc (a : option Address) : bytes :=
  match a with None => [0x80] | Some a => rlpBytesEnc a end.
