(* ===== verification/TxDecode.v ===== *)
(** * Transactions on the wire: [pkg/c2block/tx_decode.go]

    Decoding of the four transaction types, the hash that is signed, and the
    recovery of the sender. [rlpDecode] recurses on nested lists: [fuel] bounds
    the nesting, and the length of the input is enough. The encoders are in
    [TxRlp]. Recursion deep enough to exhaust the stack of the process is not
    modelled. *)

From S2P Require Import Prelude Uint256 BlockTypes Secp256k1 TxRlp.

Inductive tx_err := ErrInvalidRLP | ErrInvalidTx | ErrSender.

(** ** RLP values *)

Inductive rlpVal := RlpBytes (b : bytes) | RlpList (list : list rlpVal).

(** The integer is a signed [int]: eight bytes can make it negative. *)
Definition rlpReadInt (b : bytes) : Z := foldl (fun n c => Z.lor (i64 (Z.shiftl n 8)) c) 0 b.

Definition short_payload (buf : bytes) (n : Z) : outcome tx_err (bytes * bytes) :=
  let len := Z.of_nat (length buf) in
  if len <? 1 + n then Err ErrInvalidRLP
  else
    payload ← go_slice buf 1 (1 + n);
    rest ← go_slice buf (1 + n) len;
    Ok (payload, rest).

(** The sum [1 + llen + n] wraps around for a length near [2^63]. *)
Definition long_payload (buf : bytes) (llen : Z) : outcome tx_err (bytes * bytes) :=
  let len := Z.of_nat (length buf) in
  if (llen =? 0) || (len <? 1 + llen) then Err ErrInvalidRLP
  else
    lb ← go_slice buf 1 (1 + llen);
    let n := rlpReadInt lb in
    if n <? 56 then Err ErrInvalidRLP
    else
      let stop := i64 (1 + llen + n) in
      if len <? stop then Err ErrInvalidRLP
      else
        payload ← go_slice buf (1 + llen) stop;
        rest ← go_slice buf stop len;
        Ok (payload, rest).

(** The loop over the items of a list; it reads at most one item per byte. *)
Fixpoint rlp_items (decode : bytes -> outcome tx_err (rlpVal * bytes)) (k : nat) (payload : bytes)
  (items : list rlpVal) : outcome tx_err (list rlpVal) :=
  match payload with
  | [] => Ok items
  | _ =>
      match k with
      | O => OutOfFuel
      | S k => '(v, next) ← decode payload; rlp_items decode k next (items ++ [v])
      end
  end.

Fixpoint rlpDecode (fuel : nat) (buf : bytes) : outcome tx_err (rlpVal * bytes) :=
  match fuel with
  | O => OutOfFuel
  | S fuel =>
      match buf with
      | [] => Err ErrInvalidRLP
      | b :: tl =>
          if b <? 0x80 then Ok (RlpBytes [b], tl)
          else if b <? 0xb8 then
            let n := b - 0x80 in
            if (n =? 1) && (1 <? Z.of_nat (length buf)) && (buf !!! 1%nat <? 0x80) then Err ErrInvalidRLP
            else '(p, rest) ← short_payload buf n; Ok (RlpBytes p, rest)
          else if b <? 0xc0 then '(p, rest) ← long_payload buf (b - 0xb7); Ok (RlpBytes p, rest)
          else
            '(payload, rest) ← (if b <? 0xf8 then short_payload buf (b - 0xc0) else long_payload buf (b - 0xf7));
            items ← rlp_items (rlpDecode fuel) (length payload) payload [];
            Ok (RlpList items, rest)
      end
  end.

(** ** Fields *)

Definition rlpUint64 (v : rlpVal) : outcome tx_err Z :=
  match v with
  | RlpList _ => Err ErrInvalidRLP
  | RlpBytes b =>
      if (length b =? 0)%nat then Ok 0
      else if (b !!! 0%nat =? 0) || (8 <? length b)%nat then Err ErrInvalidRLP
      else Ok (foldl (fun n c => Z.lor (shl64 n 8) c) 0 b)
  end.

Definition rlpU256 (v : rlpVal) : outcome tx_err Uint256 :=
  match v with
  | RlpList _ => Err ErrInvalidRLP
  | RlpBytes b =>
      if (32 <? length b)%nat then Err ErrInvalidRLP
      else if (1 <? length b)%nat && (b !!! 0%nat =? 0) then Err ErrInvalidRLP
      else Ok (FromBytesBE b)
  end.

Definition rlpAddr (v : rlpVal) : outcome tx_err (option Address) :=
  match v with
  | RlpList _ => Err ErrInvalidRLP
  | RlpBytes b =>
      if (length b =? 0)%nat then Ok None
      else if negb (length b =? 20)%nat then Err ErrInvalidRLP
      else Ok (Some b)
  end.

(** [if items[i].kind != rlpBytes { return ErrInvalidTx }] *)
Definition rlp_data (v : rlpVal) : outcome tx_err bytes :=
  match v with RlpBytes b => Ok b | RlpList _ => Err ErrInvalidTx end.

(** A hash in a list of hashes: storage keys and blob hashes. *)
Definition parse_hash (v : rlpVal) : outcome tx_err Hash :=
  match v with
  | RlpBytes b => if (length b =? 32)%nat then Ok b else Err ErrInvalidTx
  | RlpList _ => Err ErrInvalidTx
  end.

(** The loops over the elements of a list stop at the first error. *)
Fixpoint parse_all {A} (parse : rlpVal -> outcome tx_err A) (l : list rlpVal) : outcome tx_err (list A) :=
  match l with
  | [] => Ok []
  | v :: l => x ← parse v; xs ← parse_all parse l; Ok (x :: xs)
  end.

Definition rlp_hashes (v : rlpVal) : outcome tx_err (list Hash) :=
  match v with RlpList l => parse_all parse_hash l | RlpBytes _ => Err ErrInvalidTx end.

Definition parse_tuple (v : rlpVal) : outcome tx_err AccessTuple :=
  match v with
  | RlpList [a; k] =>
      match rlpAddr a with
      | Ok (Some addr) => keys ← rlp_hashes k; Ok (MkAccessTuple addr keys)
      | Ok None | Err _ => Err ErrInvalidTx
      | Panic => Panic
      | OutOfFuel => OutOfFuel
      end
  | _ => Err ErrInvalidTx
  end.

Definition parseAccessList (v : rlpVal) : outcome tx_err (list AccessTuple) :=
  match v with RlpList l => parse_all parse_tuple l | RlpBytes _ => Err ErrInvalidTx end.

(** ** Transactions *)

Definition u256ToU64 (z : Uint256) : option Z :=
  if negb (Z.lor (Z.lor (w1 z) (w2 z)) (w3 z) =? 0) then None else Some (w0 z).

(** The chain identifier a protected legacy signature carries. *)
Definition legacy_chain (v : Uint256) : option Uint256 :=
  match u256ToU64 v with
  | Some n => if 35 <=? n then Some (FromU64 ((n - 35) / 2)) else None
  | None => None
  end.

Abbreviation no_address := (zeros 20).
Abbreviation no_hash := (zeros 32).

(** Indexing beyond the items would panic; [parseTxList] checks their number. *)
Definition parseLegacy (items : list rlpVal) : outcome tx_err Transaction :=
  match items with
  | [i0; i1; i2; i3; i4; i5; i6; i7; i8] =>
      nonce ← rlpUint64 i0;
      price ← rlpU256 i1;
      gas ← rlpUint64 i2;
      to ← rlpAddr i3;
      value ← rlpU256 i4;
      data ← rlp_data i5;
      v ← rlpU256 i6;
      r ← rlpU256 i7;
      s ← rlpU256 i8;
      Ok (MkTx TxLegacy (default zero256 (legacy_chain v)) nonce price price price gas to value data [] zero256 []
            v r s no_address no_hash)
  | _ => Panic
  end.

Definition parseAccessListTx (items : list rlpVal) : outcome tx_err Transaction :=
  match items with
  | [i0; i1; i2; i3; i4; i5; i6; i7; i8; i9; i10] =>
      chain ← rlpU256 i0;
      nonce ← rlpUint64 i1;
      price ← rlpU256 i2;
      gas ← rlpUint64 i3;
      to ← rlpAddr i4;
      value ← rlpU256 i5;
      data ← rlp_data i6;
      al ← parseAccessList i7;
      v ← rlpU256 i8;
      r ← rlpU256 i9;
      s ← rlpU256 i10;
      Ok (MkTx TxAccessList chain nonce price price price gas to value data al zero256 [] v r s no_address no_hash)
  | _ => Panic
  end.

Definition parseDynamicFeeTx (items : list rlpVal) : outcome tx_err Transaction :=
  match items with
  | [i0; i1; i2; i3; i4; i5; i6; i7; i8; i9; i10; i11] =>
      chain ← rlpU256 i0;
      nonce ← rlpUint64 i1;
      tip ← rlpU256 i2;
      fee ← rlpU256 i3;
      gas ← rlpUint64 i4;
      to ← rlpAddr i5;
      value ← rlpU256 i6;
      data ← rlp_data i7;
      al ← parseAccessList i8;
      v ← rlpU256 i9;
      r ← rlpU256 i10;
      s ← rlpU256 i11;
      Ok (MkTx TxDynamicFee chain nonce fee tip fee gas to value data al zero256 [] v r s no_address no_hash)
  | _ => Panic
  end.

Definition parseBlobTx (items : list rlpVal) : outcome tx_err Transaction :=
  match items with
  | [i0; i1; i2; i3; i4; i5; i6; i7; i8; i9; i10; i11; i12; i13] =>
      chain ← rlpU256 i0;
      nonce ← rlpUint64 i1;
      tip ← rlpU256 i2;
      fee ← rlpU256 i3;
      gas ← rlpUint64 i4;
      to ← rlpAddr i5;
      value ← rlpU256 i6;
      data ← rlp_data i7;
      al ← parseAccessList i8;
      blobfee ← rlpU256 i9;
      blobs ← rlp_hashes i10;
      v ← rlpU256 i11;
      r ← rlpU256 i12;
      s ← rlpU256 i13;
      Ok (MkTx TxBlob chain nonce fee tip fee gas to value data al blobfee blobs v r s no_address no_hash)
  | _ => Panic
  end.

Definition parseTxList (typ : Z) (items : list rlpVal) : outcome tx_err Transaction :=
  let n := length items in
  if typ =? TxLegacy then if negb (n =? 9)%nat then Err ErrInvalidTx else parseLegacy items
  else if typ =? TxAccessList then if negb (n =? 11)%nat then Err ErrInvalidTx else parseAccessListTx items
  else if typ =? TxDynamicFee then if negb (n =? 12)%nat then Err ErrInvalidTx else parseDynamicFeeTx items
  else if typ =? TxBlob then if negb (n =? 14)%nat then Err ErrInvalidTx else parseBlobTx items
  else Err ErrInvalidTx.

(** ** What is signed *)

Definition tupleEnc (t : AccessTuple) : bytes :=
  rlpListEnc [rlpBytesEnc (at_address t); rlpListEnc (map rlpBytesEnc (at_keys t))].
Definition accessListEnc (al : list AccessTuple) : bytes := rlpListEnc (map tupleEnc al).
Definition blobHashesEnc (hs : list Hash) : bytes := rlpListEnc (map rlpBytesEnc hs).

Definition legacy_items (tx : Transaction) : list bytes :=
  [rlpU64Enc (tx_Nonce tx); rlpU256Enc (tx_GasPrice tx); rlpU64Enc (tx_Gas tx); rlpAddrEnc (tx_To tx);
   rlpU256Enc (tx_Value tx); rlpBytesEnc (tx_Data tx)].

Definition access_list_items (tx : Transaction) : list bytes :=
  [rlpU256Enc (tx_ChainID tx); rlpU64Enc (tx_Nonce tx); rlpU256Enc (tx_GasPrice tx); rlpU64Enc (tx_Gas tx);
   rlpAddrEnc (tx_To tx); rlpU256Enc (tx_Value tx); rlpBytesEnc (tx_Data tx); accessListEnc (tx_AccessList tx)].

Definition dynamic_fee_items (tx : Transaction) : list bytes :=
  [rlpU256Enc (tx_ChainID tx); rlpU64Enc (tx_Nonce tx); rlpU256Enc (tx_GasTipCap tx); rlpU256Enc (tx_GasFeeCap tx);
   rlpU64Enc (tx_Gas tx); rlpAddrEnc (tx_To tx); rlpU256Enc (tx_Value tx); rlpBytesEnc (tx_Data tx);
   accessListEnc (tx_AccessList tx)].

Definition blob_items (tx : Transaction) : list bytes :=
  dynamic_fee_items tx ++ [rlpU256Enc (tx_BlobFeeCap tx); blobHashesEnc (tx_BlobHashes tx)].

(** The string [signingHash] hashes; unknown types hash to zero. *)
Definition signing_payload (tx : Transaction) : option bytes :=
  if tx_Type tx =? TxLegacy then
    Some (rlpListEnc (legacy_items tx ++
      match legacy_chain (tx_V tx) with
      | Some cid => [rlpU256Enc cid; [0x80]; [0x80]]
      | None => []
      end))
  else if tx_Type tx =? TxAccessList then Some (TxAccessList :: rlpListEnc (access_list_items tx))
  else if tx_Type tx =? TxDynamicFee then Some (TxDynamicFee :: rlpListEnc (dynamic_fee_items tx))
  else if tx_Type tx =? TxBlob then Some (TxBlob :: rlpListEnc (blob_items tx))
  else None.

Definition signingHash (tx : Transaction) : Hash :=
  match signing_payload tx with Some p => keccak32 p | None => no_hash end.

(** ** The sender *)

Definition yParity (v : Uint256) (typed : bool) : outcome tx_err Z :=
  match u256ToU64 v with
  | None => Err ErrSender
  | Some n =>
      if typed then if 1 <? n then Err ErrSender else Ok n
      else if (n =? 27) || (n =? 28) then Ok (n - 27)
      else if (n =? 0) || (n =? 1) then Ok n
      else if 35 <=? n then Ok (Z.land (n - 35) 1)
      else Err ErrSender
  end.

Definition recoverSender (sighash : Hash) (typed : bool) (v r s : Uint256) : outcome tx_err Address :=
  yp ← yParity v typed;
  match EcRecover sighash yp (BytesBE r) (BytesBE s) with
  | Ok pub => Ok (slice (keccak32 pub) 12 32)
  | Err _ => Err ErrSender
  | Panic => Panic
  | OutOfFuel => OutOfFuel
  end.

Definition with_sender (tx : Transaction) (from : Address) (hash : Hash) : Transaction :=
  MkTx (tx_Type tx) (tx_ChainID tx) (tx_Nonce tx) (tx_GasPrice tx) (tx_GasTipCap tx) (tx_GasFeeCap tx) (tx_Gas tx)
    (tx_To tx) (tx_Value tx) (tx_Data tx) (tx_AccessList tx) (tx_BlobFeeCap tx) (tx_BlobHashes tx)
    (tx_V tx) (tx_R tx) (tx_S tx) from hash.

Definition DecodeTransaction (fuel : nat) (raw : bytes) : outcome tx_err Transaction :=
  match raw with
  | [] => Err ErrInvalidTx
  | b :: tl =>
      '(typ, payload) ← (if 0x7f <? b then Ok (TxLegacy, raw)
        else if negb (b =? TxAccessList) && negb (b =? TxDynamicFee) && negb (b =? TxBlob) then Err ErrInvalidTx
        else Ok (b, tl));
      '(v, rest) ← rlpDecode fuel payload;
      match v with
      | RlpList items =>
          if negb (length rest =? 0)%nat then Err ErrInvalidTx
          else
            tx ← parseTxList typ items;
            from ← recoverSender (signingHash tx) (negb (tx_Type tx =? TxLegacy)) (tx_V tx) (tx_R tx) (tx_S tx);
            Ok (with_sender tx from (keccak32 raw))
      | RlpBytes _ => Err ErrInvalidTx
      end
  end.
