(* ===== verification/TxDecodeSpec.v ===== *)
(** * Transactions are read back

    The decoder of [TxDecode] inverts the encoder of signed transactions, returns
    well-typed transactions, and the hash that is signed determines every field
    of the transaction up to a Keccak collision. *)

From S2P Require Import Prelude Uint256 Mpt StateRoot StateRootSpec RlpFacts BlockTypes Secp256k1 TxRlp TxDecode.

(** ** Lengths *)

Abbreviation max_len := 4611686018427387904.

Lemma i64_range z : - 9223372036854775808 <= i64 z < 9223372036854775808.
Proof. unfold i64. cbv zeta. pose proof (Z.mod_pos_bound z B64 ltac:(lia)). gtest; lia. Qed.

Lemma i64_cong z : exists k, i64 z = z - k * B64.
Proof.
  unfold i64. cbv zeta. pose proof (Z.div_mod z B64 ltac:(lia)).
  gtest; [exists (z / B64)|exists (z / B64 + 1)]; lia.
Qed.

Lemma i64_unique z r k : - 9223372036854775808 <= r < 9223372036854775808 -> r = z + k * B64 -> i64 z = r.
Proof.
  intros Hr E. pose proof (i64_range z). destruct (i64_cong z) as [j Ej]. lia.
Qed.

Lemma i64_small z : - 9223372036854775808 <= z < 9223372036854775808 -> i64 z = z.
Proof. intros Hz. apply (i64_unique _ _ 0); lia. Qed.

Lemma i64_shift z c : is_byte c -> Z.lor (i64 (Z.shiftl (i64 z) 8)) c = i64 (z * 256 + c).
Proof.
  intros Hc. rewrite Z.shiftl_mul_pow2 by lia. change (2 ^ 8) with 256.
  assert (exists k, i64 z = z - k * B64) as [k Ek] by apply i64_cong. rewrite Ek.
  destruct (i64_cong ((z - k * B64) * 256)) as [j Ej]. set (m := z - k * B64 - j * 72057594037927936).
  assert (i64 ((z - k * B64) * 256) = 2 ^ 8 * m) as E by (rewrite Ej; unfold m; lia). rewrite E, Z.lor_comm.
  rewrite lor_disjoint_add by (lia || exact Hc). pose proof (i64_range ((z - k * B64) * 256)) as Hr. rewrite E in Hr.
  unfold is_byte in Hc. symmetry. apply (i64_unique _ _ (- (k * 256 + j))); [lia|unfold m; lia].
Qed.

(** The length is the big-endian value as a signed integer of 64 bits. *)
Lemma rlpReadInt_spec b : bytes_ok b -> rlpReadInt b = i64 (be_val b).
Proof.
  intros Hb. unfold rlpReadInt. change 0 with (i64 0) at 1.
  assert (forall n, foldl (fun n c => Z.lor (i64 (Z.shiftl n 8)) c) (i64 n) b = i64 (n * 256 ^ Z.of_nat (length b) + be_val b)) as H.
  { induction Hb as [|c b Hc Hb IH]; intros n; cbn [foldl]; [f_equal; unfold be_val; cbn; lia|].
    rewrite (i64_shift n c Hc), (IH (n * 256 + c)), be_val_cons. cbn [length]. rewrite Nat2Z.inj_succ, Z.pow_succ_r by lia. f_equal. lia. }
  exact (H 0).
Qed.

Lemma tx_rlpReadInt_write n : 0 <= n < 9223372036854775808 -> rlpReadInt (rlpWriteInt n (rlpIntLen n)) = n.
Proof.
  intros Hn. destruct (decide (n = 0)) as [->|]; [reflexivity|]. destruct (rlpIntLen_spec n) as [Hl Hr]; [lia|].
  assert (be_val (rlpWriteInt n (rlpIntLen n)) = n) as Hv by (rewrite rlpWriteInt_be, be_val_bytes, Z.mod_small by lia; lia).
  rewrite rlpReadInt_spec, Hv by apply rlpWriteInt_ok. apply i64_small. lia.
Qed.

(** ** Payloads *)

Lemma short_payload_app h p rest : short_payload (h :: p ++ rest) (Z.of_nat (length p)) = Ok (p, rest).
Proof.
  unfold short_payload. cbn [length]. rewrite length_app. gtest; [lia|].
  change (h :: p ++ rest) with ([h] ++ p ++ rest). rewrite (go_slice_mid [h] p rest 1) by (cbn [length]; lia). cbn [mbind outcome_bind].
  rewrite app_assoc, go_slice_end by (rewrite ?length_app; cbn [length]; lia). done.
Qed.

Lemma long_payload_app h p rest :
  56 <= Z.of_nat (length p) < max_len -> Z.of_nat (length rest) < max_len ->
  let n := Z.of_nat (length p) in
  long_payload (h :: rlpWriteInt n (rlpIntLen n) ++ p ++ rest) (Z.of_nat (rlpIntLen n)) = Ok (p, rest).
Proof.
  intros Hn Hr n. destruct (rlpIntLen_spec n) as [Hl _]; [lia|]. unfold long_payload.
  pose proof (tx_rlpReadInt_write n ltac:(lia)) as HR. pose proof (length_rlpWriteInt n (rlpIntLen n)) as Llb.
  generalize dependent (rlpWriteInt n (rlpIntLen n)). generalize dependent (rlpIntLen n). intros k Hk lb HR Llb.
  assert (length (h :: lb ++ p ++ rest) = S (k + (length p + length rest)))%nat as Len by (cbn [length]; rewrite !length_app; lia).
  rewrite !Len. repeat (gtest; try lia). cbn [orb].
  change (h :: lb ++ p ++ rest) with ([h] ++ lb ++ p ++ rest). rewrite (go_slice_mid [h] lb _ 1) by (cbn [length]; lia).
  cbn [mbind outcome_bind]. rewrite HR. destruct (Z.ltb_spec n 56); [lia|]. rewrite i64_small by lia. gtest; [lia|].
  rewrite app_assoc, (go_slice_mid ([h] ++ lb) p rest (1 + Z.of_nat k)) by (rewrite ?length_app; cbn [length]; lia). cbn [mbind outcome_bind].
  rewrite app_assoc, go_slice_end by (rewrite ?length_app; cbn [length]; lia). done.
Qed.

(** ** The decoder inverts the encoder *)

(** [it] is an encoding of [v], whatever follows it. *)
Definition decodes (it : bytes) (v : rlpVal) : Prop :=
  it <> [] /\ forall fuel rest, (length it < fuel)%nat -> Z.of_nat (length rest) < max_len ->
    rlpDecode fuel (it ++ rest) = Ok (v, rest).

Lemma tx_decodes_string b : bytes_ok b -> Z.of_nat (length b) < max_len -> decodes (rlpBytesEnc b) (RlpBytes b).
Proof.
  intros Hb Hl. split; [apply RlpEncodeBytes_ne|]. intros [|fuel] rest Hf Hr; [lia|]. clear Hf.
  unfold rlpBytesEnc. rewrite RlpEncodeBytes_header by lia. destruct (single_byte b) eqn:Es.
  { destruct b as [|c [|]]; try done. cbn in Es. cbn [app rlpDecode]. by rewrite Es. }
  unfold rlp_header. destruct (Z.ltb_spec (Z.of_nat (length b)) 56) as [H56|H56].
  - cbn [app rlpDecode]. set (h := 0x80 + Z.of_nat (length b)) in *.
    destruct (Z.ltb_spec h 0x80); [lia|]. destruct (Z.ltb_spec h 0xb8); [|lia].
    destruct (_ && _) eqn:E1.
    { exfalso. apply andb_prop in E1 as [E1 E2]. apply andb_prop in E1 as [E1%Z.eqb_eq _].
      destruct b as [|c [|]]; cbn in *; try lia. }
    replace (h - 0x80) with (Z.of_nat (length b)) by lia. by rewrite short_payload_app.
  - destruct (rlpIntLen_spec (Z.of_nat (length b))) as [Hk _]; [lia|].
    cbn [app rlpDecode]. rewrite <- app_assoc. repeat (gtest; try lia).
    replace (0x80 + 55 + _ - 0xb7) with (Z.of_nat (rlpIntLen (Z.of_nat (length b)))) by lia.
    by rewrite long_payload_app by lia.
Qed.

Lemma tx_rlp_items_app fuel k items vals acc :
  Forall2 decodes items vals -> (length (concat items) < fuel)%nat -> (length (concat items) <= k)%nat ->
  Z.of_nat (length (concat items)) < max_len ->
  rlp_items (rlpDecode fuel) k (concat items) acc = Ok (acc ++ vals).
Proof.
  intros H. revert k acc. induction H as [|it v items vals [Hne Hd] H IH]; intros k acc Hf Hk Hl.
  { cbn. rewrite app_nil_r. by destruct k. }
  cbn [concat] in *. rewrite length_app in *. assert (length it <> 0%nat) by (destruct it; done).
  destruct k as [|k]; [lia|]. destruct (it ++ concat items) as [|c l] eqn:E; [by apply app_eq_nil in E as [? _]|].
  cbn [rlp_items]. rewrite <- E, Hd by lia. cbn [mbind outcome_bind]. rewrite IH by lia. by rewrite <- app_assoc.
Qed.

Lemma rlpListEnc_eq items :
  rlpListEnc items = RlpEncodeListHeader (Z.of_nat (length (concat items))) ++ concat items.
Proof. unfold rlpListEnc. by rewrite payload_length. Qed.

Lemma rlpListEnc_ne items : rlpListEnc items <> [].
Proof. rewrite rlpListEnc_eq. intros [H _]%app_eq_nil. by apply RlpEncodeListHeader_ne in H. Qed.

Lemma decodes_list items vals :
  Forall2 decodes items vals -> Z.of_nat (length (concat items)) < max_len -> decodes (rlpListEnc items) (RlpList vals).
Proof.
  intros H Hl. split; [apply rlpListEnc_ne|]. intros fuel rest Hf Hr. rewrite rlpListEnc_eq, length_app in Hf.
  rewrite rlpListEnc_eq, <- app_assoc, RlpEncodeListHeader_header in * by lia.
  assert (1 <= length (rlp_header 0xc0 (Z.of_nat (length (concat items)))))%nat as H1.
  { unfold rlp_header. gtest; cbn [length]; lia. }
  destruct fuel as [|fuel]; [lia|].
  pose proof (tx_rlp_items_app fuel (length (concat items)) items vals [] H ltac:(lia) ltac:(lia) Hl) as HI. clear Hf H1.
  unfold rlp_header. destruct (Z.ltb_spec (Z.of_nat (length (concat items))) 56) as [H56|H56].
  - cbn [app rlpDecode]. repeat (gtest; try lia).
    replace (0xc0 + _ - 0xc0) with (Z.of_nat (length (concat items))) by lia. rewrite short_payload_app.
    cbn [mbind outcome_bind]. by rewrite HI.
  - destruct (rlpIntLen_spec (Z.of_nat (length (concat items)))) as [Hk _]; [lia|].
    cbn [app rlpDecode]. repeat (gtest; try lia).
    replace (0xc0 + 55 + _ - 0xf7) with (Z.of_nat (rlpIntLen (Z.of_nat (length (concat items))))) by lia.
    rewrite long_payload_app by lia. cbn [mbind outcome_bind]. by rewrite HI.
Qed.

(** An encoding determines its value. *)
Lemma decodes_inj it v v' : Z.of_nat (length it) < max_len -> decodes it v -> decodes it v' -> v = v'.
Proof.
  intros Hl [_ H] [_ H']. specialize (H (S (length it)) [] ltac:(lia) ltac:(cbn; lia)).
  rewrite (H' (S (length it)) [] ltac:(lia) ltac:(cbn; lia)) in H. congruence.
Qed.

(** ** Fields *)

(** [it] is an encoding that [parse] reads as [x]. *)
Definition reads {A} (parse : rlpVal -> outcome tx_err A) (it : bytes) (x : A) : Prop :=
  Z.of_nat (length it) < max_len -> exists v, decodes it v /\ parse v = Ok x.

Lemma rlpUint64_string b n :
  is_u64 n -> bytes_ok b -> (length b <= 8)%nat -> be_val b = n -> b !! 0%nat <> Some 0 -> rlpUint64 (RlpBytes b) = Ok n.
Proof.
  intros Hn Hb Hl Hv Hh. unfold rlpUint64. destruct (Nat.eqb_spec (length b) 0) as [E|E].
  { destruct b; [|done]. by rewrite <- Hv. }
  destruct b as [|c b]; [done|]. cbn [lookup_total list_lookup_total].
  destruct (Z.eqb_spec c 0) as [->|]; [by cbn in Hh|]. cbn [orb]. destruct (Nat.ltb_spec 8 (length (c :: b))); [lia|].
  unfold is_u64 in Hn. rewrite fold_shift by (done || lia). f_equal. lia.
Qed.

Lemma rlpU256_string b z :
  u256_ok z -> bytes_ok b -> (length b <= 32)%nat -> be_val b = toZ z -> b !! 0%nat <> Some 0 -> rlpU256 (RlpBytes b) = Ok z.
Proof.
  intros Hz Hb Hl Hv Hh. unfold rlpU256. destruct (Nat.ltb_spec 32 (length b)); [lia|].
  destruct b as [|c b]; [by apply (f_equal Ok), toZ_inj|]. destruct (_ && _) eqn:E.
  { apply andb_prop in E as [_ E%Z.eqb_eq]. cbn in E, Hh. congruence. }
  f_equal. apply toZ_inj; [by apply FromBytesBE_ok|done|]. rewrite toZ_FromBytesBE.
  replace (length (c :: b) - 32)%nat with 0%nat by lia. by rewrite drop_0.
Qed.

Lemma reads_u64 n : is_u64 n -> reads rlpUint64 (rlpU64Enc n) n.
Proof.
  intros Hn _. destruct (rlp_uint_string n Hn) as (b & E & Hb & Hl & Hv & Hh). change (rlpU64Enc n = rlpBytesEnc b) in E.
  rewrite E. exists (RlpBytes b). split; [apply tx_decodes_string; [done|lia]|by apply rlpUint64_string].
Qed.

Lemma reads_u256 z : u256_ok z -> reads rlpU256 (rlpU256Enc z) z.
Proof.
  intros Hz _. destruct (rlp_word_string z Hz) as (b & E & Hb & Hl & Hv & Hh). change (rlpU256Enc z = rlpBytesEnc b) in E.
  rewrite E. exists (RlpBytes b). split; [apply tx_decodes_string; [done|lia]|by apply rlpU256_string].
Qed.

Definition to_ok (to : option Address) : Prop := match to with Some a => is_address a | None => True end.

Lemma reads_addr to : to_ok to -> reads rlpAddr (rlpAddrEnc to) to.
Proof.
  intros Hto _. destruct to as [a|]; cbn [rlpAddrEnc].
  - destruct Hto as [Ha La]. exists (RlpBytes a). split; [apply tx_decodes_string; [done|lia]|]. cbn. by rewrite La.
  - exists (RlpBytes []). split; [|done]. apply (tx_decodes_string []); [constructor|cbn; lia].
Qed.

Lemma reads_data b : bytes_ok b -> reads rlp_data (rlpBytesEnc b) b.
Proof.
  intros Hb Hl. pose proof (length_RlpEncodeBytes_ge b) as H. exists (RlpBytes b). split; [|done].
  apply tx_decodes_string; [done|]. unfold rlpBytesEnc in Hl. lia.
Qed.

Lemma reads_hash h : is_hash h -> reads parse_hash (rlpBytesEnc h) h.
Proof.
  intros [Hh Lh] _. exists (RlpBytes h). split; [apply tx_decodes_string; [done|lia]|]. cbn. by rewrite Lh.
Qed.

Lemma length_concat_elem (it : bytes) items : it ∈ items -> (length it <= length (concat items))%nat.
Proof.
  induction 1 as [x l|x y l _ IH]; cbn [concat]; rewrite length_app; lia.
Qed.

(** The elements of a list, one after the other. *)
Lemma reads_all {A} (parse : rlpVal -> outcome tx_err A) (enc : A -> bytes) l :
  Forall (fun x => reads parse (enc x) x) l -> Z.of_nat (length (concat (map enc l))) < max_len ->
  exists vals, Forall2 decodes (map enc l) vals /\ parse_all parse vals = Ok l.
Proof.
  induction 1 as [|x l Hx Hl IH]; intros Hlen; [exists []; split; [constructor|done]|].
  cbn [map concat] in *. rewrite length_app in Hlen. destruct Hx as (v & Hv & Ev); [lia|].
  destruct IH as (vals & Hvals & E); [lia|]. exists (v :: vals). split; [by constructor|].
  cbn [parse_all]. rewrite Ev. cbn [mbind outcome_bind]. by rewrite E.
Qed.

Lemma reads_list {A} (parse : rlpVal -> outcome tx_err A) (enc : A -> bytes) l :
  Forall (fun x => reads parse (enc x) x) l ->
  reads (fun v => match v with RlpList l => parse_all parse l | RlpBytes _ => Err ErrInvalidTx end) (rlpListEnc (map enc l)) l.
Proof.
  intros H Hlen. rewrite rlpListEnc_eq, length_app in Hlen. destruct (reads_all parse enc l H) as (vals & Hv & E); [lia|].
  exists (RlpList vals). split; [apply decodes_list; [done|lia]|done].
Qed.

Lemma reads_hashes hs : Forall is_hash hs -> reads rlp_hashes (blobHashesEnc hs) hs.
Proof. intros H. apply (reads_list parse_hash rlpBytesEnc). apply (List.Forall_impl _ reads_hash H). Qed.

Definition tuple_ok (t : AccessTuple) : Prop := is_address (at_address t) /\ Forall is_hash (at_keys t).

Lemma reads_tuple t : tuple_ok t -> reads parse_tuple (tupleEnc t) t.
Proof.
  intros [[Ha La] Hk] Hlen. unfold tupleEnc in *. rewrite rlpListEnc_eq in Hlen. cbn [concat] in Hlen.
  rewrite !length_app in Hlen. destruct (reads_hashes _ Hk) as (v & Hv & Ev); [unfold blobHashesEnc; lia|].
  exists (RlpList [RlpBytes (at_address t); v]). split.
  - apply decodes_list; [|cbn [concat]; rewrite !length_app; lia].
    constructor; [apply tx_decodes_string; [done|lia]|]. constructor; [exact Hv|constructor].
  - cbn [parse_tuple rlpAddr]. rewrite La. cbn [Nat.eqb negb]. rewrite Ev. by destruct t.
Qed.

Lemma reads_access_list al : Forall tuple_ok al -> reads parseAccessList (accessListEnc al) al.
Proof. intros H. apply (reads_list parse_tuple tupleEnc). apply (List.Forall_impl _ reads_tuple H). Qed.

(** ** Signed transactions *)

(** The fields are in their Go types, and those the type does not carry have the
    values the decoder gives them. *)
Definition tx_shape (tx : Transaction) : Prop :=
  (tx_Type tx = TxLegacy /\ tx_ChainID tx = default zero256 (legacy_chain (tx_V tx)) /\ tx_GasTipCap tx = tx_GasPrice tx /\
    tx_GasFeeCap tx = tx_GasPrice tx /\ tx_AccessList tx = [] /\ tx_BlobFeeCap tx = zero256 /\ tx_BlobHashes tx = []) \/
  (tx_Type tx = TxAccessList /\ tx_GasTipCap tx = tx_GasPrice tx /\ tx_GasFeeCap tx = tx_GasPrice tx /\
    tx_BlobFeeCap tx = zero256 /\ tx_BlobHashes tx = []) \/
  (tx_Type tx = TxDynamicFee /\ tx_GasFeeCap tx = tx_GasPrice tx /\ tx_BlobFeeCap tx = zero256 /\ tx_BlobHashes tx = []) \/
  (tx_Type tx = TxBlob /\ tx_GasFeeCap tx = tx_GasPrice tx).

Record wire_ok (tx : Transaction) : Prop := {
  wo_shape : tx_shape tx;
  wo_chain : u256_ok (tx_ChainID tx);
  wo_nonce : is_u64 (tx_Nonce tx);
  wo_price : u256_ok (tx_GasPrice tx);
  wo_tip : u256_ok (tx_GasTipCap tx);
  wo_fee : u256_ok (tx_GasFeeCap tx);
  wo_gas : is_u64 (tx_Gas tx);
  wo_to : to_ok (tx_To tx);
  wo_value : u256_ok (tx_Value tx);
  wo_data : bytes_ok (tx_Data tx);
  wo_al : Forall tuple_ok (tx_AccessList tx);
  wo_blobfee : u256_ok (tx_BlobFeeCap tx);
  wo_blobs : Forall is_hash (tx_BlobHashes tx);
  wo_v : u256_ok (tx_V tx);
  wo_r : u256_ok (tx_R tx);
  wo_s : u256_ok (tx_S tx);
}.

(** The reference encoder. *)
Definition unsigned_items (tx : Transaction) : list bytes :=
  if tx_Type tx =? TxLegacy then legacy_items tx
  else if tx_Type tx =? TxAccessList then access_list_items tx
  else if tx_Type tx =? TxDynamicFee then dynamic_fee_items tx
  else blob_items tx.

Definition signature_items (tx : Transaction) : list bytes :=
  [rlpU256Enc (tx_V tx); rlpU256Enc (tx_R tx); rlpU256Enc (tx_S tx)].

Definition tx_encode (tx : Transaction) : bytes :=
  let body := rlpListEnc (unsigned_items tx ++ signature_items tx) in
  if tx_Type tx =? TxLegacy then body else tx_Type tx :: body.

Definition with_signature (tx : Transaction) (v r s : Uint256) : Transaction :=
  MkTx (tx_Type tx) (if tx_Type tx =? TxLegacy then default zero256 (legacy_chain v) else tx_ChainID tx)
    (tx_Nonce tx) (tx_GasPrice tx) (tx_GasTipCap tx) (tx_GasFeeCap tx) (tx_Gas tx) (tx_To tx) (tx_Value tx) (tx_Data tx)
    (tx_AccessList tx) (tx_BlobFeeCap tx) (tx_BlobHashes tx) v r s no_address no_hash.

(** Read the items of a list, each with the rule for its field. *)
Ltac read_field H :=
  let v := fresh "v" in let D := fresh "D" in let E := fresh "E" in
  destruct H as (v & D & E); [lia|].

Lemma unsigned_items_read tx :
  wire_ok tx -> Z.of_nat (length (concat (unsigned_items tx))) < max_len ->
  exists vals, Forall2 decodes (unsigned_items tx) vals /\
    forall sv sr ss v r s, rlpU256 sv = Ok v -> rlpU256 sr = Ok r -> rlpU256 ss = Ok s ->
      parseTxList (tx_Type tx) (vals ++ [sv; sr; ss]) = Ok (with_signature tx v r s).
Proof.
  intros [Hs Hc Hn Hp Ht Hf Hg Hto Hv Hd Hal Hbf Hb _ _ _] Hlen.
  pose proof (reads_u256 _ Hc) as Rc. pose proof (reads_u64 _ Hn) as Rn. pose proof (reads_u256 _ Hp) as Rp.
  pose proof (reads_u256 _ Ht) as Rt. pose proof (reads_u256 _ Hf) as Rf. pose proof (reads_u64 _ Hg) as Rg.
  pose proof (reads_addr _ Hto) as Rto. pose proof (reads_u256 _ Hv) as Rv. pose proof (reads_data _ Hd) as Rd.
  pose proof (reads_access_list _ Hal) as Ra. pose proof (reads_u256 _ Hbf) as Rbf. pose proof (reads_hashes _ Hb) as Rb.
  clear Hc Hn Hp Ht Hf Hg Hto Hv Hd Hal Hbf Hb. unfold unsigned_items in *. unfold with_signature.
  destruct Hs as [(T & _ & E1 & E2 & E3 & E4 & E5)|[(T & E2 & E3 & E4 & E5)|[(T & E2 & E4 & E5)|(T & E2)]]];
    rewrite T in *; cbn [Z.eqb Pos.eqb] in *;
    [unfold legacy_items in *|unfold access_list_items in *|unfold dynamic_fee_items in *|unfold blob_items, dynamic_fee_items in *];
    cbn [concat app] in *; rewrite !length_app in Hlen.
  - read_field Rn. read_field Rp. read_field Rg. read_field Rto. read_field Rv. read_field Rd.
    eexists [_; _; _; _; _; _]. split; [repeat (constructor; [eassumption|]); constructor|].
    intros sv sr ss sv' sr' ss' Hsv Hsr Hss. cbn [app parseTxList parseLegacy Z.eqb Nat.eqb negb length].
    rewrite E, E0, E6, E7, E8, E9, Hsv, Hsr, Hss. cbn [mbind outcome_bind]. rewrite E1, E2, E3, E4, E5. done.
  - read_field Rc. read_field Rn. read_field Rp. read_field Rg. read_field Rto. read_field Rv. read_field Rd. read_field Ra.
    eexists [_; _; _; _; _; _; _; _]. split; [repeat (constructor; [eassumption|]); constructor|].
    intros sv sr ss sv' sr' ss' Hsv Hsr Hss. cbn [app parseTxList parseAccessListTx Z.eqb Pos.eqb Nat.eqb negb length].
    repeat match goal with H : _ = Ok _ |- _ => rewrite H; clear H; cbn [mbind outcome_bind] end. rewrite E2, E3, E4, E5. done.
  - read_field Rc. read_field Rn. read_field Rt. read_field Rf. read_field Rg. read_field Rto. read_field Rv. read_field Rd.
    read_field Ra. eexists [_; _; _; _; _; _; _; _; _]. split; [repeat (constructor; [eassumption|]); constructor|].
    intros sv sr ss sv' sr' ss' Hsv Hsr Hss. cbn [app parseTxList parseDynamicFeeTx Z.eqb Pos.eqb Nat.eqb negb length].
    repeat match goal with H : _ = Ok _ |- _ => rewrite H; clear H; cbn [mbind outcome_bind] end. rewrite E2, E4, E5. done.
  - read_field Rc. read_field Rn. read_field Rt. read_field Rf. read_field Rg. read_field Rto. read_field Rv. read_field Rd.
    read_field Ra. read_field Rbf. read_field Rb.
    eexists [_; _; _; _; _; _; _; _; _; _; _]. split; [repeat (constructor; [eassumption|]); constructor|].
    intros sv sr ss sv' sr' ss' Hsv Hsr Hss. cbn [app parseTxList parseBlobTx Z.eqb Pos.eqb Nat.eqb negb length].
    repeat match goal with H : _ = Ok _ |- _ => rewrite H; clear H; cbn [mbind outcome_bind] end. rewrite E2. done.
Qed.

(** ** Round trip *)

Lemma rlpListEnc_head items : Z.of_nat (length (concat items)) < max_len ->
  exists c l, rlpListEnc items = c :: l /\ 0xc0 <= c.
Proof.
  intros Hl. rewrite rlpListEnc_eq, RlpEncodeListHeader_header by lia. unfold rlp_header.
  gtest; cbn [app]; do 2 eexists; (split; [reflexivity|lia]).
Qed.

Lemma with_signature_sender tx : tx_shape tx ->
  with_signature tx (tx_V tx) (tx_R tx) (tx_S tx) = with_sender tx no_address no_hash.
Proof.
  intros Hs. unfold with_signature, with_sender. f_equal. destruct Hs as [(T & Hc & _)|[(T & _)|[(T & _)|(T & _)]]]; by rewrite T.
Qed.

Lemma tx_type_cases tx : tx_shape tx ->
  tx_Type tx = TxLegacy \/ tx_Type tx = TxAccessList \/ tx_Type tx = TxDynamicFee \/ tx_Type tx = TxBlob.
Proof. unfold tx_shape. tauto. Qed.

(** The body of an encoded transaction is read as the list of its fields. *)
Lemma body_decodes tx :
  wire_ok tx -> Z.of_nat (length (tx_encode tx)) < max_len ->
  exists items, decodes (rlpListEnc (unsigned_items tx ++ signature_items tx)) (RlpList items) /\
    parseTxList (tx_Type tx) items = Ok (with_sender tx no_address no_hash).
Proof.
  intros Hw Hlen. pose proof (reads_u256 _ (wo_v tx Hw)) as Rv. pose proof (reads_u256 _ (wo_r tx Hw)) as Rr.
  pose proof (reads_u256 _ (wo_s tx Hw)) as Rs.
  assert (Z.of_nat (length (concat (unsigned_items tx ++ signature_items tx))) < max_len) as Hl.
  { unfold tx_encode in Hlen. rewrite rlpListEnc_eq in Hlen. revert Hlen. gtest; cbn [length]; rewrite length_app; lia. }
  pose proof Hl as Hl'. rewrite concat_app, length_app in Hl'. unfold signature_items in Hl' at 1. cbn [concat] in Hl'.
  rewrite !length_app in Hl'. destruct (unsigned_items_read tx Hw) as (vals & HD & HP); [lia|].
  read_field Rv. read_field Rr. read_field Rs. exists (vals ++ [v; v0; v1]). split.
  - apply decodes_list; [|exact Hl]. apply Forall2_app; [exact HD|]. repeat (constructor; [assumption|]). constructor.
  - rewrite (HP _ _ _ _ _ _ E E0 E1), with_signature_sender by apply Hw. done.
Qed.

Lemma decode_encode fuel tx :
  wire_ok tx -> Z.of_nat (length (tx_encode tx)) < max_len -> (length (tx_encode tx) < fuel)%nat ->
  DecodeTransaction fuel (tx_encode tx) =
    (from ← recoverSender (signingHash tx) (negb (tx_Type tx =? TxLegacy)) (tx_V tx) (tx_R tx) (tx_S tx);
     Ok (with_sender tx from (keccak32 (tx_encode tx)))).
Proof.
  intros Hw Hlen Hf. destruct (body_decodes tx Hw Hlen) as (items & [_ HD] & HP).
  pose proof (tx_type_cases tx (wo_shape tx Hw)) as HT. set (raw := tx_encode tx) in *.
  assert (match raw with
    | [] => False
    | b :: tl => (if 0x7f <? b then Ok (TxLegacy, raw)
        else if negb (b =? TxAccessList) && negb (b =? TxDynamicFee) && negb (b =? TxBlob) then Err ErrInvalidTx
        else Ok (b, tl)) = @Ok tx_err _ (tx_Type tx, rlpListEnc (unsigned_items tx ++ signature_items tx))
    end) as Hraw.
  { subst raw. unfold tx_encode in *. destruct HT as [T|HT].
    - rewrite T in *. cbn [Z.eqb] in *. destruct (rlpListEnc_head (unsigned_items tx ++ signature_items tx)) as (c & l & E & Hc).
      { rewrite rlpListEnc_eq, length_app in Hlen. lia. }
      rewrite E in *. gtest; [done|lia].
    - destruct HT as [T|[T|T]]; rewrite T in *; done. }
  assert (length (rlpListEnc (unsigned_items tx ++ signature_items tx)) <= length raw)%nat as Hle.
  { subst raw. unfold tx_encode. gtest; cbn [length]; lia. }
  specialize (HD fuel [] ltac:(lia) ltac:(cbn; lia)). rewrite app_nil_r in HD.
  unfold DecodeTransaction. destruct raw as [|b tl]; [done|]. rewrite Hraw. cbn [mbind outcome_bind]. rewrite HD.
  cbn [length Nat.eqb negb mbind outcome_bind]. rewrite HP. reflexivity.
Qed.

(** ** What the signed hash determines *)

(** The signed part of a transaction: the fields but the signature, and for a
    legacy transaction the chain identifier its signature carries, if any. *)
Definition signed_content (tx : Transaction) : Transaction * option Uint256 :=
  (with_signature tx zero256 zero256 zero256, if tx_Type tx =? TxLegacy then legacy_chain (tx_V tx) else None).

Lemma Ok_inj {E A} (x y : A) : @Ok E A x = Ok y -> x = y.
Proof. congruence. Qed.

Lemma rlpU256_zero : rlpU256 (RlpBytes []) = Ok zero256.
Proof. reflexivity. Qed.

Lemma unsigned_items_inj t1 t2 vals1 vals2 :
  tx_Type t1 = tx_Type t2 ->
  (forall sv sr ss v r s, rlpU256 sv = Ok v -> rlpU256 sr = Ok r -> rlpU256 ss = Ok s ->
    parseTxList (tx_Type t1) (vals1 ++ [sv; sr; ss]) = Ok (with_signature t1 v r s)) ->
  (forall sv sr ss v r s, rlpU256 sv = Ok v -> rlpU256 sr = Ok r -> rlpU256 ss = Ok s ->
    parseTxList (tx_Type t2) (vals2 ++ [sv; sr; ss]) = Ok (with_signature t2 v r s)) ->
  vals1 = vals2 -> with_signature t1 zero256 zero256 zero256 = with_signature t2 zero256 zero256 zero256.
Proof.
  intros T H1 H2 ->. specialize (H1 _ _ _ _ _ _ rlpU256_zero rlpU256_zero rlpU256_zero).
  specialize (H2 _ _ _ _ _ _ rlpU256_zero rlpU256_zero rlpU256_zero). rewrite T, H2 in H1. by apply Ok_inj in H1.
Qed.

Definition chain_items (tx : Transaction) : list bytes :=
  match legacy_chain (tx_V tx) with Some cid => [rlpU256Enc cid; [0x80]; [0x80]] | None => [] end.

Lemma legacy_chain_ok v cid : u256_ok v -> legacy_chain v = Some cid -> u256_ok cid.
Proof.
  intros Hv. unfold legacy_chain, u256ToU64. destruct (negb _); [done|]. gtest; [|done]. intros [= <-].
  destruct Hv as [Hv _]. unfold is_u64 in Hv. apply FromU64_ok. unfold is_u64. dlia.
Qed.

(** The items that follow the fields of a legacy transaction. *)
Definition reads_chain (chain : option Uint256) (x : list rlpVal) : Prop :=
  match chain with
  | Some cid => exists v, x = [v; RlpBytes []; RlpBytes []] /\ rlpU256 v = Ok cid
  | None => x = []
  end.

Lemma chain_items_read tx : u256_ok (tx_V tx) -> Z.of_nat (length (concat (chain_items tx))) < max_len ->
  exists x, Forall2 decodes (chain_items tx) x /\ reads_chain (legacy_chain (tx_V tx)) x.
Proof.
  intros Hv. unfold chain_items. destruct (legacy_chain (tx_V tx)) as [cid|] eqn:E; [|by exists []].
  cbn [concat]. rewrite !length_app. intros Hlen.
  destruct (reads_u256 cid (legacy_chain_ok _ _ Hv E)) as (v & D & Ev); [lia|].
  assert (decodes [0x80] (RlpBytes [])) as D0 by (apply (tx_decodes_string []); [constructor|cbn; lia]).
  exists [v; RlpBytes []; RlpBytes []]. split; [repeat (constructor; [done|]); constructor|by exists v].
Qed.

Definition signed_chain (tx : Transaction) : option Uint256 :=
  if tx_Type tx =? TxLegacy then legacy_chain (tx_V tx) else None.

(** The signed string: its first byte tells the type, and its body is read as the fields. *)
Lemma signing_payload_read tx p :
  wire_ok tx -> Z.of_nat (length p) < max_len -> signing_payload tx = Some p ->
  exists items, p = (if tx_Type tx =? TxLegacy then rlpListEnc items else tx_Type tx :: rlpListEnc items) /\
    Z.of_nat (length (rlpListEnc items)) < max_len /\
    exists vals x, decodes (rlpListEnc items) (RlpList (vals ++ x)) /\
      length vals = length (unsigned_items tx) /\ reads_chain (signed_chain tx) x /\
      forall sv sr ss v r s, rlpU256 sv = Ok v -> rlpU256 sr = Ok r -> rlpU256 ss = Ok s ->
        parseTxList (tx_Type tx) (vals ++ [sv; sr; ss]) = Ok (with_signature tx v r s).
Proof.
  intros Hw Hlen E. set (extra := if tx_Type tx =? TxLegacy then chain_items tx else []).
  assert (p = (if tx_Type tx =? TxLegacy then rlpListEnc (unsigned_items tx ++ extra)
    else tx_Type tx :: rlpListEnc (unsigned_items tx ++ extra))) as Ep.
  { revert E. unfold signing_payload, unsigned_items, extra.
    destruct (tx_type_cases tx (wo_shape tx Hw)) as [T|[T|[T|T]]]; rewrite T; cbn [Z.eqb Pos.eqb];
      rewrite ?app_nil_r; by intros [= <-]. }
  assert (Z.of_nat (length (rlpListEnc (unsigned_items tx ++ extra))) < max_len) as Hl.
  { rewrite Ep in Hlen. destruct (tx_Type tx =? TxLegacy); cbn [length] in Hlen; lia. }
  exists (unsigned_items tx ++ extra). split; [exact Ep|]. split; [exact Hl|].
  rewrite rlpListEnc_eq, concat_app, !length_app in Hl. destruct (unsigned_items_read tx Hw) as (vals & HD & HP); [lia|].
  assert (exists x, Forall2 decodes extra x /\ reads_chain (signed_chain tx) x) as (x & HX & Hx).
  { unfold extra, signed_chain in *. destruct (tx_Type tx =? TxLegacy); [|by exists []].
    apply chain_items_read; [apply Hw|lia]. }
  exists vals, x. split; [|split; [|split; [exact Hx|exact HP]]].
  - apply decodes_list; [by apply Forall2_app|]. rewrite concat_app, length_app. lia.
  - apply Forall2_length in HD. congruence.
Qed.

Lemma rlpListEnc_nonzero items c l :
  Z.of_nat (length (rlpListEnc items)) < max_len -> rlpListEnc items = c :: l -> 0xc0 <= c.
Proof.
  intros Hl. rewrite rlpListEnc_eq, length_app in Hl. destruct (rlpListEnc_head items) as (c' & l' & -> & Hc); [lia|].
  by intros [= <- _].
Qed.

Lemma signing_payload_inj t1 t2 p :
  wire_ok t1 -> wire_ok t2 -> Z.of_nat (length p) < max_len ->
  signing_payload t1 = Some p -> signing_payload t2 = Some p -> signed_content t1 = signed_content t2.
Proof.
  intros H1 H2 Hlen E1 E2.
  destruct (signing_payload_read t1 p H1 Hlen E1) as (i1 & P1 & S1 & v1 & x1 & D1 & L1 & X1 & Q1).
  destruct (signing_payload_read t2 p H2 Hlen E2) as (i2 & P2 & S2 & v2 & x2 & D2 & L2 & X2 & Q2).
  pose proof (rlpListEnc_nonzero i1) as N1. pose proof (rlpListEnc_nonzero i2) as N2.
  pose proof (tx_type_cases t1 (wo_shape t1 H1)) as C1. pose proof (tx_type_cases t2 (wo_shape t2 H2)) as C2.
  assert (tx_Type t1 = tx_Type t2 /\ rlpListEnc i1 = rlpListEnc i2) as [T EL].
  { rewrite P1 in P2. revert P2. destruct (Z.eqb_spec (tx_Type t1) TxLegacy), (Z.eqb_spec (tx_Type t2) TxLegacy); intros P2.
    - split; [congruence|exact P2].
    - exfalso. pose proof (N1 _ _ S1 P2). lia.
    - exfalso. symmetry in P2. pose proof (N2 _ _ S2 P2). lia.
    - by injection P2. }
  rewrite EL in D1. pose proof (decodes_inj _ _ _ S2 D1 D2) as [= Ev].
  assert (length v1 = length v2) as Elen by (rewrite L1, L2; unfold unsigned_items; rewrite T;
    destruct C2 as [-> |[-> |[-> | ->]]]; done).
  apply app_inj_1 in Ev as [Ev ->]; [|done]. unfold signed_content. fold (signed_chain t1) (signed_chain t2).
  rewrite (unsigned_items_inj t1 t2 v1 v2 T Q1 Q2 Ev). f_equal.
  destruct (signed_chain t1) as [a|], (signed_chain t2) as [b|]; cbn [reads_chain] in X1, X2; try done.
  - destruct X1 as (u & -> & Eu), X2 as (u' & [= <-] & Eu'). congruence.
  - by destruct X1 as (u & -> & _).
  - subst x2. by destruct X2 as (u & ? & _).
Qed.
