(* ===== verification/TxDecodeTyped.v ===== *)
(** * Decoding is total and well typed

    The decoder ends within a nesting of the length of its input, panics only on
    a length prefix that wraps around, and what it returns has its Go types. The
    sender is the address of the key recovered from the signed hash. *)

From S2P Require Import Prelude Uint256 Keccak Mpt StateRoot StateRootSpec RlpFacts BlockTypes ModArith AffineCurve.
From S2P Require Import Secp256k1 SecpSpec TxRlp TxDecode TxDecodeSpec.

(** ** Payloads *)

(** A length prefix of eight bytes that wraps the end of the payload around. *)
Definition wrapping_length (lb : bytes) : Prop :=
  length lb = 8%nat /\ 9223372036854775808 - 9 <= be_val lb < 9223372036854775808.

Lemma short_payload_total h tl n :
  0 <= n ->
  match short_payload (h :: tl) n with
  | Ok (p, rest) => tl = p ++ rest
  | Err _ => True
  | _ => False
  end.
Proof.
  intros Hn. unfold short_payload. cbn [length]. gtest; [done|].
  rewrite !go_slice_ok by (cbn [length]; lia). cbn [mbind outcome_bind].
  replace (Z.to_nat (1 + n)) with (S (Z.to_nat n)) by lia. rewrite Nat2Z.id. change (Z.to_nat 1) with 1%nat.
  change (S (length tl)) with (length (h :: tl)). rewrite slice_drop. unfold slice. cbn [drop].
  replace (S (Z.to_nat n) - 1)%nat with (Z.to_nat n) by lia. by rewrite drop_0, take_drop.
Qed.

Lemma be_val_lt lb n : bytes_ok lb -> (length lb <= n)%nat -> be_val lb < 256 ^ Z.of_nat n.
Proof.
  intros Hb Hl. pose proof (be_val_range lb Hb).
  assert (256 ^ Z.of_nat (length lb) <= 256 ^ Z.of_nat n) by (apply Z.pow_le_mono_r; lia). lia.
Qed.

(** A length that is positive and wraps around comes from eight bytes. *)
Lemma wraps lb :
  bytes_ok lb -> (length lb <= 8)%nat -> 56 <= rlpReadInt lb ->
  9223372036854775808 <= 1 + Z.of_nat (length lb) + rlpReadInt lb -> wrapping_length lb.
Proof.
  intros Hb Hl. rewrite rlpReadInt_spec by done. intros H56 Hw. pose proof (be_val_range lb Hb) as [H0 _].
  destruct (decide (length lb = 8)%nat) as [E|].
  - split; [exact E|]. pose proof (be_val_lt lb 8 Hb ltac:(lia)) as Hr. change (256 ^ Z.of_nat 8) with B64 in Hr.
    destruct (Z_lt_le_dec (be_val lb) 9223372036854775808).
    + rewrite i64_small in Hw by lia. lia.
    + exfalso. assert (i64 (be_val lb) = be_val lb - B64) as Ei by (apply (i64_unique _ _ (-1)); lia). lia.
  - exfalso. pose proof (be_val_lt lb 7 Hb ltac:(lia)) as Hr. change (256 ^ Z.of_nat 7) with 72057594037927936 in Hr.
    rewrite i64_small in Hw by lia. lia.
Qed.

Lemma long_payload_total h tl llen :
  0 <= llen <= 8 -> bytes_ok tl ->
  match long_payload (h :: tl) llen with
  | Ok (p, rest) => exists lb, tl = lb ++ p ++ rest
  | Err _ => True
  | Panic => exists lb post, tl = lb ++ post /\ Z.of_nat (length lb) = llen /\ wrapping_length lb
  | OutOfFuel => False
  end.
Proof.
  intros Hl Hok. unfold long_payload. cbn [length]. destruct (_ || _) eqn:E0; [done|].
  apply orb_false_iff in E0 as [E0%Z.eqb_neq E1%Z.ltb_ge].
  set (k := Z.to_nat llen). assert (tl = take k tl ++ drop k tl) as Etl by (by rewrite take_drop).
  assert (length (take k tl) = k) as Lk by (rewrite length_take; lia).
  assert (bytes_ok (take k tl)) as Hlb by (by apply Forall_take).
  generalize dependent (take k tl). generalize dependent (drop k tl). intros post lb -> Lk Hlb.
  change (h :: lb ++ post) with ([h] ++ lb ++ post). rewrite (go_slice_mid [h] lb post 1) by (cbn [length]; lia).
  cbn [mbind outcome_bind]. gtest; [done|]. set (n := rlpReadInt lb) in *.
  pose proof (i64_range (be_val lb)) as Hr. rewrite <- rlpReadInt_spec in Hr by done. fold n in Hr.
  rewrite length_app in E1. destruct (Z_lt_le_dec (1 + llen + n) 9223372036854775808) as [Hs|Hs].
  - rewrite i64_small by lia. gtest; [done|]. rewrite length_app in *.
    rewrite !go_slice_ok by (cbn [length app]; rewrite ?length_app; lia). cbn [mbind outcome_bind].
    exists lb. f_equal. rewrite app_assoc.
    assert (exists p r, post = p ++ r /\ Z.of_nat (length p) = n) as (p & r & -> & Lp).
    { exists (take (Z.to_nat n) post), (drop (Z.to_nat n) post). rewrite take_drop, length_take. split; [done|lia]. }
    replace (Z.to_nat (1 + llen)) with (length ([h] ++ lb)) by (rewrite length_app; cbn [length]; lia).
    replace (Z.to_nat (1 + llen + n)) with (length ([h] ++ lb) + length p)%nat by (rewrite length_app; cbn [length]; lia).
    rewrite slice_mid, <- length_app. replace (Z.to_nat _) with (length ((([h] ++ lb) ++ p) ++ r)).
    + by rewrite (app_assoc ([h] ++ lb)), slice_to_end.
    + rewrite !length_app. cbn [length]. lia.
  - assert (wrapping_length lb) as Hw by (apply wraps; [done|lia|lia|rewrite Lk; unfold k; lia]).
    assert (i64 (1 + llen + n) = 1 + llen + n - B64) as -> by (apply (i64_unique _ _ (-1)); lia).
    gtest; [lia|]. rewrite (go_slice_panic _ (1 + llen)) by lia. exists lb, post. split; [done|]. split; [lia|exact Hw].
Qed.

(** ** Values *)

Inductive val_ok : rlpVal -> Prop :=
  | ok_bytes b : bytes_ok b -> val_ok (RlpBytes b)
  | ok_list l : Forall val_ok l -> val_ok (RlpList l).

(** A wrapping length prefix somewhere in [buf]. *)
Definition has_wrapping (buf : bytes) : Prop :=
  exists pre lb post, buf = pre ++ lb ++ post /\ wrapping_length lb.

Lemma has_wrapping_sub pre p post : has_wrapping p -> has_wrapping (pre ++ p ++ post).
Proof.
  intros (a & lb & b & -> & H). exists (pre ++ a), lb, (b ++ post). split; [by rewrite <- !app_assoc|exact H].
Qed.

(** What is known of a call of the decoder. *)
Definition decode_post (buf : bytes) (r : outcome tx_err (rlpVal * bytes)) : Prop :=
  match r with
  | Ok (v, rest) => val_ok v /\ exists pre, buf = pre ++ rest /\ pre <> []
  | Err _ => True
  | Panic => has_wrapping buf
  | OutOfFuel => False
  end.

Lemma tx_rlp_items_total fuel k payload acc :
  (forall buf, bytes_ok buf -> (length buf < fuel)%nat -> decode_post buf (rlpDecode fuel buf)) ->
  bytes_ok payload -> (length payload < fuel)%nat -> (length payload <= k)%nat -> Forall val_ok acc ->
  match rlp_items (rlpDecode fuel) k payload acc with
  | Ok items => Forall val_ok items
  | Err _ => True
  | Panic => has_wrapping payload
  | OutOfFuel => False
  end.
Proof.
  intros HD. revert payload acc. induction k as [|k IH]; intros payload acc Hp Hl Hk Hacc;
    destruct payload as [|c p]; try done; [cbn in Hk; lia|].
  cbn [rlp_items]. pose proof (HD (c :: p) Hp Hl) as D.
  destruct (rlpDecode fuel (c :: p)) as [[v next]| | |]; [|done|exact D|exact D].
  destruct D as [Hv (pre & E & Hne)]. cbn [mbind outcome_bind].
  assert (length (c :: p) = (length pre + length next)%nat) as Len by (rewrite E; apply length_app).
  assert (length pre <> 0%nat) by (by destruct pre). rewrite E in Hp |- *. apply Forall_app in Hp as [_ Hn].
  assert (Forall val_ok (acc ++ [v])) as Hacc' by (apply Forall_app; by repeat constructor).
  specialize (IH next (acc ++ [v]) Hn ltac:(lia) ltac:(lia) Hacc').
  destruct (rlp_items _ _ _ _); try done. rewrite <- (app_nil_r next). by apply has_wrapping_sub.
Qed.

Lemma bytes_payload buf (x : outcome tx_err (bytes * bytes)) h tl lb0 :
  buf = h :: tl -> bytes_ok tl ->
  match x with
  | Ok (p, rest) => exists lb, tl = lb ++ p ++ rest
  | Err _ => True
  | Panic => exists lb post, tl = lb ++ post /\ Z.of_nat (length lb) = lb0 /\ wrapping_length lb
  | OutOfFuel => False
  end ->
  decode_post buf ('(p, rest) ← x; Ok (RlpBytes p, rest)).
Proof.
  intros -> Htl. destruct x as [[p rest]| | |]; cbn [mbind outcome_bind decode_post]; try done.
  - intros (lb & ->). apply Forall_app in Htl as [_ [Hp _]%Forall_app]. split; [by constructor|].
    exists (h :: lb ++ p). split; [by cbn; rewrite <- app_assoc|done].
  - intros (lb & post & -> & _ & Hw). exists [h], lb, post. done.
Qed.

Lemma tx_rlpDecode_total fuel : forall buf, bytes_ok buf -> (length buf < fuel)%nat -> decode_post buf (rlpDecode fuel buf).
Proof.
  induction fuel as [|fuel IH]; intros buf Hok Hl; [lia|]. destruct buf as [|b tl]; [done|]. cbn [rlpDecode length] in *.
  pose proof Hok as [Hb Htl]%Forall_cons_iff. unfold is_byte in Hb.
  destruct (Z.ltb_spec b 0x80).
  { split; [constructor; by constructor|]. by exists [b]. }
  destruct (Z.ltb_spec b 0xb8).
  { destruct (_ && _); [done|]. pose proof (short_payload_total b tl (b - 0x80) ltac:(lia)) as R.
    apply (bytes_payload _ _ b tl 0); [done|done|]. destruct (short_payload _ _) as [[p rest]| | |]; try done. by exists []. }
  destruct (Z.ltb_spec b 0xc0).
  { apply (bytes_payload _ _ b tl (b - 0xb7)); [done|done|]. apply long_payload_total; [lia|done]. }
  assert (match (if b <? 0xf8 then short_payload (b :: tl) (b - 0xc0) else long_payload (b :: tl) (b - 0xf7)) with
    | Ok (p, rest) => exists lb, tl = lb ++ p ++ rest
    | Err _ => True
    | Panic => exists lb post, tl = lb ++ post /\ Z.of_nat (length lb) = b - 0xf7 /\ wrapping_length lb
    | OutOfFuel => False end) as R.
  { gtest; [|apply long_payload_total; [lia|done]]. pose proof (short_payload_total b tl (b - 0xc0) ltac:(lia)) as R.
    destruct (short_payload _ _) as [[p rest]| | |]; try done. by exists []. }
  destruct (if b <? 0xf8 then _ else _) as [[p rest]| | |]; cbn [mbind outcome_bind decode_post]; [|done| |done].
  - destruct R as (lb & ->). apply Forall_app in Htl as [_ [Hp _]%Forall_app]. rewrite !length_app in Hl.
    pose proof (tx_rlp_items_total fuel (length p) p [] IH Hp ltac:(lia) ltac:(lia) ltac:(constructor)) as T.
    destruct (rlp_items _ _ _ _) as [items| | |]; cbn [mbind outcome_bind decode_post]; try done.
    + split; [by constructor|]. exists (b :: lb ++ p). split; [by cbn; rewrite <- app_assoc|done].
    + by apply (has_wrapping_sub (b :: lb) p rest).
  - destruct R as (lb & post & -> & _ & Hw). by exists [b], lb, post.
Qed.

(** ** Fields *)

Lemma rlpUint64_typed v n : val_ok v -> rlpUint64 v = Ok n -> is_u64 n.
Proof.
  intros [b Hb|l _]; cbn [rlpUint64]; [|done]. destruct (length b =? 0)%nat; [intros [= <-]; unfold is_u64; lia|].
  destruct (_ || _); [done|]. intros E. apply Ok_inj in E. rewrite <- E. clear E.
  assert (forall n, is_u64 n -> is_u64 (foldl (fun n c => Z.lor (shl64 n 8) c) n b)) as H.
  { induction Hb as [|c b Hc Hb IH]; intros m Hm; cbn [foldl]; [done|]. apply IH, lor_u64; [apply u64_range|].
    unfold is_byte, is_u64 in *. lia. }
  apply H. unfold is_u64. lia.
Qed.

Lemma rlpU256_typed v z : val_ok v -> rlpU256 v = Ok z -> u256_ok z.
Proof.
  intros [b Hb|l _]; cbn [rlpU256]; [|done]. destruct (32 <? length b)%nat; [done|]. destruct (_ && _); [done|].
  intros [= <-]. by apply FromBytesBE_ok.
Qed.

Lemma rlpAddr_typed v a : val_ok v -> rlpAddr v = Ok a -> to_ok a.
Proof.
  intros [b Hb|l _]; cbn [rlpAddr]; [|done]. destruct (length b =? 0)%nat; [by intros [= <-]|].
  destruct (Nat.eqb_spec (length b) 20); [|done]. by intros [= <-].
Qed.

Lemma rlp_data_typed v b : val_ok v -> rlp_data v = Ok b -> bytes_ok b.
Proof. intros [? Hb|l _]; cbn [rlp_data]; [|done]. by intros [= <-]. Qed.

Lemma parse_hash_typed v h : val_ok v -> parse_hash v = Ok h -> is_hash h.
Proof.
  intros [b Hb|l _]; cbn [parse_hash]; [|done]. destruct (Nat.eqb_spec (length b) 32); [|done]. by intros [= <-].
Qed.

Lemma parse_all_typed {A} (parse : rlpVal -> outcome tx_err A) (P : A -> Prop) l r :
  (forall v x, val_ok v -> parse v = Ok x -> P x) -> Forall val_ok l -> parse_all parse l = Ok r -> Forall P r.
Proof.
  intros HP Hl. revert r. induction Hl as [|v l Hv Hl IH]; intros r; cbn [parse_all]; [by intros [= <-]|].
  intros E. inv_bind E. injection E as <-. constructor; [by apply (HP v)|by apply IH].
Qed.

Lemma rlp_hashes_typed v hs : val_ok v -> rlp_hashes v = Ok hs -> Forall is_hash hs.
Proof. intros [b Hb|l Hl]; cbn [rlp_hashes]; [done|]. apply parse_all_typed; [exact parse_hash_typed|done]. Qed.

Lemma parse_tuple_typed v t : val_ok v -> parse_tuple v = Ok t -> tuple_ok t.
Proof.
  intros [b Hb|l Hl]; [done|]. destruct l as [|a [|k [|]]]; cbn [parse_tuple]; try done.
  apply Forall_cons_iff in Hl as [Ha [Hk _]%Forall_cons_iff].
  destruct (rlpAddr a) as [[addr|]| | |] eqn:Ea; try done. intros E. inv_bind E. injection E as <-.
  split; [exact (rlpAddr_typed _ _ Ha Ea)|exact (rlp_hashes_typed _ _ Hk E0)].
Qed.

Lemma parseAccessList_typed v al : val_ok v -> parseAccessList v = Ok al -> Forall tuple_ok al.
Proof. intros [b Hb|l Hl]; cbn [parseAccessList]; [done|]. apply parse_all_typed; [exact parse_tuple_typed|done]. Qed.

Lemma default_chain_ok v : u256_ok v -> u256_ok (default zero256 (legacy_chain v)).
Proof.
  intros Hv. destruct (legacy_chain v) as [c|] eqn:E; [exact (legacy_chain_ok _ _ Hv E)|apply zero256_ok].
Qed.

Create HintDb typed.
#[export] Hint Resolve rlpUint64_typed rlpU256_typed rlpAddr_typed rlp_data_typed rlp_hashes_typed
  parseAccessList_typed default_chain_ok zero256_ok Forall_nil_2 : typed.

Lemma parseTxList_typed typ items tx :
  Forall val_ok items -> parseTxList typ items = Ok tx ->
  wire_ok tx /\ tx_Type tx = typ.
Proof.
  intros Hok. unfold parseTxList.
  destruct (Z.eqb_spec typ TxLegacy) as [->|].
  2: destruct (Z.eqb_spec typ TxAccessList) as [->|]; [|destruct (Z.eqb_spec typ TxDynamicFee) as [->|];
    [|destruct (Z.eqb_spec typ TxBlob) as [->|]; [|done]]].
  all: destruct (negb _); [done|]; unfold parseLegacy, parseAccessListTx, parseDynamicFeeTx, parseBlobTx.
  all: repeat (destruct items as [|? items]; [done|]); destruct items; [|done].
  all: repeat (apply Forall_cons_iff in Hok as [? Hok]).
  all: intros E; inv_bind E; injection E as <-; split; [|done]; constructor; cbn; eauto with typed.
  all: unfold tx_shape; cbn; tauto.
Qed.

(** Every field parser returns a value or an error. *)
Definition clean {E A} (x : outcome E A) : Prop := match x with Ok _ | Err _ => True | _ => False end.

Lemma clean_bind {E A B} (x : outcome E A) (f : A -> outcome E B) : clean x -> (forall a, clean (f a)) -> clean (x ≫= f).
Proof. destruct x; cbn; auto. Qed.

Lemma clean_uint64 v : clean (rlpUint64 v).
Proof. destruct v as [b|]; cbn [rlpUint64]; [|done]. destruct (length b =? 0)%nat; [done|]. by destruct (_ || _). Qed.
Lemma clean_u256 v : clean (rlpU256 v).
Proof. destruct v as [b|]; cbn [rlpU256]; [|done]. destruct (32 <? length b)%nat; [done|]. by destruct (_ && _). Qed.
Lemma clean_addr v : clean (rlpAddr v).
Proof. destruct v as [b|]; cbn [rlpAddr]; [|done]. destruct (length b =? 0)%nat; [done|]. by destruct (negb _). Qed.
Lemma clean_data v : clean (rlp_data v).
Proof. by destruct v. Qed.
Lemma clean_all {A} (parse : rlpVal -> outcome tx_err A) l : (forall v, clean (parse v)) -> clean (parse_all parse l).
Proof. intros H. induction l; cbn [parse_all]; [done|]. apply clean_bind; [done|]. intros. by apply clean_bind. Qed.
Lemma clean_hashes v : clean (rlp_hashes v).
Proof. destruct v; cbn; [done|]. apply clean_all. intros [b|]; cbn [parse_hash]; [|done]. by destruct (_ =? _)%nat. Qed.
Lemma clean_access_list v : clean (parseAccessList v).
Proof.
  destruct v as [|l]; cbn; [done|]. apply clean_all. intros [|[|a [|k [|]]]]; cbn [parse_tuple]; try done.
  pose proof (clean_addr a) as Ha. destruct (rlpAddr a) as [[addr|]| | |]; try done. apply clean_bind; [apply clean_hashes|done].
Qed.

#[export] Hint Resolve clean_bind clean_uint64 clean_u256 clean_addr clean_data clean_hashes clean_access_list : typed.

Lemma parseTxList_clean typ items : clean (parseTxList typ items).
Proof.
  unfold parseTxList, parseLegacy, parseAccessListTx, parseDynamicFeeTx, parseBlobTx. repeat gtest; cbn [negb]; try done.
  all: repeat (destruct items as [|? items]; [discriminate|]); destruct items; [|discriminate].
  all: repeat (apply clean_bind; [auto with typed|intros]); exact I.
Qed.

(** ** The sender *)

Lemma yParity_recid v typed yp : yParity v typed = Ok yp -> u256_ok v -> parseRecid yp = Some yp /\ 0 <= yp <= 1.
Proof.
  unfold yParity, u256ToU64. destruct (negb _); [done|]. intros H [Hv _]. unfold is_u64 in Hv.
  assert (yp = 0 \/ yp = 1) as [-> | ->]; [|by split..].
  destruct typed; [destruct (Z.ltb_spec 1 (w0 v)); [done|]; injection H as <-; lia|].
  destruct (Z.eqb_spec (w0 v) 27), (Z.eqb_spec (w0 v) 28), (Z.eqb_spec (w0 v) 0), (Z.eqb_spec (w0 v) 1);
    cbn [orb] in H; try (injection H as <-; lia).
  destruct (35 <=? w0 v); [|done]. injection H as <-. rewrite (Z.land_ones _ 1) by lia.
  pose proof (Z.mod_pos_bound (w0 v - 35) (2 ^ 1) ltac:(lia)). change (2 ^ 1) with 2 in *. lia.
Qed.

(** The address of the key recovered from the hash [h]. *)
Definition signed_by (h : Hash) (typed : bool) (v r s : Uint256) (from : Address) : Prop :=
  exists recid x y, yParity v typed = Ok recid /\ recovers (be_val h) (toZ r) (toZ s) recid (Some (x, y)) /\
    from = slice (keccak32 (be_bytes 32 x ++ be_bytes 32 y)) 12 32.

Lemma recoverSender_spec h typed v r s :
  is_hash h -> u256_ok v -> u256_ok r -> u256_ok s ->
  match recoverSender h typed v r s with
  | Ok from => signed_by h typed v r s from
  | Err e => e = ErrSender /\ forall from, ~ signed_by h typed v r s from
  | _ => False
  end.
Proof.
  intros [Hh Lh] Hv Hr Hs. unfold recoverSender, signed_by. destruct (yParity v typed) as [yp|e| |] eqn:Ey.
  2: { split; [|by intros from (? & ? & ? & ? & _)]. revert Ey. unfold yParity. destruct (u256ToU64 v); [|congruence].
       destruct typed; [gtest; congruence|]. repeat (destruct (_ || _); [congruence|]). gtest; congruence. }
  2,3: exfalso; revert Ey; unfold yParity; destruct (u256ToU64 v); [|done]; destruct typed; [by gtest|];
    repeat (destruct (_ || _); [done|]); by gtest.
  destruct (yParity_recid v typed yp Ey Hv) as [Hrec _]. cbn [mbind outcome_bind].
  pose proof (EcRecover_body h (BytesBE r) (BytesBE s) yp yp Hh (BytesBE_ok r) (BytesBE_ok s) Lh (length_BytesBE r)
    (length_BytesBE s) Hrec) as H. rewrite !be_val_BytesBE in H by done.
  destruct (EcRecover h yp (BytesBE r) (BytesBE s)) as [pub|[]| |]; [| |destruct H..].
  - destruct H as (x & y & HQ & _ & ->). by exists yp, x, y.
  - split; [done|]. intros from (recid & x & y & [= <-] & HQ & _). discriminate (H _ HQ).
Qed.

Lemma signingHash_ok tx : is_hash (signingHash tx).
Proof.
  unfold signingHash. destruct (signing_payload tx); [split; [apply Keccak256_ok|apply length_Keccak256]|].
  split; [repeat constructor; lia|reflexivity].
Qed.

Lemma signed_by_address h typed v r s from : signed_by h typed v r s from -> is_address from.
Proof.
  intros (recid & x & y & _ & _ & ->). unfold slice. change (drop 12 ?l) with (drop 12 l).
  pose proof (Keccak256_ok (be_bytes 32 x ++ be_bytes 32 y)) as Hk.
  pose proof (length_Keccak256 (be_bytes 32 x ++ be_bytes 32 y)) as Lk. unfold keccak32.
  split; [by apply Forall_take, Forall_drop|]. rewrite length_take, length_drop, Lk. reflexivity.
Qed.

(** [DecodeTransaction] on every input: a typed transaction of the type announced,
    signed by its sender; or an error; or a panic on a wrapping length. *)
Lemma DecodeTransaction_total fuel raw :
  bytes_ok raw -> (length raw < fuel)%nat ->
  match DecodeTransaction fuel raw with
  | Ok tx => wire_ok tx /\ is_address (tx_From tx) /\ tx_Hash tx = keccak32 raw /\
      signed_by (signingHash tx) (negb (tx_Type tx =? TxLegacy)) (tx_V tx) (tx_R tx) (tx_S tx) (tx_From tx)
  | Err _ => True
  | Panic => has_wrapping raw
  | OutOfFuel => False
  end.
Proof.
  intros Hok Hl. unfold DecodeTransaction. destruct raw as [|b tl]; [done|]. pose proof Hok as [Hb Htl]%Forall_cons_iff.
  set (sel := if 0x7f <? b then _ else _).
  assert (match sel with
    | Ok (typ, p) => bytes_ok p /\ (length p < fuel)%nat /\ exists pre, b :: tl = pre ++ p
    | Err _ => True | _ => False end) as Hsel.
  { subst sel. destruct (0x7f <? b); [split; [done|]; split; [done|by exists []]|]. destruct (_ && _); [done|].
    split; [done|]. split; [cbn [length] in Hl; lia|by exists [b]]. }
  destruct sel as [[typ p]| | |]; [|done..]. destruct Hsel as (Hp & Lp & pre & Epre). cbn [mbind outcome_bind].
  pose proof (tx_rlpDecode_total fuel p Hp Lp) as D. destruct (rlpDecode fuel p) as [[v rest]| | |]; [|done| |done].
  2: { cbn [decode_post mbind outcome_bind] in *. rewrite Epre, <- (app_nil_r p). by apply has_wrapping_sub. }
  destruct D as [Hv _]. cbn [mbind outcome_bind]. destruct Hv as [|items Hitems]; [done|]. destruct (negb _); [done|].
  pose proof (parseTxList_clean typ items) as Hc. destruct (parseTxList typ items) as [tx| | |] eqn:Et; [|done|done|done].
  destruct (parseTxList_typed typ items tx Hitems Et) as [Hw _]. cbn [mbind outcome_bind].
    pose proof (recoverSender_spec (signingHash tx) (negb (tx_Type tx =? TxLegacy)) (tx_V tx) (tx_R tx) (tx_S tx)
      (signingHash_ok tx) (wo_v tx Hw) (wo_r tx Hw) (wo_s tx Hw)) as R.
    destruct (recoverSender _ _ _ _ _) as [from| | |]; [|done|destruct R..]. cbn [mbind outcome_bind].
    split; [|split; [exact (signed_by_address _ _ _ _ _ _ R)|split; [reflexivity|exact R]]].
    destruct Hw. constructor; assumption.
Qed.

Lemma recoverSender_Ok h typed v r s from :
  is_hash h -> u256_ok v -> u256_ok r -> u256_ok s ->
  recoverSender h typed v r s = Ok from <-> signed_by h typed v r s from.
Proof.
  intros Hh Hv Hr Hs. pose proof (recoverSender_spec h typed v r s Hh Hv Hr Hs) as H.
  destruct (recoverSender h typed v r s) as [from'|e| |]; [|split; [done|]; intros Hf; by destruct (proj2 H from)|destruct H..].
  split; [by intros [= <-]|]. intros (recid & x & y & Ey & HQ & ->).
  destruct H as (recid' & x' & y' & Ey' & HQ' & ->). rewrite Ey in Ey'. injection Ey' as <-.
  destruct (yParity_recid v typed recid Ey Hv) as [_ Hrec].
  by pose proof (recovers_unique _ _ _ _ _ _ (conj (proj1 Hrec) (Zle_lt_succ _ _ (proj2 Hrec))) HQ HQ') as [= -> ->].
Qed.
