(* ===== verification/CallContext.v ===== *)
(** * Message calls: [pkg/c2block/call_context.go]

    [vmEnv] is the state of one transaction: the world state, the logs, the last
    return data, the call depth, the gas refund and three journaled sets of
    addresses. [run] executes one message call or creation; [execFrame] is its
    interpreter loop, which hands the host opcodes to [execHost] and the others
    to [Stepper.StepOne]; CALL and CREATE call [run] again.

    [bs.trie] and [e.state] are one object in the source. Here the state lives in
    [e]: [bind_state] hands it to the frame for one [StepOne] and [take_state]
    takes it back.

    The recursion is bounded by the call depth, and a loop by the gas of its
    frame; the bounds are computed by [run] and [execFrame] themselves. *)

From S2P Require Import Prelude Uint256 Bitwise256 Arith256 Keccak Frame Stepper StateTrie BlockTypes TxRlp.

Abbreviation maxCallDepth := 1024.
Abbreviation maxCodeSize := 24576.
Abbreviation maxInitSize := 49152.
Abbreviation gasCallStipend := 2300.
Abbreviation gasCallValue := 9000.
Abbreviation gasNewAccount := 25000.
Abbreviation gasCreate := 32000.
Abbreviation gasCodeDeposit := 200.
Abbreviation gasLog := 375.
Abbreviation gasLogTopic := 375.
Abbreviation gasLogData := 8.
Abbreviation gasCallWarm := 100.
Abbreviation gasCopyWord := 3.

(** ** The state bound to a frame *)

Record boundState := BState {
  bs_trie : StateTrie;
  bs_addr : Uint256;
  bs_readOnly : bool;
  bs_wrote : bool;
}.

#[export] Instance boundState_accessor : StateAccessor boundState :=
  {| sa_GetStorage b _ key := GetStorage (bs_trie b) (bs_addr b) key;
     sa_SetStorage b _ key val :=
       if bs_readOnly b then BState (bs_trie b) (bs_addr b) (bs_readOnly b) true
       else BState (SetStorage (bs_trie b) (bs_addr b) key val) (bs_addr b) (bs_readOnly b) (bs_wrote b) |}.

Abbreviation frame := (ExecutionFrame boundState).

(** ** Journaled sets of addresses

    [touched]/[touchJournal], [createdInTx]/[createJournal] and
    [suicided]/[suicideJournal]: the keys of a Go map whose values are all true,
    and the list of the keys in the order they were added. *)

Record jset := JSet { js_set : gset Address; js_journal : list Address }.

Definition js_add (j : jset) (a : Address) : jset :=
  if bool_decide (a ∈ js_set j) then j else JSet ({[a]} ∪ js_set j) (js_journal j ++ [a]).

(** [for i := len(journal) - 1; i >= mark; i-- { delete(set, journal[i]) }] *)
Definition js_revert (j : jset) (mark : nat) : jset :=
  JSet (foldr (fun a s => s ∖ {[a]}) (js_set j) (drop mark (js_journal j))) (take mark (js_journal j)).

(** ** Transaction environment *)

(** [e_seed] is not in the source: it counts the enumerations of a Go map, whose
    order is unspecified. *)
Record vmEnv := MkEnv {
  e_state : StateTrie;
  e_header : BlockHeader;
  e_origin : Address;
  e_gasPrice : Uint256;
  e_logs : list Log;
  e_retData : bytes;
  e_depth : Z;
  e_refund : Z;
  e_touched : jset;
  e_created : jset;
  e_suicided : jset;
  e_seed : nat;
}.

Definition with_state (e : vmEnv) x :=
  MkEnv x (e_header e) (e_origin e) (e_gasPrice e) (e_logs e) (e_retData e) (e_depth e) (e_refund e)
    (e_touched e) (e_created e) (e_suicided e) (e_seed e).
Definition with_logs (e : vmEnv) x :=
  MkEnv (e_state e) (e_header e) (e_origin e) (e_gasPrice e) x (e_retData e) (e_depth e) (e_refund e)
    (e_touched e) (e_created e) (e_suicided e) (e_seed e).
Definition with_retData (e : vmEnv) x :=
  MkEnv (e_state e) (e_header e) (e_origin e) (e_gasPrice e) (e_logs e) x (e_depth e) (e_refund e)
    (e_touched e) (e_created e) (e_suicided e) (e_seed e).
Definition with_depth (e : vmEnv) x :=
  MkEnv (e_state e) (e_header e) (e_origin e) (e_gasPrice e) (e_logs e) (e_retData e) x (e_refund e)
    (e_touched e) (e_created e) (e_suicided e) (e_seed e).
Definition with_refund (e : vmEnv) x :=
  MkEnv (e_state e) (e_header e) (e_origin e) (e_gasPrice e) (e_logs e) (e_retData e) (e_depth e) x
    (e_touched e) (e_created e) (e_suicided e) (e_seed e).
Definition with_touched (e : vmEnv) x :=
  MkEnv (e_state e) (e_header e) (e_origin e) (e_gasPrice e) (e_logs e) (e_retData e) (e_depth e) (e_refund e)
    x (e_created e) (e_suicided e) (e_seed e).
Definition with_created (e : vmEnv) x :=
  MkEnv (e_state e) (e_header e) (e_origin e) (e_gasPrice e) (e_logs e) (e_retData e) (e_depth e) (e_refund e)
    (e_touched e) x (e_suicided e) (e_seed e).
Definition with_suicided (e : vmEnv) x :=
  MkEnv (e_state e) (e_header e) (e_origin e) (e_gasPrice e) (e_logs e) (e_retData e) (e_depth e) (e_refund e)
    (e_touched e) (e_created e) x (e_seed e).
Definition with_seed (e : vmEnv) x :=
  MkEnv (e_state e) (e_header e) (e_origin e) (e_gasPrice e) (e_logs e) (e_retData e) (e_depth e) (e_refund e)
    (e_touched e) (e_created e) (e_suicided e) x.

Record callParams := MkCall {
  cp_caller : Address;
  cp_addr : Address;
  cp_codeAddr : Address;
  cp_origin : Address;
  cp_value : Uint256;
  cp_callVal : Uint256;
  cp_data : bytes;
  cp_code : bytes;
  cp_gas : Z;
  cp_readOnly : bool;
  cp_kind : Z;
}.

(** ** Helpers *)

Definition eip150 (available : Z) : Z := sub64 available (available / 64).

Definition callGas (available requested : Z) : Z :=
  let max := eip150 available in if max <? requested then max else requested.

Definition addrToU256 (a : Address) : Uint256 := FromBytesBE (copy_at (zeros 32) 12 a).
Definition u256ToAddr (z : Uint256) : Address := drop 12 (BytesBE z).

Definition zeroAddress : Address := zeros 20.

Definition isPrecompile (a : Address) : option Z :=
  if existsb (fun b => negb (b =? 0)) (take 19 a) then None
  else if (1 <=? a !!! 19%nat) && (a !!! 19%nat <=? 10) then Some (a !!! 19%nat) else None.

Definition words32 (n : Z) : Z := if n <=? 0 then 0 else add64 (u64 n) 31 / 32.

(** [statetrie.Account{}] *)
Definition zeroAccount : Account := MkAccount 0 zero256 hash0 hash0 [].

Definition account (e : vmEnv) (addr : Address) : Account :=
  default zeroAccount (GetAccount (e_state e) (addrToU256 addr)).

Definition codeOf (e : vmEnv) (addr : Address) : bytes :=
  match isPrecompile addr with Some _ => [] | None => Code (account e addr) end.

Definition getNonce (e : vmEnv) (addr : Address) : Z := Nonce (account e addr).

Definition emptyAccount (e : vmEnv) (addr : Address) : bool :=
  let acc := account e addr in
  (Nonce acc =? 0) && IsZero (Balance acc) && (length (Code acc) =? 0)%nat.

Definition touch (e : vmEnv) (a : Address) : vmEnv := with_touched e (js_add (e_touched e) a).
Definition markCreated (e : vmEnv) (a : Address) : vmEnv := with_created e (js_add (e_created e) a).
Definition markSuicided (e : vmEnv) (a : Address) : vmEnv := with_suicided e (js_add (e_suicided e) a).
Definition revertTouched (e : vmEnv) (mark : nat) : vmEnv := with_touched e (js_revert (e_touched e) mark).
Definition revertCreated (e : vmEnv) (mark : nat) : vmEnv := with_created e (js_revert (e_created e) mark).
Definition revertSuicided (e : vmEnv) (mark : nat) : vmEnv := with_suicided e (js_revert (e_suicided e) mark).

Definition createAddress (sender : Address) (nonce : Z) : Address :=
  drop 12 (keccak32 (rlpListEnc [rlpBytesEnc sender; rlpU64Enc nonce])).

Definition create2Address (sender : Address) (salt initHash : Hash) : Address :=
  drop 12 (keccak32 ([0xff] ++ sender ++ salt ++ initHash)).

(** [transfer]: the error of [SubBalance] is [Err e] with the environment left. *)
Definition transfer (e : vmEnv) (from to : Address) (val : Uint256) : outcome vmEnv vmEnv :=
  let e := touch (touch e from) to in
  if IsZero val then Ok e
  else match SubBalance (e_state e) (addrToU256 from) val with
       | Ok t => Ok (with_state e (AddBalance t (addrToU256 to) val))
       | Err _ => Err e
       | Panic => Panic
       | OutOfFuel => OutOfFuel
       end.

Section call_context.
  Context (range : nat -> storage_map -> list (storageKey * Uint256)).

(** [e.state.SetAccount(&a, acc)] *)
Definition set_account (e : vmEnv) (addr : Address) (acc : option Account) : vmEnv :=
  with_seed (with_state e (SetAccount range (e_seed e) (e_state e) (addrToU256 addr) acc)) (S (e_seed e)).

Definition setCode (e : vmEnv) (addr : Address) (code : bytes) : vmEnv :=
  let acc := account e addr in
  set_account e addr (Some (MkAccount (Nonce acc) (Balance acc) (StorageRoot acc) (Keccak256 code) code)).

Definition setNonce (e : vmEnv) (addr : Address) (n : Z) : vmEnv :=
  let acc := account e addr in
  set_account e addr (Some (MkAccount n (Balance acc) (StorageRoot acc) (CodeHash acc) (Code acc))).

(** The two loops of [cleanTouchedEmptyAccounts], over any enumeration of the sets. *)
Definition clean_empty (e : vmEnv) (a : Address) : vmEnv :=
  if emptyAccount e a then set_account e a None else e.
Definition clean_suicided (e : vmEnv) (a : Address) : vmEnv :=
  if bool_decide (a ∈ js_set (e_created e)) then set_account e a None else e.
Definition cleanTouchedEmptyAccounts (touched suicided : list Address) (e : vmEnv) : vmEnv :=
  foldl clean_suicided (foldl clean_empty e touched) suicided.

(** ** Frame helpers *)

Definition isHostOp (op : Z) : bool :=
  if (0x30 <=? op) && (op <=? 0x48) then true
  else if (0xa0 <=? op) && (op <=? 0xa4) then true
  else existsb (Z.eqb op) [0xf0; 0xf1; 0xf2; 0xf3; 0xf4; 0xf5; 0xfa; 0xff].

Definition hostGas (op : Z) : Z :=
  if existsb (Z.eqb op) [0x30; 0x32; 0x33; 0x34; 0x36; 0x38; 0x3a; 0x3d; 0x41; 0x42; 0x43; 0x44; 0x45; 0x46; 0x48]
  then 2
  else if op =? 0x35 then 3
  else if existsb (Z.eqb op) [0x37; 0x39; 0x3e] then 3
  else if existsb (Z.eqb op) [0x31; 0x3b; 0x3c; 0x3f] then 2600
  else if op =? 0x40 then 20
  else if op =? 0x47 then 5
  else if existsb (Z.eqb op) [0xf0; 0xf5] then gasCreate
  else if existsb (Z.eqb op) [0xf1; 0xf2; 0xf4; 0xfa] then gasCallWarm
  else if op =? 0xf3 then 0
  else if op =? 0xff then 5000
  else if (0xa0 <=? op) && (op <=? 0xa4) then gasLog else 0.

Definition haltOOG (f : frame) : frame := with_Gas (with_Status f StatusOutOfGas) 0.
Definition haltInvalid (f : frame) : frame := with_Gas (with_Status f StatusInvalidOpcode) 0.

Definition requireStack (f : frame) (n : Z) : outcome frame unit :=
  if SP f <? n then Err (with_Gas (with_Status f StatusStackUnderflow) 0) else Ok tt.

Definition requireRoom (f : frame) : outcome frame unit :=
  if 1024 <=? SP f then Err (with_Gas (with_Status f StatusStackOverflow) 0) else Ok tt.

Definition asU64 (x : Uint256) : option Z :=
  if negb (Z.lor (Z.lor (w1 x) (w2 x)) (w3 x) =? 0) then None else Some (w0 x).

Definition chargeMem (f : frame) (offset size : Z) : option frame :=
  if size =? 0 then Some f
  else if (memMax <=? offset) || (memMax - offset <? size) then None
  else
    let end_ := add64 offset size in
    let words := add64 end_ 31 / 32 in
    let newSize := mul64 words 32 in
    if memMax <? newSize then None
    else if newSize <=? MemorySize f then Some f
    else
      let oldWords := add64 (MemorySize f) 31 / 32 in
      let oldCost := add64 (mul64 3 oldWords) (mul64 oldWords oldWords / 512) in
      let newCost := add64 (mul64 3 words) (mul64 words words / 512) in
      if (newCost <? oldCost) || (Gas f <? sub64 newCost oldCost) then None
      else Some (with_MemorySize (with_Gas f (sub64 (Gas f) (sub64 newCost oldCost))) (u32 newSize)).

(** The [if !ok { haltOOG(f); return }] of a conversion and of a memory charge. *)
Definition some_or_oog {A} (f : frame) (x : option A) : outcome frame A :=
  match x with Some a => Ok a | None => Err (haltOOG f) end.
Definition charge_or (f : frame) (cost : Z) : outcome frame frame :=
  if Gas f <? cost then Err (haltOOG f) else Ok (with_Gas f (sub64 (Gas f) cost)).

(** ** Host opcodes on the frame alone *)

(** [requireRoom]; [f.Stack[f.SP] = v]; [f.SP++]. *)
Definition host_push (f : frame) (v : Uint256) : outcome frame frame :=
  _ ← requireRoom f;
  f ← stack_set f (SP f) v;
  mret (with_SP f (SP f + 1)).

(** [requireStack(f, 1)]; the top word replaced by [fn] of it. *)
Definition host_top (f : frame) (fn : Uint256 -> Uint256) : outcome frame frame :=
  _ ← requireStack f 1;
  a ← stack_get f (SP f - 1);
  stack_set f (SP f - 1) (fn a).

(** [src[off+i]] for [i] below [n], zero past the end; the index wraps around. *)
Definition padded (src : bytes) (off : Z) (n : nat) : bytes :=
  map (fun i => let idx := add64 off (Z.of_nat i) in
                if idx <? Z.of_nat (length src) then src !!! Z.to_nat idx else 0) (seq 0 n).

Definition calldataload (data : bytes) (x : Uint256) : Uint256 :=
  match asU64 x with Some off => FromBytesBE (padded data off 32) | None => zero256 end.

Definition copyBytes (f : frame) (memOff sz : Z) (src : bytes) (srcOff : Z) : outcome frame frame :=
  f ← some_or_oog f (chargeMem f memOff sz);
  let words := words32 (i64 sz) in
  f ← charge_or f (mul64 gasCopyWord words);
  if sz =? 0 then mret f else mem_write f memOff (padded src srcOff (Z.to_nat sz)).

Definition opCopy (f : frame) (src : bytes) : outcome frame frame :=
  _ ← requireStack f 3;
  a ← stack_get f (SP f - 1);
  b ← stack_get f (SP f - 2);
  c ← stack_get f (SP f - 3);
  let f := with_SP f (SP f - 3) in
  memOff ← some_or_oog f (asU64 a);
  dataOff ← some_or_oog f (asU64 b);
  sz ← some_or_oog f (asU64 c);
  copyBytes f memOff sz src dataOff.

(** EXTCODECOPY. *)
Definition opExtCodeCopy (e : vmEnv) (f : frame) : outcome frame frame :=
  _ ← requireStack f 4;
  a ← stack_get f (SP f - 1);
  m ← stack_get f (SP f - 2);
  c ← stack_get f (SP f - 3);
  s ← stack_get f (SP f - 4);
  let f := with_SP f (SP f - 4) in
  memOff ← some_or_oog f (asU64 m);
  codeOff ← some_or_oog f (asU64 c);
  sz ← some_or_oog f (asU64 s);
  copyBytes f memOff sz (codeOf e (u256ToAddr a)) codeOff.

Definition opReturn (f : frame) (revert : bool) : outcome frame frame :=
  _ ← requireStack f 2;
  a ← stack_get f (SP f - 1);
  b ← stack_get f (SP f - 2);
  off ← some_or_oog f (asU64 a);
  sz ← some_or_oog f (asU64 b);
  f ← some_or_oog f (chargeMem f off sz);
  let f := with_ReturnData f (u32 off) (u32 sz) in
  let f := with_SP f (SP f - 2) in
  mret (with_Status f (if revert then StatusRevert else StatusSuccess)).

(** ** Host opcodes that change the environment

    [Ok] is the end of the handler, [Err] an early return: both carry the
    environment and the frame left. *)

Abbreviation hostM := (outcome (vmEnv * frame)).

Definition in_env {A} (e : vmEnv) (m : outcome frame A) : hostM A :=
  match m with
  | Ok a => Ok a
  | Err f => Err (e, f)
  | Panic => Panic
  | OutOfFuel => OutOfFuel
  end.

(** A handler on the frame alone. *)
Definition on_frame (e : vmEnv) (m : outcome frame frame) : hostM (vmEnv * frame) :=
  f ← in_env e m; mret (e, f).

(** The topics, [f.Stack[f.SP-3-i]] for [i] below [k]. *)
Fixpoint log_topics (f : frame) (i k : nat) : outcome frame (list Hash) :=
  match k with
  | O => mret []
  | S k =>
      t ← stack_get f (SP f - 3 - Z.of_nat i);
      ts ← log_topics f (S i) k;
      mret (BytesBE t :: ts)
  end.

Definition opLog (e : vmEnv) (f : frame) (addr : Address) (nTopics : nat) : hostM (vmEnv * frame) :=
  let need := 2 + Z.of_nat nTopics in
  '(f, topics, data) ← in_env e (
    _ ← requireStack f need;
    a ← stack_get f (SP f - 1);
    b ← stack_get f (SP f - 2);
    off ← some_or_oog f (asU64 a);
    sz ← some_or_oog f (asU64 b);
    f ← some_or_oog f (chargeMem f off sz);
    f ← charge_or f (add64 (mul64 (Z.of_nat nTopics) gasLogTopic) (mul64 sz gasLogData));
    topics ← log_topics f 0 nTopics;
    data ← mem_read f off (add64 off sz);
    mret (f, topics, data));
  mret (with_logs e (e_logs e ++ [MkLog addr topics data]), with_SP f (SP f - need)).

Definition opSelfdestruct (e : vmEnv) (f : frame) (p : callParams) : hostM (vmEnv * frame) :=
  '(f, a) ← in_env e (
    _ ← requireStack f 1;
    a ← stack_get f (SP f - 1);
    mret (with_SP f (SP f - 1), a));
  let beneficiary := u256ToAddr a in
  let bal := Balance (account e (cp_addr p)) in
  e ← match transfer e (cp_addr p) beneficiary bal with
      | Ok e | Err e => mret e
      | Panic => Panic
      | OutOfFuel => OutOfFuel
      end;
  let e := touch (touch e (cp_addr p)) beneficiary in
  let e := markSuicided e (cp_addr p) in
  let e := if bool_decide (cp_addr p ∈ js_set (e_created e)) then set_account e (cp_addr p) None else e in
  mret (e, with_Status f StatusSuccess).

(** ** Calls

    [RunPrecompile] is the interface of the precompiled contracts: [Err] is their
    error. [run_rec] stands for [run] itself. *)

Context (RunPrecompile : Z -> bytes -> Z -> outcome unit (bytes * Z)).

Record callResult := CallResult { cr_ret : bytes; cr_left : Z; cr_ok : bool }.

Section host.
Context (run_rec : vmEnv -> callParams -> outcome Empty_set (vmEnv * callResult)).

Definition call_run (e : vmEnv) (p : callParams) : hostM (vmEnv * callResult) :=
  match run_rec e p with
  | Ok r => Ok r
  | Err e => match e with end
  | Panic => Panic
  | OutOfFuel => OutOfFuel
  end.

(** [requireRoom]; push [addrToU256 dest] or 1 on success and 0 on failure. *)
Definition push_result (f : frame) (ok : bool) (v : Uint256) : outcome frame frame :=
  host_push f (if ok then v else zero256).

Definition opCreate (e : vmEnv) (f : frame) (p : callParams) (is2 : bool) : hostM (vmEnv * frame) :=
  let n := if is2 then 4 else 3 in
  '(f, val, salt, init) ← in_env e (
    _ ← requireStack f n;
    val ← stack_get f (SP f - 1);
    a ← stack_get f (SP f - 2);
    b ← stack_get f (SP f - 3);
    off ← some_or_oog f (asU64 a);
    sz ← some_or_oog f (asU64 b);
    salt ← (if is2 then s ← stack_get f (SP f - 4); mret (BytesBE s) else mret hash0);
    let f := with_SP f (SP f - n) in
    f ← some_or_oog f (chargeMem f off sz);
    _ ← (if maxInitSize <? sz then Err (haltOOG f) else mret tt);
    let words := words32 (i64 sz) in
    f ← charge_or f (mul64 words 2);
    init ← mem_read f off (add64 off sz);
    mret (f, val, salt, init));
  let nonce := getNonce e (cp_addr p) in
  let e := setNonce e (cp_addr p) (add64 nonce 1) in
  let dest := if is2 then create2Address (cp_addr p) salt (keccak32 init) else createAddress (cp_addr p) nonce in
  if negb (emptyAccount e dest) && negb (length (codeOf e dest) =? 0)%nat
  then on_frame e (host_push f zero256)
  else
    let fwd := eip150 (Gas f) in
    let f := with_Gas f (sub64 (Gas f) fwd) in
    '(e, r) ← call_run e (MkCall (cp_addr p) dest zeroAddress (cp_origin p) val val [] init fwd false
                            (if is2 then 0xf5 else 0xf0));
    let f := with_Gas f (add64 (Gas f) (cr_left r)) in
    on_frame e (push_result f (cr_ok r) (addrToU256 dest)).

(** The operands of a call: gas, recipient, value, input and output ranges. *)
Record callArgs := MkArgs {
  ca_gas : Z; ca_to : Address; ca_val : Uint256; ca_inOff : Z; ca_inSz : Z; ca_outOff : Z; ca_outSz : Z;
}.

Definition has_value_arg (kind : Z) : bool := (kind =? 0xf1) || (kind =? 0xf2).

(** The operands read from the stack, popped. *)
Definition call_args (f : frame) (kind : Z) : outcome frame (frame * callArgs) :=
  let n := if (kind =? 0xf4) || (kind =? 0xfa) then 6 else 7 in
  _ ← requireStack f n;
  g ← stack_get f (SP f - 1);
  t ← stack_get f (SP f - 2);
  val ← (if has_value_arg kind then stack_get f (SP f - 3) else mret zero256);
  let idx := if has_value_arg kind then 4 else 3 in
  a ← stack_get f (SP f - idx);
  b ← stack_get f (SP f - idx - 1);
  c ← stack_get f (SP f - idx - 2);
  d ← stack_get f (SP f - idx - 3);
  let f := with_SP f (SP f - n) in
  reqGas ← some_or_oog f (asU64 g);
  inOff ← some_or_oog f (asU64 a);
  inSz ← some_or_oog f (asU64 b);
  outOff ← some_or_oog f (asU64 c);
  outSz ← some_or_oog f (asU64 d);
  mret (f, MkArgs reqGas (u256ToAddr t) val inOff inSz outOff outSz).

(** The charges of a call: memory, value and new account, then the gas passed on;
    the result carries that gas and the input. *)
Definition call_charge (e : vmEnv) (f : frame) (p : callParams) (kind : Z) (a : callArgs) :
  outcome frame (frame * Z * bytes) :=
  f ← some_or_oog f (chargeMem f (ca_inOff a) (ca_inSz a));
  f ← some_or_oog f (chargeMem f (ca_outOff a) (ca_outSz a));
  let has_val := negb (IsZero (ca_val a)) in
  _ ← (if (kind =? 0xfa) && has_val then Err (haltOOG f) else mret tt);
  _ ← (if cp_readOnly p && has_val then Err (haltInvalid f) else mret tt);
  let extra := if has_val then add64 gasCallValue (if emptyAccount e (ca_to a) then gasNewAccount else 0) else 0 in
  f ← charge_or f extra;
  let fwd := callGas (Gas f) (ca_gas a) in
  let f := with_Gas f (sub64 (Gas f) fwd) in
  let fwd := if has_val then add64 fwd gasCallStipend else fwd in
  input ← mem_read f (ca_inOff a) (add64 (ca_inOff a) (ca_inSz a));
  mret (f, fwd, input).

Definition call_params (e : vmEnv) (p : callParams) (kind : Z) (a : callArgs) (fwd : Z) (input : bytes) : callParams :=
  let val := if kind =? 0xf4 then cp_callVal p else ca_val a in
  MkCall (if kind =? 0xf4 then cp_caller p else cp_addr p)
         (if (kind =? 0xf4) || (kind =? 0xf2) then cp_addr p else ca_to a)
         (ca_to a) (cp_origin p) val val input (codeOf e (ca_to a)) fwd
         (cp_readOnly p || (kind =? 0xfa)) kind.

(** The gas left and the data returned come back to the frame. *)
Definition call_return (f : frame) (a : callArgs) (r : callResult) : outcome frame frame :=
  let f := with_Gas f (add64 (Gas f) (cr_left r)) in
  let ncopy := Z.of_nat (length (cr_ret r)) in
  let ncopy := if ca_outSz a <? ncopy then ca_outSz a else ncopy in
  f ← (if 0 <? ncopy then mem_write f (ca_outOff a) (take (Z.to_nat ncopy) (cr_ret r)) else mret f);
  push_result f (cr_ok r) (FromU64 1).

Definition opCall (e : vmEnv) (f : frame) (p : callParams) (kind : Z) : hostM (vmEnv * frame) :=
  '(f, a) ← in_env e (call_args f kind);
  '(f, fwd, input) ← in_env e (call_charge e f p kind a);
  '(e, r) ← call_run e (call_params e p kind a fwd input);
  on_frame e (call_return f a r).

(** ** One host opcode *)

(** The opcodes that push a word, and the word. *)
Definition host_word (e : vmEnv) (p : callParams) (code : bytes) (op : Z) : option Uint256 :=
  if op =? 0x30 then Some (addrToU256 (cp_addr p))
  else if op =? 0x32 then Some (addrToU256 (cp_origin p))
  else if op =? 0x33 then Some (addrToU256 (cp_caller p))
  else if op =? 0x34 then Some (cp_callVal p)
  else if op =? 0x36 then Some (FromU64 (Z.of_nat (length (cp_data p))))
  else if op =? 0x38 then Some (FromU64 (Z.of_nat (length code)))
  else if op =? 0x3a then Some (e_gasPrice e)
  else if op =? 0x3d then Some (FromU64 (Z.of_nat (length (e_retData e))))
  else if op =? 0x41 then Some (addrToU256 (h_Coinbase (e_header e)))
  else if op =? 0x42 then Some (FromU64 (h_Timestamp (e_header e)))
  else if op =? 0x43 then Some (FromU64 (h_Number (e_header e)))
  else if op =? 0x44 then Some (h_Difficulty (e_header e))
  else if op =? 0x45 then Some (FromU64 (h_GasLimit (e_header e)))
  else if op =? 0x46 then Some (h_ChainID (e_header e))
  else if op =? 0x47 then Some (GetBalance (e_state e) (addrToU256 (cp_addr p)))
  else if op =? 0x48 then Some (h_BaseFee (e_header e))
  else None.

(** The opcodes that replace the top word, and their function of it. *)
Definition host_unary (e : vmEnv) (p : callParams) (op : Z) : option (Uint256 -> Uint256) :=
  if op =? 0x31 then Some (fun x => GetBalance (e_state e) (addrToU256 (u256ToAddr x)))
  else if op =? 0x35 then Some (calldataload (cp_data p))
  else if op =? 0x3b then Some (fun x => FromU64 (Z.of_nat (length (codeOf e (u256ToAddr x)))))
  else if op =? 0x3f then
    Some (fun x => let a := u256ToAddr x in
                   if emptyAccount e a then zero256 else FromBytesBE (CodeHash (account e a)))
  else if op =? 0x40 then Some (fun _ => zero256)
  else None.

Definition host_op (e : vmEnv) (f : frame) (p : callParams) (code : bytes) (op : Z) : hostM (vmEnv * frame) :=
  match host_word e p code op, host_unary e p op with
  | Some v, _ => on_frame e (host_push f v)
  | _, Some fn => on_frame e (host_top f fn)
  | None, None =>
      if op =? 0x37 then on_frame e (opCopy f (cp_data p))
      else if op =? 0x39 then on_frame e (opCopy f code)
      else if op =? 0x3c then on_frame e (opExtCodeCopy e f)
      else if op =? 0x3e then on_frame e (opCopy f (e_retData e))
      else if (0xa0 <=? op) && (op <=? 0xa4) then opLog e f (cp_addr p) (Z.to_nat (op - 0xa0))
      else if op =? 0xf3 then on_frame e (opReturn f false)
      else if op =? 0xf0 then opCreate e f p false
      else if op =? 0xf5 then opCreate e f p true
      else if op =? 0xf1 then opCall e f p 0xf1
      else if op =? 0xf2 then opCall e f p 0xf2
      else if op =? 0xf4 then opCall e f p 0xf4
      else if op =? 0xfa then opCall e f p 0xfa
      else if op =? 0xff then opSelfdestruct e f p
      else mret (e, haltInvalid f)
  end.

Definition execHost (e : vmEnv) (f : frame) (p : callParams) (code : bytes) (op : Z) : hostM (vmEnv * frame) :=
  let cost := hostGas op in
  if Gas f <? cost then Err (e, haltOOG f)
  else
    let f := with_Gas f (sub64 (Gas f) cost) in
    let f := with_PC f (u32 (PC f + 1)) in
    host_op e f p code op.

(** ** The interpreter loop *)

Definition bind_state (e : vmEnv) (f : frame) : frame :=
  match StateDB f with
  | Some b => with_StateDB f (Some (BState (e_state e) (bs_addr b) (bs_readOnly b) (bs_wrote b)))
  | None => f
  end.
Definition take_state (e : vmEnv) (f : frame) : vmEnv :=
  match StateDB f with Some b => with_state e (bs_trie b) | None => e end.

(** The opcodes refused in a read-only call. *)
Definition writes (op : Z) : bool :=
  (op =? 0x55) || (op =? 0xf0) || (op =? 0xf5) || (op =? 0xff) || ((0xa0 <=? op) && (op <=? 0xa4)).

(** One round of the loop, on a running frame whose [PC] is in the code. *)
Definition exec_one (e : vmEnv) (f : frame) (p : callParams) (code : bytes) : outcome Empty_set (vmEnv * frame) :=
  let op := code !!! Z.to_nat (PC f) in
  if cp_readOnly p && writes op then Ok (e, haltInvalid f)
  else if isHostOp op then
    match execHost e f p code op with
    | Ok r | Err r => Ok r
    | Panic => Panic
    | OutOfFuel => OutOfFuel
    end
  else
    match StepOne (bind_state e f) code with
    | Some f => Ok (take_state e f, f)
    | None => Panic
    end.

Fixpoint exec_loop (fuel : nat) (e : vmEnv) (f : frame) (p : callParams) (code : bytes) :
  outcome Empty_set (vmEnv * frame) :=
  match fuel with
  | O => OutOfFuel
  | S fuel =>
      if negb (bool_decide (Status f = StatusRunning)) then Ok (e, f)
      else if Z.of_nat (length code) <=? PC f then Ok (e, with_Status f StatusSuccess)
      else '(e, f) ← exec_one e f p code; exec_loop fuel e f p code
  end.

(** The data a halted frame returns, and its status. *)
Definition frame_result (f : frame) : bytes * status :=
  match Status f with
  | StatusSuccess | StatusRevert =>
      let off := ReturnDataOffset f in
      let sz := ReturnDataSize f in
      if sz =? 0 then ([], Status f)
      else
        let end_ := add64 off sz in
        if memMax <? end_ then ([], StatusOutOfGas)
        else (slice (Memory f) (Z.to_nat off) (Z.to_nat end_), Status f)
  | st => ([], st)
  end.

Definition execFrame (e : vmEnv) (f : frame) (p : callParams) (code : bytes) :
  outcome Empty_set (vmEnv * frame * (bytes * status)) :=
  '(e, f) ← exec_loop (S (S (Z.to_nat (Gas f)))) e f p code;
  mret (e, f, frame_result f).

(** ** One call *)

Record marks := Marks { mk_log : nat; mk_touch : nat; mk_create : nat; mk_suicide : nat; mk_rev : Z }.

(** The five lines that undo a call. *)
Definition revert_call (e : vmEnv) (m : marks) : outcome Empty_set vmEnv :=
  match RevertToSnapshot (e_state e) (mk_rev m) with
  | Ok t =>
      let e := with_state e t in
      let e := with_logs e (take (mk_log m) (e_logs e)) in
      mret (revertSuicided (revertCreated (revertTouched e (mk_touch m)) (mk_create m)) (mk_suicide m))
  | Err _ => Panic
  | Panic => Panic
  | OutOfFuel => OutOfFuel
  end.

Definition is_create (p : callParams) : bool := (cp_kind p =? 0xf0) || (cp_kind p =? 0xf5).

(** The end of a creation that succeeded: size limit, deposit, code. *)
Definition deposit_code (e : vmEnv) (f : frame) (p : callParams) (m : marks) (ret : bytes) :
  outcome Empty_set (vmEnv * callResult) :=
  if bool_decide (cp_addr p ∈ js_set (e_suicided e)) then
    mret (with_retData e [], CallResult [] (Gas f) true)
  else if maxCodeSize <? Z.of_nat (length ret) then
    e ← revert_call e m; mret (e, CallResult [] 0 false)
  else
    let deposit := mul64 (Z.of_nat (length ret)) gasCodeDeposit in
    if Gas f <? deposit then e ← revert_call e m; mret (e, CallResult [] 0 false)
    else
      let f := with_Gas f (sub64 (Gas f) deposit) in
      let e := setCode e (cp_addr p) ret in
      let e := setNonce e (cp_addr p) 1 in
      let e := markCreated e (cp_addr p) in
      mret (with_retData e ret, CallResult ret (Gas f) true).

(** The part of [run] that executes [code] in a new frame. *)
Definition run_code (e : vmEnv) (p : callParams) (m : marks) (code : bytes) :
  outcome Empty_set (vmEnv * callResult) :=
  let bs := BState (e_state e) (addrToU256 (cp_addr p)) (cp_readOnly p) false in
  let f := Reset (Frame [] 0 0 0 0 StatusRunning [] 0 0 0 (Some bs)) (cp_gas p) in
  '(e, f, (ret, status)) ← execFrame e f p code;
  let wrote := match StateDB f with Some b => bs_wrote b | None => false end in
  let status := if wrote then StatusInvalidOpcode else status in
  let f := if wrote then with_Gas f 0 else f in
  if negb (bool_decide (status = StatusSuccess)) then
    e ← revert_call e m;
    let e := with_retData e ret in
    mret (e, CallResult ret (if bool_decide (status = StatusRevert) then Gas f else 0) false)
  else
    let e := with_refund e (add64 (e_refund e) (Refund f)) in
    if is_create p then deposit_code e f p m ret
    else mret (with_retData e ret, CallResult ret (Gas f) true).

(** [run] once the value is transferred: precompiled contract, empty code or frame. *)
Definition run_callee (e : vmEnv) (p : callParams) (m : marks) : outcome Empty_set (vmEnv * callResult) :=
  let pcAddr := if bool_decide (cp_codeAddr p = zeroAddress) then cp_addr p else cp_codeAddr p in
  match (if is_create p then None else isPrecompile pcAddr) with
  | Some id =>
      match RunPrecompile id (cp_data p) (cp_gas p) with
      | Ok (out, g) => mret (with_retData e out, CallResult out g true)
      | Err _ => e ← revert_call e m; mret (e, CallResult [] 0 false)
      | Panic => Panic
      | OutOfFuel => OutOfFuel
      end
  | None =>
      let code := if is_create p || (cp_kind p =? 0xf2) || (cp_kind p =? 0xf4) then cp_code p
                  else codeOf e (cp_addr p) in
      if (length code =? 0)%nat && negb (is_create p)
      then mret (with_retData e [], CallResult [] (cp_gas p) true)
      else run_code e p m code
  end.

(** The body of [run] between [e.depth++] and the deferred [e.depth--]. *)
Definition run_entered (e : vmEnv) (p : callParams) : outcome Empty_set (vmEnv * callResult) :=
  let '(t, rev) := Snapshot (e_state e) in
  let m := Marks (length (e_logs e)) (length (js_journal (e_touched e))) (length (js_journal (e_created e)))
             (length (js_journal (e_suicided e))) rev in
  let e := with_state e t in
  let e := if is_create p then markCreated e (cp_addr p) else e in
  let e := touch (touch e (cp_caller p)) (cp_addr p) in
  match (if cp_kind p =? 0xf4 then Ok e else transfer e (cp_caller p) (cp_addr p) (cp_callVal p)) with
  | Ok e => run_callee e p m
  | Err e => e ← revert_call e m; mret (e, CallResult [] (cp_gas p) false)
  | Panic => Panic
  | OutOfFuel => OutOfFuel
  end.

Definition run_body (e : vmEnv) (p : callParams) : outcome Empty_set (vmEnv * callResult) :=
  if maxCallDepth <=? e_depth e then mret (e, CallResult [] (cp_gas p) false)
  else
    '(e, r) ← run_entered (with_depth e (e_depth e + 1)) p;
    mret (with_depth e (e_depth e - 1), r).
End host.

(** [fuel] bounds the nesting of calls. *)
Fixpoint run_fuel (fuel : nat) (e : vmEnv) (p : callParams) : outcome Empty_set (vmEnv * callResult) :=
  match fuel with
  | O => OutOfFuel
  | S fuel => run_body (run_fuel fuel) e p
  end.

Definition run (e : vmEnv) (p : callParams) : outcome Empty_set (vmEnv * callResult) :=
  run_fuel (S (Z.to_nat (maxCallDepth - e_depth e))) e p.

End call_context.
