(* ===== verification/CallEnv.v ===== *)
(** * The transaction environment: invariants of [CallContext.vmEnv]

    How an environment may evolve during a call ([grows]): the journals of the
    state and of the address sets and the logs are extended, so that the marks
    taken before undo exactly what came after ([revert_call_exact]); the total
    balance does not increase ([supply]). *)

From S2P Require Import Prelude Uint256 Bitwise256 Arith256 Keccak Mpt Frame Stepper StateTrie StateTrieSpec.
From S2P Require Import BlockTypes TxRlp CallContext.

(** ** Snapshots restore the state exactly *)

(** [t'] comes from [t] by journaled writes and snapshots. *)
Definition st_extends (t t' : StateTrie) : Prop :=
  exists es rs, journal t' = journal t ++ es /\ reverts t' = reverts t ++ rs /\
    undo es (state_view t') = state_view t.

#[export] Instance st_extends_preorder : PreOrder st_extends.
Proof.
  split.
  - intros t. exists [], []. by rewrite !app_nil_r.
  - intros t1 t2 t3 (es & rs & Hj & Hr & Hu) (es' & rs' & Hj' & Hr' & Hu'). exists (es ++ es'), (rs ++ rs').
    rewrite Hj', Hj, Hr', Hr, !app_assoc. split; [done|]. split; [done|]. by rewrite undo_app, Hu'.
Qed.

Lemma journalled_extends t t' v : journalled t t' v -> st_extends t t'.
Proof. intros (es & -> & Hu). exists es, []. cbn. rewrite app_nil_r. by destruct v. Qed.

Lemma Snapshot_extends t : st_extends t (Snapshot t).1.
Proof. exists [], [Z.of_nat (length (journal t))]. cbn. by rewrite app_nil_r. Qed.

Lemma RevertToSnapshot_exact t t' :
  st_extends (Snapshot t).1 t' -> RevertToSnapshot t' (Snapshot t).2 = Ok t.
Proof.
  intros (es & rs & Hj & Hr & Hu). cbn [Snapshot fst snd journal reverts] in *.
  assert (Hn : length (reverts t') = S (length (reverts t) + length rs)).
  { rewrite Hr, !length_app. cbn. lia. }
  unfold RevertToSnapshot. rewrite Hn. cbn [snd].
  destruct (Z.ltb_spec (Z.of_nat (length (reverts t))) 0); [lia|].
  destruct (Z.leb_spec (Z.of_nat (S (length (reverts t) + length rs))) (Z.of_nat (length (reverts t)))); [lia|].
  cbn [orb]. rewrite Hr, Hj, Nat2Z.id, <- app_assoc. cbn [app].
  rewrite list_lookup_total_middle by done. rewrite Nat2Z.id, drop_app_length, !take_app_length.
  change (state_view (Snapshot t).1) with (state_view t) in Hu. rewrite Hu. by destruct t.
Qed.

(** ** Journaled sets *)

Definition js_extends (j j' : jset) : Prop :=
  exists l, js_journal j' = js_journal j ++ l /\ js_set j' = list_to_set l ∪ js_set j /\
    (forall a, a ∈ l -> a ∉ js_set j).

#[export] Instance js_extends_preorder : PreOrder js_extends.
Proof.
  split.
  - intros j. exists []. rewrite app_nil_r. split; [done|]. split; [set_solver|]. intros a Ha. by apply not_elem_of_nil in Ha.
  - intros j1 j2 j3 (l & Hj & Hs & Hd) (l' & Hj' & Hs' & Hd'). exists (l ++ l').
    rewrite Hj', Hj, Hs', Hs, app_assoc, list_to_set_app_L. split; [done|]. split; [set_solver|].
    intros a Ha. apply elem_of_app in Ha as [Ha|Ha]; [by apply Hd|].
    specialize (Hd' a Ha). set_solver.
Qed.

Lemma js_add_extends j a : js_extends j (js_add j a).
Proof.
  unfold js_add. case_bool_decide as Ha; [reflexivity|]. exists [a]. cbn. split; [done|].
  split; [set_solver|]. intros b Hb. apply list_elem_of_singleton in Hb as ->. done.
Qed.

Lemma js_add_elem j a : a ∈ js_set (js_add j a).
Proof. unfold js_add. case_bool_decide; [done|]. cbn. set_solver. Qed.

Lemma foldr_difference (l : list Address) (s : gset Address) :
  foldr (fun a s => s ∖ {[a]}) s l = s ∖ list_to_set l.
Proof. induction l as [|a l IH]; cbn; [set_solver|]. rewrite IH. set_solver. Qed.

Lemma js_revert_exact j j' : js_extends j j' -> js_revert j' (length (js_journal j)) = j.
Proof.
  intros (l & Hj & Hs & Hd). unfold js_revert. rewrite Hj, Hs, drop_app_length, take_app_length, foldr_difference.
  destruct j as [s jl]. cbn in *. f_equal. apply set_eq. intros a. specialize (Hd a).
  rewrite elem_of_difference, elem_of_union, elem_of_list_to_set. naive_solver.
Qed.

(** ** Total balance *)

Definition bal_of (o : option Account) : Z := match o with Some acc => toZ (Balance acc) | None => 0 end.
Definition supply (m : account_map) : Z := map_fold (fun _ acc s => toZ (Balance acc) + s) 0 m.

Lemma supply_insert_new m a acc : m !! a = None -> supply (<[a := acc]> m) = toZ (Balance acc) + supply m.
Proof.
  intros Ha. unfold supply.
  by rewrite (map_fold_insert_L (fun _ acc s => toZ (Balance acc) + s)) by (intros; lia || done).
Qed.

Lemma supply_delete m a : supply (delete a m) = supply m - bal_of (m !! a).
Proof.
  destruct (m !! a) as [acc|] eqn:E; cbn.
  - pose proof (supply_insert_new (delete a m) a acc (lookup_delete_eq m a)) as H.
    rewrite insert_delete_id in H by done. lia.
  - rewrite delete_id by done. lia.
Qed.

Lemma supply_insert m a acc : supply (<[a := acc]> m) = supply m - bal_of (m !! a) + toZ (Balance acc).
Proof.
  rewrite <- insert_delete_eq, supply_insert_new, supply_delete by apply lookup_delete_eq. lia.
Qed.

Definition balances_ok (m : account_map) : Prop := forall a acc, m !! a = Some acc -> u256_ok (Balance acc).

Lemma supply_nonneg m : balances_ok m -> 0 <= supply m.
Proof.
  induction m as [|a acc m Ha IH] using map_ind; intros Hb; [done|].
  rewrite supply_insert_new by done.
  pose proof (toZ_range _ (Hb a acc (lookup_insert_eq _ _ _))).
  assert (0 <= supply m); [|lia]. apply IH. intros b acc' Hl. apply (Hb b). rewrite lookup_insert_ne by congruence. done.
Qed.

Lemma bal_of_range m a : balances_ok m -> 0 <= bal_of (m !! a) <= supply m.
Proof.
  intros Hb. pose proof (supply_delete m a) as Hd.
  assert (0 <= supply (delete a m)).
  { apply supply_nonneg. intros b acc Hl. apply (Hb b). by apply lookup_delete_Some in Hl as [_ ?]. }
  destruct (m !! a) as [acc|] eqn:E; cbn in *; [|lia]. pose proof (toZ_range _ (Hb _ _ E)). lia.
Qed.

Lemma view_balances v : view_ok v -> balances_ok v.1.
Proof. intros Hv a acc Ha. apply (vo_accounts v Hv a acc Ha). Qed.

(** ** Environments *)

Record header_ok (h : BlockHeader) : Prop := {
  ho_coinbase : is_address (h_Coinbase h);
  ho_number : is_u64 (h_Number h);
  ho_limit : is_u64 (h_GasLimit h);
  ho_time : is_u64 (h_Timestamp h);
  ho_fee : u256_ok (h_BaseFee h);
  ho_difficulty : u256_ok (h_Difficulty h);
  ho_chain : u256_ok (h_ChainID h);
}.

(** Code is shorter than the range of the program counter. *)
Definition code_ok (c : bytes) : Prop := bytes_ok c /\ Z.of_nat (length c) < 4294967296.
Definition codes_ok (m : account_map) : Prop := forall a acc, m !! a = Some acc -> code_ok (Code acc).

(** Data whose length is a [uint64]. *)
Definition data_ok (d : bytes) : Prop := bytes_ok d /\ Z.of_nat (length d) < B64.

Definition addresses (s : gset Address) : Prop := forall a, a ∈ s -> is_address a.

Lemma js_add_addresses j a : addresses (js_set j) -> is_address a -> addresses (js_set (js_add j a)).
Proof. intros Hj Ha b. unfold js_add. case_bool_decide; [auto|]. cbn. rewrite elem_of_union, elem_of_singleton. naive_solver. Qed.

Record env_ok (e : vmEnv) : Prop := {
  eo_state : state_ok (e_state e);
  eo_codes : codes_ok (accounts (e_state e));
  eo_header : header_ok (e_header e);
  eo_price : u256_ok (e_gasPrice e);
  eo_ret : data_ok (e_retData e);
  eo_refund : is_u64 (e_refund e);
  eo_touched : addresses (js_set (e_touched e));
  eo_created : addresses (js_set (e_created e));
  eo_suicided : addresses (js_set (e_suicided e));
}.

Definition conserves (m m' : account_map) : Prop := supply m < B256 -> supply m' <= supply m.

#[export] Instance conserves_preorder : PreOrder conserves.
Proof. split; [intros m H; lia | intros m1 m2 m3 H1 H2 H; specialize (H1 H); lapply H2; lia]. Qed.

Record grows (e e' : vmEnv) : Prop := {
  gr_state : st_extends (e_state e) (e_state e');
  gr_supply : conserves (accounts (e_state e)) (accounts (e_state e'));
  gr_logs : e_logs e `prefix_of` e_logs e';
  gr_touched : js_extends (e_touched e) (e_touched e');
  gr_created : js_extends (e_created e) (e_created e');
  gr_suicided : js_extends (e_suicided e) (e_suicided e');
  gr_header : e_header e' = e_header e;
  gr_origin : e_origin e' = e_origin e;
  gr_price : e_gasPrice e' = e_gasPrice e;
  gr_depth : e_depth e' = e_depth e;
}.

#[export] Instance grows_preorder : PreOrder grows.
Proof.
  split.
  - intros e. by constructor.
  - intros e1 e2 e3 [] []. constructor; solve [by etrans | congruence].
Qed.

(** A step of the environment: it stays well formed and grows. *)
Definition steps (e e' : vmEnv) : Prop := env_ok e' /\ grows e e'.

Lemma steps_refl e : env_ok e -> steps e e.
Proof. by split. Qed.
Lemma steps_trans e1 e2 e3 : steps e1 e2 -> steps e2 e3 -> steps e1 e3.
Proof. intros [_ ?] [? ?]. split; [done|by etrans]. Qed.

Ltac env_cbn :=
  cbn [e_state e_header e_origin e_gasPrice e_logs e_retData e_depth e_refund e_touched e_created e_suicided e_seed
       with_state with_logs with_retData with_depth with_refund with_touched with_created with_suicided with_seed
       touch markCreated markSuicided] in *.

(** The updates that touch neither the state nor the constants. *)
Ltac env_same := intros []; split; constructor; env_cbn; auto; try reflexivity.

Lemma touch_steps e a : env_ok e -> is_address a -> steps e (touch e a).
Proof. intros He Ha. revert He. env_same; [by apply js_add_addresses|apply js_add_extends]. Qed.
Lemma markCreated_steps e a : env_ok e -> is_address a -> steps e (markCreated e a).
Proof. intros He Ha. revert He. env_same; [by apply js_add_addresses|apply js_add_extends]. Qed.
Lemma markSuicided_steps e a : env_ok e -> is_address a -> steps e (markSuicided e a).
Proof. intros He Ha. revert He. env_same; [by apply js_add_addresses|apply js_add_extends]. Qed.
Lemma with_logs_steps e l : env_ok e -> steps e (with_logs e (e_logs e ++ l)).
Proof. env_same. apply prefix_app_r. reflexivity. Qed.
Lemma with_retData_steps e d : env_ok e -> data_ok d -> steps e (with_retData e d).
Proof. intros He Hd. revert He. env_same. Qed.
Lemma with_refund_steps e r : env_ok e -> is_u64 r -> steps e (with_refund e r).
Proof. intros He Hd. revert He. env_same. Qed.

Lemma with_state_steps e t :
  env_ok e -> state_ok t -> codes_ok (accounts t) -> st_extends (e_state e) t ->
  conserves (accounts (e_state e)) (accounts t) -> steps e (with_state e t).
Proof. intros [] Ht Hc Hs Hm. split; constructor; env_cbn; auto; reflexivity. Qed.

(** ** Addresses and accounts *)

Lemma addrToU256_ok a : is_address a -> u256_ok (addrToU256 a).
Proof. intros [Ha _]. apply FromBytesBE_ok, bytes_ok_copy_at; [apply zeros_ok|done]. Qed.

Lemma u256ToAddr_ok z : is_address (u256ToAddr z).
Proof.
  unfold u256ToAddr. split; [auto with word|]. by rewrite length_drop, length_BytesBE.
Qed.

Lemma keccak_address b : is_address (drop 12 (Keccak256 b)).
Proof. split; [auto with word|]. by rewrite length_drop, length_Keccak256. Qed.
Lemma createAddress_ok s n : is_address (createAddress s n).
Proof. apply keccak_address. Qed.
Lemma create2Address_ok s salt h : is_address (create2Address s salt h).
Proof. apply keccak_address. Qed.
#[export] Hint Resolve addrToU256_ok u256ToAddr_ok createAddress_ok create2Address_ok : word.

Lemma zeroAccount_ok : account_ok zeroAccount.
Proof.
  constructor; cbn [zeroAccount Nonce Balance StorageRoot CodeHash Code]; [unfold is_u64; lia | apply zero256_ok | | | constructor].
  all: split; [apply zeros_ok|done].
Qed.

Lemma state_view_ok t : state_ok t -> view_ok (state_view t).
Proof. by intros [_ [? _]]. Qed.

Lemma account_acc_ok e a : env_ok e -> account_ok (account e a) /\ code_ok (Code (account e a)).
Proof.
  intros He. unfold account, GetAccount.
  destruct (accounts (e_state e) !! normalizeAddr (addrToU256 a)) as [acc|] eqn:E; cbn.
  - split; [|by eapply (eo_codes e He)]. apply (vo_accounts _ (state_view_ok _ (eo_state e He)) _ _ E).
  - split; [apply zeroAccount_ok|]. split; [constructor|cbn; lia].
Qed.

Lemma codeOf_ok e a : env_ok e -> code_ok (codeOf e a).
Proof.
  intros He. unfold codeOf. destruct (isPrecompile a); [split; [constructor|cbn; lia]|].
  by apply account_acc_ok.
Qed.

Section range.
  Context (range : nat -> storage_map -> list (storageKey * Uint256)).
  Context (range_perm : forall seed m, range seed m ≡ₚ map_to_list m).

Lemma state_write_steps e o t :
  env_ok e -> op_ok o -> run_op range (e_state e) o = Some t -> st_extends (e_state e) t ->
  codes_ok (accounts t) -> conserves (accounts (e_state e)) (accounts t) -> steps e (with_state e t).
Proof.
  intros He Ho Hr Hs Hc Hm. apply with_state_steps; try done.
  by eapply run_op_ok; [exact range_perm | apply eo_state | |].
Qed.

Lemma codes_insert m a acc : codes_ok m -> code_ok (Code acc) -> codes_ok (<[a := acc]> m).
Proof. intros Hm Hc b acc' Hl. apply lookup_insert_Some in Hl as [[_ <-]|[_ ?]]; [done|by eapply Hm]. Qed.
Lemma codes_delete m a : codes_ok m -> codes_ok (delete a m).
Proof. intros Hm b acc' Hl. apply lookup_delete_Some in Hl as [_ ?]. by eapply Hm. Qed.

Lemma bal_of_account e a :
  bal_of (accounts (e_state e) !! normalizeAddr (addrToU256 a)) = toZ (Balance (account e a)).
Proof. unfold account, GetAccount. by destruct (accounts _ !! _). Qed.

Lemma accounts_SetAccount seed t a acc :
  accounts (SetAccount range seed t a acc) =
  match acc with Some acc => <[normalizeAddr a := acc]> (accounts t) | None => delete (normalizeAddr a) (accounts t) end.
Proof.
  unfold SetAccount. destruct acc; [done|].
  by destruct (foldl _ _ _) as [st es].
Qed.

Lemma with_seed_steps e e' n : steps e e' -> steps e (with_seed e' n).
Proof. intros [[] []]. split; by constructor. Qed.

Lemma set_account_steps e a acc :
  env_ok e -> is_address a ->
  match acc with
  | Some acc => account_ok acc /\ code_ok (Code acc) /\ Balance acc = Balance (account e a)
  | None => True
  end -> steps e (set_account range e a acc).
Proof.
  intros He Ha Hacc. unfold set_account. apply with_seed_steps.
  apply (state_write_steps e (OpSetAccount (e_seed e) (addrToU256 a) acc)); cbn; try done.
  - split; [auto with word|]. by destruct acc; [apply Hacc|].
  - eapply journalled_extends, SetAccount_journalled, range_perm.
  - rewrite accounts_SetAccount. destruct acc; [apply codes_insert; [by apply eo_codes|apply Hacc]|].
    by apply codes_delete, eo_codes.
  - intros _. rewrite accounts_SetAccount. destruct acc as [acc|].
    + rewrite supply_insert, bal_of_account. destruct Hacc as (_ & _ & ->). lia.
    + rewrite supply_delete. pose proof (bal_of_range _ (normalizeAddr (addrToU256 a))
        (view_balances _ (state_view_ok _ (eo_state e He)))) as Hb. cbn in *. lia.
Qed.

Lemma setNonce_steps e a n : env_ok e -> is_address a -> is_u64 n -> steps e (setNonce range e a n).
Proof.
  intros He Ha Hn. destruct (account_acc_ok e a He) as [[] Hc].
  apply set_account_steps; [done|done|]. split; [by constructor|done].
Qed.

Lemma setCode_steps e a c : env_ok e -> is_address a -> code_ok c -> steps e (setCode range e a c).
Proof.
  intros He Ha Hn. destruct (account_acc_ok e a He) as [[] Hc].
  apply set_account_steps; [done|done|]. split; [|done].
  constructor; cbn; try done; [|apply Hn]. split; [apply Keccak256_ok|apply length_Keccak256].
Qed.

(** ** Value transfer *)

Lemma bal_of_view v a : bal_of (v.1 !! normalizeAddr a) = toZ (v_balance v a).
Proof. unfold v_balance. by destruct (v.1 !! _). Qed.

Lemma supply_set_balance v a b :
  supply (v_set_balance v a b).1 = supply v.1 - toZ (v_balance v a) + toZ b.
Proof. unfold v_set_balance. cbn [fst]. by rewrite supply_insert, bal_of_view. Qed.

Lemma codes_set_balance v a b : codes_ok v.1 -> codes_ok (v_set_balance v a b).1.
Proof.
  intros Hc. apply codes_insert; [done|]. cbn.
  destruct (v.1 !! normalizeAddr a) as [acc|] eqn:E; cbn; [by eapply Hc|]. split; [constructor|cbn; lia].
Qed.

Lemma journalled_view t t' v : journalled t t' v -> state_view t' = v.
Proof. intros (es & -> & _). by destruct v. Qed.

(** The state after a credit that does not overflow. *)
Lemma AddBalance_supply t a d :
  state_ok t -> u256_ok a -> u256_ok d -> toZ d + supply (accounts t) < B256 ->
  supply (accounts (AddBalance t a d)) = supply (accounts t) + toZ d.
Proof.
  intros Ht Ha Hd Hlt. pose proof (state_view_ok t Ht) as Hv.
  pose proof (bal_of_range _ (normalizeAddr a) (view_balances _ Hv)) as Hb. rewrite bal_of_view in Hb. cbn [state_view fst] in Hb.
  destruct (AddBalance_cases t a d) as [[-> Hn]|[_ J]].
  - unfold v_noop in Hn. apply andb_prop in Hn as [_ Hz]. apply IsZero_zero in Hz as ->; [|done]. change (toZ zero256) with 0. lia.
  - apply journalled_view in J. change (accounts (AddBalance t a d)) with (state_view (AddBalance t a d)).1.
    rewrite J, supply_set_balance.
    destruct (Add256_spec (v_balance (state_view t) a) d) as [_ Hadd]; [by apply v_balance_ok|done|].
    pose proof (toZ_range d Hd). rewrite Hadd, Z.mod_small; cbn [state_view fst]; lia.
Qed.

Lemma SubBalance_supply t a d t' :
  state_ok t -> u256_ok a -> u256_ok d -> SubBalance t a d = Ok t' ->
  supply (accounts t') = supply (accounts t) - toZ d.
Proof.
  intros Ht Ha Hd E. pose proof (state_view_ok t Ht) as Hv.
  pose proof (v_balance_ok _ a Hv) as Hb. pose proof (toZ_range d Hd). pose proof (toZ_range _ Hb).
  destruct (SubBalance_cases t a d) as [[_ E']|[Hc (t2 & E' & J)]]; [congruence|].
  assert (t2 = t') as -> by congruence. rewrite Cmp_lt in Hc by done. apply Z.ltb_ge in Hc.
  destruct J as [[-> Hn]|[_ J]].
  - unfold v_noop in Hn. apply andb_prop in Hn as [_ Hz]. apply IsZero_zero in Hz as ->; [|done]. change (toZ zero256) with 0. lia.
  - apply journalled_view in J. change (accounts t') with (state_view t').1. rewrite J, supply_set_balance.
    destruct (Sub256_spec (v_balance (state_view t) a) d) as [_ Hsub]; [done|done|].
    rewrite Hsub, Z.mod_small; cbn [state_view fst]; lia.
Qed.

Lemma AddBalance_extends t a d : st_extends t (AddBalance t a d).
Proof. destruct (AddBalance_cases t a d) as [[-> _]|[_ J]]; [reflexivity|by eapply journalled_extends]. Qed.
Lemma SubBalance_extends t a d t' : SubBalance t a d = Ok t' -> st_extends t t'.
Proof.
  intros E. destruct (SubBalance_cases t a d) as [[_ E']|[_ (t2 & E' & J)]]; [congruence|].
  assert (t2 = t') as -> by congruence.
  destruct J as [[-> _]|[_ J]]; [reflexivity|by eapply journalled_extends].
Qed.

Lemma AddBalance_codes t a d : codes_ok (accounts t) -> codes_ok (accounts (AddBalance t a d)).
Proof.
  intros Hc. destruct (AddBalance_cases t a d) as [[-> _]|[_ J]]; [done|].
  apply journalled_view in J. change (codes_ok (state_view (AddBalance t a d)).1). rewrite J. by apply codes_set_balance.
Qed.
Lemma SubBalance_codes t a d t' : SubBalance t a d = Ok t' -> codes_ok (accounts t) -> codes_ok (accounts t').
Proof.
  intros E Hc. destruct (SubBalance_cases t a d) as [[_ E']|[_ (t2 & E' & J)]]; [congruence|].
  assert (t2 = t') as -> by congruence. destruct J as [[-> _]|[_ J]]; [done|].
  apply journalled_view in J. change (codes_ok (state_view t').1). rewrite J. by apply codes_set_balance.
Qed.

Lemma AddBalance_state_ok t a d : state_ok t -> u256_ok a -> u256_ok d -> state_ok (AddBalance t a d).
Proof. intros Ht Ha Hd. by apply (run_op_ok range range_perm t (OpAddBalance a d)). Qed.
Lemma SubBalance_state_ok t a d t' :
  state_ok t -> u256_ok a -> u256_ok d -> SubBalance t a d = Ok t' -> state_ok t'.
Proof.
  intros Ht Ha Hd E. apply (run_op_ok range range_perm t (OpSubBalance a d)); [done|done|]. cbn. by rewrite E.
Qed.

Lemma SubBalance_no_panic t a d :
  SubBalance t a d = Err ErrInsufficientBalance \/ exists t', SubBalance t a d = Ok t'.
Proof. destruct (SubBalance_cases t a d) as [[_ E]|[_ (t' & E & _)]]; eauto. Qed.

(** A transfer that succeeds conserves the total; one that fails only touches. *)
Lemma transfer_steps e from to val :
  env_ok e -> is_address from -> is_address to -> u256_ok val ->
  match transfer e from to val with
  | Ok e' => steps e e'
  | Err e' => steps e e' /\ e_state e' = e_state e
  | _ => False
  end.
Proof.
  intros He Hf Ht Hv. unfold transfer.
  assert (steps e (touch (touch e from) to)) as He1.
  { eapply steps_trans; [exact (touch_steps e from He Hf)|]. apply touch_steps; [exact (proj1 (touch_steps e from He Hf))|done]. }
  destruct (IsZero val); [done|].
  assert (e_state (touch (touch e from) to) = e_state e) as Hst by done. revert He1 Hst.
  generalize (touch (touch e from) to) as e1. intros e1 He1 Hst.
  pose proof (eo_state e1 (proj1 He1)) as Hok.
  destruct (SubBalance_no_panic (e_state e1) (addrToU256 from) val) as [->|[t E]]; [done|]. rewrite E.
  assert (state_ok t) by (eapply SubBalance_state_ok, E; auto with word).
  eapply steps_trans; [exact He1|]. apply with_state_steps; [apply He1| | | |].
  - apply AddBalance_state_ok; auto with word.
  - eapply AddBalance_codes, SubBalance_codes, eo_codes, He1; done.
  - etrans; [by eapply SubBalance_extends|]. apply AddBalance_extends.
  - intros Hs. apply SubBalance_supply in E as Hsub; auto with word.
    rewrite AddBalance_supply; auto with word; lia.
Qed.
End range.

(** ** Undoing a call *)

Definition marks_of (e : vmEnv) : marks :=
  Marks (length (e_logs e)) (length (js_journal (e_touched e))) (length (js_journal (e_created e)))
    (length (js_journal (e_suicided e))) (Snapshot (e_state e)).2.

(** [e] with the return data, refund and map clock of [e']. *)
Definition restored (e e' : vmEnv) : vmEnv :=
  MkEnv (e_state e) (e_header e) (e_origin e) (e_gasPrice e) (e_logs e) (e_retData e') (e_depth e) (e_refund e')
    (e_touched e) (e_created e) (e_suicided e) (e_seed e').

(** Everything recorded since the marks were taken is undone. *)
Lemma revert_call_exact e e' :
  grows (with_state e (Snapshot (e_state e)).1) e' -> revert_call e' (marks_of e) = Ok (restored e e').
Proof.
  intros [Hs _ [l Hl] Ht Hc Hd Hh Ho Hp Hdep]. env_cbn. unfold revert_call, marks_of. cbn [mk_log mk_touch mk_create mk_suicide mk_rev].
  rewrite (RevertToSnapshot_exact _ _ Hs). unfold restored, revertTouched, revertCreated, revertSuicided. env_cbn.
  rewrite (js_revert_exact _ _ Ht), (js_revert_exact _ _ Hc), (js_revert_exact _ _ Hd), Hl, take_app_length.
  unfold with_suicided, with_created, with_touched, with_logs, with_state. env_cbn. rewrite Hh, Ho, Hp, Hdep.
  done.
Qed.

Lemma restored_steps e e' : env_ok e -> env_ok e' -> steps e (restored e e').
Proof. intros [] []. split; [by constructor|]. constructor; cbn; auto; reflexivity. Qed.

Lemma snapshot_steps e : env_ok e -> steps e (with_state e (Snapshot (e_state e)).1).
Proof.
  intros He. apply with_state_steps; [done| | | |].
  - destruct (eo_state e He) as [Hj Hs]. destruct (run_op_snapshot _ Hj) as [E Hj'].
    split; [done|]. by eapply (spec_step_ok _ OpSnapshot).
  - apply He.
  - apply Snapshot_extends.
  - by intros ?.
Qed.
