(* ===== verification/HostSpec.v ===== *)
(** * The host opcodes on a frame: bounds, gas and panics

    Every handler of [CallContext] that acts on the frame alone keeps the frame
    invariant, spends no more gas than there is and leaves the state bound to the
    frame ([moved]). The only panic is a slice of the memory taken for an empty
    range whose offset is past the end ([fwp]'s first argument). *)

From S2P Require Import Prelude Uint256 Bitwise256 Arith256 Keccak Frame Stepper StepperSpec StateTrie.
From S2P Require Import StateTrieSpec BlockTypes TxRlp CallContext CallEnv.

(** [m] returns a value in [Q] or a frame in [E]; it panics only if [P]. *)
Definition fwp (P : Prop) {A} (m : outcome frame A) (Q : A -> Prop) (E : frame -> Prop) : Prop :=
  match m with Ok a => Q a | Err f => E f | Panic => P | OutOfFuel => False end.

Section host.
  Context `{!StateAccessorLaws boundState}.
  Implicit Types f : frame.

(** [f'] is [f] after some work. *)
Record moved f f' : Prop := {
  mv_ok : frame_ok f';
  mv_gas : Gas f' <= Gas f;
  mv_state : StateDB f' = StateDB f;
}.

Lemma moved_refl f : frame_ok f -> moved f f.
Proof. by constructor. Qed.
Lemma moved_trans f1 f2 f3 : moved f1 f2 -> moved f2 f3 -> moved f1 f3.
Proof. intros [] []. constructor; [done|lia|congruence]. Qed.

Lemma moved_halt f0 f st : moved f0 f -> moved f0 (with_Gas (with_Status f st) 0).
Proof.
  intros [Hf Hg Hs]. pose proof (fo_Gas f Hf). constructor; [|cbn; unfold is_u64 in *; lia|done].
  apply ok_with_Gas; [by apply ok_with_Status|]. unfold is_u64. lia.
Qed.

Lemma moved_SP f0 f sp : moved f0 f -> 0 <= sp <= stackMax -> moved f0 (with_SP f sp).
Proof. intros [] ?. constructor; [by apply ok_with_SP|done|done]. Qed.
Lemma moved_Status f0 f st : moved f0 f -> moved f0 (with_Status f st).
Proof. intros []. constructor; [by apply ok_with_Status|done|done]. Qed.
Lemma moved_Return f0 f o s : moved f0 f -> is_u32 o -> is_u32 s -> moved f0 (with_ReturnData f o s).
Proof. intros [] ? ?. constructor; [by apply ok_with_ReturnData|done|done]. Qed.
Lemma moved_PC f0 f pc : moved f0 f -> is_u32 pc -> moved f0 (with_PC f pc).
Proof. intros [] ?. constructor; [by apply ok_with_PC|done|done]. Qed.
Lemma moved_Gas f0 f g : moved f0 f -> 0 <= g <= Gas f -> moved f0 (with_Gas f g).
Proof.
  intros [Hf Hg Hs] ?. pose proof (fo_Gas f Hf). unfold is_u64 in *. constructor; [|cbn; lia|done].
  apply ok_with_Gas; [done|]. unfold is_u64. lia.
Qed.
Lemma moved_Stack f0 f i v : moved f0 f -> u256_ok v -> moved f0 (with_Stack f (<[i := v]> (Stack f))).
Proof. intros [] ?. constructor; [by apply ok_with_Stack|done|done]. Qed.

Lemma moved_bounds f0 f : moved f0 f -> 0 <= SP f <= stackMax.
Proof. intros []. by apply fo_SP. Qed.

(** ** Rules *)

Lemma fwp_bind P {A B} (m : outcome frame A) (k : A -> outcome frame B) Q E :
  fwp P m (fun a => fwp P (k a) Q E) E -> fwp P (m ≫= k) Q E.
Proof. by destruct m. Qed.

Lemma fwp_ret P {A} (a : A) (Q : A -> Prop) E : Q a -> fwp P (mret a) Q E.
Proof. done. Qed.

Lemma fwp_weaken (P P' : Prop) {A} (m : outcome frame A) (Q Q' : A -> Prop) (E E' : frame -> Prop) :
  (P -> P') -> (forall a, Q a -> Q' a) -> (forall f, E f -> E' f) -> fwp P m Q E -> fwp P' m Q' E'.
Proof. destruct m; cbn; auto. Qed.

Lemma fwp_of_wp P {A} (m : outcome frame A) Q E : wp m Q E -> fwp P m Q E.
Proof. by destruct m. Qed.

Lemma fwp_requireStack P f0 f n (Q : _ -> Prop) :
  moved f0 f -> (n <= SP f -> Q tt) -> fwp P (requireStack f n) Q (moved f0).
Proof. intros Hm HQ. unfold requireStack. gtest; cbn; [by apply moved_halt|auto]. Qed.

Lemma fwp_requireRoom P f0 f (Q : _ -> Prop) :
  moved f0 f -> (SP f < stackMax -> Q tt) -> fwp P (requireRoom f) Q (moved f0).
Proof. intros Hm HQ. unfold requireRoom. gtest; cbn; [by apply moved_halt|auto]. Qed.

Lemma fwp_stack_get P f0 f i (Q : _ -> Prop) :
  moved f0 f -> 0 <= i < stackMax ->
  (u256_ok (Stack f !!! Z.to_nat i) -> Q (Stack f !!! Z.to_nat i)) -> fwp P (stack_get f i) Q (moved f0).
Proof. intros Hm Hi HQ. apply fwp_of_wp, wp_stack_get; [apply Hm|done|done]. Qed.

Lemma fwp_stack_set P f0 f i v (Q : _ -> Prop) :
  moved f0 f -> 0 <= i < stackMax -> u256_ok v ->
  (moved f0 (with_Stack f (<[Z.to_nat i := v]> (Stack f))) -> Q (with_Stack f (<[Z.to_nat i := v]> (Stack f)))) ->
  fwp P (stack_set f i v) Q (moved f0).
Proof. intros Hm Hi Hv HQ. apply fwp_of_wp, wp_stack_set; [done|]. by apply HQ, moved_Stack. Qed.

Lemma asU64_spec x : u256_ok x -> asU64 x = if toZ x <? B64 then Some (toZ x) else None.
Proof.
  intros Hx. change (asU64 x) with (u256AsU64 x). destruct (u256AsU64 x) as [v|] eqn:E.
  - apply u256AsU64_Some in E as [<- Hlt]; [|done]. by destruct (Z.ltb_spec (toZ x) B64); [|lia].
  - apply u256AsU64_None in E; [|done]. by destruct (Z.ltb_spec (toZ x) B64); [lia|].
Qed.

Lemma fwp_asU64 P f0 f x (Q : _ -> Prop) :
  moved f0 f -> u256_ok x -> (is_u64 (toZ x) -> Q (toZ x)) -> fwp P (some_or_oog f (asU64 x)) Q (moved f0).
Proof.
  intros Hm Hx HQ. rewrite asU64_spec by done. pose proof (toZ_range x Hx).
  destruct (Z.ltb_spec (toZ x) B64); cbn; [|by apply moved_halt]. apply HQ. unfold is_u64. lia.
Qed.

(** The two copies of [chargeMem] agree. *)
Lemma chargeMem_eq f off sz : CallContext.chargeMem f off sz = Stepper.chargeMem f off sz.
Proof.
  unfold CallContext.chargeMem, Stepper.chargeMem. destruct (sz =? 0); [done|].
  destruct (memMax <=? off); [done|]. destruct (memMax - off <? sz); [done|]. cbn [orb].
  destruct (memMax <? _); [done|]. destruct (_ <=? MemorySize f); [done|]. unfold memGas.
  destruct (_ <? _); [done|]. by destruct (Gas f <? _).
Qed.

Lemma moved_spent f0 f f' : moved f0 f -> spent f f' -> moved f0 f'.
Proof. intros [] []. constructor; [done|lia|congruence]. Qed.

Lemma fwp_chargeMem P f0 f off sz (Q : _ -> Prop) :
  moved f0 f -> is_u64 off -> is_u64 sz ->
  (forall f', moved f0 f' -> spent f f' -> (sz <> 0 -> off + sz <= MemorySize f') -> Q f') ->
  fwp P (some_or_oog f (CallContext.chargeMem f off sz)) Q (moved f0).
Proof.
  intros Hm Ho Hs HQ. rewrite chargeMem_eq.
  change (fwp P (chargeMem_or f off sz) Q (moved f0)).
  apply fwp_of_wp, wp_chargeMem; [apply Hm|done|done|by apply moved_halt|].
  intros f' Hsp Hr. apply HQ; [by eapply moved_spent|done|done].
Qed.

Lemma fwp_charge P f0 f c (Q : _ -> Prop) :
  moved f0 f -> 0 <= c ->
  (forall f', moved f0 f' -> spent f f' -> Gas f' = Gas f - c -> Q f') -> fwp P (charge_or f c) Q (moved f0).
Proof.
  intros Hm Hc HQ. change (fwp P (charge f c) Q (moved f0)).
  apply fwp_of_wp, wp_charge; [apply Hm|done|by apply moved_halt|].
  intros f' Hsp Hr. apply HQ; [by eapply moved_spent|done|done].
Qed.

(** A slice of a charged range panics only when the range is empty. *)
Lemma fwp_mem_read P f0 f off sz (Q : _ -> Prop) :
  moved f0 f -> is_u64 off -> is_u64 sz -> (sz <> 0 -> off + sz <= MemorySize f) ->
  (sz = 0 -> memMax < off -> P) ->
  (forall data, bytes_ok data -> Z.of_nat (length data) = sz -> sz <= memMax -> Q data) ->
  fwp P (mem_read f off (add64 off sz)) Q (moved f0).
Proof.
  intros Hm Ho Hs Hr HP HQ. destruct Hm as [Hf _ _]. pose proof (fo_msize f Hf) as [Hms _]. unfold is_u64 in *.
  destruct (decide (off + sz <= memMax)) as [Hle|Hgt].
  - unfold add64. rewrite u64_small by (unfold is_u64; lia). rewrite mem_read_ok by lia. apply HQ; [|rewrite length_slice|].
    + apply bytes_ok_slice, fo_mem, Hf.
    + lia.
    + rewrite (fo_mem_len f Hf). lia.
    + lia.
  - assert (sz = 0) as -> by lia. unfold mem_read.
    rewrite (proj2 (Z.leb_gt (add64 off 0) memMax)); [rewrite andb_false_r; apply HP; lia|].
    unfold add64. rewrite u64_small by (unfold is_u64; lia). lia.
Qed.

Lemma fwp_mem_write P f0 f off src (Q : _ -> Prop) :
  moved f0 f -> bytes_ok src -> 0 <= off -> off + Z.of_nat (length src) <= MemorySize f ->
  (forall f', moved f0 f' -> (SP f' = SP f /\ Gas f' = Gas f) -> Q f') -> fwp P (mem_write f off src) Q (moved f0).
Proof.
  intros [Hf Hg Hs] Hsrc Ho Hle HQ. apply fwp_of_wp, wp_mem_write; [done..|].
  intros mem Hmem. apply HQ; [|done]. by constructor.
Qed.
End host.

(** One rule application; [mv] proves that the current frame has only moved. *)
Create HintDb moved.
#[export] Hint Resolve moved_refl moved_SP moved_Status moved_halt moved_Stack : moved.
#[export] Hint Extern 2 (0 <= _ <= _) => fcbn; lia : moved.
Ltac mside := fcbn; auto with word; try lia.
Ltac hstep :=
  cbv beta zeta;
  lazymatch goal with
  | |- fwp _ (mbind _ _) _ _ => apply fwp_bind
  | |- fwp _ (mret _) _ _ => apply fwp_ret
  | |- fwp _ (requireStack _ _) _ _ => apply fwp_requireStack; [eauto with moved | intros ?Hsp]
  | |- fwp _ (requireRoom _) _ _ => apply fwp_requireRoom; [eauto with moved | intros ?Hroom]
  | |- fwp _ (stack_get _ _) _ _ => apply fwp_stack_get; [eauto with moved | mside | intros ?Hv]
  | |- fwp _ (some_or_oog _ (asU64 _)) _ _ => apply fwp_asU64; [eauto with moved | done | intros ?Hz]
  | |- fwp _ (some_or_oog _ (CallContext.chargeMem _ _ _)) _ _ =>
      apply fwp_chargeMem; [eauto with moved | done | done | intros ?f' ?Hm ?Hspent ?Hr]
  end.

Section handlers.
  Context `{!StateAccessorLaws boundState}.
  Implicit Types f : frame.

(** The stack pointer of a moved frame is in range. *)
Ltac bounds :=
  repeat match goal with
  | H : moved _ ?f |- _ =>
      lazymatch goal with
      | _ : 0 <= SP f <= stackMax |- _ => fail
      | |- _ => pose proof (moved_bounds _ _ H)
      end
  end.

Lemma host_push_wp P f0 f v :
  moved f0 f -> u256_ok v -> fwp P (host_push f v) (moved f0) (moved f0).
Proof.
  intros Hm Hv. bounds. unfold host_push. repeat hstep.
  apply fwp_stack_set; [done|lia|done|]. intros Hm'. apply fwp_ret. apply moved_SP; [done|cbn; lia].
Qed.

Lemma host_top_wp P f0 f fn :
  moved f0 f -> (forall x, u256_ok x -> u256_ok (fn x)) -> fwp P (host_top f fn) (moved f0) (moved f0).
Proof.
  intros Hm Hfn. bounds. unfold host_top. repeat hstep.
  apply fwp_stack_set; [done|lia|auto|]. done.
Qed.

Lemma length_padded src off n : length (padded src off n) = n.
Proof. unfold padded. by rewrite length_map, length_seq. Qed.

Lemma padded_ok src off n : bytes_ok src -> 0 <= off -> bytes_ok (padded src off n).
Proof.
  intros Hs Ho. unfold padded, bytes_ok. rewrite Stdlib.Lists.List.Forall_map. apply Forall_true. intros i.
  ztest; [|unfold is_byte; lia].
  rewrite list_lookup_total_alt. destruct (src !! Z.to_nat _) as [b|] eqn:E; cbn; [|unfold is_byte; lia].
  by eapply Forall_lookup_1 in Hs.
Qed.

Lemma calldataload_ok data x : bytes_ok data -> u256_ok x -> u256_ok (calldataload data x).
Proof.
  intros Hd Hx. unfold calldataload. rewrite asU64_spec by done. pose proof (toZ_range x Hx).
  destruct (_ <? _); [|apply zero256_ok]. apply FromBytesBE_ok, padded_ok; [done|lia].
Qed.

Lemma copyBytes_wp P f0 f m sz src o :
  moved f0 f -> is_u64 m -> is_u64 sz -> is_u64 o -> bytes_ok src ->
  fwp P (copyBytes f m sz src o) (moved f0) (moved f0).
Proof.
  intros Hm Hm64 Hsz Ho Hsrc. unfold copyBytes. repeat hstep.
  apply fwp_charge; [done|apply u64_range|]. intros f2 Hm2 Hs2 _.
  destruct (Z.eqb_spec sz 0) as [->|Hnz]; [done|]. unfold is_u64 in *.
  apply fwp_mem_write; [done| | lia | |done].
  - apply padded_ok; [done|lia].
  - rewrite length_padded. destruct Hs2. lia.
Qed.

Lemma opCopy_wp P f0 f src :
  moved f0 f -> bytes_ok src -> fwp P (opCopy f src) (moved f0) (moved f0).
Proof. intros Hm Hs. bounds. unfold opCopy. repeat hstep. apply copyBytes_wp; eauto with moved. Qed.

Lemma opExtCodeCopy_wp P e f0 f :
  moved f0 f -> env_ok e -> fwp P (opExtCodeCopy e f) (moved f0) (moved f0).
Proof.
  intros Hm He. bounds. unfold opExtCodeCopy. repeat hstep. apply copyBytes_wp; eauto with moved.
  by apply codeOf_ok.
Qed.

Lemma opReturn_wp P f0 f b :
  moved f0 f ->
  fwp P (opReturn f b) (fun f' => moved f0 f' /\ Status f' <> StatusRunning) (moved f0).
Proof.
  intros Hm. bounds. unfold opReturn. repeat hstep. split; [|by destruct b].
  bounds. destruct Hspent as [_ _ ESP _ _ _ _ _ _].
  apply moved_Status, moved_SP; [|cbn; lia]. apply moved_Return; [done| |]; apply u32_range.
Qed.

Lemma log_topics_wp P f0 f i k :
  moved f0 f -> Z.of_nat i + Z.of_nat k + 2 <= SP f ->
  fwp P (log_topics f i k) (fun _ => True) (moved f0).
Proof.
  intros Hm. bounds. revert i. induction k as [|k IH]; intros i Hk; cbn [log_topics]; [done|].
  repeat hstep. eapply fwp_weaken; [done| |done|apply (IH (S i)); lia]. done.
Qed.

(** Operands [i] and [i+1] are the offset, past the end of the memory, and the size, zero. *)
Definition bad_range f (i : Z) : Prop :=
  memMax < toZ (Stack f !!! Z.to_nat (SP f - i)) /\ toZ (Stack f !!! Z.to_nat (SP f - i - 1)) = 0.

Lemma opReturn_final f b :
  match opReturn f b with Ok f' | Err f' => Status f' <> StatusRunning | _ => True end.
Proof.
  unfold opReturn, requireStack, stack_get. repeat (gtest; [|]); cbn; try done.
  all: repeat match goal with |- context [asU64 ?x] => destruct (asU64 x); cbn; [|done] end.
  all: match goal with |- context [CallContext.chargeMem ?a ?b ?c] => destruct (CallContext.chargeMem a b c) end.
  all: cbn; by destruct b.
Qed.

Lemma moved_refund f0 f left :
  frame_ok f0 -> moved f0 f -> 0 <= left -> Gas f + left <= Gas f0 -> moved f0 (with_Gas f (add64 (Gas f) left)).
Proof.
  intros Hf0 [Hf Hg Hs] Hl Hle. pose proof (fo_Gas f0 Hf0). pose proof (fo_Gas f Hf). unfold is_u64 in *.
  unfold add64. rewrite u64_small by (unfold is_u64; lia).
  constructor; [apply ok_with_Gas; [done|]; unfold is_u64; lia|cbn; lia|done].
Qed.

(** ** The parts of LOG, CREATE and CALL on the frame *)

Lemma log_part_wp f n :
  frame_ok f -> (n <= 4)%nat ->
  fwp (bad_range f 1) (
    _ ← requireStack f (2 + Z.of_nat n);
    a ← stack_get f (SP f - 1);
    b ← stack_get f (SP f - 2);
    off ← some_or_oog f (asU64 a);
    sz ← some_or_oog f (asU64 b);
    f ← some_or_oog f (CallContext.chargeMem f off sz);
    f ← charge_or f (add64 (mul64 (Z.of_nat n) gasLogTopic) (mul64 sz gasLogData));
    topics ← log_topics f 0 n;
    data ← mem_read f off (add64 off sz);
    mret (f, topics, data))
    (fun r => moved f r.1.1 /\ SP r.1.1 = SP f /\ 2 + Z.of_nat n <= SP f) (moved f).
Proof.
  intros Hf Hn. pose proof (moved_refl f Hf) as Hm0. bounds. repeat hstep.
  apply fwp_charge; [done|apply u64_range|]. intros f2 Hm2 Hs2 _.
  destruct Hspent, Hs2. repeat hstep. eapply fwp_weaken; [done| |done|apply log_topics_wp; [done|lia]].
  intros topics _. repeat hstep. apply fwp_mem_read; [done|done|done|lia| |].
  - intros E1 E2. split; [done|]. rewrite <- E1. do 3 f_equal. lia.
  - intros data _ _ _. repeat hstep. cbn. split; [done|]. split; [congruence|done].
Qed.

Definition create_size (is2 : bool) : Z := if is2 then 4 else 3.

Lemma create_part_wp f (is2 : bool) :
  frame_ok f ->
  fwp (bad_range f 2) (
    _ ← requireStack f (create_size is2);
    val ← stack_get f (SP f - 1);
    a ← stack_get f (SP f - 2);
    b ← stack_get f (SP f - 3);
    off ← some_or_oog f (asU64 a);
    sz ← some_or_oog f (asU64 b);
    salt ← (if is2 then s ← stack_get f (SP f - 4); mret (BytesBE s) else mret hash0);
    let f := with_SP f (SP f - create_size is2) in
    f ← some_or_oog f (CallContext.chargeMem f off sz);
    _ ← (if maxInitSize <? sz then Err (haltOOG f) else mret tt);
    let words := words32 (i64 sz) in
    f ← charge_or f (mul64 words 2);
    init ← mem_read f off (add64 off sz);
    mret (f, val, salt, init))
    (fun '(f', val, salt, init) => moved f f' /\ SP f' = SP f - create_size is2 /\ u256_ok val /\ code_ok init)
    (moved f).
Proof.
  intros Hf. pose proof (moved_refl f Hf) as Hm0. bounds. set (n := create_size is2).
  assert (3 <= n <= 4 /\ (is2 = true -> n = 4)) as [Hn Hn2] by (unfold n; destruct is2; cbn; lia).
  clearbody n.
  repeat hstep. eapply (fwp_weaken _ _ _ (fun _ => True)); [done| |done|].
  - intros salt _. repeat hstep. destruct (maxInitSize <? toZ _); [cbn; by apply moved_halt|].
    do 2 hstep. apply fwp_charge; [done|apply u64_range|]. intros f2 Hm2 Hs2 _.
    destruct Hspent as [_ _ ESP _ _ _ _ _ _], Hs2 as [_ _ ESP2 _ _ _ _ _ ?]. cbn in ESP.
    hstep. apply fwp_mem_read; [done|done|done|lia| |].
    + intros E1 E2. split; [done|]. rewrite <- E1. do 3 f_equal. lia.
    + intros data Hd Hl Hle. hstep. split; [done|]. split; [congruence|]. split; [done|]. split; [done|lia].
  - destruct is2; [|done]. specialize (Hn2 eq_refl). by repeat hstep.
Qed.

(** The operands of a call, with the number of words popped. *)
Record args_ok (kind : Z) (a : callArgs) : Prop := {
  ca_gas_ok : is_u64 (ca_gas a);
  ca_to_ok : is_address (ca_to a);
  ca_val_ok : u256_ok (ca_val a);
  ca_in_ok : is_u64 (ca_inOff a) /\ is_u64 (ca_inSz a);
  ca_out_ok : is_u64 (ca_outOff a) /\ is_u64 (ca_outSz a);
  ca_no_val : has_value_arg kind = false -> ca_val a = zero256;
}.

Definition call_kind (kind : Z) : Prop := kind = 0xf1 \/ kind = 0xf2 \/ kind = 0xf4 \/ kind = 0xfa.
Definition call_range (kind : Z) : Z := if has_value_arg kind then 4 else 3.

Lemma call_args_wp P f kind :
  frame_ok f -> call_kind kind ->
  fwp P (call_args f kind)
    (fun '(f', a) => moved f f' /\ SP f' <= SP f - 6 /\ Gas f' = Gas f /\ MemorySize f' = MemorySize f /\ args_ok kind a /\
       (memMax < ca_inOff a -> ca_inSz a = 0 -> bad_range f (call_range kind)))
    (moved f).
Proof.
  intros Hf Hk. pose proof (moved_refl f Hf) as Hm0. bounds. unfold call_args.
  set (n := if (kind =? 0xf4) || (kind =? 0xfa) then 6 else 7).
  assert (6 <= n <= 7 /\ call_range kind = n - 3 /\ (has_value_arg kind = true -> n = 7)) as (Hn & Hr & Hn7).
  { by destruct Hk as [ -> | [ -> | [ -> | -> ] ] ]. }
  clearbody n. repeat hstep. eapply (fwp_weaken _ _ _ (fun val => u256_ok val /\ (has_value_arg kind = false -> val = zero256)));
    [done| |done|].
  - intros val [Hval Hnv]. fold (call_range kind). rewrite Hr. repeat hstep.
    split; [eauto with moved|]. split; [cbn; lia|]. split; [done|]. split; [done|]. split.
    + constructor; cbn [ca_gas ca_to ca_val ca_inOff ca_inSz ca_outOff ca_outSz]; auto using u256ToAddr_ok.
    + cbn [ca_inOff ca_inSz]. intros E1 E2. by split.
  - destruct (has_value_arg kind); repeat hstep; [by split|]. split; [apply zero256_ok|done].
Qed.

Lemma eip150_spec g : is_u64 g -> eip150 g = g - g / 64.
Proof. intros Hg. unfold eip150, sub64, is_u64 in *. apply u64_small. unfold is_u64. dlia. Qed.

Lemma callGas_spec g r : is_u64 g -> is_u64 r -> callGas g r = Z.min r (g - g / 64).
Proof. intros Hg Hr. unfold callGas. rewrite eip150_spec by done. ztest; lia. Qed.

Lemma call_charge_wp e f p kind a :
  frame_ok f -> args_ok kind a ->
  fwp (ca_inSz a = 0 /\ memMax < ca_inOff a) (call_charge e f p kind a)
    (fun '(f', fwd, input) => moved f f' /\ SP f' = SP f /\ is_u64 fwd /\ Gas f' + fwd <= Gas f /\ data_ok input /\
       (cp_readOnly p = true -> ca_val a = zero256) /\
       (ca_outSz a <> 0 -> ca_outOff a + ca_outSz a <= MemorySize f'))
    (moved f).
Proof.
  intros Hf [Hg Hto Hval [Hi1 Hi2] [Ho1 Ho2] Hnv]. pose proof (moved_refl f Hf) as Hm0. bounds. unfold call_charge.
  repeat hstep. destruct (_ && _); [by apply moved_halt|]. repeat hstep.
  destruct (cp_readOnly p && negb (IsZero (ca_val a))) eqn:Hro; [by apply moved_halt|]. repeat hstep.
  set (extra := if negb (IsZero (ca_val a)) then _ else 0).
  assert ((IsZero (ca_val a) = true -> extra = 0) /\ (IsZero (ca_val a) = false -> 9000 <= extra)) as [Hx0 Hx1].
  { unfold extra. destruct (IsZero (ca_val a)); [done|]. split; [done|intros _]. by destruct (emptyAccount e (ca_to a)). }
  apply fwp_charge; [done| |].
  { destruct (IsZero (ca_val a)); [rewrite Hx0 by done; lia|]. specialize (Hx1 eq_refl). lia. }
  clearbody extra. intros f3 Hm3 Hs3 Hg3. hstep.
  pose proof (fo_Gas f3 (mv_ok _ _ Hm3)) as Hg3'. rewrite callGas_spec by done.
  set (fwd := Z.min _ _). assert (0 <= fwd <= Gas f3) as Hfwd by (unfold fwd, is_u64 in *; dlia). clearbody fwd.
  assert (sub64 (Gas f3) fwd = Gas f3 - fwd) as Hsub by (apply u64_small; unfold is_u64 in *; lia). rewrite Hsub.
  destruct Hspent as [_ _ ESP _ _ _ _ Egas _], Hspent0 as [_ _ ESP0 _ _ _ _ Egas0 ?], Hs3 as [_ _ ESP3 _ _ _ _ _ ?].
  assert (moved f (with_Gas f3 (Gas f3 - fwd))) as Hm4 by (apply moved_Gas; [done|lia]).
  apply fwp_mem_read; [done|done|done| | |].
  - cbn. intros. lia.
  - intros E1 E2. done.
  - intros input Hd Hl Hle. repeat hstep. pose proof (fo_Gas f Hf) as Hgf. unfold is_u64 in *.
    assert (is_u64 (if negb (IsZero (ca_val a)) then add64 fwd 2300 else fwd) /\
            Gas f3 - fwd + (if negb (IsZero (ca_val a)) then add64 fwd 2300 else fwd) <= Gas f) as [Hf64 Hfle].
    { destruct (IsZero (ca_val a)); cbn [negb]; [unfold is_u64; lia|]. specialize (Hx1 eq_refl).
      unfold add64. rewrite u64_small by (unfold is_u64; lia). unfold is_u64. lia. }
    split; [done|]. split; [cbn; congruence|]. split; [done|]. split; [done|]. split; [split; [done|lia]|]. split.
    + intros Hr'. rewrite Hr' in Hro. cbn in Hro. apply negb_false_iff in Hro. by apply IsZero_zero.
    + cbn. intros Hnz. specialize (Hr0 Hnz). lia.
Qed.

Lemma call_return_wp P f0 f a r :
  frame_ok f0 -> moved f0 f -> SP f < stackMax -> 0 <= cr_left r -> Gas f + cr_left r <= Gas f0 -> bytes_ok (cr_ret r) ->
  is_u64 (ca_outOff a) -> (ca_outSz a <> 0 -> ca_outOff a + ca_outSz a <= MemorySize f) ->
  fwp P (call_return f a r) (moved f0) (moved f0).
Proof.
  intros Hf0 Hm Hsp Hl Hg Hret Ho Hout. unfold call_return.
  assert (moved f0 (with_Gas f (add64 (Gas f) (cr_left r)))) as Hm1 by by apply moved_refund.
  set (ncopy := if ca_outSz a <? Z.of_nat (length (cr_ret r)) then ca_outSz a else Z.of_nat (length (cr_ret r))).
  assert (0 < ncopy -> ca_outOff a + ncopy <= MemorySize f /\ ncopy <= Z.of_nat (length (cr_ret r))) as Hn
    by (unfold ncopy; ztest; lia).
  clearbody ncopy. hstep. eapply (fwp_weaken _ _ _ (moved f0)); [done| |done|].
  - intros f2 Hm2. cbv beta. apply host_push_wp; [done|]. destruct (cr_ok r); [apply FromU64_ok; unfold is_u64; lia|apply zero256_ok].
  - destruct (Z.ltb_spec 0 ncopy) as [Hpos|_]; [|by apply fwp_ret].
    destruct (Hn Hpos) as [Hle Hle2]. unfold is_u64 in *.
    apply fwp_mem_write; [done|by apply bytes_ok_take|lia| |by intros f2 Hm2 _].
    rewrite length_take. cbn [MemorySize with_Gas]. lia.
Qed.
End handlers.
