(* ===== verification/CallSpec.v ===== *)
(** * Message calls are sound

    [run_spec]: for a well-formed environment, a call never runs out of the fuel
    [run] computes, returns no more gas than it was given, leaves a well-formed
    environment that has only grown, undoes everything when it fails, and changes
    nothing but the touched set when it is read only ([pure]). *)

From S2P Require Import Prelude Uint256 Bitwise256 Arith256 Keccak Frame Stepper StepperSpec StateTrie.
From S2P Require Import StateTrieSpec BlockTypes TxRlp CallContext CallEnv HostSpec.

(** ** The state bound to a frame *)

Section bound_state.
  (** [base] is the state before a step, when the step is to be compared with it. *)
  Context (base : option StateTrie) (a : Uint256) (ro : bool).

Record bs_inv (b : boundState) : Prop := {
  bi_addr_ok : u256_ok (bs_addr b);
  bi_addr : bs_addr b = a;
  bi_ro : bs_readOnly b = ro;
  bi_state : state_ok (bs_trie b);
  bi_base : match base with
            | Some t => st_extends t (bs_trie b) /\ accounts (bs_trie b) = accounts t /\ (ro = true -> bs_trie b = t)
            | None => True
            end;
}.

Lemma accounts_SetStorage t addr k v : accounts (SetStorage t addr k v) = accounts t.
Proof. unfold SetStorage. by destruct (IsZero v). Qed.

Lemma SetStorage_state_ok t addr k v :
  state_ok t -> u256_ok addr -> u256_ok k -> u256_ok v -> state_ok (SetStorage t addr k v).
Proof.
  intros. by eapply (run_op_ok (fun _ m => map_to_list m) ltac:(done) t (OpSetStorage addr k v)).
Qed.

Lemma bs_get_ok b (addr key : Uint256) :
  bs_inv b -> u256_ok addr -> u256_ok key -> u256_ok (sa_GetStorage b addr key).
Proof.
  intros [] _ _. cbn. unfold GetStorage. destruct (storage _ !! _) as [v|] eqn:E; cbn; [|apply zero256_ok].
  apply (vo_storage _ (state_view_ok _ bi_state0) _ _ E).
Qed.

Lemma bs_set_ok b (addr key v : Uint256) :
  bs_inv b -> u256_ok addr -> u256_ok key -> u256_ok v -> bs_inv (sa_SetStorage b addr key v).
Proof.
  intros [] _ Hk Hv. cbn. destruct (bs_readOnly b) eqn:Hro; constructor; cbn; try done; [by apply SetStorage_state_ok|].
  destruct base as [t|]; [|done]. destruct bi_base0 as (Hs & Ha & _). split; [|split].
  - etrans; [exact Hs|]. eapply journalled_extends, SetStorage_journalled.
  - by rewrite accounts_SetStorage.
  - congruence.
Qed.

Definition bs_laws : StateAccessorLaws boundState := {|
  sa_inv := bs_inv;
  sa_get_ok := bs_get_ok;
  sa_set_ok := bs_set_ok;
|}.
End bound_state.

Lemma frame_ok_laws (L1 L2 : StateAccessorLaws boundState) (f : frame) :
  @frame_ok _ _ L1 f -> match StateDB f with Some s => @sa_inv _ _ L2 s | None => True end -> @frame_ok _ _ L2 f.
Proof. intros [] ?. by constructor. Qed.

(** ** Read-only steps *)

Record pure (e e' : vmEnv) : Prop := {
  pu_accounts : accounts (e_state e') = accounts (e_state e);
  pu_storage : storage (e_state e') = storage (e_state e);
  pu_logs : e_logs e' = e_logs e;
  pu_created : e_created e' = e_created e;
  pu_suicided : e_suicided e' = e_suicided e;
}.

#[export] Instance pure_preorder : PreOrder pure.
Proof. split; [by intros e|]. intros e1 e2 e3 [] []. constructor; congruence. Qed.

Definition steps_ro (ro : bool) (e e' : vmEnv) : Prop := steps e e' /\ (ro = true -> pure e e').

Lemma steps_ro_refl ro e : env_ok e -> steps_ro ro e e.
Proof. intros He. split; [by apply steps_refl|done]. Qed.
Lemma steps_ro_trans ro e1 e2 e3 : steps_ro ro e1 e2 -> steps_ro ro e2 e3 -> steps_ro ro e1 e3.
Proof. intros [? ?] [? ?]. split; [by eapply steps_trans|]. intros Hr. etrans; eauto. Qed.

(** ** Calls *)

Record cp_ok (p : callParams) : Prop := {
  co_caller : is_address (cp_caller p);
  co_addr : is_address (cp_addr p);
  co_origin : is_address (cp_origin p);
  co_val : u256_ok (cp_callVal p);
  co_data : data_ok (cp_data p);
  co_code : code_ok (cp_code p);
  co_gas : is_u64 (cp_gas p);
}.

Record run_post (e : vmEnv) (p : callParams) (e' : vmEnv) (r : callResult) : Prop := {
  rp_steps : steps e e';
  rp_left : 0 <= cr_left r <= cp_gas p;
  rp_ret : data_ok (cr_ret r);
  rp_fail : cr_ok r = false -> e' = restored e e';
  rp_static : cp_readOnly p = true -> is_create p = false -> cp_kind p = 0xf4 \/ cp_callVal p = zero256 -> pure e e';
}.

(** [m] returns as [run_post] says; it panics only if [P]. *)
Definition run_ok (P : Prop) (m : outcome Empty_set (vmEnv * callResult)) (e : vmEnv) (p : callParams) : Prop :=
  match m with Ok (e', r) => run_post e p e' r | Panic => P | _ => False end.

Abbreviation hostM := (outcome (vmEnv * frame)).

Definition hwp (P : Prop) {A} (m : hostM A) (Q : A -> Prop) (E : vmEnv * frame -> Prop) : Prop :=
  match m with Ok a => Q a | Err x => E x | Panic => P | OutOfFuel => False end.

Lemma hwp_bind P {A B} (m : hostM A) (k : A -> hostM B) Q E :
  hwp P m (fun a => hwp P (k a) Q E) E -> hwp P (m ≫= k) Q E.
Proof. by destruct m. Qed.

Lemma hwp_in_env P e {A} (m : outcome frame A) (Q : A -> Prop) E :
  fwp P m Q (fun f => E (e, f)) -> hwp P (in_env e m) Q E.
Proof. by destruct m. Qed.

Lemma hwp_on_frame P e (m : outcome frame frame) Q E :
  fwp P m (fun f => Q (e, f)) (fun f => E (e, f)) -> hwp P (on_frame e m) Q E.
Proof. by destruct m. Qed.

Section host_op.
  Context (range : nat -> storage_map -> list (storageKey * Uint256)).
  Context (range_perm : forall seed m, range seed m ≡ₚ map_to_list m).
  Context (run_rec : vmEnv -> callParams -> outcome Empty_set (vmEnv * callResult)).
  Context (Prec : Prop) (depth : Z).
  Context (rec_ok : forall e p, env_ok e -> cp_ok p -> e_depth e = depth -> run_ok Prec (run_rec e p) e p).
  Context (a : Uint256) (ro : bool).
#[local] Instance laws : StateAccessorLaws boundState := bs_laws None a ro.

(** What a host opcode guarantees, on every path. *)
Definition host_post (e : vmEnv) (f : frame) (x : vmEnv * frame) : Prop :=
  steps_ro ro e x.1 /\ moved f x.2.

Lemma on_frame_post P e f m :
  env_ok e -> fwp P m (moved f) (moved f) -> hwp P (on_frame e m) (host_post e f) (host_post e f).
Proof.
  intros He Hm. apply hwp_on_frame. eapply fwp_weaken; [done| | |exact Hm]; cbn; intros f' Hf'.
  - split; [by apply steps_ro_refl|done].
  - split; [by apply steps_ro_refl|done].
Qed.

Lemma call_run_wp P e p E :
  (Prec -> P) -> env_ok e -> cp_ok p -> e_depth e = depth ->
  hwp P (call_run run_rec e p) (fun x => run_post e p x.1 x.2) E.
Proof.
  intros HP He Hp Hd. specialize (rec_ok e p He Hp Hd). unfold call_run.
  destruct (run_rec e p) as [[e' r]|[]| |]; cbn in *; auto.
Qed.

Lemma opLog_wp e f addr n :
  env_ok e -> frame_ok f -> (n <= 4)%nat -> ro = false ->
  hwp (bad_range f 1) (opLog e f addr n) (host_post e f) (host_post e f).
Proof.
  intros He Hf Hn Hro. unfold opLog. cbv zeta. apply hwp_bind, hwp_in_env.
  eapply fwp_weaken; [done| | |by apply log_part_wp].
  - intros [[f' topics] data] (Hm & Hs & Hle). cbn in *. split; [split|].
    + by apply with_logs_steps.
    + by rewrite Hro.
    + cbn. apply moved_SP; [done|]. pose proof (fo_SP f Hf). lia.
  - intros f' Hm. split; [by apply steps_ro_refl|done].
Qed.

Lemma opSelfdestruct_wp P e f p :
  env_ok e -> cp_ok p -> frame_ok f -> ro = false ->
  hwp P (opSelfdestruct range e f p) (host_post e f) (host_post e f).
Proof.
  intros He Hp Hf Hro. pose proof (moved_refl f Hf) as Hm0. pose proof (fo_SP f Hf).
  unfold opSelfdestruct. apply hwp_bind, hwp_in_env.
  apply (fwp_weaken P P _ (fun x => moved f x.1) _ (moved f)); [done| | |].
  - intros [f' x] Hm. cbn in Hm. cbv zeta beta.
    destruct (account_acc_ok e (cp_addr p) He) as [[_ Hbal _ _ _] _].
    pose proof (transfer_steps range range_perm e (cp_addr p) (u256ToAddr x) _ He (co_addr p Hp) (u256ToAddr_ok x) Hbal) as Ht.
    apply hwp_bind.
    assert (forall e1, steps e e1 -> hwp P (
      let e := touch (touch e1 (cp_addr p)) (u256ToAddr x) in
      let e := markSuicided e (cp_addr p) in
      let e := if bool_decide (cp_addr p ∈ js_set (e_created e)) then set_account range e (cp_addr p) None else e in
      mret (e, with_Status f' StatusSuccess)) (host_post e f) (host_post e f)) as Hk.
    { intros e1 H1. cbv zeta. set (e2 := markSuicided _ _).
      assert (steps e e2) as H2.
      { eapply steps_trans; [exact H1|]. unfold e2.
        pose proof (co_addr p Hp) as Ha. pose proof (u256ToAddr_ok x) as Hb.
        pose proof (touch_steps e1 _ (proj1 H1) Ha) as H2. pose proof (touch_steps _ _ (proj1 H2) Hb) as H3.
        eapply steps_trans; [exact H2|]. eapply steps_trans; [exact H3|]. apply markSuicided_steps; [apply H3|done]. }
      clearbody e2. split; [|by apply moved_Status]. split; [|by rewrite Hro]. cbn.
      case_bool_decide; [|done]. eapply steps_trans; [exact H2|].
      by apply set_account_steps; [|apply H2|apply Hp|]. }
    destruct (transfer _ _ _ _) as [e1|e1| |]; [apply Hk, Ht|apply Hk, Ht|destruct Ht|destruct Ht].
  - intros f' Hm. split; [by apply steps_ro_refl|done].
  - repeat hstep. cbn. apply moved_SP; [done|lia].
Qed.

Lemma opCreate_wp (P : Prop) e f p is2 :
  env_ok e -> cp_ok p -> frame_ok f -> ro = false -> e_depth e = depth -> (Prec -> P) -> (bad_range f 2 -> P) ->
  hwp P (opCreate range run_rec e f p is2) (host_post e f) (host_post e f).
Proof.
  intros He Hp Hf Hro Hd HPrec HP. unfold opCreate. cbv zeta.
  change (if is2 then 4 else 3) with (create_size is2).
  apply hwp_bind, hwp_in_env. eapply fwp_weaken; [exact HP| | |by apply create_part_wp].
  2: { intros f' Hm. split; [by apply steps_ro_refl|done]. }
  intros [[[f' val] salt] init] (Hm & Hsp & Hval & Hinit).
  destruct (account_acc_ok e (cp_addr p) He) as [[Hn _ _ _ _] _].
  assert (steps e (setNonce range e (cp_addr p) (add64 (getNonce e (cp_addr p)) 1))) as H1.
  { apply setNonce_steps; [done|done|apply Hp|apply u64_range]. }
  revert H1. generalize (setNonce range e (cp_addr p) (add64 (getNonce e (cp_addr p)) 1)) as e1. intros e1 H1.
  set (dest := if is2 then _ else _).
  assert (is_address dest) as Hdest by (unfold dest; destruct is2; auto with word).
  clearbody dest. pose proof (fo_SP f Hf) as HSP.
  destruct (_ && _).
  { apply hwp_on_frame. eapply (fwp_weaken P P); [done| | |apply host_push_wp; [exact Hm|apply zero256_ok]].
    all: intros f2 Hm2; split; [split; [done|by rewrite Hro]|done]. }
  pose proof (fo_Gas f' (mv_ok _ _ Hm)) as Hg. rewrite eip150_spec by done.
  set (fwd := Gas f' - Gas f' / 64). assert (0 <= fwd <= Gas f') as Hfwd by (unfold fwd, is_u64 in *; dlia). clearbody fwd.
  assert (sub64 (Gas f') fwd = Gas f' - fwd) as -> by (apply u64_small; unfold is_u64 in *; lia).
  assert (moved f (with_Gas f' (Gas f' - fwd))) as Hm2 by (apply moved_Gas; [done|lia]).
  apply hwp_bind. set (q := MkCall _ _ _ _ _ _ _ _ _ _ _).
  assert (cp_ok q) as Hq.
  { destruct Hp. constructor; cbn; try done; [split; [constructor|cbn; lia]|unfold is_u64 in *; lia]. }
  pose proof (call_run_wp P e1 q (host_post e f) HPrec (proj1 H1) Hq) as Hr.
  rewrite (gr_depth _ _ (proj2 H1)) in Hr. specialize (Hr Hd).
  destruct (call_run run_rec e1 q) as [[e2 r]|x| |]; cbn [hwp] in *; [|done|done|done].
  destruct Hr as [H2 Hl _ _ _]. cbn [fst snd] in *. apply hwp_on_frame. pose proof (mv_gas _ _ Hm). cbn in Hl.
  unfold push_result. eapply (fwp_weaken P P); [done| | |apply (host_push_wp P f)].
  - intros f3 Hm3. split; [split; [exact (steps_trans _ _ _ H1 H2)|by rewrite Hro]|done].
  - intros f3 Hm3. split; [split; [exact (steps_trans _ _ _ H1 H2)|by rewrite Hro]|done].
  - apply moved_refund; [done|done|lia|cbn; lia].
  - destruct (cr_ok r); [by apply addrToU256_ok|apply zero256_ok].
Qed.

Lemma opCall_wp (P : Prop) e f p kind :
  env_ok e -> cp_ok p -> frame_ok f -> cp_readOnly p = ro -> call_kind kind -> e_depth e = depth ->
  (Prec -> P) -> (bad_range f (call_range kind) -> P) ->
  hwp P (opCall run_rec e f p kind) (host_post e f) (host_post e f).
Proof.
  intros He Hp Hf Hro Hk Hd HPrec HP. unfold opCall.
  assert (forall f', moved f f' -> host_post e f (e, f')) as Hend by (intros f' Hm; split; [by apply steps_ro_refl|done]).
  apply hwp_bind, hwp_in_env. eapply fwp_weaken; [|intros [f1 x]|exact Hend|by apply (call_args_wp False)]; [done|].
  intros (Hm1 & Hsp1 & Hg1 & Hms1 & Hx & Hbad).
  apply hwp_bind, hwp_in_env. eapply fwp_weaken; [|intros [[f2 fwd] input]| |by apply call_charge_wp; [apply Hm1|exact Hx]].
  { intros [E1 E2]. by apply HP, Hbad. }
  2: { intros f' Hm'. apply Hend. by eapply moved_trans. }
  intros (Hm2 & Hsp2 & Hfwd & Hg2 & Hin & Hval & Hout). destruct Hx as [_ Hto Hv _ [Ho _] Hnv].
  apply hwp_bind. set (q := call_params e p kind x fwd input).
  assert (cp_ok q) as Hq.
  { pose proof (codeOf_ok e (ca_to x) He). destruct Hp. unfold q, call_params.
    constructor; cbn [cp_caller cp_addr cp_origin cp_callVal cp_data cp_code cp_gas]; try done.
    - by destruct (kind =? 0xf4).
    - by destruct (_ || _).
    - by destruct (kind =? 0xf4). }
  pose proof (call_run_wp P e q (host_post e f) HPrec He Hq Hd) as Hr.
  destruct (call_run run_rec e q) as [[e2 r]|y| |]; cbn [hwp] in *; [|done|done|done].
  destruct Hr as [H2 Hl Hret _ Hst]. cbn [fst snd] in *. apply hwp_on_frame. pose proof (mv_gas _ _ Hm1).
  assert (steps_ro ro e e2) as H2ro.
  { split; [done|]. intros E. apply Hst.
    - unfold q, call_params. cbn. by rewrite Hro, E.
    - unfold q, call_params, is_create. cbn. by destruct Hk as [ -> | [ -> | [ -> | -> ] ] ].
    - unfold q, call_params. cbn [cp_kind cp_callVal]. destruct (Z.eqb_spec kind 0xf4); [by left|right].
      apply Hval. congruence. }
  assert (cp_gas q = fwd) as Hgq by done. rewrite Hgq in Hl. pose proof (fo_SP f Hf). 
  eapply (fwp_weaken P P); [done| | |apply (call_return_wp P f)]; try done; try lia.
  - by eapply moved_trans.
  - apply Hret.
Qed.

(** The instructions on which the source panics: LOG, CREATE and CALL with an empty
    memory range that starts past the end of the memory. *)
Definition bad_op f op : Prop :=
  0xa0 <= op <= 0xa4 /\ bad_range f 1 \/
  (op = 0xf0 \/ op = 0xf5) /\ bad_range f 2 \/
  call_kind op /\ bad_range f (call_range op).

Lemma host_word_ok e p code op v :
  env_ok e -> cp_ok p -> code_ok code -> host_word e p code op = Some v -> u256_ok v.
Proof.
  intros He Hp [_ Hc]. pose proof (eo_header e He) as []. pose proof (eo_ret e He) as [_ Hret].
  pose proof (co_data p Hp) as [_ Hdata]. pose proof (state_view_ok _ (eo_state e He)) as Hv.
  assert (forall n, Z.of_nat n < B64 -> is_u64 (Z.of_nat n)) as Hlen by (unfold is_u64; lia).
  assert (Z.of_nat (length code) < B64) as Hcode by lia. destruct Hp, He.
  unfold host_word. repeat (destruct (_ =? _); [intros [= <-]|]); try discriminate;
    first [assumption | by apply addrToU256_ok | by apply FromU64_ok; auto | idtac].
  rewrite GetBalance_view. by apply v_balance_ok.
Qed.

Lemma host_unary_ok e p op fn :
  env_ok e -> cp_ok p -> host_unary e p op = Some fn -> forall x, u256_ok x -> u256_ok (fn x).
Proof.
  intros He Hp. unfold host_unary. repeat (destruct (_ =? _); [intros [= <-] x Hx; cbv beta zeta|]); try discriminate.
  - rewrite GetBalance_view. apply v_balance_ok, state_view_ok, He.
  - apply calldataload_ok; [apply Hp|done].
  - apply FromU64_ok. destruct (codeOf_ok e (u256ToAddr x) He). unfold is_u64. lia.
  - destruct (emptyAccount _ _); [apply zero256_ok|]. apply FromBytesBE_ok.
    destruct (account_acc_ok e (u256ToAddr x) He) as [[_ _ _ [] _] _]. done.
  - apply zero256_ok.
Qed.

Lemma host_op_wp e f p code op :
  env_ok e -> cp_ok p -> frame_ok f -> code_ok code -> cp_readOnly p = ro -> e_depth e = depth ->
  (ro = true -> writes op = false) ->
  hwp (bad_op f op \/ Prec) (host_op range run_rec e f p code op) (host_post e f) (host_post e f).
Proof.
  intros He Hp Hf Hc Hro Hd Hw. pose proof (moved_refl f Hf) as Hm0. unfold host_op.
  assert (writes op = true -> ro = false) as Hwr by (intros E; destruct ro; [rewrite Hw in E|]; done).
  destruct (host_word e p code op) as [v|] eqn:Ev.
  { apply on_frame_post, host_push_wp; [done|done|by eapply host_word_ok]. }
  destruct (host_unary e p op) as [fn|] eqn:Eu.
  { apply on_frame_post, host_top_wp; [done|done|by eapply host_unary_ok]. }
  repeat match goal with |- hwp _ (if op =? ?n then _ else _) _ _ => destruct (Z.eqb_spec op n) as [->|?] end;
    try (apply on_frame_post; [done|]).
  - apply opCopy_wp; [done|apply Hp].
  - apply opCopy_wp; [done|apply Hc].
  - by apply opExtCodeCopy_wp.
  - apply opCopy_wp; [done|apply He].
  - destruct ((0xa0 <=? op) && (op <=? 0xa4)) eqn:Elog.
    { apply andb_prop in Elog as [E1%Z.leb_le E2%Z.leb_le].
      assert (ro = false) as Hro'.
      { apply Hwr. unfold writes. rewrite (proj2 (Z.leb_le 0xa0 op) E1), (proj2 (Z.leb_le op 0xa4) E2). by rewrite orb_true_r. }
      pose proof (opLog_wp e f (cp_addr p) (Z.to_nat (op - 0xa0)) He Hf ltac:(lia) Hro') as Hl.
      destruct (opLog e f (cp_addr p) _); cbn in *; auto. left. by left. }
    clear Elog.
    repeat match goal with |- hwp _ (if op =? ?n then _ else _) _ _ => destruct (Z.eqb_spec op n) as [->|?] end.
    + apply on_frame_post; [done|]. eapply (fwp_weaken False _ _ (fun f' => moved f f' /\ Status f' <> StatusRunning) _ (moved f));
        [done|by intros f' [? _]|done|by apply opReturn_wp].
    + apply opCreate_wp; try done; [by apply Hwr|by right|]. intros ?. left. right. left. split; [by left|done].
    + apply opCreate_wp; try done; [by apply Hwr|by right|]. intros ?. left. right. left. split; [by right|done].
    + apply opCall_wp; try done; [by left|by right|]. intros ?. left. right. right. split; [by left|done].
    + apply opCall_wp; try done; [by right; left|by right|]. intros ?. left. right. right. split; [by right; left|done].
    + apply opCall_wp; try done; [by right; right; left|by right|]. intros ?. left. right. right. split; [by right; right; left|done].
    + apply opCall_wp; try done; [by right; right; right|by right|]. intros ?. left. right. right. split; [by right; right; right|done].
    + apply opSelfdestruct_wp; try done. by apply Hwr.
    + split; [by apply steps_ro_refl|by apply moved_halt].
Qed.
End host_op.

Lemma byte_forall (P : Z -> bool) :
  forallb (fun n => P (Z.of_nat n)) (seq 0 256) = true -> forall op, is_byte op -> P op = true.
Proof.
  intros H op Hop. rewrite forallb_forall in H. unfold is_byte in Hop.
  replace op with (Z.of_nat (Z.to_nat op)) by lia. apply H, in_seq. lia.
Qed.

Lemma hostGas_range op : is_byte op -> 0 <= hostGas op <= 32000.
Proof.
  intros Hop. assert ((0 <=? hostGas op) && (hostGas op <=? 32000) = true) as H; [|lia].
  revert op Hop. apply byte_forall. vm_compute. reflexivity.
Qed.

Lemma hostGas_pos op : is_byte op -> isHostOp op = true -> op <> 0xf3 -> 1 <= hostGas op.
Proof.
  intros Hop Hh Hn. assert (negb (isHostOp op) || (op =? 0xf3) || (1 <=? hostGas op) = true) as H.
  - revert op Hop Hh Hn. intros op Hop _ _. revert op Hop. apply byte_forall. vm_compute. reflexivity.
  - rewrite Hh in H. lia.
Qed.

(** ** The interpreter loop *)

Section exec.
  Context (range : nat -> storage_map -> list (storageKey * Uint256)).
  Context (range_perm : forall seed m, range seed m ≡ₚ map_to_list m).
  Context (run_rec : vmEnv -> callParams -> outcome Empty_set (vmEnv * callResult)).
  Context (Prec : Prop) (depth : Z).
  Context (rec_ok : forall e p, env_ok e -> cp_ok p -> e_depth e = depth -> run_ok Prec (run_rec e p) e p).
  Context (a : Uint256) (ro : bool).
#[local] Instance laws' : StateAccessorLaws boundState := bs_laws None a ro.

(** A round: gas never increases, and decreases while the frame is running. *)
Record round (e : vmEnv) (f : frame) (e' : vmEnv) (f' : frame) : Prop := {
  rd_env : steps_ro ro e e';
  rd_frame : frame_ok f';
  rd_gas : Gas f' <= Gas f;
  rd_progress : Status f' = StatusRunning -> Gas f' < Gas f;
}.

Lemma bind_state_ok e f :
  env_ok e -> frame_ok f -> @frame_ok _ _ (bs_laws (Some (e_state e)) a ro) (bind_state e f).
Proof.
  intros He Hf. unfold bind_state. pose proof (fo_state f Hf) as Hs.
  destruct (StateDB f) as [b|] eqn:E; [|apply (frame_ok_laws laws'); [done|by rewrite E]].
  destruct Hs. destruct Hf. constructor; cbn; try done. constructor; cbn; try done; try apply He.
Qed.

Lemma take_state_ok e (f' : frame) :
  env_ok e -> @frame_ok _ _ (bs_laws (Some (e_state e)) a ro) f' -> steps_ro ro e (take_state e f') /\ frame_ok f'.
Proof.
  intros He Hf. pose proof (fo_state f' Hf) as Hs. split.
  - unfold take_state. destruct (StateDB f') as [b|]; [|by apply steps_ro_refl].
    destruct Hs as [_ _ _ Hst (Hx & Ha & Hr)]. split.
    + apply with_state_steps; try done; rewrite Ha; first [apply He|reflexivity].
    + intros E. specialize (Hr E). constructor; cbn; by rewrite ?Hr.
  - apply (frame_ok_laws (bs_laws (Some (e_state e)) a ro)); [done|].
    destruct (StateDB f') as [b|]; [|done]. destruct Hs. by constructor.
Qed.

Lemma step_round e f code :
  env_ok e -> frame_ok f -> bytes_ok code -> Status f = StatusRunning ->
  exists f', StepOne (bind_state e f) code = Some f' /\ round e f (take_state e f') f'.
Proof.
  intros He Hf Hc Hs.
  assert (Gas (bind_state e f) = Gas f /\ Status (bind_state e f) = StatusRunning) as [Hg Hs'].
  { unfold bind_state. by destruct (StateDB f). }
  destruct (@StepOne_post _ _ (bs_laws (Some (e_state e)) a ro) _ code (bind_state_ok e f He Hf) Hc)
    as (f' & E & Hf' & Hle & _ & Hlt & _).
  exists f'. split; [done|]. destruct (take_state_ok e f' He Hf') as [H1 H2].
  rewrite Hg in *. constructor; auto.
Qed.

(** What a host opcode leaves after its price: the frame has less gas, or has halted. *)
Lemma host_round e f p code op :
  env_ok e -> cp_ok p -> frame_ok f -> code_ok code -> cp_readOnly p = ro -> e_depth e = depth ->
  is_byte op -> isHostOp op = true -> (ro = true -> writes op = false) ->
  match execHost range run_rec e f p code op with
  | Ok (e', f') | Err (e', f') => round e f e' f'
  | Panic => bad_op f op \/ Prec
  | OutOfFuel => False
  end.
Proof.
  intros He Hp Hf Hc Hro Hd Hb Hh Hw. pose proof (hostGas_range op Hb) as Hr. pose proof (fo_Gas f Hf) as Hg.
  unfold execHost, is_u64 in *. destruct (Z.ltb_spec (Gas f) (hostGas op)) as [Hlt|Hge].
  { pose proof (moved_halt f f StatusOutOfGas (moved_refl f Hf)) as [Hok _ _].
    constructor; [by apply steps_ro_refl|done|cbn; lia|done]. }
  assert (sub64 (Gas f) (hostGas op) = Gas f - hostGas op) as -> by (apply u64_small; unfold is_u64; lia).
  set (f1 := with_PC _ _).
  assert (moved f f1) as Hm1.
  { apply moved_PC; [apply moved_Gas; [by apply moved_refl|lia]|apply u32_range]. }
  pose proof (host_op_wp range range_perm run_rec Prec depth rec_ok a ro e f1 p code op He Hp (mv_ok _ _ Hm1) Hc Hro Hd Hw) as H.
  assert (forall x, host_post a ro e f1 x -> (op = 0xf3 -> Status x.2 <> StatusRunning) -> round e f x.1 x.2) as Hround.
  { intros x [Hx [Hok Hgas _]] Hf3. change (Gas f1) with (Gas f - hostGas op) in Hgas.
    constructor; [done|done|lia|]. intros Hrun. destruct (Z.eqb_spec op 0xf3) as [E|E]; [by apply Hf3 in E|].
    pose proof (hostGas_pos op Hb Hh E). lia. }
  assert (op = 0xf3 -> match host_op range run_rec e f1 p code op with
                       | Ok x | Err x => Status x.2 <> StatusRunning | _ => True end) as Hfin.
  { intros ->. change (host_op range run_rec e f1 p code 0xf3) with (on_frame e (opReturn f1 false)).
    pose proof (opReturn_final f1 false) as Hfin. by destruct (opReturn f1 false). }
  destruct (host_op range run_rec e f1 p code op) as [[e' f']|[e' f']| |]; cbn [hwp] in H; [| |done|done].
  - by apply (Hround (e', f')).
  - by apply (Hround (e', f')).
Qed.

(** [exec_one]: a round, or the panic of [bad_op]. *)
Lemma exec_one_ok e f p code :
  env_ok e -> cp_ok p -> frame_ok f -> code_ok code -> cp_readOnly p = ro -> e_depth e = depth ->
  Status f = StatusRunning -> PC f < Z.of_nat (length code) ->
  match exec_one range run_rec e f p code with
  | Ok (e', f') => round e f e' f'
  | Panic => bad_op f (code !!! Z.to_nat (PC f)) \/ Prec
  | _ => False
  end.
Proof.
  intros He Hp Hf Hc Hro Hd Hs Hpc. unfold exec_one. pose proof (fo_PC f Hf) as HPC. unfold is_u32 in HPC.
  assert (is_byte (code !!! Z.to_nat (PC f))) as Hb.
  { apply Forall_lookup_total_1; [apply Hc|lia]. }
  set (op := code !!! Z.to_nat (PC f)) in *. clearbody op.
  destruct (cp_readOnly p && writes op) eqn:Ew.
  { pose proof (moved_halt f f StatusInvalidOpcode (moved_refl f Hf)) as [Hok Hg _].
    constructor; [by apply steps_ro_refl|done|done|done]. }
  destruct (isHostOp op) eqn:Eh.
  - assert (ro = true -> writes op = false) as Hw.
    { intros E. rewrite Hro, E in Ew. done. }
    pose proof (host_round e f p code op He Hp Hf Hc Hro Hd Hb Eh Hw) as H.
    destruct (execHost range run_rec e f p code op) as [[e' f']|[e' f']| |]; done.
  - destruct (step_round e f code He Hf (proj1 Hc) Hs) as (f' & -> & Hr). done.
Qed.

Lemma exec_loop_ok n e f p code :
  env_ok e -> cp_ok p -> frame_ok f -> code_ok code -> cp_readOnly p = ro -> e_depth e = depth ->
  Gas f + 1 < Z.of_nat n ->
  match exec_loop range run_rec n e f p code with
  | Ok (e', f') => steps_ro ro e e' /\ frame_ok f' /\ Gas f' <= Gas f /\ Status f' <> StatusRunning
  | Panic => True
  | _ => False
  end.
Proof.
  revert e f. induction n as [|n IH]; intros e f He Hp Hf Hc Hro Hd Hn.
  { pose proof (fo_Gas f Hf). unfold is_u64 in *. lia. }
  cbn [exec_loop]. case_bool_decide as Hrun; cbn [negb].
  2: { split; [by apply steps_ro_refl|done]. }
  destruct (Z.leb_spec (Z.of_nat (length code)) (PC f)) as [Hend|Hin].
  { split; [by apply steps_ro_refl|]. split; [by apply ok_with_Status|done]. }
  pose proof (exec_one_ok e f p code He Hp Hf Hc Hro Hd Hrun Hin) as H.
  destruct (exec_one range run_rec e f p code) as [[e1 f1]|[]| |]; cbn [mbind outcome_bind]; [|done|done].
  destruct H as [[[He1 Hgr] Hpu] Hf1 Hg1 Hlt].
  assert (e_depth e1 = depth) as Hd1 by (by rewrite (gr_depth _ _ Hgr)).
  destruct (decide (Status f1 = StatusRunning)) as [Hr1|Hr1].
  - specialize (IH e1 f1 He1 Hp Hf1 Hc Hro Hd1 ltac:(specialize (Hlt Hr1); lia)).
    destruct (exec_loop range run_rec n e1 f1 p code) as [[e2 f2]|[]| |]; [|done|done].
    destruct IH as (H2 & H3 & H4 & H5). split; [|split; [done|split; [lia|done]]].
    eapply steps_ro_trans; [|exact H2]. by split.
  - pose proof (fo_Gas f1 Hf1). unfold is_u64 in *. destruct n; [lia|]. cbn [exec_loop].
    rewrite bool_decide_eq_false_2 by done. cbn [negb]. split; [by split|]. done.
Qed.
End exec.

(** ** One call *)

(** What the callers of the precompiled contracts rely on. *)
Class PrecompileLaws (RunPrecompile : Z -> bytes -> Z -> outcome unit (bytes * Z)) : Prop :=
  precompile_ok id data gas :
    data_ok data -> is_u64 gas ->
    match RunPrecompile id data gas with
    | Ok (out, rest) => data_ok out /\ 0 <= rest <= gas
    | OutOfFuel => False
    | _ => True
    end.

Lemma frame_result_ok (L : StateAccessorLaws boundState) (f : frame) :
  frame_ok f -> data_ok (frame_result f).1 /\ (Status f <> StatusRunning -> (frame_result f).2 <> StatusRunning).
Proof.
  intros Hf. assert (data_ok []) as Hnil by (split; [constructor|cbn; lia]).
  pose proof (fo_mem f Hf) as Hm. pose proof (fo_mem_len f Hf) as Hl.
  assert (forall lo hi, data_ok (slice (Memory f) lo hi)) as Hsl.
  { intros lo hi. split; [by apply bytes_ok_slice|]. unfold slice. rewrite length_take, length_drop. lia. }
  unfold frame_result. destruct (Status f) eqn:Es; cbn [fst snd]; try done;
    repeat match goal with |- context [if ?b then _ else _] => destruct b end; cbn [fst snd]; done.
Qed.

Section call.
  Context (range : nat -> storage_map -> list (storageKey * Uint256)).
  Context (range_perm : forall seed m, range seed m ≡ₚ map_to_list m).
  Context (RunPrecompile : Z -> bytes -> Z -> outcome unit (bytes * Z)) `{!PrecompileLaws RunPrecompile}.
  Context (run_rec : vmEnv -> callParams -> outcome Empty_set (vmEnv * callResult)).

Definition static_call (p : callParams) : Prop :=
  cp_readOnly p = true /\ is_create p = false /\ (cp_kind p = 0xf4 \/ cp_callVal p = zero256).

(** [e2] comes from [e], after the snapshot that [run] takes. *)
Definition entered (e : vmEnv) (p : callParams) (e2 : vmEnv) : Prop :=
  steps (with_state e (Snapshot (e_state e)).1) e2 /\ (static_call p -> pure e e2).

Lemma entered_steps e p e2 e3 :
  entered e p e2 -> steps e2 e3 -> (static_call p -> pure e2 e3) -> entered e p e3.
Proof. intros [H1 H2] H3 H4. split; [by eapply steps_trans|]. intros Hp. etrans; eauto. Qed.

Lemma entered_ok e p e2 : entered e p e2 -> env_ok e2.
Proof. by intros [[] _]. Qed.

(** A call that succeeds. *)
Lemma run_done e p e2 ret left :
  env_ok e -> entered e p e2 -> 0 <= left <= cp_gas p -> data_ok ret -> run_post e p e2 (CallResult ret left true).
Proof.
  intros He [H1 H2] Hl Hr. constructor; cbn; try done.
  - eapply steps_trans; [by apply snapshot_steps|done].
  - intros. by apply H2.
Qed.

(** A call that is undone. *)
Lemma run_undone e p e2 ret left rd :
  env_ok e -> entered e p e2 -> 0 <= left <= cp_gas p -> data_ok ret -> data_ok rd ->
  revert_call e2 (marks_of e) = Ok (restored e e2) /\
  run_post e p (restored e e2) (CallResult ret left false) /\
  run_post e p (with_retData (restored e e2) rd) (CallResult ret left false).
Proof.
  intros He [[H1 Hg] _] Hl Hr Hrd. split; [by apply revert_call_exact|].
  pose proof (restored_steps e e2 He H1) as Hs. split; constructor; cbn; try done.
  eapply steps_trans; [exact Hs|]. by apply with_retData_steps; [apply Hs|].
Qed.

Lemma deposit_code_ok e p e2 (f : frame) ret :
  env_ok e -> cp_ok p -> entered e p e2 -> is_create p = true -> 0 <= Gas f <= cp_gas p -> data_ok ret ->
  run_ok True (deposit_code range e2 f p (marks_of e) ret) e p.
Proof.
  intros He Hp He2 Hcr Hg Hret. pose proof (entered_ok _ _ _ He2) as Hok2.
  assert (data_ok []) as Hnil by (split; [constructor|cbn; lia]).
  assert (forall e3, steps e2 e3 -> entered e p e3) as Hext.
  { intros e3 H3. eapply entered_steps; [done|done|]. intros (_ & E & _). congruence. }
  destruct (run_undone e p e2 [] 0 [] He He2) as (Hrev & Hund & _); [pose proof (co_gas p Hp); unfold is_u64 in *; lia|done..|].
  unfold deposit_code. case_bool_decide.
  { apply run_done; [done| |done|done]. by apply Hext, with_retData_steps. }
  destruct (Z.ltb_spec maxCodeSize (Z.of_nat (length ret))); [by rewrite Hrev|].
  assert (mul64 (Z.of_nat (length ret)) gasCodeDeposit = Z.of_nat (length ret) * 200) as ->.
  { apply u64_small. unfold is_u64. lia. }
  destruct (Z.ltb_spec (Gas f) (Z.of_nat (length ret) * 200)); [by rewrite Hrev|].
  pose proof (co_gas p Hp) as Hgas. unfold is_u64 in *.
  assert (sub64 (Gas f) (Z.of_nat (length ret) * 200) = Gas f - Z.of_nat (length ret) * 200) as Hsub.
  { apply u64_small. unfold is_u64. lia. }
  apply run_done; [done| |cbn; rewrite Hsub; lia|done].
  assert (steps e2 (setCode range e2 (cp_addr p) ret)) as Hs1.
  { apply setCode_steps; [done|done|apply Hp|]. split; [apply Hret|lia]. }
  assert (steps e2 (setNonce range (setCode range e2 (cp_addr p) ret) (cp_addr p) 1)) as Hs2.
  { eapply steps_trans; [exact Hs1|]. apply setNonce_steps; [done|apply Hs1|apply Hp|]. unfold is_u64. lia. }
  apply Hext. eapply steps_trans; [exact Hs2|]. pose proof (markCreated_steps _ _ (proj1 Hs2) (co_addr p Hp)) as Hs3.
  eapply steps_trans; [exact Hs3|]. apply with_retData_steps; [apply Hs3|done].
Qed.

Context (depth : Z).
Context (rec_ok : forall e p, env_ok e -> cp_ok p -> e_depth e = depth -> run_ok True (run_rec e p) e p).

Lemma run_code_ok e p e2 code :
  env_ok e -> cp_ok p -> entered e p e2 -> code_ok code -> e_depth e = depth ->
  run_ok True (run_code range run_rec e2 p (marks_of e) code) e p.
Proof.
  intros He Hp He2 Hc Hd. pose proof (entered_ok _ _ _ He2) as Hok2. pose proof (co_gas p Hp) as Hgas.
  unfold run_code. cbv zeta. set (bs := BState _ _ _ _). set (f := Reset _ _).
  set (a := addrToU256 (cp_addr p)). set (ro := cp_readOnly p).
  assert (@frame_ok _ _ (bs_laws None a ro) f) as Hf.
  { apply Reset_ok; [done|]. constructor; cbn; try done; [by apply addrToU256_ok, Hp|apply Hok2]. }
  assert (e_depth e2 = depth) as Hd2 by (by rewrite (gr_depth _ _ (proj2 (proj1 He2)))).
  unfold execFrame. unfold is_u64 in Hgas.
  pose proof (exec_loop_ok range range_perm run_rec True depth rec_ok a ro (S (S (Z.to_nat (Gas f)))) e2 f p code
    Hok2 Hp Hf Hc eq_refl Hd2 ltac:(change (Gas f) with (cp_gas p); lia)) as H.
  change (Gas f) with (cp_gas p) in *.
  destruct (exec_loop _ _ _ _ _ _ _) as [[e3 f3]|[]| |]; cbn [mbind outcome_bind mret outcome_ret]; [|done|done].
  destruct H as ([Hs Hpu] & Hf3 & Hg3 & Hst). destruct (frame_result_ok _ f3 Hf3) as [Hret _].
  destruct (frame_result f3) as [ret status]. cbn [fst] in Hret.
  pose proof (fo_Gas f3 Hf3) as Hg0. unfold is_u64 in Hg0.
  assert (entered e p e3) as He3 by (eapply entered_steps; [done|done|]; by intros (? & _); apply Hpu).
  set (wrote := match StateDB f3 with Some b => bs_wrote b | None => false end).
  set (f4 := if wrote then with_Gas f3 0 else f3).
  assert (0 <= Gas f4 <= cp_gas p) as Hg4 by (unfold f4; destruct wrote; cbn; lia). clearbody f4.
  set (st := if wrote then StatusInvalidOpcode else status). clearbody st wrote.
  case_bool_decide as Hok; cbn [negb].
  - set (e4 := with_refund e3 _).
    assert (steps e3 e4) as Hs4 by (apply with_refund_steps; [by eapply entered_ok|apply u64_range]).
    assert (entered e p e4) as He4 by (eapply entered_steps; [done|done|done]). clearbody e4.
    destruct (is_create p) eqn:Hcr; [by apply deposit_code_ok|].
    apply run_done; [done| |done|done]. eapply entered_steps; [exact He4| |done].
    apply with_retData_steps; [by eapply entered_ok|done].
  - destruct (run_undone e p e3 ret (if bool_decide (st = StatusRevert) then Gas f4 else 0) ret He He3) as (-> & _ & Hund);
      [case_bool_decide; lia|done..|]. exact Hund.
Qed.

Lemma run_callee_ok e p e2 :
  env_ok e -> cp_ok p -> entered e p e2 -> e_depth e = depth ->
  run_ok True (run_callee range RunPrecompile run_rec e2 p (marks_of e)) e p.
Proof.
  intros He Hp He2 Hd. pose proof (entered_ok _ _ _ He2) as Hok2. pose proof (co_gas p Hp) as Hgas. unfold is_u64 in Hgas.
  assert (data_ok []) as Hnil by (split; [constructor|cbn; lia]).
  unfold run_callee. destruct (if is_create p then _ else _) as [id|].
  - pose proof (precompile_ok id (cp_data p) (cp_gas p) (co_data p Hp) (co_gas p Hp)) as Hpc.
    destruct (RunPrecompile id (cp_data p) (cp_gas p)) as [[out g]|u| |]; [| |done|done].
    + destruct Hpc as [Ho Hl]. apply run_done; [done| |done|done].
      eapply entered_steps; [done|by apply with_retData_steps|done].
    + destruct (run_undone e p e2 [] 0 [] He He2) as (-> & Hund & _); [lia|done..|]. exact Hund.
  - set (code := if is_create p || (cp_kind p =? 0xf2) || (cp_kind p =? 0xf4) then _ else _).
    assert (code_ok code) as Hc by (unfold code; destruct (_ || _); [apply Hp|by apply codeOf_ok]). clearbody code.
    destruct (_ && _); [|by apply run_code_ok].
    apply run_done; [done| |lia|done]. eapply entered_steps; [done|by apply with_retData_steps|done].
Qed.

Lemma run_entered_ok e p :
  env_ok e -> cp_ok p -> e_depth e = depth -> run_ok True (run_entered range RunPrecompile run_rec e p) e p.
Proof.
  intros He Hp Hd. unfold run_entered. cbn [Snapshot]. fold (marks_of e).
  change (Marks _ _ _ _ _) with (marks_of e).
  set (e0 := with_state e _). assert (steps e e0) as Hs0 by (by apply snapshot_steps).
  assert (entered e p e0) as He0 by (split; [by apply steps_refl, Hs0|by intros _]).
  set (e1 := if is_create p then markCreated e0 (cp_addr p) else e0).
  assert (entered e p e1) as He1.
  { unfold e1. destruct (is_create p) eqn:Hcr; [|done]. eapply entered_steps; [done|apply markCreated_steps; [apply Hs0|apply Hp]|].
    intros (_ & E & _). congruence. }
  clearbody e0 e1. set (e2 := touch (touch e1 (cp_caller p)) (cp_addr p)).
  assert (entered e p e2) as He2.
  { eapply entered_steps; [done| |done]. pose proof (entered_ok _ _ _ He1).
    pose proof (touch_steps e1 _ H (co_caller p Hp)) as Ht. eapply steps_trans; [exact Ht|].
    apply touch_steps; [apply Ht|apply Hp]. }
  clearbody e2. pose proof (entered_ok _ _ _ He2) as Hok2.
  destruct (Z.eqb_spec (cp_kind p) 0xf4) as [Hk|Hk]; [by apply run_callee_ok|].
  pose proof (transfer_steps range range_perm e2 (cp_caller p) (cp_addr p) (cp_callVal p) Hok2
    (co_caller p Hp) (co_addr p Hp) (co_val p Hp)) as Ht.
  assert (static_call p -> transfer e2 (cp_caller p) (cp_addr p) (cp_callVal p)
          = Ok (touch (touch e2 (cp_caller p)) (cp_addr p))) as Hst.
  { intros (_ & _ & [?|E]); [done|]. unfold transfer. by rewrite E. }
  destruct (transfer e2 _ _ _) as [e3|e3| |]; [| |done|done].
  - apply run_callee_ok; [done|done| |done]. eapply entered_steps; [done|done|].
    intros Hs. specialize (Hst Hs). injection Hst as ->. done.
  - destruct Ht as [Ht _]. assert (entered e p e3) as He3.
    { eapply entered_steps; [done|done|]. intros Hs. by specialize (Hst Hs). }
    pose proof (co_gas p Hp) as Hgas. unfold is_u64 in Hgas.
    destruct (run_undone e p e3 [] (cp_gas p) [] He He3) as (-> & Hund & _); [lia|split; [constructor|cbn; lia]..|]. exact Hund.
Qed.
End call.

(** ** The recursion *)

Section run.
  Context (range : nat -> storage_map -> list (storageKey * Uint256)).
  Context (range_perm : forall seed m, range seed m ≡ₚ map_to_list m).
  Context (RunPrecompile : Z -> bytes -> Z -> outcome unit (bytes * Z)) `{!PrecompileLaws RunPrecompile}.

Lemma restored_refl e : restored e e = e.
Proof. by destruct e. Qed.

Lemma with_depth_ok e d : env_ok e -> env_ok (with_depth e d).
Proof. intros []. by constructor. Qed.

(** [e.depth++] before, [e.depth--] after. *)
Lemma run_post_depth e p e' r :
  run_post (with_depth e (e_depth e + 1)) p e' r -> run_post e p (with_depth e' (e_depth e' - 1)) r.
Proof.
  intros [[He' Hg] Hl Hr Hf Hs]. pose proof (gr_depth _ _ Hg) as Hd. cbn in Hd. constructor; try done.
  - split; [by apply with_depth_ok|]. destruct Hg. constructor; cbn in *; try done. lia.
  - intros E. specialize (Hf E). rewrite Hd. rewrite Hf at 1. unfold restored, with_depth. cbn. f_equal. lia.
  - intros E1 E2 E3. destruct (Hs E1 E2 E3). by constructor.
Qed.

Lemma run_fuel_ok n e p :
  env_ok e -> cp_ok p -> (Z.to_nat (maxCallDepth - e_depth e) < n)%nat ->
  run_ok True (run_fuel range RunPrecompile n e p) e p.
Proof.
  revert e p. induction n as [|n IH]; intros e p He Hp Hn; [lia|]. cbn [run_fuel]. unfold run_body.
  pose proof (co_gas p Hp) as Hgas. unfold is_u64 in Hgas.
  destruct (Z.leb_spec maxCallDepth (e_depth e)) as [Hmax|Hlt].
  - constructor; cbn; [by apply steps_refl|lia|split; [constructor|cbn; lia]|by rewrite restored_refl|done].
  - pose proof (run_entered_ok range range_perm RunPrecompile (run_fuel range RunPrecompile n) (e_depth e + 1)) as H.
    specialize (H ltac:(intros e1 p1 He1 Hp1 Hd1; apply IH; [done|done|rewrite Hd1; lia])
                  (with_depth e (e_depth e + 1)) p (with_depth_ok _ _ He) Hp eq_refl).
    destruct (run_entered _ _ _ _ _) as [[e' r]|[]| |]; cbn [mbind outcome_bind mret outcome_ret run_ok] in *; [|done|done].
    by apply run_post_depth.
Qed.

(** [run]: every call is as [run_post] says, or panics. *)
Lemma run_spec e p :
  env_ok e -> cp_ok p -> run_ok True (run range RunPrecompile e p) e p.
Proof. intros He Hp. apply run_fuel_ok; [done|done|lia]. Qed.
End run.
