(* ===== verification/Precompiles.v ===== *)
(** * The precompiled contracts: [pkg/c2block/precompiles.go]

    [RunPrecompile] and the ten contracts: their gas, their parsing of the input
    and their results. *)

From S2P Require Import Prelude Uint256 ModArith Keccak StateRoot Secp256k1 TxRlp CallContext Hashes Bn254 Bls12.

(** [OOG] and [Exec] are [ErrPrecompileOOG] and [ErrPrecompileExec]. *)
Inductive pc_err : Type := OOG | Exec.

Abbreviation pcM := (outcome pc_err).

(** Calls of functions that cannot fail, or whose failure is nil. *)
Definition total {A} (m : outcome unit A) : pcM A :=
  match m with Ok a => Ok a | Err _ => Err Exec | Panic => Panic | OutOfFuel => OutOfFuel end.
Definition checked {A} (m : option A) : pcM A := match m with Some a => Ok a | None => Err Exec end.

Definition chargePC (gas cost : Z) : pcM Z := if gas <? cost then Err OOG else Ok (gas - cost).

(** The first [n] bytes of the input, completed with zeros. *)
Definition pad32 (b : bytes) (n : nat) : bytes :=
  if (n <=? length b)%nat then take n b else copy_at (zeros n) 0 b.

(** ** Recovery and hashes *)

Definition pcEcrecover (input : bytes) (gas : Z) : pcM (bytes * Z) :=
  left ← chargePC gas 3000;
  let b := pad32 input 128 in
  let hash := slice b 0 32 in
  let v := b !!! 63%nat in
  let r := slice b 64 96 in
  let s := slice b 96 128 in
  match EcRecover hash v r s with
  | Ok pub => Ok (copy_at (zeros 32) 12 (drop 12 (keccak32 pub)), left)
  | Err _ => Ok ([], left)
  | Panic => Panic
  | OutOfFuel => OutOfFuel
  end.

Definition pcSHA256 (input : bytes) (gas : Z) : pcM (bytes * Z) :=
  let cost := add64 60 (mul64 12 (words32 (Z.of_nat (length input)))) in
  left ← chargePC gas cost;
  Ok (Sum256 input, left).

Definition pcRIPEMD160 (input : bytes) (gas : Z) : pcM (bytes * Z) :=
  let cost := add64 600 (mul64 120 (words32 (Z.of_nat (length input)))) in
  left ← chargePC gas cost;
  Ok (copy_at (zeros 32) 12 (ripemd160Sum input), left).

Definition pcIdentity (input : bytes) (gas : Z) : pcM (bytes * Z) :=
  let cost := add64 15 (mul64 3 (words32 (Z.of_nat (length input)))) in
  left ← chargePC gas cost;
  Ok (copy_at (zeros (length input)) 0 input, left).

(** ** Modular exponentiation *)

(** [big.Int.BitLen] and [big.Int.Bytes] of a number that is not negative. *)
Definition BitLen (n : Z) : Z := if n =? 0 then 0 else Z.log2 n + 1.
Definition big_bytes (n : Z) : bytes := be_bytes (Z.to_nat ((BitLen n + 7) / 8)) n.

(** [big.Int.Uint64]: the low 64 bits. *)
Definition read_len (b : bytes) : Z := u64 (be_val b).

Definition modexp_iter (expLen : Z) (exp : bytes) : Z :=
  if expLen <=? 32 then
    let e := be_val exp in if e =? 0 then 0 else BitLen e - 1
  else
    let iter := mul64 8 (u64 (expLen - 32)) in
    let n := Nat.min (length exp) 32 in
    let head := copy_at (zeros 32) (32 - n) (take n exp) in
    let e := be_val head in
    if negb (e =? 0) then add64 iter (BitLen e - 1) else iter.

Definition modexpGas (baseLen expLen modLen : Z) (exp : bytes) : Z :=
  let mlen := if baseLen <? modLen then modLen else baseLen in
  let words := (mlen + 7) / 8 in
  let mult := mul64 words words in
  let gas := mul64 mult (modexp_iter expLen exp) / 3 in
  if gas <? 200 then 200 else gas.

Definition pcModexp (input : bytes) (gas : Z) : pcM (bytes * Z) :=
  let b := pad32 input 96 in
  let baseLen := read_len (slice b 0 32) in
  let expLen := read_len (slice b 32 64) in
  let modLen := read_len (slice b 64 96) in
  if (1024 <? baseLen) || (1024 <? expLen) || (1024 <? modLen) then Err Exec
  else
    let base_end := (96 + Z.to_nat baseLen)%nat in
    let exp_end := (base_end + Z.to_nat expLen)%nat in
    let need := (exp_end + Z.to_nat modLen)%nat in
    let buf := pad32 input need in
    let base := slice buf 96 base_end in
    let exp := slice buf base_end exp_end in
    let mod_ := slice buf exp_end need in
    left ← chargePC gas (modexpGas baseLen expLen modLen exp);
    let out := zeros (Z.to_nat modLen) in
    if modLen =? 0 then Ok (out, left)
    else
      let m := be_val mod_ in
      if m =? 0 then Ok (out, left)
      else
        let r := pow_mod m (be_val base) (be_val exp) in
        let rb := big_bytes r in
        let rb := if modLen <? Z.of_nat (length rb) then drop (length rb - Z.to_nat modLen) rb else rb in
        Ok (copy_at out (Z.to_nat modLen - length rb) rb, left).

(** ** bn254 *)

Definition pcEcAdd (input : bytes) (gas : Z) : pcM (bytes * Z) :=
  left ← chargePC gas 150;
  let b := pad32 input 128 in
  p ← checked (g1Unmarshal (slice b 0 64));
  q ← checked (g1Unmarshal (slice b 64 128));
  r ← total (g1Add p q);
  Ok (g1Marshal r, left).

Definition pcEcMul (input : bytes) (gas : Z) : pcM (bytes * Z) :=
  left ← chargePC gas 6000;
  let b := pad32 input 96 in
  p ← checked (g1Unmarshal (slice b 0 64));
  r ← total (g1Mul p (be_val (slice b 64 96)));
  Ok (g1Marshal r, left).

(** The loop over the pairs, from the one at [off]. *)
Fixpoint pairing_loop (input : bytes) (k : nat) (off : nat) (acc : f12) : pcM f12 :=
  match k with
  | O => Ok acc
  | S k =>
      p ← checked (g1Unmarshal (slice input off (off + 64)));
      q ← checked (g2Unmarshal (slice input (off + 64) (off + 192)));
      if g1inf p || g2inf q then pairing_loop input k (off + 192) acc
      else
        l ← total (miller p q);
        pairing_loop input k (off + 192) (fp12Mul acc l)
  end.

(** The pairs, the final exponentiation and the answer. *)
Definition pairing_result (input : bytes) (k : nat) : pcM bytes :=
  acc ← pairing_loop input k 0 fp12One;
  acc ← total (finalExp acc);
  let out := zeros 32 in
  Ok (if fp12IsOne acc then <[31%nat := 1]> out else out).

Definition pcEcPairing (input : bytes) (gas : Z) : pcM (bytes * Z) :=
  if negb (length input mod 192 =? 0)%nat then Err Exec
  else
    let k := (length input / 192)%nat in
    let cost := add64 45000 (mul64 (Z.of_nat k) 34000) in
    left ← chargePC gas cost;
    out ← pairing_result input k;
    Ok (out, left).

(** ** BLAKE2 *)

Definition pcBlake2F (input : bytes) (gas : Z) : pcM (bytes * Z) :=
  if negb (length input =? 213)%nat then Err Exec
  else
    let rounds := be_val (slice input 0 4) in
    left ← chargePC gas rounds;
    if negb (input !!! 212%nat =? 0) && negb (input !!! 212%nat =? 1) then Err Exec
    else
      let h := map (fun i => le_val (slice input (4 + i * 8) (12 + i * 8))) (seq 0 8) in
      let m := map (fun i => le_val (slice input (68 + i * 8) (76 + i * 8))) (seq 0 16) in
      let t0 := le_val (slice input 196 204) in
      let t1 := le_val (slice input 204 212) in
      let f := input !!! 212%nat =? 1 in
      Ok (mjoin (map (le_bytes 8) (blake2F h m t0 t1 f rounds)), left).

(** ** Point evaluation *)

(** The hash of a commitment with its version byte. *)
Definition versioned_hash (commit : bytes) : bytes := <[0%nat := 1]> (Sum256 commit).

Definition pcKZG (input : bytes) (gas : Z) : pcM (bytes * Z) :=
  left ← chargePC gas 50000;
  if negb (length input =? 192)%nat then Err Exec
  else
    let versioned := slice input 0 32 in
    let z := slice input 32 64 in
    let y := slice input 64 96 in
    let commit := slice input 96 144 in
    let proof := slice input 144 192 in
    if negb (versioned !!! 0%nat =? 1) then Err Exec
    else if negb (bool_decide (versioned_hash commit = versioned)) then Err Exec
    else if negb (blsScalarOK z) || negb (blsScalarOK y) then Err Exec
    else
      c ← checked (blsG1Decompress commit);
      pi ← checked (blsG1Decompress proof);
      ok ← total (verifyKZG c z y pi);
      if negb ok then Err Exec
      else
        let out := copy_at (zeros 64) 24 (be_bytes 8 4096) in
        Ok (copy_at out 32 blsModulusBytes, left).

(** ** Dispatch *)

Definition RunPrecompile (addr : Z) (input : bytes) (gas : Z) : pcM (bytes * Z) :=
  if addr =? 1 then pcEcrecover input gas
  else if addr =? 2 then pcSHA256 input gas
  else if addr =? 3 then pcRIPEMD160 input gas
  else if addr =? 4 then pcIdentity input gas
  else if addr =? 5 then pcModexp input gas
  else if addr =? 6 then pcEcAdd input gas
  else if addr =? 7 then pcEcMul input gas
  else if addr =? 8 then pcEcPairing input gas
  else if addr =? 9 then pcBlake2F input gas
  else if addr =? 10 then pcKZG input gas
  else Err Exec.

(** What a message call sees: it only tests that the error is not nil. *)
Definition run_precompile (addr : Z) (input : bytes) (gas : Z) : outcome unit (bytes * Z) :=
  match RunPrecompile addr input gas with
  | Ok r => Ok r
  | Err _ => Err tt
  | Panic => Panic
  | OutOfFuel => OutOfFuel
  end.

Example identity_abc : RunPrecompile 4 abc 1000 = Ok (abc, 982).
Proof. vm_compute. reflexivity. Qed.

(** [3 ^ 5 mod 7 = 5], with lengths of one byte each. *)
Example modexp_3_5_7 :
  RunPrecompile 5 (be_bytes 32 1 ++ be_bytes 32 1 ++ be_bytes 32 1 ++ [3; 5; 7]) 1000 = Ok ([5], 800).
Proof. vm_compute. reflexivity. Qed.

(** [G + G] on bn254. *)
Example ecadd_gg :
  RunPrecompile 6 (be_bytes 32 1 ++ be_bytes 32 2 ++ be_bytes 32 1 ++ be_bytes 32 2) 1000 =
  Ok (be_bytes 32 0x030644e72e131a029b85045b68181585d97816a916871ca8d3c208c16d87cfd3 ++
      be_bytes 32 0x15ed738c0e0a7c92e7845f96b2ae9c0a68a6a449e3538fc7ff3ebf7a5a18a2c4, 850).
Proof. vm_compute. reflexivity. Qed.
