(* ===== verification/PrecompileSpec.v ===== *)
(** * The precompiled contracts: what each one returns and charges *)

From S2P Require Import Prelude Uint256 ModArith Primes AffineCurve Keccak TxRlp Secp256k1 SecpSpec CallContext CallEnv CallSpec StateRootSpec.
From S2P Require Import Hashes HashSpec Bn254 BnTower BnCurve BnPairing Bls12 BlsSpec Precompiles.
From Stdlib Require Import Zdivisibility.

(** ** The input

    [window input off n]: [n] bytes from [off], as if zeros followed the input. *)
Definition window (input : bytes) (off n : nat) : bytes := take n (drop off input ++ zeros n).

Lemma length_window input off n : length (window input off n) = n.
Proof. unfold window, zeros. rewrite length_take, length_app, length_replicate. lia. Qed.

Lemma window_ok input off n : bytes_ok input -> bytes_ok (window input off n).
Proof. intros H. apply bytes_ok_take, bytes_ok_app; [by apply bytes_ok_drop|apply zeros_ok]. Qed.

(** Two slices are equal when they have the same bytes. *)
Lemma pad32_window input n : pad32 input n = window input 0 n.
Proof.
  unfold pad32, window. rewrite drop_0. destruct (Nat.leb_spec n (length input)) as [H|H].
  - by rewrite take_app_le by lia.
  - rewrite copy_at_start by (unfold zeros; rewrite length_replicate; lia).
    rewrite take_app, (take_ge input) by lia. f_equal. unfold zeros. rewrite drop_replicate, take_replicate.
    f_equal. lia.
Qed.

Lemma slice_window input N lo hi : (lo <= hi <= N)%nat ->
  slice (window input 0 N) lo hi = window input lo (hi - lo).
Proof.
  intros H. unfold slice, window. rewrite drop_0, take_drop_commute, take_take.
  replace ((lo + (hi - lo)) `min` N)%nat with (lo + (hi - lo))%nat by lia. rewrite <- take_drop_commute.
  destruct (Nat.le_gt_cases lo (length input)) as [Hl|Hl].
  - rewrite drop_app_le by lia. unfold zeros.
    rewrite !take_app, !take_replicate. do 2 f_equal. rewrite length_drop. lia.
  - rewrite drop_app_ge by lia. rewrite (drop_ge input) by lia. cbn [app]. unfold zeros.
    rewrite drop_replicate, !take_replicate. f_equal. lia.
Qed.

Lemma pad32_slice input N lo hi : (lo <= hi <= N)%nat -> slice (pad32 input N) lo hi = window input lo (hi - lo).
Proof. intros H. rewrite pad32_window. by apply slice_window. Qed.

Lemma pad32_byte input N i : (i < N)%nat -> pad32 input N !!! i = default 0 (input !! i).
Proof.
  intros Hi. rewrite pad32_window. unfold window. rewrite drop_0, list_lookup_total_alt, lookup_take.
  rewrite decide_True by lia. destruct (decide (i < length input)%nat) as [H|H].
  - by rewrite lookup_app_l.
  - rewrite lookup_app_r, (lookup_ge_None_2 input) by lia. unfold zeros. by rewrite lookup_replicate_2 by lia.
Qed.

(** ** Gas *)

Lemma chargePC_spec gas cost :
  chargePC gas cost = if decide (cost <= gas) then Ok (gas - cost) else Err OOG.
Proof. unfold chargePC. case_decide; ztest; try done; lia. Qed.

Lemma words32_exact n : 0 <= n < 2 ^ 60 -> words32 n = (n + 31) / 32.
Proof.
  intros Hn. unfold words32, add64. destruct (Z.leb_spec n 0); [assert (n = 0) as -> by lia; reflexivity|].
  rewrite (u64_small n) by (unfold is_u64; lia). by rewrite u64_small by (unfold is_u64; lia).
Qed.

(** A base price and a price by word, as the code computes it, does not wrap around. *)
Lemma word_cost base per n : 0 <= n < 2 ^ 56 -> 0 <= base < 1000 -> 0 <= per < 128 ->
  add64 base (mul64 per (words32 n)) = base + per * ((n + 31) / 32).
Proof.
  intros Hn Hb Hp. rewrite words32_exact by lia. assert (0 <= (n + 31) / 32 < 2 ^ 52) by dlia.
  assert (0 <= per * ((n + 31) / 32) < 2 ^ 60) by nia.
  unfold add64, mul64. rewrite (u64_small (per * _)) by (unfold is_u64; lia). by rewrite u64_small by (unfold is_u64; lia).
Qed.

(** The bytes that a contract reads, and the price of a call. *)
Definition pc_iterations (elen : Z) (exp : bytes) : Z :=
  let head := be_val (take 32 exp) in
  (if elen <=? 32 then 0 else 8 * (elen - 32)) + (if head =? 0 then 0 else Z.log2 head).

Definition modexp_len (input : bytes) (off : nat) : Z := be_val (window input off 32) mod B64.

Definition modexp_cost (input : bytes) : Z :=
  let bl := modexp_len input 0 in
  let el := modexp_len input 32 in
  let ml := modexp_len input 64 in
  let words := (Z.max bl ml + 7) / 8 in
  Z.max 200 (words * words * pc_iterations el (window input (96 + Z.to_nat bl) (Z.to_nat el)) / 3).

Definition pc_cost (id : Z) (input : bytes) : Z :=
  let words := (Z.of_nat (length input) + 31) / 32 in
  if id =? 1 then 3000
  else if id =? 2 then 60 + 12 * words
  else if id =? 3 then 600 + 120 * words
  else if id =? 4 then 15 + 3 * words
  else if id =? 5 then modexp_cost input
  else if id =? 6 then 150
  else if id =? 7 then 6000
  else if id =? 8 then 45000 + 34000 * (Z.of_nat (length input) / 192)
  else if id =? 9 then be_val (slice input 0 4)
  else 50000.

(** ** Modular exponentiation *)

Lemma BitLen_log2 n : n <> 0 -> BitLen n - 1 = Z.log2 n.
Proof. intros H. unfold BitLen. destruct (Z.eqb_spec n 0); [done|lia]. Qed.

Lemma modexp_iter_spec el exp : bytes_ok exp -> Z.of_nat (length exp) = el -> el <= 1024 ->
  modexp_iter el exp = pc_iterations el exp /\ 0 <= pc_iterations el exp < 8192.
Proof.
  intros Hb Hl Hel. unfold modexp_iter, pc_iterations. set (head := be_val (take 32 exp)).
  assert (0 <= head < 2 ^ 256) as Hh.
  { pose proof (be_val_range (take 32 exp) (bytes_ok_take 32 exp Hb)) as [H1 H2]. split; [exact H1|].
    eapply Z.lt_le_trans; [exact H2|]. change (2 ^ 256) with (256 ^ 32). apply Z.pow_le_mono_r; [lia|].
    rewrite length_take. lia. }
  assert (0 <= (if head =? 0 then 0 else Z.log2 head) < 256) as Hlog.
  { destruct (Z.eqb_spec head 0); [lia|]. split; [apply Z.log2_nonneg|]. apply Z.log2_lt_pow2; lia. }
  destruct (Z.leb_spec el 32) as [H32|H32].
  - assert (take 32 exp = exp) as E by (apply take_ge; lia). unfold head in *. rewrite E in *.
    rewrite Z.add_0_l. split; [|lia]. destruct (Z.eqb_spec (be_val exp) 0); [done|by apply BitLen_log2].
  - replace (length exp `min` 32)%nat with 32%nat by lia. rewrite Nat.sub_diag, copy_at_start.
    2: { rewrite length_take, Nat.min_l by lia. done. }
    rewrite length_take, Nat.min_l, drop_ge, app_nil_r by (done || lia). fold head.
    unfold mul64, add64. rewrite (u64_small (el - 32)), (u64_small (8 * _)) by (unfold is_u64; lia).
    destruct (Z.eqb_spec head 0) as [E|E]; cbn [negb]; [lia|]. rewrite BitLen_log2 by exact E.
    rewrite u64_small by (unfold is_u64; lia). lia.
Qed.

Lemma modexpGas_spec bl el ml exp : bytes_ok exp -> Z.of_nat (length exp) = el ->
  0 <= bl <= 1024 -> el <= 1024 -> 0 <= ml <= 1024 ->
  modexpGas bl el ml exp =
    Z.max 200 ((Z.max bl ml + 7) / 8 * ((Z.max bl ml + 7) / 8) * pc_iterations el exp / 3).
Proof.
  intros Hb Hl Hbl Hel Hml. unfold modexpGas. destruct (modexp_iter_spec el exp Hb Hl Hel) as [-> Hi].
  replace (if bl <? ml then ml else bl) with (Z.max bl ml) by (destruct (Z.ltb_spec bl ml); lia).
  set (w := (Z.max bl ml + 7) / 8). assert (0 <= w <= 128) as Hw by (unfold w; dlia).
  assert (0 <= w * w <= 16384) as Hww by nia. assert (0 <= w * w * pc_iterations el exp < 2 ^ 28) as Hwi by nia.
  unfold mul64. rewrite (u64_small (w * w)), (u64_small (w * w * _)) by (unfold is_u64; lia).
  destruct (Z.ltb_spec (w * w * pc_iterations el exp / 3) 200); lia.
Qed.

(** [big.Int.Bytes] in the tail of a buffer: the number on the width of the buffer. *)
Lemma big_bytes_tail n r : 0 <= r < 256 ^ Z.of_nat n ->
  (length (big_bytes r) <= n)%nat /\
  copy_at (zeros n) (n - length (big_bytes r)) (big_bytes r) = be_bytes n r.
Proof.
  intros Hr. unfold big_bytes. rewrite length_be_bytes. set (k := Z.to_nat ((BitLen r + 7) / 8)).
  assert ((k <= n)%nat /\ r < 256 ^ Z.of_nat k) as [Hk Hrk].
  { unfold k, BitLen. destruct (Z.eqb_spec r 0) as [->|Hr0]; [split; [apply Nat.le_0_l|reflexivity]|].
    pose proof (Z.log2_spec r ltac:(lia)) as [H1 H2]. pose proof (Z.log2_nonneg r) as Hn.
    assert (Z.log2 r < 8 * Z.of_nat n) as Hlt.
    { apply Z.log2_lt_pow2; [lia|]. rewrite Z.pow_mul_r by lia. exact (proj2 Hr). }
    split; [apply Nat2Z.inj_le; rewrite Z2Nat.id by dlia; dlia|].
    rewrite Z2Nat.id by dlia. change 256 with (2 ^ 8). rewrite <- Z.pow_mul_r by dlia.
    eapply Z.lt_le_trans; [exact H2|]. apply Z.pow_le_mono_r; dlia. }
  split; [exact Hk|]. unfold copy_at. rewrite (take_ge (be_bytes k r)) by (unfold zeros; rewrite length_be_bytes, length_replicate; lia).
  rewrite (drop_ge (zeros n)) by (unfold zeros; rewrite length_be_bytes, length_replicate; lia). rewrite app_nil_r.
  apply be_val_inj.
  - apply bytes_ok_app; [apply bytes_ok_take, zeros_ok|apply be_bytes_ok].
  - apply be_bytes_ok.
  - unfold zeros. rewrite length_app, length_take, length_replicate, !length_be_bytes. lia.
  - unfold zeros. rewrite take_replicate. change (replicate ?m 0) with (zeros m). rewrite be_val_zeros, !be_val_bytes.
    rewrite !Z.mod_small by lia. reflexivity.
Qed.

(** The value of the contract. *)
Definition modexp_value (input : bytes) : bytes :=
  let bl := Z.to_nat (modexp_len input 0) in
  let el := Z.to_nat (modexp_len input 32) in
  let ml := Z.to_nat (modexp_len input 64) in
  let base := be_val (window input 96 bl) in
  let exp := be_val (window input (96 + bl) el) in
  let m := be_val (window input (96 + bl + el) ml) in
  if m =? 0 then zeros ml else be_bytes ml (base ^ exp mod m).

Lemma be_val_nil_window input off : be_val (window input off 0) = 0.
Proof. reflexivity. Qed.

Lemma pcModexp_spec input gas : bytes_ok input ->
  pcModexp input gas =
    if decide (modexp_len input 0 <= 1024 /\ modexp_len input 32 <= 1024 /\ modexp_len input 64 <= 1024) then
      if decide (modexp_cost input <= gas) then Ok (modexp_value input, gas - modexp_cost input) else Err OOG
    else Err Exec.
Proof.
  intros Hb. unfold pcModexp. cbv zeta. rewrite !(pad32_slice input 96) by lia.
  change (read_len (window input 0 (32 - 0))) with (modexp_len input 0).
  change (read_len (window input 32 (64 - 32))) with (modexp_len input 32).
  change (read_len (window input 64 (96 - 64))) with (modexp_len input 64).
  assert (forall off, 0 <= modexp_len input off) as Hpos by (intros; apply Z.mod_pos_bound; lia).
  pose proof (Hpos 0%nat) as H0. pose proof (Hpos 32%nat) as H1. pose proof (Hpos 64%nat) as H2. clear Hpos.
  unfold modexp_cost, modexp_value. cbv zeta.
  generalize dependent (modexp_len input 0). intros bl H0. generalize dependent (modexp_len input 32). intros el H1.
  generalize dependent (modexp_len input 64). intros ml H2.
  destruct (Z.ltb_spec 1024 bl) as [Hbl|Hbl]; cbn [orb]; [by rewrite decide_False by lia|].
  destruct (Z.ltb_spec 1024 el) as [Hel|Hel]; cbn [orb]; [by rewrite decide_False by lia|].
  destruct (Z.ltb_spec 1024 ml) as [Hml|Hml]; cbn [orb]; [by rewrite decide_False by lia|].
  rewrite decide_True by lia. rewrite !pad32_slice by lia.
  replace (96 + Z.to_nat bl - 96)%nat with (Z.to_nat bl) by lia.
  replace (96 + Z.to_nat bl + Z.to_nat el - (96 + Z.to_nat bl))%nat with (Z.to_nat el) by lia.
  replace (96 + Z.to_nat bl + Z.to_nat el + Z.to_nat ml - (96 + Z.to_nat bl + Z.to_nat el))%nat with (Z.to_nat ml) by lia.
  set (exp := window input (96 + Z.to_nat bl) (Z.to_nat el)).
  assert (bytes_ok exp) as He by apply window_ok, Hb.
  rewrite (modexpGas_spec bl el ml exp He) by (lia || (unfold exp; rewrite length_window; lia)).
  rewrite chargePC_spec. case_decide; [|done]. cbn [mbind outcome_bind].
  set (m := be_val (window input (96 + Z.to_nat bl + Z.to_nat el) (Z.to_nat ml))).
  destruct (Z.eqb_spec ml 0) as [Ez|Ez].
  { assert (m = 0) as -> by (unfold m; rewrite Ez; reflexivity). done. }
  destruct (Z.eqb_spec m 0) as [|Hm]; [done|].
  assert (0 < m < 256 ^ Z.of_nat (Z.to_nat ml)) as Hmr.
  { pose proof (be_val_range _ (window_ok input (96 + Z.to_nat bl + Z.to_nat el) (Z.to_nat ml) Hb)) as Hr.
    rewrite length_window in Hr. fold m in Hr. lia. }
  rewrite pow_mod_spec by apply (be_val_range exp He). set (r := _ mod m).
  assert (0 <= r < 256 ^ Z.of_nat (Z.to_nat ml)) as Hr by (pose proof (Z.mod_pos_bound (be_val (window input 96 (Z.to_nat bl)) ^ be_val exp) m); lia).
  destruct (big_bytes_tail (Z.to_nat ml) r Hr) as [Hlen E].
  destruct (Z.ltb_spec ml (Z.of_nat (length (big_bytes r)))); [lia|]. by rewrite E.
Qed.

(** ** Hashes, identity and recovery *)

Lemma tail_copy n (d : bytes) : (length d <= n)%nat -> copy_at (zeros n) (n - length d) d = zeros (n - length d) ++ d.
Proof.
  intros H. replace n with (length (zeros n)) at 2 by apply length_replicate.
  rewrite copy_at_end by (unfold zeros; rewrite length_replicate; lia).
  unfold zeros. rewrite length_replicate, take_replicate. do 2 f_equal. lia.
Qed.

(** The price of a contract as the code computes it, on 64 bits. *)
Definition word_price (base per : Z) (input : bytes) : Z := add64 base (mul64 per (words32 (Z.of_nat (length input)))).

Lemma pcSHA256_spec input gas :
  pcSHA256 input gas =
    if decide (word_price 60 12 input <= gas) then Ok (Sum256 input, gas - word_price 60 12 input) else Err OOG.
Proof. unfold pcSHA256. change (add64 60 _) with (word_price 60 12 input). rewrite chargePC_spec. by case_decide. Qed.

Lemma pcRIPEMD160_spec input gas :
  pcRIPEMD160 input gas =
    if decide (word_price 600 120 input <= gas)
    then Ok (zeros 12 ++ ripemd160Sum input, gas - word_price 600 120 input) else Err OOG.
Proof.
  unfold pcRIPEMD160. change (add64 600 _) with (word_price 600 120 input). rewrite chargePC_spec.
  pose proof (tail_copy 32 (ripemd160Sum input)) as Ht. rewrite length_ripemd160Sum in Ht.
  change (32 - 20)%nat with 12%nat in Ht. rewrite Ht by lia. by case_decide.
Qed.

Lemma pcIdentity_spec input gas :
  pcIdentity input gas =
    if decide (word_price 15 3 input <= gas) then Ok (input, gas - word_price 15 3 input) else Err OOG.
Proof.
  unfold pcIdentity. change (add64 15 _) with (word_price 15 3 input). rewrite chargePC_spec.
  rewrite copy_at_start by (unfold zeros; by rewrite length_replicate).
  rewrite drop_ge by (unfold zeros; by rewrite length_replicate). rewrite app_nil_r. by case_decide.
Qed.

(** The signature in the input: digest, recovery byte, [r] and [s]. *)
Definition input_recovers (input : bytes) (Q : apoint) : Prop :=
  exists recid, parseRecid (default 0 (input !! 63%nat)) = Some recid /\
    recovers (be_val (window input 0 32)) (be_val (window input 64 32)) (be_val (window input 96 32)) recid Q.

Definition point_address (x y : Z) : bytes := zeros 12 ++ drop 12 (keccak32 (be_bytes 32 x ++ be_bytes 32 y)).

Lemma pcEcrecover_spec input gas : bytes_ok input ->
  pcEcrecover input gas = Err OOG /\ gas < 3000 \/
  3000 <= gas /\ exists out, pcEcrecover input gas = Ok (out, gas - 3000) /\
    ((exists x y, input_recovers input (Some (x, y)) /\ out = point_address x y) \/
     out = [] /\ forall Q, input_recovers input Q -> Q = None).
Proof.
  intros Hb. unfold pcEcrecover. rewrite chargePC_spec. case_decide; [|left; split; [done|lia]].
  right. split; [done|]. cbn [mbind outcome_bind]. rewrite !pad32_slice, pad32_byte by lia.
  change (32 - 0)%nat with 32%nat. change (96 - 64)%nat with 32%nat. change (128 - 96)%nat with 32%nat.
  unfold input_recovers. set (v := default 0 _). set (z := window input 0 32). set (r := window input 64 32). set (s := window input 96 32).
  assert (bytes_ok z /\ bytes_ok r /\ bytes_ok s) as (Hz & Hr & Hs) by (split; [|split]; by apply window_ok).
  assert (length z = 32%nat /\ length r = 32%nat /\ length s = 32%nat) as (Lz & Lr & Ls)
    by (split; [|split]; apply length_window).
  destruct (parseRecid v) as [recid|] eqn:Ev.
  2: { assert (EcRecover z v r s = Err tt) as -> by (unfold EcRecover; by rewrite Lz, Lr, Ls, Ev).
    exists []. split; [done|]. right. split; [done|]. intros Q (recid & Hrec & _). discriminate Hrec. }
  pose proof (EcRecover_body z r s v recid Hz Hr Hs Lz Lr Ls Ev) as HR.
  destruct (EcRecover z v r s) as [pub|[]| |]; [| |destruct HR..].
  - destruct HR as (x & y & HQ & _ & ->). eexists. split; [reflexivity|]. left. exists x, y.
    split; [exists recid; by split|]. unfold point_address.
    pose proof (tail_copy 32 (drop 12 (keccak32 (be_bytes 32 x ++ be_bytes 32 y)))) as Ht.
    rewrite length_drop in Ht. unfold keccak32 in *. rewrite length_Keccak256 in Ht.
    change (32 - (32 - 12))%nat with 12%nat in Ht. apply Ht. lia.
  - exists []. split; [done|]. right. split; [done|]. intros Q (recid' & [= <-] & HQ). exact (HR Q HQ).
Qed.

(** ** bn254 *)

Lemma pcEcAdd_spec input gas : bytes_ok input ->
  pcEcAdd input gas =
    if decide (150 <= gas) then
      match bn_decode (window input 0 64), bn_decode (window input 64 64) with
      | Some P, Some Q => Ok (bn_encode (ec_add bnP P Q), gas - 150)
      | _, _ => Err Exec
      end
    else Err OOG.
Proof.
  intros Hb. unfold pcEcAdd. rewrite chargePC_spec. case_decide; [|done]. cbn [mbind outcome_bind].
  rewrite !pad32_slice by lia. change (64 - 0)%nat with 64%nat. change (128 - 64)%nat with 64%nat.
  pose proof (g1Unmarshal_spec (window input 0 64) (window_ok input 0 64 Hb) (length_window input 0 64)) as Hp.
  destruct (g1Unmarshal (window input 0 64)) as [p|]; cbn [checked mbind outcome_bind]; [|by rewrite Hp].
  destruct Hp as [-> Hp].
  pose proof (g1Unmarshal_spec (window input 64 64) (window_ok input 64 64 Hb) (length_window input 64 64)) as Hq.
  destruct (g1Unmarshal (window input 64 64)) as [q|]; cbn [checked mbind outcome_bind]; [|by rewrite Hq].
  destruct Hq as [-> Hq]. destruct (g1Add_spec p q Hp Hq) as (r & -> & Hr). cbn [total mbind outcome_bind].
  by rewrite g1Marshal_spec, Hr.
Qed.

Lemma pcEcMul_spec input gas : bytes_ok input ->
  pcEcMul input gas =
    if decide (6000 <= gas) then
      match bn_decode (window input 0 64) with
      | Some P => Ok (bn_encode (ec_scale bnP (be_val (window input 64 32)) P), gas - 6000)
      | None => Err Exec
      end
    else Err OOG.
Proof.
  intros Hb. unfold pcEcMul. rewrite chargePC_spec. case_decide; [|done]. cbn [mbind outcome_bind].
  rewrite !pad32_slice by lia. change (64 - 0)%nat with 64%nat. change (96 - 64)%nat with 32%nat.
  pose proof (g1Unmarshal_spec (window input 0 64) (window_ok input 0 64 Hb) (length_window input 0 64)) as Hp.
  destruct (g1Unmarshal (window input 0 64)) as [p|]; cbn [checked mbind outcome_bind]; [|by rewrite Hp].
  destruct Hp as [-> Hp].
  destruct (g1Mul_spec p (be_val (window input 64 32)) Hp) as (r & -> & Hr).
  { apply be_val_range. by apply window_ok. }
  cbn [total mbind outcome_bind]. by rewrite g1Marshal_spec, Hr.
Qed.

(** The pairs of the input of the pairing. *)
Definition pair_g1 (input : bytes) (i : nat) : bytes := slice input (i * 192) (i * 192 + 64).
Definition pair_g2 (input : bytes) (i : nat) : bytes := slice input (i * 192 + 64) (i * 192 + 192).

(** A pair that decodes, and one whose double-and-add chain takes a tangent at a point of order two. *)
Definition pair_parses (input : bytes) (i : nat) : Prop :=
  exists P q, bn_decode (pair_g1 input i) = Some P /\ g2_decode (pair_g2 input i) = Some q.
Definition pair_panics (input : bytes) (i : nat) : Prop :=
  exists P q, bn_decode (pair_g1 input i) = Some (Some P) /\ g2_decode (pair_g2 input i) = Some q /\
    g2inf q = false /\ meets_order_two q.

Lemma length_pair_g2 input i : (i < length input / 192)%nat -> length (pair_g2 input i) = 128%nat.
Proof. intros Hi. pose proof (Nat.Div0.mul_div_le (length input) 192). unfold pair_g2. rewrite length_slice; lia. Qed.

Lemma g1_point_finite p : g1inf p = false -> exists P, g1_point p = Some P.
Proof. unfold g1_point. intros ->. by eexists. Qed.

Lemma pairing_loop_spec input k : forall i acc, bytes_ok input -> unit12 acc -> ((i + k) * 192 <= length input)%nat ->
  match pairing_loop input k (i * 192) acc with
  | Ok f => unit12 f /\ forall j, (i <= j < i + k)%nat -> pair_parses input j
  | Err e => e = Exec /\ exists j, (i <= j < i + k)%nat /\ ~ pair_parses input j
  | Panic => exists j, (i <= j < i + k)%nat /\ pair_panics input j
  | OutOfFuel => False
  end.
Proof.
  induction k as [|k IH]; intros i acc Hb Hacc Hlen; cbn [pairing_loop]; [split; [exact Hacc|lia]|].
  change (slice input (i * 192) (i * 192 + 64)) with (pair_g1 input i).
  change (slice input (i * 192 + 64) (i * 192 + 192)) with (pair_g2 input i).
  replace (i * 192 + 192)%nat with (S i * 192)%nat by lia.
  assert (bytes_ok (pair_g1 input i) /\ bytes_ok (pair_g2 input i)) as [Hb1 Hb2] by (split; by apply bytes_ok_slice).
  assert (length (pair_g1 input i) = 64%nat) as L1 by (unfold pair_g1; rewrite length_slice; lia).
  assert (length (pair_g2 input i) = 128%nat) as L2 by (unfold pair_g2; rewrite length_slice; lia).
  pose proof (g1Unmarshal_spec (pair_g1 input i) Hb1 L1) as Hp.
  destruct (g1Unmarshal (pair_g1 input i)) as [p|]; cbn [checked mbind outcome_bind].
  2: { split; [reflexivity|]. exists i. split; [lia|]. intros (P & q & E & _). congruence. }
  destruct Hp as [Ep _]. pose proof (g2Unmarshal_decode (pair_g2 input i) Hb2 L2) as Eq.
  destruct (g2Unmarshal (pair_g2 input i)) as [q|] eqn:Eu; cbn [checked mbind outcome_bind].
  2: { split; [reflexivity|]. exists i. split; [lia|]. intros (P & q & _ & E). congruence. }
  destruct (g2Unmarshal_ok _ q Hb2 Eu) as [Hq _]. symmetry in Eq.
  assert (pair_parses input i) as Hi by (by exists (g1_point p), q).
  assert (forall a, unit12 a ->
    match pairing_loop input k (S i * 192) a with
    | Ok f => unit12 f /\ forall j, (i <= j < i + S k)%nat -> pair_parses input j
    | Err e => e = Exec /\ exists j, (i <= j < i + S k)%nat /\ ~ pair_parses input j
    | Panic => exists j, (i <= j < i + S k)%nat /\ pair_panics input j
    | OutOfFuel => False
    end) as Hnext.
  { intros a Ha. specialize (IH (S i) a Hb Ha ltac:(lia)). destruct (pairing_loop input k (S i * 192) a).
    - destruct IH as [Hf IH]. split; [exact Hf|]. intros j Hj. destruct (decide (j = i)) as [->|]; [exact Hi|apply IH; lia].
    - destruct IH as (Ee & j & Hj & IH). split; [exact Ee|]. exists j. split; [lia|exact IH].
    - destruct IH as (j & Hj & IH). exists j. split; [lia|exact IH].
    - exact IH. }
  destruct (g1inf p) eqn:Ip; cbn [orb]; [by apply Hnext|]. destruct (g2inf q) eqn:Iq; [by apply Hnext|].
  pose proof (miller_ok p q Hq) as Hm. destruct (miller p q) as [l| | |]; cbn [total mbind outcome_bind];
    [apply Hnext; by apply unit12_mul|destruct Hm| |destruct Hm].
  destruct (g1_point_finite p Ip) as [P EP]. rewrite EP in Ep. exists i. split; [lia|]. by exists P, q.
Qed.

Definition pairing_price (input : bytes) : Z := add64 45000 (mul64 (Z.of_nat (length input / 192)) 34000).

Lemma pairing_output (b : bool) : (if b then <[31%nat := 1]> (zeros 32) else zeros 32) = be_bytes 32 (if b then 1 else 0).
Proof. destruct b; vm_compute; reflexivity. Qed.

Lemma bind_Ok {E A B} (f : A -> outcome E B) a : mbind f (Ok a) = f a.
Proof. reflexivity. Qed.
Lemma bind_Err {E A B} (f : A -> outcome E B) e : mbind f (Err e) = Err e.
Proof. reflexivity. Qed.
Lemma bind_Panic {E A B} (f : A -> outcome E B) : mbind f Panic = Panic.
Proof. reflexivity. Qed.
Lemma total_Ok {A} (a : A) : total (Ok a) = Ok a.
Proof. reflexivity. Qed.

(** The final exponentiation is never unfolded here: it is rewritten with its lemma. *)
Lemma pairing_result_spec input k : bytes_ok input -> (k * 192 <= length input)%nat ->
  match pairing_result input k with
  | Ok out => (out = be_bytes 32 0 \/ out = be_bytes 32 1) /\ forall i, (i < k)%nat -> pair_parses input i
  | Err e => e = Exec /\ exists i, (i < k)%nat /\ ~ pair_parses input i
  | Panic => exists i, (i < k)%nat /\ pair_panics input i
  | OutOfFuel => False
  end.
Proof.
  intros Hb Hk. pose proof (pairing_loop_spec input k 0 fp12One Hb unit12_one Hk) as H. unfold pairing_result.
  change (0 * 192)%nat with 0%nat in H. destruct (pairing_loop input k 0 fp12One) as [f|e| |].
  - destruct H as [Hf Hp]. rewrite bind_Ok. destruct (finalExp_ok f Hf) as [r ->]. rewrite total_Ok, bind_Ok, pairing_output.
    split; [destruct (fp12IsOne r); [right; reflexivity|left; reflexivity]|]. intros i Hi. apply Hp. lia.
  - rewrite bind_Err. destruct H as (Ee & i & Hi & H). split; [exact Ee|]. exists i. split; [lia|exact H].
  - rewrite bind_Panic. destruct H as (i & Hi & H). exists i. split; [lia|exact H].
  - destruct H.
Qed.

Lemma pcEcPairing_spec input gas : bytes_ok input ->
  let k := (length input / 192)%nat in
  match pcEcPairing input gas with
  | Ok (out, rest) =>
      (length input mod 192 = 0)%nat /\ pairing_price input <= gas /\ rest = gas - pairing_price input /\
      (out = be_bytes 32 0 \/ out = be_bytes 32 1) /\ forall i, (i < k)%nat -> pair_parses input i
  | Err e => e = Exec /\ ((length input mod 192 <> 0)%nat \/ exists i, (i < k)%nat /\ ~ pair_parses input i) \/
      e = OOG /\ gas < pairing_price input
  | Panic => exists i, (i < k)%nat /\ pair_panics input i
  | OutOfFuel => False
  end.
Proof.
  intros Hb k. assert (k * 192 <= length input)%nat as Hk by (unfold k; pose proof (Nat.Div0.mul_div_le (length input) 192); lia).
  pose proof (pairing_result_spec input k Hb Hk) as H. unfold pcEcPairing. fold k.
  destruct (Nat.eqb_spec (length input mod 192) 0) as [Hm|Hm]; cbn [negb]; [|left; split; [reflexivity|by left]].
  change (add64 45000 _) with (pairing_price input). rewrite chargePC_spec.
  case_decide as Hc; [|right; split; [done|lia]]. cbn [mbind outcome_bind].
  destruct (pairing_result input k) as [out|e| |]; cbn [mbind outcome_bind]; [| |exact H|exact H].
  2: { destruct H as [-> H]. left. split; [reflexivity|right; exact H]. }
  split; [exact Hm|]. split; [exact Hc|]. split; [reflexivity|]. exact H.
Qed.

(** A pair whose second point is on the twist of the specification is not accepted. *)
Definition spec_twist_bytes (b : bytes) : Prop :=
  let re i := be_val (slice b (i + 32) (i + 64)) in
  let im i := be_val (slice b i (i + 32)) in
  on_spec_twist (F2 (re 0%nat) (im 0%nat)) (F2 (re 64%nat) (im 64%nat)) /\
  ~ (re 0%nat = 0 /\ im 0%nat = 0 /\ re 64%nat = 0 /\ im 64%nat = 0).

Lemma fpFromBytes_val b x : fpFromBytes b = Some x -> x = be_val b.
Proof. unfold fpFromBytes. destruct (negb _); [done|]. destruct (_ <=? _); [done|]. by intros [= ->]. Qed.

Lemma g2Unmarshal_spec_twist b : bytes_ok b -> spec_twist_bytes b -> g2Unmarshal b = None.
Proof.
  intros Hb [Hs Hz]. destruct (g2Unmarshal b) as [q|] eqn:E; [|done]. exfalso.
  destruct (g2Unmarshal_ok b q Hb E) as [_ Ht]. revert E. unfold g2Unmarshal. destruct (negb _); [discriminate|].
  destruct (fpFromBytes (slice b 0 32)) as [xim|] eqn:E1; cbn [mbind option_bind]; [|discriminate].
  destruct (fpFromBytes (slice b 32 64)) as [xre|] eqn:E2; cbn [mbind option_bind]; [|discriminate].
  destruct (fpFromBytes (slice b 64 96)) as [yim|] eqn:E3; cbn [mbind option_bind]; [|discriminate].
  destruct (fpFromBytes (slice b 96 128)) as [yre|] eqn:E4; cbn [mbind option_bind]; [|discriminate].
  apply fpFromBytes_val in E1, E2, E3, E4. cbn [Nat.add] in Hs, Hz. rewrite <- E1, <- E2, <- E3, <- E4 in Hs, Hz.
  destruct ((xre =? 0) && (xim =? 0) && (yre =? 0) && (yim =? 0)) eqn:E0.
  { rewrite !andb_true_iff, !Z.eqb_eq in E0. destruct Hz. tauto. }
  destruct (g2OnCurve _); cbn [negb]; [|discriminate]. intros [= <-]. cbn [g2x g2y g2inf] in Ht.
  exact (twists_disjoint _ _ (Ht eq_refl) Hs).
Qed.

(** ** BLAKE2 *)

Definition blake_h (input : bytes) : list Z := map (fun i => le_val (slice input (4 + i * 8) (12 + i * 8))) (seq 0 8).
Definition blake_m (input : bytes) : list Z := map (fun i => le_val (slice input (68 + i * 8) (76 + i * 8))) (seq 0 16).

Definition blake_value (input : bytes) : bytes :=
  mjoin (map (le_bytes 8)
    (compress_rows (blake_h input) (blake_m input) (le_val (slice input 196 204)) (le_val (slice input 204 212))
       (input !!! 212%nat =? 1) (Z.to_nat (be_val (slice input 0 4))))).

Lemma pcBlake2F_spec input gas :
  pcBlake2F input gas =
    if decide (length input = 213%nat) then
      if decide (pc_cost 9 input <= gas) then
        if decide (input !!! 212%nat = 0 \/ input !!! 212%nat = 1) then Ok (blake_value input, gas - pc_cost 9 input)
        else Err Exec
      else Err OOG
    else Err Exec.
Proof.
  unfold pcBlake2F. destruct (Nat.eqb_spec (length input) 213) as [Hl|Hl]; cbn [negb];
    [rewrite (decide_True _ _ Hl)|by rewrite (decide_False _ _ Hl)].
  rewrite chargePC_spec. change (pc_cost 9 input) with (be_val (slice input 0 4)). case_decide; [|done].
  cbn [mbind outcome_bind]. destruct (Z.eqb_spec (input !!! 212%nat) 0) as [E|E]; cbn [negb andb].
  - rewrite decide_True by by left. unfold blake_value. rewrite <- blake2F_compress by reflexivity. done.
  - destruct (Z.eqb_spec (input !!! 212%nat) 1) as [E'|E']; cbn [negb andb].
    + rewrite decide_True by by right. unfold blake_value. rewrite <- blake2F_compress by reflexivity.
      rewrite E'. done.
    + rewrite decide_False by (intros [?|?]; done). done.
Qed.

(** ** Point evaluation *)

(** What the contract checks of its input. *)
Definition kzg_accepts (input : bytes) : Prop :=
  length input = 192%nat /\ slice input 0 32 = versioned_hash (slice input 96 144) /\
  be_val (slice input 32 64) < blsR /\ be_val (slice input 64 96) < blsR /\
  exists c pi, blsG1Decompress (slice input 96 144) = Some c /\ blsG1Decompress (slice input 144 192) = Some pi /\
    ~ (ec_add blsP (bls_point c) (ec_neg blsP (ec_scale blsP (be_val (slice input 64 96)) (bls_point blsG1Gen))) = None /\
       bls_point pi = None /\ be_val (slice input 32 64) <> 0).

Definition kzg_output : bytes := be_bytes 32 4096 ++ be_bytes 32 blsR.

Lemma versioned_head c : versioned_hash c !!! 0%nat = 1.
Proof. unfold versioned_hash. apply list_lookup_total_insert_eq. rewrite length_Sum256. lia. Qed.

Lemma pcKZG_spec input gas : bytes_ok input ->
  match pcKZG input gas with
  | Ok (out, rest) => 50000 <= gas /\ kzg_accepts input /\ out = kzg_output /\ rest = gas - 50000
  | Err e => e = OOG /\ gas < 50000 \/ e = Exec /\ ~ kzg_accepts input
  | _ => False
  end.
Proof.
  intros Hb. unfold pcKZG. rewrite chargePC_spec. case_decide as Hg; [|left; split; [done|lia]].
  cbn [mbind outcome_bind]. cbv zeta.
  destruct (Nat.eqb_spec (length input) 192) as [Hl|Hl]; cbn [negb]; [|right; split; [done|intros [? _]; done]].
  destruct (Z.eqb_spec (slice input 0 32 !!! 0%nat) 1) as [E0|E0]; cbn [negb].
  2: { right. split; [done|]. intros (_ & E & _). by rewrite E, versioned_head in E0. }
  case_bool_decide as Ev; cbn [negb].
  2: { right. split; [done|]. intros (_ & E & _). by destruct Ev. }
  unfold blsScalarOK. destruct (Z.ltb_spec (be_val (slice input 32 64)) blsR) as [Hz|Hz]; cbn [negb orb];
    [|right; split; [done|]; intros (_ & _ & ? & _); lia].
  destruct (Z.ltb_spec (be_val (slice input 64 96)) blsR) as [Hy|Hy]; cbn [negb orb];
    [|right; split; [done|]; intros (_ & _ & _ & ? & _); lia].
  destruct (blsG1Decompress (slice input 96 144)) as [c|] eqn:Ec; cbn [checked mbind outcome_bind].
  2: { right. split; [done|]. intros (_ & _ & _ & _ & c & pi & H & _). congruence. }
  destruct (blsG1Decompress (slice input 144 192)) as [pi|] eqn:Ep; cbn [checked mbind outcome_bind].
  2: { right. split; [done|]. intros (_ & _ & _ & _ & c' & pi & _ & H & _). congruence. }
  destruct (blsG1Decompress_sound _ c (bytes_ok_slice _ _ _ Hb) Ec) as [Hc _].
  destruct (verifyKZG_spec c (slice input 32 64) (slice input 64 96) pi Hc
    (bytes_ok_slice _ _ _ Hb) (bytes_ok_slice _ _ _ Hb)) as (b & -> & Hv). cbn [total mbind outcome_bind].
  destruct b; cbn [negb].
  - split; [done|]. split; [|split; [reflexivity|done]]. do 4 (split; [done || by symmetry|]). exists c, pi.
    split; [done|]. split; [done|]. intros H. apply Hv in H. discriminate H.
  - right. split; [done|]. intros (_ & _ & _ & _ & c' & pi' & Ec' & Ep' & H).
    rewrite Ec in Ec'. rewrite Ep in Ep'. injection Ec' as <-. injection Ep' as <-. apply H. by apply Hv.
Qed.

(** ** All the contracts *)

Lemma chargePC_ok gas cost left : chargePC gas cost = Ok left -> 0 <= cost -> 0 <= left <= gas.
Proof. rewrite chargePC_spec. case_decide; [|done]. intros [= <-]. lia. Qed.

Lemma short_data_ok (d : bytes) : bytes_ok d -> (length d <= 2048)%nat -> data_ok d.
Proof. intros Hb Hl. split; [exact Hb|lia]. Qed.

Lemma bn_encode_ok P : data_ok (bn_encode P).
Proof.
  destruct P as [[x y]|]; apply short_data_ok.
  - apply bytes_ok_app; apply be_bytes_ok.
  - cbn [bn_encode]. rewrite length_app, !length_be_bytes. lia.
  - apply zeros_ok.
  - cbn [bn_encode]. unfold zeros. rewrite length_replicate. lia.
Qed.

Lemma modexp_value_ok input : modexp_len input 64 <= 1024 -> data_ok (modexp_value input).
Proof.
  intros Hl. assert (0 <= modexp_len input 64) by (apply Z.mod_pos_bound; lia). unfold modexp_value. cbv zeta.
  destruct (_ =? 0); apply short_data_ok; [apply zeros_ok|unfold zeros; rewrite length_replicate; lia|apply be_bytes_ok|].
  rewrite length_be_bytes. lia.
Qed.

Lemma length_compress_rows h m t0 t1 f n : length h = 8%nat -> length (blake2F h m t0 t1 f n) = 8%nat.
Proof. intros _. reflexivity. Qed.

Lemma blake_value_ok input : data_ok (blake_value input).
Proof.
  unfold blake_value. rewrite <- blake2F_compress by reflexivity. apply short_data_ok.
  - apply bytes_ok_mjoin. intros. apply le_bytes_ok.
  - rewrite (length_mjoin_words _ 8) by apply length_le_bytes. rewrite length_compress_rows by reflexivity. lia.
Qed.

Lemma point_address_ok x y : data_ok (point_address x y).
Proof.
  apply short_data_ok; unfold point_address, keccak32.
  - apply bytes_ok_app; [apply zeros_ok|]. apply bytes_ok_drop, Keccak256_ok.
  - unfold zeros. rewrite length_app, length_replicate, length_drop, length_Keccak256. lia.
Qed.

(** The price of each contract as the code computes it. *)
Definition pc_price (id : Z) (input : bytes) : Z :=
  if id =? 2 then word_price 60 12 input
  else if id =? 3 then word_price 600 120 input
  else if id =? 4 then word_price 15 3 input
  else if id =? 8 then pairing_price input
  else pc_cost id input.

Lemma pc_price_pos id input : bytes_ok input -> 0 <= pc_price id input.
Proof.
  intros Hb. unfold pc_price, word_price, pairing_price, add64, pc_cost, modexp_cost.
  repeat (gtest; try (apply u64_range); try lia). apply be_val_range. by apply bytes_ok_slice.
Qed.

(** It does not wrap around. *)
Lemma pc_price_exact id input : Z.of_nat (length input) < 2 ^ 40 -> pc_price id input = pc_cost id input.
Proof.
  intros Hl. unfold pc_price. destruct (Z.eqb_spec id 2) as [->|]; [by apply word_cost; lia|].
  destruct (Z.eqb_spec id 3) as [->|]; [by apply word_cost; lia|].
  destruct (Z.eqb_spec id 4) as [->|]; [by apply word_cost; lia|].
  destruct (Z.eqb_spec id 8) as [->|]; [|done]. unfold pairing_price.
  change (pc_cost 8 input) with (45000 + 34000 * (Z.of_nat (length input) / 192)).
  rewrite Nat2Z.inj_div. change (Z.of_nat 192) with 192. unfold add64, mul64.
  rewrite (u64_small (_ * 34000)) by (unfold is_u64; dlia). rewrite u64_small by (unfold is_u64; dlia). lia.
Qed.

(** The inputs each contract refuses. *)
Definition pc_refuses (id : Z) (input : bytes) : Prop :=
  if id =? 5 then ~ (modexp_len input 0 <= 1024 /\ modexp_len input 32 <= 1024 /\ modexp_len input 64 <= 1024)
  else if id =? 6 then bn_decode (window input 0 64) = None \/ bn_decode (window input 64 64) = None
  else if id =? 7 then bn_decode (window input 0 64) = None
  else if id =? 8 then (length input mod 192 <> 0)%nat \/ exists i, (i < length input / 192)%nat /\ ~ pair_parses input i
  else if id =? 9 then length input <> 213%nat \/ ~ (input !!! 212%nat = 0 \/ input !!! 212%nat = 1)
  else if id =? 10 then ~ kzg_accepts input
  else ~ (1 <= id <= 10).

(** Its answer is a byte string and is paid for, it refuses what it has to, and it panics in the pairing only. *)
Definition pc_sound (id : Z) (input : bytes) (gas : Z) (r : pcM (bytes * Z)) : Prop :=
  match r with
  | Ok (out, rest) => data_ok out /\ pc_price id input <= gas /\ rest = gas - pc_price id input /\ ~ pc_refuses id input
  | Err OOG => gas < pc_price id input
  | Err Exec => pc_refuses id input
  | Panic => id = 8 /\ exists i, (i < length input / 192)%nat /\ pair_panics input i
  | OutOfFuel => False
  end.

Ltac pc_case := case_decide; [split; [|split; [assumption|split; [reflexivity|]]]|lia].

Lemma RunPrecompile_sound id input gas : data_ok input -> pc_sound id input gas (RunPrecompile id input gas).
Proof.
  intros [Hb Hl]. unfold RunPrecompile, pc_sound.
  destruct (Z.eqb_spec id 1) as [->|]; [|destruct (Z.eqb_spec id 2) as [->|]; [|destruct (Z.eqb_spec id 3) as [->|];
    [|destruct (Z.eqb_spec id 4) as [->|]; [|destruct (Z.eqb_spec id 5) as [->|]; [|destruct (Z.eqb_spec id 6) as [->|];
    [|destruct (Z.eqb_spec id 7) as [->|]; [|destruct (Z.eqb_spec id 8) as [->|]; [|destruct (Z.eqb_spec id 9) as [->|];
    [|destruct (Z.eqb_spec id 10) as [->|]]]]]]]]]].
  - change (pc_price 1 input) with 3000. change (pc_refuses 1 input) with (~ (1 <= 1 <= 10)).
    destruct (pcEcrecover_spec input gas Hb) as [[-> Hg]|(Hg & out & -> & [(x & y & _ & ->)|[-> _]])]; [done| |].
    + split; [apply point_address_ok|]. split; [assumption|]. split; [reflexivity|lia].
    + split; [apply short_data_ok; [apply List.Forall_nil|cbn; lia]|]. split; [assumption|]. split; [reflexivity|lia].
  - change (pc_price 2 input) with (word_price 60 12 input). change (pc_refuses 2 input) with (~ (1 <= 2 <= 10)).
    rewrite pcSHA256_spec. pc_case; [|lia]. apply short_data_ok; [apply Sum256_ok|rewrite length_Sum256; lia].
  - change (pc_price 3 input) with (word_price 600 120 input). change (pc_refuses 3 input) with (~ (1 <= 3 <= 10)).
    rewrite pcRIPEMD160_spec. pc_case; [|lia]. apply short_data_ok.
    + apply bytes_ok_app; [apply zeros_ok|]. apply bytes_ok_mjoin. intros. apply le_bytes_ok.
    + unfold zeros. rewrite length_app, length_ripemd160Sum, length_replicate. lia.
  - change (pc_price 4 input) with (word_price 15 3 input). change (pc_refuses 4 input) with (~ (1 <= 4 <= 10)).
    rewrite pcIdentity_spec. pc_case; [done|lia].
  - rewrite pcModexp_spec by exact Hb. change (pc_price 5 input) with (modexp_cost input).
    unfold pc_refuses; cbn [Z.eqb Pos.eqb]. case_decide as Hm; [|exact Hm]. pc_case; [apply modexp_value_ok; apply Hm|tauto].
  - rewrite pcEcAdd_spec by exact Hb. change (pc_price 6 input) with 150. unfold pc_refuses; cbn [Z.eqb Pos.eqb].
    case_decide; [|lia].
    destruct (bn_decode (window input 0 64)); [|by left]. destruct (bn_decode (window input 64 64)); [|by right].
    split; [apply bn_encode_ok|]. split; [assumption|]. split; [reflexivity|]. intros [E|E]; discriminate E.
  - rewrite pcEcMul_spec by exact Hb. change (pc_price 7 input) with 6000. unfold pc_refuses; cbn [Z.eqb Pos.eqb].
    case_decide; [|lia]. destruct (bn_decode (window input 0 64)); [|reflexivity].
    split; [apply bn_encode_ok|]. split; [assumption|]. split; [reflexivity|discriminate].
  - change (pc_price 8 input) with (pairing_price input). unfold pc_refuses; cbn [Z.eqb Pos.eqb].
    pose proof (pcEcPairing_spec input gas Hb) as H. cbv zeta in H.
    destruct (pcEcPairing input gas) as [[out rest]|[|]| |].
    + destruct H as (Hm & Hg & -> & Ho & Hp). split; [|split; [exact Hg|split; [reflexivity|]]].
      * destruct Ho as [-> | ->]; (apply short_data_ok; [apply be_bytes_ok|rewrite length_be_bytes; lia]).
      * intros [Hm'|(i & Hi & H)]; [done|]. by apply H, Hp.
    + destruct H as [[E _]|[_ H]]; [discriminate E|exact H].
    + destruct H as [[_ H]|[E _]]; [exact H|discriminate E].
    + split; [done|exact H].
    + exact H.
  - change (pc_price 9 input) with (pc_cost 9 input). rewrite pcBlake2F_spec. unfold pc_refuses; cbn [Z.eqb Pos.eqb].
    case_decide; [|by left]. case_decide; [|lia]. case_decide; [|by right].
    split; [apply blake_value_ok|]. split; [assumption|]. split; [reflexivity|tauto].
  - change (pc_price 10 input) with 50000. unfold pc_refuses; cbn [Z.eqb Pos.eqb]. pose proof (pcKZG_spec input gas Hb) as H.
    destruct (pcKZG input gas) as [[out rest]|[|]| |]; [| | |destruct H..].
    + destruct H as (Hg & Hk & -> & ->). split; [|split; [exact Hg|split; [reflexivity|]]].
      * apply short_data_ok; [apply bytes_ok_app; apply be_bytes_ok|]. unfold kzg_output. rewrite length_app, !length_be_bytes. lia.
      * intros H. by apply H.
    + destruct H as [[_ H]|[E _]]; [exact H|discriminate E].
    + destruct H as [[E _]|[_ H]]; [discriminate E|exact H].
  - unfold pc_refuses. rewrite !(proj2 (Z.eqb_neq id _)) by assumption. lia.
Qed.

(** The contracts meet what message calls rely on. *)
#[export] Instance run_precompile_laws : PrecompileLaws run_precompile.
Proof.
  intros id data gas Hd Hg. unfold run_precompile. pose proof (RunPrecompile_sound id data gas Hd) as H.
  pose proof (pc_price_pos id data (proj1 Hd)). destruct (RunPrecompile id data gas) as [[out rest]|e| |]; [|done..].
  destruct H as (Ho & Hp & -> & _). split; [exact Ho|]. lia.
Qed.
