(* ===== verification/ReceiptTrie.v ===== *)
(** * Receipts: the end of [pkg/c2block/block_processor.go]

    Bloom filters, receipt encoding and the trie of receipts. The trie is a second
    implementation of the insertion of [Trie], with nodes of its own and no arena:
    it is written over the same node type (a nil or empty node is [None], the
    child of an extension its [children[0]]). The encoder writes in buffers of
    2048 bytes: slicing one past its end is [Panic]. *)

From S2P Require Import Prelude Uint256 Keccak Mpt StateTrie Trie TrieSpec StateRoot BlockTypes TxRlp.

Abbreviation rootM := (outcome Empty_set).

(** ** Bloom filters *)

Definition addBloom_bit (h : bytes) (b : bytes) (i : nat) : bytes :=
  let bit := Z.land (Z.lor (Z.shiftl (h !!! (i * 2)%nat) 8) (h !!! (i * 2 + 1)%nat)) 2047 in
  let k := Z.to_nat (255 - bit / 8) in
  <[k := Z.lor (b !!! k) (u8 (Z.shiftl 1 (bit mod 8)))]> b.

Definition addBloom (b data : bytes) : bytes :=
  let h := Keccak256 data in foldl (addBloom_bit h) b (seq 0 3).

Definition logsBloom (logs : list Log) : bytes :=
  foldl (fun b l => foldl addBloom (addBloom b (log_Address l)) (log_Topics l)) (zeros 256) logs.

(** ** Encoding *)

Definition encodeLog (l : Log) : bytes :=
  rlpListEnc [rlpBytesEnc (log_Address l); rlpListEnc (map rlpBytesEnc (log_Topics l)); rlpBytesEnc (log_Data l)].

Definition encodeLogs (logs : list Log) : bytes := rlpListEnc (map encodeLog logs).

Definition encodeReceipt (r : Receipt) : bytes :=
  rlpListEnc [rlpU64Enc (r_Status r); rlpU64Enc (r_CumulativeGasUsed r); rlpBytesEnc (r_Bloom r); encodeLogs (r_Logs r)].

Definition LogsHash (logs : list Log) : Hash := Keccak256 (encodeLogs logs).

Definition bytesToNibbles (b : bytes) : bytes := concat (map (fun x => [Z.shiftr x 4; Z.land x 0x0f]) b).

(** ** Insertion *)

(** The loop of [commonPref]. *)
Fixpoint commonPref (a b : bytes) : nat :=
  match a, b with
  | x :: a, y :: b => if x =? y then S (commonPref a b) else 0%nat
  | _, _ => 0%nat
  end.

(** [children[i] = c] on the array of 16. *)
Definition put_child (ch : list (option mptNode)) (i : Z) (c : mptNode) : rootM (list (option mptNode)) :=
  if (0 <=? i) && (i <? 16) then Ok (<[Z.to_nat i := Some c]> ch) else Panic.

Definition mptSplit (oldRest oldVal : bytes) (oldNode : option mptNode) (newRest newVal : bytes) : rootM mptNode :=
  let ch := replicate 16 None in
  '(ch, val) ← match oldRest with
               | [] => mret (ch, oldVal)
               | o :: rest =>
                   ch ← put_child ch o (match oldNode with Some n => n | None => mptLeaf rest oldVal end);
                   mret (ch, [])
               end;
  match newRest with
  | [] => mret (mptBranch ch newVal)
  | k :: rest => ch ← put_child ch k (mptLeaf rest newVal); mret (mptBranch ch val)
  end.

Definition mptInsertLeaf (nibbles oldVal key value : bytes) : rootM mptNode :=
  if bool_decide (nibbles = key) then mret (mptLeaf nibbles value)
  else
    let cp := commonPref nibbles key in
    br ← mptSplit (drop cp nibbles) oldVal None (drop cp key) value;
    mret (if (0 <? cp)%nat then mptExt (take cp nibbles) br else br).

(** The part of [mptInsertExt] where the key leaves the extension's path. *)
Definition mptInsertExt_split (nibbles : bytes) (oldChild : mptNode) (key value : bytes) : rootM mptNode :=
  let cp := commonPref nibbles key in
  let oldRest := drop cp nibbles in
  let oldNode := if (length oldRest =? 1)%nat then oldChild else mptExt (drop 1 oldRest) oldChild in
  br ← mptSplit oldRest [] (Some oldNode) (drop cp key) value;
  mret (if (0 <? cp)%nat then mptExt (take cp nibbles) br else br).

(** [children[i] = f(children[i])] *)
Definition modify_child (f : option mptNode -> rootM mptNode) :=
  fix go (ch : list (option mptNode)) (i : nat) : rootM (list (option mptNode)) :=
    match ch, i with
    | [], _ => Panic
    | c :: ch, O => c ← f c; mret (Some c :: ch)
    | c :: ch, S i => ch ← go ch i; mret (c :: ch)
    end.

Fixpoint mptInsertNode (n : mptNode) (key value : bytes) {struct n} : rootM mptNode :=
  match n with
  | mptLeaf nibbles oldVal => mptInsertLeaf nibbles oldVal key value
  | mptExt nibbles child =>
      let cp := commonPref nibbles key in
      if (cp =? length nibbles)%nat then
        c ← mptInsertNode child (drop cp key) value; mret (mptExt nibbles c)
      else mptInsertExt_split nibbles child key value
  | mptBranch children v =>
      match key with
      | [] => mret (mptBranch children value)
      | k :: rest =>
          ch ← modify_child (fun c => match c with
                                      | None => mret (mptLeaf rest value)
                                      | Some c => mptInsertNode c rest value
                                      end) children (Z.to_nat k);
          mret (mptBranch ch v)
      end
  end.

(** [mptInsert]: a nil node becomes a leaf. *)
Definition mptInsert (n : option mptNode) (key value : bytes) : rootM mptNode :=
  match n with None => mret (mptLeaf key value) | Some n => mptInsertNode n key value end.

(** ** Encoding with bounded buffers *)

(** [buf[:k]] on a buffer of 2048 bytes. *)
Definition fits (enc : bytes) : rootM bytes := if 2048 <? Z.of_nat (length enc) then Panic else Ok enc.

(** The encoding of a node, sliced from the caller's buffer. *)
Fixpoint mptEncode (n : mptNode) : rootM bytes :=
  match n with
  | mptLeaf nibbles value => fits (MptEncodeLeaf nibbles value)
  | mptExt nibbles child => c ← mptEncode child; fits (MptEncodeExtension nibbles c)
  | mptBranch children value =>
      cs ← (fix go (ch : list (option mptNode)) : rootM (list (option bytes)) :=
              match ch with
              | [] => mret []
              | None :: ch => cs ← go ch; mret (None :: cs)
              | Some c :: ch => c ← mptEncode c; cs ← go ch; mret (Some c :: cs)
              end) children;
      fits (MptEncodeBranch cs value)
  end.

Definition mptHashRoot (n : option mptNode) : rootM Hash :=
  match n with
  | None => mret (Keccak256 [0x80])
  | Some n => enc ← mptEncode n; mret (Keccak256 enc)
  end.

(** The loop of [receiptsRoot] from index [i]. *)
Fixpoint insert_receipts (n : option mptNode) (i : nat) (recs : list Receipt) : rootM (option mptNode) :=
  match recs with
  | [] => mret n
  | r :: recs =>
      n ← mptInsert n (bytesToNibbles (rlpU64Enc (Z.of_nat i))) (encodeReceipt r);
      insert_receipts (Some n) (S i) recs
  end.

Definition receiptsRoot (recs : list Receipt) : rootM Hash :=
  match recs with
  | [] => mret (Keccak256 [0x80])
  | _ => n ← insert_receipts None 0 recs; mptHashRoot n
  end.
