(* ===== verification/ReceiptSpec.v ===== *)
(** * The trie of receipts refines the state trie

    [erases]: a computation in the arena and one without it return the same
    value. The insertion of [ReceiptTrie] is the one of [Trie] without the arena,
    so the trie of receipts holds exactly the encoded receipts under their index
    ([receiptsRoot_spec]). *)

From S2P Require Import Prelude Uint256 Keccak Mpt StateTrie Trie TrieSpec StateRoot StateRootSpec BlockTypes.
From S2P Require Import RlpFacts GasMath BatchRlp BatchSpec TxRlp ReceiptTrie.

Definition erases {A} (x : arenaM A) (y : outcome Empty_set A) : Prop :=
  forall a r a', x a = Ok (r, a') -> y = Ok r.

Lemma erases_ret {A} (r : A) : erases (mret r) (mret r).
Proof. intros a r' a' [= <- _]. done. Qed.

Lemma erases_bind {A B} (x : arenaM A) y (k : A -> arenaM B) k' :
  erases x y -> (forall r, erases (k r) (k' r)) -> erases (x ≫= k) (y ≫= k').
Proof.
  intros Hx Hk a r a' E. unfold mbind, arenaM_bind in E. destruct (x a) as [[r1 a1]|e| |] eqn:E1; try discriminate E.
  rewrite (Hx _ _ _ E1). cbn. by eapply Hk.
Qed.

Lemma erases_alloc {A} (x : arenaM A) y : erases x y -> erases (_ ← allocNode; x) y.
Proof.
  intros Hx a r a' E. unfold mbind, arenaM_bind in E. destruct (allocNode a) as [[[] a1]|e| |]; try discriminate E.
  by eapply Hx.
Qed.

Lemma newLeaf_erases k v : erases (newLeaf k v) (mret (mptLeaf k v)).
Proof. apply erases_alloc, erases_ret. Qed.
Lemma newExt_erases k c : erases (newExt k c) (mret (mptExt k c)).
Proof. apply erases_alloc, erases_ret. Qed.
Lemma set_child_erases ch i c : erases (set_child ch i c) (put_child ch i c).
Proof. intros a r a'. unfold set_child, put_child. destruct (_ && _); [intros [= -> _]|]; done. Qed.

Lemma commonPref_eq a b : commonPref a b = commonPrefix a b.
Proof. reflexivity. Qed.

Lemma split_erases oldRest oldVal oldNode newRest newVal :
  erases (splitToBranch oldRest oldVal oldNode newRest newVal) (mptSplit oldRest oldVal oldNode newRest newVal).
Proof.
  unfold splitToBranch, mptSplit. apply erases_alloc. cbv zeta. apply erases_bind.
  - destruct oldRest as [|o rest]; [apply erases_ret|].
    assert (erases (n ← match oldNode with Some n => mret n | None => newLeaf rest oldVal end;
                    ch ← set_child (replicate 16 None) o n; mret (ch, @nil Z))
                   (n ← mret (match oldNode with Some n => n | None => mptLeaf rest oldVal end);
                    ch ← put_child (replicate 16 None) o n; mret (ch, @nil Z))) as H; [|exact H].
    apply erases_bind; [destruct oldNode; [apply erases_ret|apply newLeaf_erases]|]. intros n.
    apply erases_bind; [apply set_child_erases|]. intros. apply erases_ret.
  - intros [ch val]. destruct newRest as [|k rest]; [apply erases_ret|].
    assert (erases (n ← newLeaf rest newVal; ch ← set_child ch k n; mret (mptBranch ch val))
                   (n ← mret (mptLeaf rest newVal); ch ← put_child ch k n; mret (mptBranch ch val))) as H; [|exact H].
    apply erases_bind; [apply newLeaf_erases|]. intros n. apply erases_bind; [apply set_child_erases|].
    intros. apply erases_ret.
Qed.

(** The extension put above a split. *)
Lemma wrap_erases (b : bool) p br : erases (if b then newExt p br else mret br) (mret (if b then mptExt p br else br)).
Proof. destruct b; [apply newExt_erases|apply erases_ret]. Qed.

Lemma insertLeaf_erases nib old key value : erases (insertLeaf nib old key value) (mptInsertLeaf nib old key value).
Proof.
  unfold insertLeaf, mptInsertLeaf. case_bool_decide; [apply erases_ret|]. cbv zeta. change commonPref with commonPrefix.
  apply erases_bind; [apply split_erases|]. intros br. apply wrap_erases.
Qed.

Lemma insertExt_split_erases nib c key value :
  erases (insertExt_split nib c key value) (mptInsertExt_split nib c key value).
Proof.
  unfold insertExt_split, mptInsertExt_split. cbv zeta. change commonPref with commonPrefix.
  set (rest := drop _ nib). set (cp := commonPrefix nib key).
  assert (erases (oldNode ← (if (length rest =? 1)%nat then mret c else newExt (drop 1 rest) c);
                  br ← splitToBranch rest [] (Some oldNode) (drop cp key) value;
                  if (0 <? cp)%nat then newExt (take cp nib) br else mret br)
                 (oldNode ← mret (if (length rest =? 1)%nat then c else mptExt (drop 1 rest) c);
                  br ← mptSplit rest [] (Some oldNode) (drop cp key) value;
                  mret (if (0 <? cp)%nat then mptExt (take cp nib) br else br))) as H; [|exact H].
  apply erases_bind; [destruct (_ =? _)%nat; [apply erases_ret|apply newExt_erases]|]. intros n.
  apply erases_bind; [apply split_erases|]. intros br. apply wrap_erases.
Qed.

Lemma modify_child_erases f g ch i :
  (forall c, ch !! i = Some c -> erases (f c) (g c)) -> erases (update_child f ch i) (modify_child g ch i).
Proof.
  revert i. induction ch as [|c ch IH]; intros [|i] H; cbn; try (intros a r a' E; discriminate E).
  - apply erases_bind; [by apply H|]. intros. apply erases_ret.
  - apply erases_bind; [apply IH; intros c' Hc'; by apply H|]. intros. apply erases_ret.
Qed.

(** The two insertions build the same trie. *)
Lemma insertNode_erases n key value : erases (insertNode n key value) (mptInsertNode n key value).
Proof.
  revert key. induction n as [nib v|nib c IH|ch v IH] using mptNode_ind'; intros key; cbn [insertNode mptInsertNode].
  - apply insertLeaf_erases.
  - change commonPref with commonPrefix. destruct (_ =? _)%nat; [|apply insertExt_split_erases].
    apply erases_bind; [apply IH|]. intros. apply erases_ret.
  - destruct key as [|k rest]; [apply erases_ret|]. apply erases_bind; [|intros; apply erases_ret].
    apply modify_child_erases. intros [c|] Hc; [by eapply IH|apply newLeaf_erases].
Qed.

Lemma insertRoot_erases n key value : erases (insertRoot n key value) (mptInsert n key value).
Proof. destruct n; [apply insertNode_erases|apply newLeaf_erases]. Qed.

(** ** Bounded encoding *)

(** Every node has an encoding of at most 2048 bytes. *)
Fixpoint encodable (n : mptNode) : bool :=
  (Z.of_nat (length (encodeNode n)) <=? 2048) &&
  match n with
  | mptLeaf _ _ => true
  | mptExt _ c => encodable c
  | mptBranch ch _ => forallb (fun c => match c with Some c => encodable c | None => true end) ch
  end.
Definition oencodable (n : option mptNode) : bool := match n with Some n => encodable n | None => true end.

Lemma fits_spec b : fits b = if Z.of_nat (length b) <=? 2048 then Ok b else Panic.
Proof. unfold fits. gtest; gtest; try done; lia. Qed.

(** With its bounded buffers the encoder returns the encoding of [Trie] exactly
    when that of every node fits. *)
Lemma mptEncode_spec n : mptEncode n = if encodable n then Ok (encodeNode n) else Panic.
Proof.
  induction n as [nib v|nib c IH|ch v IH] using mptNode_ind'; cbn [mptEncode encodable].
  - rewrite andb_true_r. apply fits_spec.
  - rewrite IH, andb_comm. destruct (encodable c); cbn [mbind outcome_bind andb]; [apply fits_spec|done].
  - set (go := fix go (ch : list (option mptNode)) : rootM (list (option bytes)) := _).
    assert (go ch = if forallb (fun c => match c with Some c => encodable c | None => true end) ch
      then Ok (map (fun c => match c with Some c => Some (encodeNode c) | None => None end) ch) else Panic) as ->.
    { induction ch as [|[c|] ch IHch]; [done| |]; cbn [forallb map].
      + change (go (Some c :: ch)) with (c ← mptEncode c; cs ← go ch; mret (Some c :: cs)).
        rewrite (IH 0%nat c eq_refl), IHch by (intros i c' E; by apply (IH (S i) c')).
        destruct (encodable c); [|done]. by destruct (forallb _ ch).
      + change (go (None :: ch)) with (cs ← go ch; mret (None :: cs)).
        rewrite IHch by (intros i c' E; by apply (IH (S i) c')). by destruct (forallb _ ch). }
    rewrite andb_comm. destruct (forallb _ ch); cbn [mbind outcome_bind andb]; [apply fits_spec|done].
Qed.

Lemma mptHashRoot_spec n : mptHashRoot n = if oencodable n then Ok (hashRoot n) else Panic.
Proof. destruct n as [n|]; [|done]. unfold mptHashRoot. cbn [oencodable]. rewrite mptEncode_spec. by destruct (encodable n). Qed.

(** ** Sizes of encodings *)

Lemma rlpIntLen_small n : 0 < n < 65536 -> (rlpIntLen n <= 2)%nat.
Proof.
  intros Hn. destruct (rlpIntLen_spec n ltac:(lia)) as [[H1 _] [H2 _]].
  destruct (decide (rlpIntLen n <= 2)%nat) as [|Hgt]; [done|].
  assert (256 ^ 2 <= 256 ^ (Z.of_nat (rlpIntLen n) - 1)) by (apply Z.pow_le_mono_r; lia). change (256 ^ 2) with 65536 in *. lia.
Qed.

Lemma length_RlpEncodeBytes_le b : Z.of_nat (length b) < 65536 -> (length (RlpEncodeBytes b) <= 3 + length b)%nat.
Proof.
  intros Hb. unfold RlpEncodeBytes. destruct (single_byte b); [lia|]. gtest; cbn [length]; [lia|].
  rewrite length_app, length_rlpWriteInt. pose proof (rlpIntLen_small (Z.of_nat (length b)) ltac:(lia)). lia.
Qed.

Lemma length_ListHeader_le n : 0 <= n < 65536 -> (length (RlpEncodeListHeader n) <= 3)%nat.
Proof.
  intros Hn. unfold RlpEncodeListHeader. gtest; cbn [length]; [lia|]. rewrite length_rlpWriteInt.
  pose proof (rlpIntLen_small n ltac:(lia)). lia.
Qed.

Lemma length_compact nib leaf : (length (MptCompactEncode nib leaf) <= 1 + length nib)%nat.
Proof.
  assert (forall n l, (length l <= n)%nat -> (length (compact_pairs l) <= length l)%nat) as H.
  { induction n as [|n IH]; intros [|a [|b l]]; cbn [length compact_pairs]; try lia. intros Hl. specialize (IH l ltac:(lia)). lia. }
  unfold MptCompactEncode. destruct (Nat.odd _); cbn [length].
  - pose proof (H _ (drop 1 nib) (le_n _)) as Hd. rewrite length_drop in Hd. lia.
  - pose proof (H _ nib (le_n _)). lia.
Qed.

Lemma length_ChildRef c : (length (MptEncodeChildRef c) <= 33)%nat.
Proof.
  unfold MptEncodeChildRef. gtest; [lia|]. rewrite RlpEncodeBytes_32 by apply length_Keccak256.
  cbn [length]. by rewrite length_Keccak256.
Qed.

Lemma slots_size l p :
  foldl (fun p c => p + branch_slot_size c) p l = p + Z.of_nat (length (concat (map branch_slot l))) /\
  (length (concat (map branch_slot l)) <= 33 * length l)%nat.
Proof.
  revert p. induction l as [|c l IH]; intros p; [cbn; lia|]. cbn [foldl map concat length]. rewrite length_app.
  assert (branch_slot_size c = Z.of_nat (length (branch_slot c)) /\ (length (branch_slot c) <= 33)%nat) as [-> Hc].
  { destruct c as [c|]; cbn; [|lia]. split; [apply MptChildRefSize_spec|apply length_ChildRef]. }
  destruct (IH (p + Z.of_nat (length (branch_slot c)))) as [-> H]. lia.
Qed.

(** A trie whose keys have at most 18 digits and whose values at most 1500 bytes fits. *)
Lemma encodable_bounded n :
  wf n -> (forall k v, nibs k -> tget n k = Some v -> (length k <= 18)%nat /\ (length v <= 1500)%nat) -> encodable n = true.
Proof.
  induction n as [nib v|nib c IH|ch v IH] using mptNode_ind'; intros Hwf Hb;
    pose proof Hwf as Hwf'; inversion Hwf' as [| |? ? Hl Hch Hocc]; subst; cbn [encodable encodeNode].
  - destruct (Hb nib v) as [Hn Hv]; [done|cbn; by rewrite bool_decide_eq_true_2|].
    rewrite andb_true_r. apply Z.leb_le. unfold MptEncodeLeaf. rewrite !length_app, !rlpBytesSize_spec.
    pose proof (length_compact nib true). pose proof (length_RlpEncodeBytes_le (MptCompactEncode nib true) ltac:(lia)).
    pose proof (length_RlpEncodeBytes_le v ltac:(lia)).
    match goal with |- context [RlpEncodeListHeader ?n] => pose proof (length_ListHeader_le n ltac:(lia)) end. lia.
  - assert (wf c) as Hc by done. destruct (wf_nonempty c Hc) as (k & x & Hk & E).
    assert (forall k x, nibs k -> tget c k = Some x -> (length (nib ++ k) <= 18)%nat /\ (length x <= 1500)%nat) as Hbc.
    { intros k' x' Hk' E'. apply Hb; [by apply Forall_app|]. cbn. by rewrite strip_app. }
    destruct (Hbc k x Hk E) as [Hn _]. rewrite length_app in Hn.
    apply andb_true_iff. split; [|apply IH; [done|]; intros k' x' Hk' E'; destruct (Hbc k' x' Hk' E') as [Hl Hv]; rewrite length_app in Hl; lia].
    apply Z.leb_le. unfold MptEncodeExtension. rewrite !length_app, rlpBytesSize_spec, MptChildRefSize_spec.
    pose proof (length_compact nib false). pose proof (length_RlpEncodeBytes_le (MptCompactEncode nib false) ltac:(lia)).
    pose proof (length_ChildRef (encodeNode c)).
    match goal with |- context [RlpEncodeListHeader ?n] => pose proof (length_ListHeader_le n ltac:(lia)) end. lia.
  - assert (length v <= 1500)%nat as Hv.
    { destruct (decide (v = [])) as [->|Hv]; [cbn; lia|]. apply (Hb [] v); [constructor|].
      rewrite tget_branch_nil. by rewrite bool_decide_eq_false_2. }
    apply andb_true_iff. split.
    + apply Z.leb_le. unfold MptEncodeBranch. set (slots := map _ ch). destruct (slots_size slots 0) as [-> Hs].
      assert (length slots = 16%nat) as Hsl by (subst slots; by rewrite length_map). rewrite Hsl in Hs. rewrite !length_app.
      pose proof (length_RlpEncodeBytes_le v ltac:(lia)). rewrite rlpBytesSize_spec.
      destruct (length v =? 0)%nat; cbn [length];
        match goal with |- context [RlpEncodeListHeader ?n] => pose proof (length_ListHeader_le n ltac:(lia)) end; lia.
    + apply forallb_forall. intros [c|] Hin; [|done]. apply list_elem_of_In, list_elem_of_lookup in Hin as [i E].
      destruct (child_nibble ch i _ ltac:(done) E). apply (IH i c E); [by eapply Hch|]. intros k x Hk Et.
      destruct (Hb (Z.of_nat i :: k) x) as [H1 H2]; [by constructor|by rewrite (tget_child _ _ _ c)|]. cbn in H1. lia.
Qed.

(** ** Receipts *)

Definition receipt_key (i : nat) : bytes := bytesToNibbles (rlpU64Enc (Z.of_nat i)).

Fixpoint receipt_pairs (i : nat) (recs : list Receipt) : list (bytes * bytes) :=
  match recs with
  | [] => []
  | r :: recs => (receipt_key i, encodeReceipt r) :: receipt_pairs (S i) recs
  end.

Lemma insert_receipts_pairs n i recs : erases (insert_all n (receipt_pairs i recs)) (insert_receipts n i recs).
Proof.
  revert n i. induction recs as [|r recs IH]; intros n i; cbn; [apply erases_ret|].
  apply erases_bind; [apply insertRoot_erases|]. intros. apply IH.
Qed.

Lemma rlpU64Enc_inj x y : is_u64 x -> is_u64 y -> rlpU64Enc x = rlpU64Enc y -> x = y.
Proof.
  intros Hx Hy E. 
  destruct (rlp_uint_string x Hx) as (b & Eb & Hb & Hlb & Vb & _), (rlp_uint_string y Hy) as (c & Ec & Hc & Hlc & Vc & _).
  unfold rlpU64Enc, rlpBytesEnc in E. rewrite Eb, Ec in E. change (rlpBytes b = rlpBytes c) in E.
  assert (forall l, bytes_ok l -> (length l <= 8)%nat -> rlpDecode 1 (rlpBytes l ++ []) = Ok (RStr l, [])) as Hd.
  { intros l Hl Hn. apply rlpDecode_string; [done|lia]. }
  pose proof (Hd b Hb Hlb) as Hdb. rewrite E, (Hd c Hc Hlc) in Hdb. congruence.
Qed.

Lemma nibbles_inj a b : bytes_ok a -> bytes_ok b -> bytesToNibbles a = bytesToNibbles b -> a = b.
Proof.
  revert b. induction a as [|x a IH]; intros [|y b] Ha Hb E; try done.
  cbn in E. injection E as E1 E2 E3. apply Forall_cons_iff in Ha as [Hx Ha], Hb as [Hy Hb].
  f_equal; [|by apply IH]. change 15 with (Z.ones 4) in E2. rewrite !Z.land_ones in E2 by lia.
  rewrite !Z.shiftr_div_pow2 in E1 by lia. change (2 ^ 4) with 16 in *. dlia.
Qed.

Lemma rlpU64Enc_ok x : is_u64 x -> bytes_ok (rlpU64Enc x).
Proof. intros Hx. destruct (rlp_uint_string x Hx) as (b & E & Hb & _). change (rlpU64Enc x = rlpBytesEnc b) in E. rewrite E. by apply RlpEncodeBytes_ok. Qed.

Lemma receipt_key_inj i j : Z.of_nat i < B64 -> Z.of_nat j < B64 -> receipt_key i = receipt_key j -> i = j.
Proof.
  intros Hi Hj E. apply nibbles_inj in E; [|apply rlpU64Enc_ok; unfold is_u64; lia..].
  apply rlpU64Enc_inj in E; unfold is_u64; lia.
Qed.

Lemma receipt_list_ne items : rlpListEnc items <> [].
Proof. unfold rlpListEnc. intros [E _]%app_nil. by apply RlpEncodeListHeader_ne in E. Qed.

Lemma receipt_pairs_ok i recs : Z.of_nat (i + length recs) < B64 -> Forall pair_ok (receipt_pairs i recs).
Proof.
  revert i. induction recs as [|r recs IH]; intros i Hi; cbn; [constructor|]. cbn in Hi. constructor; [|apply IH; lia].
  split; [|apply receipt_list_ne]. apply (hashToNibbles_nibs (rlpU64Enc (Z.of_nat i))), rlpU64Enc_ok. unfold is_u64. lia.
Qed.

Lemma receipt_pairs_elem i recs k v :
  (k, v) ∈ receipt_pairs i recs <-> exists j r, recs !! j = Some r /\ k = receipt_key (i + j) /\ v = encodeReceipt r.
Proof.
  revert i. induction recs as [|r recs IH]; intros i; cbn; [split; [intros H; by apply not_elem_of_nil in H|intros (? & ? & ? & _); done]|].
  rewrite elem_of_cons, IH. split.
  - intros [[= -> ->]|(j & r' & Hj & -> & ->)].
    + exists 0%nat, r. by rewrite Nat.add_0_r.
    + exists (S j), r'. split; [done|]. by rewrite Nat.add_succ_r.
  - intros ([|j] & r' & Hj & -> & ->); cbn in Hj.
    + injection Hj as ->. left. by rewrite Nat.add_0_r.
    + right. exists j, r'. split; [done|]. by rewrite Nat.add_succ_r.
Qed.

Lemma receipt_pairs_NoDup i recs : Z.of_nat (i + length recs) < B64 -> NoDup (receipt_pairs i recs).*1.
Proof.
  revert i. induction recs as [|r recs IH]; intros i Hi; cbn; [constructor|]. cbn in Hi. constructor; [|apply IH; lia].
  intros H. apply list_elem_of_fmap in H as ([k v] & E & H). cbn in E. apply receipt_pairs_elem in H as (j & r' & Hj & -> & _).
  apply lookup_lt_Some in Hj. apply receipt_key_inj in E; lia.
Qed.

Lemma length_receipt_key i : Z.of_nat i < B64 -> (length (receipt_key i) <= 18)%nat.
Proof.
  intros Hi. unfold receipt_key. change (bytesToNibbles (rlpU64Enc (Z.of_nat i))) with (hashToNibbles (rlpU64Enc (Z.of_nat i))).
  rewrite length_hashToNibbles. destruct (rlp_uint_string (Z.of_nat i) ltac:(unfold is_u64; lia)) as (b & E & _ & Hl & _).
  change (rlpU64Enc (Z.of_nat i) = rlpBytesEnc b) in E. rewrite E. change (rlpBytesEnc b) with (RlpEncodeBytes b).
  unfold RlpEncodeBytes. destruct (single_byte b); [lia|]. gtest; cbn [length]; lia.
Qed.

(** The trie whose root is the receipts root: receipt [i] under the key of [i], and
    nothing else. *)
Lemma receiptsRoot_spec recs :
  Z.of_nat (length recs) < B64 ->
  exists n, owf n /\
    (forall i r, recs !! i = Some r -> oget n (receipt_key i) = Some (encodeReceipt r)) /\
    (forall k, nibs k -> (forall i, (i < length recs)%nat -> k <> receipt_key i) -> oget n k = None) /\
    (receiptsRoot recs = if oencodable n then Ok (hashRoot n) else Panic) /\
    (Forall (fun r => (length (encodeReceipt r) <= 1500)%nat) recs -> oencodable n = true).
Proof.
  intros Hl. pose proof (receipt_pairs_ok 0 recs Hl) as Hp. pose proof (receipt_pairs_NoDup 0 recs Hl) as Hnd.
  set (l := receipt_pairs 0 recs) in *. set (a := Arena (4 * Z.of_nat (length l)) 0).
  destruct (insert_all_spec None l a I Hp ltac:(cbn; lia)) as (n & a' & E & _ & _ & Hw & _ & Hget).
  exists n. split; [done|].
  assert (forall k, nibs k -> oget n k = (list_to_map l : gmap bytes bytes) !! k) as Hmap.
  { intros k Hk. rewrite Hget by done. rewrite contents_map by done. by destruct (_ !! k). }
  split_and!.
  - intros i r Hi. assert ((receipt_key i, encodeReceipt r) ∈ l) as Hin by (apply receipt_pairs_elem; exists i, r; done).
    rewrite Hmap; [by apply elem_of_list_to_map_1|].
    rewrite Stdlib.Lists.List.Forall_forall in Hp. apply list_elem_of_In in Hin. by apply Hp in Hin as [? _].
  - intros k Hk Hno. rewrite Hmap by done. apply not_elem_of_list_to_map_1. intros Hin.
    apply list_elem_of_fmap in Hin as ([k' v] & -> & Hin). apply receipt_pairs_elem in Hin as (j & r & Hj & -> & _).
    apply (Hno j); [by apply lookup_lt_Some in Hj|done].
  - pose proof (insert_receipts_pairs None 0 recs a n a' E) as Ei. unfold receiptsRoot.
    destruct recs as [|r recs]; [cbn in Ei; by injection Ei as <-|]. rewrite Ei. cbn [mbind outcome_bind].
    apply mptHashRoot_spec.
  - intros Hsz. destruct n as [n|]; [|done]. apply encodable_bounded; [done|]. intros k v Hk Ek.
    change (oget (Some n) k = Some v) in Ek. rewrite Hmap in Ek by done. apply elem_of_list_to_map_2, receipt_pairs_elem in Ek as (j & r & Hj & -> & ->).
    split; [apply length_receipt_key; apply lookup_lt_Some in Hj; lia|]. by apply (Forall_lookup_1 _ _ _ _ Hsz Hj).
Qed.

Lemma receiptsRoot_no_fuel recs : Z.of_nat (length recs) < B64 -> receiptsRoot recs <> OutOfFuel.
Proof. intros H. destruct (receiptsRoot_spec recs H) as (n & _ & _ & _ & -> & _). by destruct (oencodable n). Qed.
