(* ===== verification/BlockProcessor.v ===== *)
(** * Transactions and blocks: [pkg/c2block/block_processor.go]

    [ProcessTransaction] charges the sender, runs the message call, refunds and
    pays the miner, and removes the empty accounts the transaction touched;
    [ProcessBlock] runs a list of transactions between a snapshot and a commit.

    The state of the processor is passed explicitly: the world state and the count
    of map enumerations ([seed]). An error carries the state it leaves. *)

From S2P Require Import Prelude Uint256 Bitwise256 Arith256 StateTrie Trie StateRoot BlockTypes TxRlp CallContext.
From S2P Require Import ReceiptTrie.

Inductive block_err := ErrNonce | ErrInsufficientFunds | ErrIntrinsicGas | ErrFeeCap | ErrGasLimit | ErrBalance.

#[export] Instance block_err_eq_dec : EqDecision block_err.
Proof. solve_decision. Defined.

(** ** Gas and fees *)

Definition intrinsicGas (tx : Transaction) : Z :=
  let gas := match tx_To tx with
             | None => add64 53000 (mul64 (words32 (Z.of_nat (length (tx_Data tx)))) 2)
             | Some _ => 21000
             end in
  let gas := foldl (fun gas b => add64 gas (if b =? 0 then 4 else 16)) gas (tx_Data tx) in
  foldl (fun gas t => add64 gas (add64 2400 (mul64 (Z.of_nat (length (at_keys t))) 1900))) gas (tx_AccessList tx).

Definition minU256 (a b : Uint256) : Uint256 := if Cmp a b <=? 0 then a else b.

Definition effectiveFees (header : BlockHeader) (tx : Transaction) : outcome block_err (Uint256 * Uint256) :=
  let base := h_BaseFee header in
  if (tx_Type tx =? TxDynamicFee) || (tx_Type tx =? TxBlob) then
    if Cmp (tx_GasFeeCap tx) base <? 0 then Err ErrFeeCap
    else
      let room := Sub256 (tx_GasFeeCap tx) base in
      let tip := minU256 (tx_GasTipCap tx) room in
      Ok (Add256 base tip, tip)
  else if negb (IsZero base) && (Cmp (tx_GasPrice tx) base <? 0) then Err ErrFeeCap
  else Ok (tx_GasPrice tx, if IsZero base then tx_GasPrice tx else Sub256 (tx_GasPrice tx) base).

Definition u256MulU64 (a : Uint256) (n : Z) : Uint256 := Mul256 a (FromU64 n).

Section processor.
  Context (range : nat -> storage_map -> list (storageKey * Uint256)).
  Context (range_accounts : nat -> account_map -> list (Uint256 * Account)).
  Context (range_set : nat -> gset Address -> list Address).
  Context (RunPrecompile : Z -> bytes -> Z -> outcome unit (bytes * Z)).

Definition nonceOf (t : StateTrie) (addr : Address) : Z :=
  match GetAccount t (addrToU256 addr) with Some acc => Nonce acc | None => 0 end.

(** [p.setNonce]; [seed] is the count of map enumerations. *)
Definition set_nonce (seed : nat) (t : StateTrie) (addr : Address) (n : Z) : StateTrie :=
  let acc := default zeroAccount (GetAccount t (addrToU256 addr)) in
  SetAccount range seed t (addrToU256 addr)
    (Some (MkAccount n (Balance acc) (StorageRoot acc) (CodeHash acc) (Code acc))).

(** ** One transaction *)

Definition new_env (t : StateTrie) (seed : nat) (header : BlockHeader) (tx : Transaction) (eff : Uint256) : vmEnv :=
  let e := MkEnv t header (tx_From tx) eff [] [] 0 0 (JSet ∅ []) (JSet ∅ []) (JSet ∅ []) seed in
  let e := touch (touch e (tx_From tx)) (h_Coinbase header) in
  match tx_To tx with Some to => touch e to | None => e end.

(** The parameters of the outermost call. *)
Definition tx_call (tx : Transaction) (dest : Address) (gas : Z) : callParams :=
  match tx_To tx with
  | None => MkCall (tx_From tx) dest zeroAddress (tx_From tx) (tx_Value tx) (tx_Value tx) [] (tx_Data tx) gas false 0xf0
  | Some to => MkCall (tx_From tx) to zeroAddress (tx_From tx) (tx_Value tx) (tx_Value tx) (tx_Data tx) [] gas false 0xf1
  end.

(** What the execution of a transaction leaves: environment, result and contract. *)
Definition execute_tx (e : vmEnv) (tx : Transaction) (gas : Z) : outcome Empty_set (vmEnv * callResult * Address) :=
  let '(t, rev) := Snapshot (e_state e) in
  let m := Marks (length (e_logs e)) (length (js_journal (e_touched e))) (length (js_journal (e_created e)))
             (length (js_journal (e_suicided e))) rev in
  let dest := createAddress (tx_From tx) (tx_Nonce tx) in
  '(e, r) ← run range RunPrecompile (with_state e t) (tx_call tx dest gas);
  let contract := match tx_To tx with None => dest | Some _ => zeroAddress end in
  e ← (if negb (cr_ok r) then revert_call e m
       else mret (match tx_To tx with None => markCreated e contract | Some _ => e end));
  mret (e, r, contract).

(** Gas used and gas left after the refund. *)
Definition settle_gas (gas gasLeft refund : Z) : Z * Z :=
  let used := sub64 gas gasLeft in
  let '(used, gasLeft) := if gas <? used then (gas, 0) else (used, gasLeft) in
  let refundCap := used / 5 in
  let actual := if refundCap <? refund then refundCap else refund in
  if 0 <? actual then
    let gasLeft := add64 gasLeft actual in (sub64 gas gasLeft, gasLeft)
  else (used, gasLeft).

(** The refund of the sender and the payment of the miner. *)
Definition pay (t : StateTrie) (header : BlockHeader) (tx : Transaction) (eff tip : Uint256) (used gasLeft : Z) : StateTrie :=
  let refund := u256MulU64 eff gasLeft in
  let t := if IsZero refund then t else AddBalance t (addrToU256 (tx_From tx)) refund in
  let miner := u256MulU64 tip used in
  if IsZero miner then t else AddBalance t (addrToU256 (h_Coinbase header)) miner.

Definition lift_panic {E A} (x : outcome Empty_set A) : outcome E A :=
  match x with Ok a => Ok a | Err e => match e with end | Panic => Panic | OutOfFuel => OutOfFuel end.

(** The checks, the debit of the gas and the nonce: the state, and the fees. *)
Definition buy_gas (header : BlockHeader) (tx : Transaction) (t : StateTrie) (seed : nat) :
  outcome (block_err * StateTrie) (StateTrie * Uint256 * Uint256) :=
  if negb (h_GasLimit header =? 0) && (h_GasLimit header <? tx_Gas tx) then Err (ErrGasLimit, t)
  else if tx_Gas tx <? intrinsicGas tx then Err (ErrIntrinsicGas, t)
  else
  match effectiveFees header tx with
  | Ok (eff, tip) =>
      if negb (nonceOf t (tx_From tx) =? tx_Nonce tx) then Err (ErrNonce, t)
      else
      let fromU := addrToU256 (tx_From tx) in
      let gasCost := u256MulU64 eff (tx_Gas tx) in
      let cost := Add256 gasCost (tx_Value tx) in
      if Cmp (GetBalance t fromU) cost <? 0 then Err (ErrInsufficientFunds, t)
      else
      match SubBalance t fromU gasCost with
      | Ok t => mret (set_nonce seed t (tx_From tx) (add64 (tx_Nonce tx) 1), eff, tip)
      | Err _ => Err (ErrBalance, t)
      | Panic => Panic
      | OutOfFuel => OutOfFuel
      end
  | Err x => Err (x, t)
  | Panic => Panic
  | OutOfFuel => OutOfFuel
  end.

(** The refund, the payments, the clearing of empty accounts and the receipt. *)
Definition finish_tx (header : BlockHeader) (tx : Transaction) (eff tip : Uint256) (e : vmEnv) (r : callResult)
  (contract : Address) : StateTrie * nat * Receipt :=
  let '(used, gasLeft) := settle_gas (tx_Gas tx) (cr_left r) (e_refund e) in
  let e := with_state e (pay (e_state e) header tx eff tip used gasLeft) in
  let e := cleanTouchedEmptyAccounts range (range_set (e_seed e) (js_set (e_touched e)))
             (range_set (S (e_seed e)) (js_set (e_suicided e))) e in
  (e_state e, S (S (e_seed e)),
   MkReceipt (if cr_ok r then 1 else 0) 0 (logsBloom (e_logs e)) (e_logs e) (tx_Hash tx) contract used (cr_ret r)).

Definition ProcessTransaction (header : BlockHeader) (tx : Transaction) (t : StateTrie) (seed : nat) :
  outcome (block_err * StateTrie) (StateTrie * nat * Receipt) :=
  '(t, eff, tip) ← buy_gas header tx t seed;
  '(e, r, contract) ← lift_panic (execute_tx (new_env t (S seed) header tx eff) tx (sub64 (tx_Gas tx) (intrinsicGas tx)));
  mret (finish_tx header tx eff tip e r contract).

(** ** One block *)

Definition with_cumulative (r : Receipt) (cum : Z) : Receipt :=
  MkReceipt (r_Status r) cum (r_Bloom r) (r_Logs r) (r_TxHash r) (r_ContractAddress r) (r_GasUsed r) (r_ReturnData r).

(** The loop of [ProcessBlock]: the receipts in order and the gas used. *)
Fixpoint process_txs (header : BlockHeader) (txs : list Transaction) (t : StateTrie) (seed : nat)
  (cum : Z) (recs : list Receipt) : outcome (block_err * StateTrie) (StateTrie * nat * Z * list Receipt) :=
  match txs with
  | [] => mret (t, seed, cum, recs)
  | tx :: txs =>
      '(t, seed, rec) ← ProcessTransaction header tx t seed;
      if negb (h_GasLimit header =? 0) && (h_GasLimit header <? add64 cum (r_GasUsed rec)) then Err (ErrGasLimit, t)
      else
        let cum := add64 cum (r_GasUsed rec) in
        process_txs header txs t seed cum (recs ++ [with_cumulative rec cum])
  end.

Definition seal (h : BlockHeader) (res : BlockResult) : BlockHeader :=
  MkHeader (h_ParentHash h) (h_Coinbase h) (res_StateRoot res) (res_ReceiptsRoot res) (res_Bloom res) (h_Number h)
    (h_GasLimit h) (res_GasUsed res) (h_Timestamp h) (h_Extra h) (h_MixDigest h) (h_Nonce h) (h_BaseFee h)
    (h_BlobGasUsed h) (h_ExcessBlobGas h) (h_Difficulty h) (h_ChainID h).

(** [arena] is the node arena the state keeps from one root computation to the next. *)
Definition ProcessBlock (header : BlockHeader) (txs : list Transaction) (t : StateTrie) (seed : nat) (arena : mptArena) :
  outcome (block_err * StateTrie) (StateTrie * nat * BlockHeader * BlockResult) :=
  let '(t, blockRev) := Snapshot t in
  match process_txs header txs t seed 0 [] with
  | Ok (t, seed, cum, recs) =>
      receipts ← lift_panic (receiptsRoot recs);
      root ← lift_panic (ComputeRoot range range_accounts seed t arena);
      let res := MkResult recs cum receipts (logsBloom (concat (map r_Logs recs))) root in
      mret (Commit t, seed, seal header res, res)
  | Err (x, t) =>
      match RevertToSnapshot t blockRev with Ok t => Err (x, t) | _ => Panic end
  | Panic => Panic
  | OutOfFuel => OutOfFuel
  end.
End processor.
