(* ===== verification/Sequencer.v ===== *)
(** * Block production: [pkg/c2seq/sequencer.go]

    [collect] gathers the candidates of a block from the three queues, crediting
    the delayed deposits on the way; [ProduceBlock] selects the ones that fit,
    processes them and packs them for publication. A nil component is [None]; the
    state of the processor is the one of the sequencer. An error carries the
    sequencer it leaves. The maps of pending heads, accounts and storage are
    enumerated in any order ([seed] counts the enumerations). *)

From S2P Require Import Prelude Uint256 StateTrie Trie StateRoot BlockTypes GasMath Mempool SeqQueues Retryable BatchRlp.
From S2P Require Import CallContext ReceiptTrie BlockProcessor.

Abbreviation defaultTxs := 128.

Record Sequencer := MkSeq {
  s_Mempool : option Mempool;
  s_Timeboost : option Timeboost;
  s_DelayedInbox : option DelayedInbox;
  s_Retryables : option RetryableEngine;
  s_State : StateTrie;
  s_Header : BlockHeader;
  s_LastBatch : bytes;
  s_LastTxs : list Transaction;
  s_maxTxs : Z;
}.

Definition zero_header : BlockHeader :=
  MkHeader (zeros 32) (zeros 20) (zeros 32) (zeros 32) (zeros 256) 0 0 0 0 [] (zeros 32) 0 zero256 0 0 zero256 zero256.

Definition with_gas_limit (h : BlockHeader) (limit : Z) : BlockHeader :=
  MkHeader (h_ParentHash h) (h_Coinbase h) (h_StateRoot h) (h_ReceiptsRoot h) (h_Bloom h) (h_Number h) limit (h_GasUsed h)
    (h_Timestamp h) (h_Extra h) (h_MixDigest h) (h_Nonce h) (h_BaseFee h) (h_BlobGasUsed h) (h_ExcessBlobGas h)
    (h_Difficulty h) (h_ChainID h).

Definition NewSequencer (st : option StateTrie) : Sequencer :=
  MkSeq (Some NewMempool) (Some (NewTimeboost DefaultExpressWindow)) (Some (NewDelayedInbox 1)) (Some NewRetryableEngine)
    (default NewStateTrie st) (with_gas_limit zero_header 30000000) [] [] defaultTxs.

Definition nonceOf (t : StateTrie) (addr : Address) : Z :=
  match GetAccount t (addrToU256 addr) with Some acc => Nonce acc | None => 0 end.

Definition with_nonce (tx : Transaction) (n : Z) : Transaction :=
  MkTx (tx_Type tx) (tx_ChainID tx) n (tx_GasPrice tx) (tx_GasTipCap tx) (tx_GasFeeCap tx) (tx_Gas tx) (tx_To tx)
    (tx_Value tx) (tx_Data tx) (tx_AccessList tx) (tx_BlobFeeCap tx) (tx_BlobHashes tx) (tx_V tx) (tx_R tx) (tx_S tx)
    (tx_From tx) (tx_Hash tx).

Definition retryable_params (msg : DelayedMessage) : RetryableParams :=
  MkParams (m_From msg) (m_To msg) (m_Value msg) (m_Deposit msg) (m_MaxSubmissionFee msg) (m_From msg) (m_From msg)
    (m_GasLimit msg) (m_MaxFeePerGas msg) (m_Data msg) (m_L1BaseFee msg) (m_GasProvided msg).

(** The loop over the delayed messages that are ready. *)
Fixpoint deliver (msgs : list DelayedMessage) (rets : option RetryableEngine) (t : StateTrie) (out : list Transaction) :
  outcome Empty_set (option RetryableEngine * StateTrie * list Transaction) :=
  match msgs with
  | [] => Ok (rets, t, out)
  | msg :: msgs =>
      if m_Kind msg =? MsgRetryable then
        match rets with
        | None => deliver msgs rets t out
        | Some e =>
            match Create e (retryable_params msg) with
            | Ok (e, _, Some tx) => deliver msgs (Some e) t (out ++ [with_nonce tx (nonceOf t (tx_From tx))])
            | Ok (e, _, None) => deliver msgs (Some e) t out
            | Err _ => deliver msgs rets t out
            | Panic => Panic
            | OutOfFuel => OutOfFuel
            end
        end
      else
        match m_To msg with
        | None => deliver msgs rets t out
        | Some to => deliver msgs rets (AddBalance t (addrToU256 to) (m_Value msg)) out
        end
  end.

(** The gas of the candidates, up to an overflow. *)
Fixpoint used_gas (used : Z) (l : list Transaction) : Z :=
  match l with
  | [] => used
  | tx :: l => match SafeAddGas used (tx_Gas tx) with Ok next => used_gas next l | _ => used end
  end.

(** The room the candidates leave for the pool: gas and number of transactions. *)
Definition remaining (limit maxTxs : Z) (out : list Transaction) : Z * Z :=
  let used := used_gas 0 out in
  let remainGas := if negb (limit =? 0) then if limit <=? used then 0 else sub64 limit used else B64 - 1 in
  let remainCount := maxTxs - Z.of_nat (length out) in
  (remainGas, if remainCount <? 0 then 0 else remainCount).

(** The loop of [ProduceBlock] over the candidates. *)
Fixpoint select (t : StateTrie) (limit maxTxs : Z) (cands : list Transaction) (seen : gmap Address Z) (reserved : Z)
  (batch : list Transaction) : list Transaction :=
  match cands with
  | [] => batch
  | tx :: cands =>
      if (0 <? maxTxs) && (maxTxs <=? Z.of_nat (length batch)) then batch
      else if negb (limit =? 0) && (limit <=? reserved) then batch
      else if negb (limit =? 0) && (sub64 limit reserved <? tx_Gas tx) then select t limit maxTxs cands seen reserved batch
      else
        let '(want, seen) := match seen !! tx_From tx with
                             | Some want => (want, seen)
                             | None => (nonceOf t (tx_From tx), <[tx_From tx := nonceOf t (tx_From tx)]> seen)
                             end in
        if negb (tx_Nonce tx =? want) then select t limit maxTxs cands seen reserved batch
        else
          match SafeAddGas reserved (tx_Gas tx) with
          | Ok next => select t limit maxTxs cands (<[tx_From tx := add64 want 1]> seen) next (batch ++ [tx])
          | _ => select t limit maxTxs cands seen reserved batch
          end
  end.

Inductive produce_err := ProduceSeq (e : seq_err) | ProduceBlk (e : block_err).

Section sequencer.
  Context (range : nat -> storage_map -> list (storageKey * Uint256)).
  Context (range_accounts : nat -> account_map -> list (Uint256 * Account)).
  Context (range_set : nat -> gset Address -> list Address).
  Context (range_heads : nat -> gmap bytes Z -> list (bytes * Z)).
  Context (RunPrecompile : Z -> bytes -> Z -> outcome unit (bytes * Z)).

Definition collect (seed : nat) (s : Sequencer) (now : Z) : outcome Empty_set (Sequencer * list Transaction) :=
  let '(inbox, ready) := match s_DelayedInbox s with
                         | Some d => let '(d, ready) := PopReady d now in (Some d, ready)
                         | None => (None, [])
                         end in
  '(rets, t, out) ← deliver ready (s_Retryables s) (s_State s) [];
  let '(boost, out) := match s_Timeboost s with
                       | Some b => let '(b, l) := Drain b now in (Some b, out ++ l)
                       | None => (None, out)
                       end in
  let '(remainGas, remainCount) := remaining (h_GasLimit (s_Header s)) (s_maxTxs s) out in
  let mk pool := MkSeq pool boost inbox rets t (s_Header s) (s_LastBatch s) (s_LastTxs s) (s_maxTxs s) in
  match s_Mempool s with
  | Some m =>
      if (0 <? remainCount) && (0 <? remainGas) then
        match PopBatch range_heads (S (Count m)) seed m remainGas remainCount with
        | Ok (m, l) => Ok (mk (Some m), out ++ l)
        | Err _ | Panic => Panic
        | OutOfFuel => OutOfFuel
        end
      else Ok (mk (Some m), out)
  | None => Ok (mk None, out)
  end.

(** The header of the next block. *)
Definition next_header (h : BlockHeader) (timestamp number gasUsed : Z) : BlockHeader :=
  MkHeader (h_StateRoot h) (h_Coinbase h) (h_StateRoot h) (h_ReceiptsRoot h) (h_Bloom h) number (h_GasLimit h) gasUsed
    timestamp (h_Extra h) (h_MixDigest h) (h_Nonce h) (h_BaseFee h) (h_BlobGasUsed h) (h_ExcessBlobGas h)
    (h_Difficulty h) (h_ChainID h).

Definition with_header (s : Sequencer) (h : BlockHeader) : Sequencer :=
  MkSeq (s_Mempool s) (s_Timeboost s) (s_DelayedInbox s) (s_Retryables s) (s_State s) h (s_LastBatch s) (s_LastTxs s) (s_maxTxs s).
Definition with_state (s : Sequencer) (t : StateTrie) : Sequencer :=
  MkSeq (s_Mempool s) (s_Timeboost s) (s_DelayedInbox s) (s_Retryables s) t (s_Header s) (s_LastBatch s) (s_LastTxs s) (s_maxTxs s).
Definition with_last (s : Sequencer) (packed : bytes) (batch : list Transaction) : Sequencer :=
  MkSeq (s_Mempool s) (s_Timeboost s) (s_DelayedInbox s) (s_Retryables s) (s_State s) (s_Header s) packed batch (s_maxTxs s).

Definition ProduceBlock (seed : nat) (arena : mptArena) (s : Sequencer) (timestamp : Z) :
  outcome (produce_err * Sequencer) (Sequencer * BlockResult) :=
  let h := s_Header s in
  match SafeAddGas (h_Number h) 1 with
  | Err e => Err (ProduceSeq e, with_header s (next_header h timestamp (h_Number h) (h_GasUsed h)))
  | Ok number =>
      '(s, cands) ← lift_panic (collect seed (with_header s (next_header h timestamp number 0)) timestamp);
      let batch := select (s_State s) (h_GasLimit (s_Header s)) (s_maxTxs s) cands ∅ 0 [] in
      match ProcessBlock range range_accounts range_set RunPrecompile (s_Header s) batch (s_State s) (S seed) arena with
      | Ok (t, _, h, res) =>
          let s := with_header (with_state s t) h in
          match Pack (Some <$> batch) with
          | Ok packed => Ok (with_last s packed batch, res)
          | Err e => Err (ProduceSeq e, s)
          | Panic => Panic
          | OutOfFuel => OutOfFuel
          end
      | Err (e, t) => Err (ProduceBlk e, with_state s t)
      | Panic => Panic
      | OutOfFuel => OutOfFuel
      end
  | Panic => Panic
  | OutOfFuel => OutOfFuel
  end.
End sequencer.
