(* ===== verification/BlockSpec.v ===== *)
(** * Transactions and blocks are sound

    Fees and gas are exact over the integers where nothing overflows; a
    transaction creates no value and burns the base fee ([ProcessTransaction_ok]);
    a block is applied entirely or not at all ([ProcessBlock_err]). *)

From S2P Require Import Prelude Uint256 Bitwise256 Arith256 Keccak Frame Stepper StateTrie StateTrieSpec Trie.
From S2P Require Import StateRoot StateRootSpec BlockTypes TxRlp CallContext CallEnv HostSpec CallSpec ReceiptTrie.
From S2P Require Import ReceiptSpec BlockProcessor.

(** ** Intrinsic gas *)

Definition data_gas (data : bytes) : Z := foldr (fun b g => (if b =? 0 then 4 else 16) + g) 0 data.
Definition access_gas (al : list AccessTuple) : Z :=
  foldr (fun t g => 2400 + 1900 * Z.of_nat (length (at_keys t)) + g) 0 al.
Definition creation_gas (tx : Transaction) : Z :=
  match tx_To tx with
  | None => 53000 + 2 * ((Z.of_nat (length (tx_Data tx)) + 31) / 32)
  | Some _ => 21000
  end.

Lemma data_gas_nonneg d : 0 <= data_gas d.
Proof. induction d as [|b d IH]; cbn; [lia|]. fold (data_gas d). destruct (b =? 0); lia. Qed.
Lemma access_gas_nonneg d : 0 <= access_gas d.
Proof. induction d as [|b d IH]; cbn [access_gas foldr]; [lia|]. fold (access_gas d). lia. Qed.

Lemma fold_data_gas d g :
  0 <= g -> g + data_gas d < B64 ->
  foldl (fun gas b => add64 gas (if b =? 0 then 4 else 16)) g d = g + data_gas d.
Proof.
  revert g. induction d as [|b d IH]; intros g Hg Hlt; cbn [foldl data_gas foldr] in *; [lia|].
  fold (data_gas d) in *. pose proof (data_gas_nonneg d).
  assert (add64 g (if b =? 0 then 4 else 16) = g + (if b =? 0 then 4 else 16)) as ->.
  { apply u64_small. unfold is_u64. destruct (b =? 0); lia. }
  destruct (b =? 0); rewrite IH; lia.
Qed.

Lemma fold_access_gas d g :
  0 <= g -> g + access_gas d < B64 ->
  foldl (fun gas t => add64 gas (add64 2400 (mul64 (Z.of_nat (length (at_keys t))) 1900))) g d = g + access_gas d.
Proof.
  revert g. induction d as [|b d IH]; intros g Hg Hlt; cbn [foldl access_gas foldr] in *; [lia|].
  fold (access_gas d) in *. pose proof (access_gas_nonneg d).
  assert (add64 g (add64 2400 (mul64 (Z.of_nat (length (at_keys b))) 1900))
          = g + (2400 + 1900 * Z.of_nat (length (at_keys b)))) as ->.
  { unfold mul64. rewrite (u64_small (_ * _)) by (unfold is_u64; lia).
    unfold add64. rewrite (u64_small (2400 + _)) by (unfold is_u64; lia). rewrite u64_small by (unfold is_u64; lia). lia. }
  rewrite IH; lia.
Qed.

Lemma words32_spec n : 0 <= n < 4294967296 -> words32 n = (n + 31) / 32.
Proof.
  intros Hn. unfold words32. ztest.
  - assert (n = 0) as -> by lia. done.
  - unfold add64. rewrite (u64_small n) by (unfold is_u64; lia). by rewrite u64_small by (unfold is_u64; lia).
Qed.

Lemma intrinsicGas_spec tx :
  Z.of_nat (length (tx_Data tx)) < 4294967296 ->
  creation_gas tx + data_gas (tx_Data tx) + access_gas (tx_AccessList tx) < B64 ->
  intrinsicGas tx = creation_gas tx + data_gas (tx_Data tx) + access_gas (tx_AccessList tx).
Proof.
  intros Hd Hlt. unfold intrinsicGas. pose proof (data_gas_nonneg (tx_Data tx)). pose proof (access_gas_nonneg (tx_AccessList tx)).
  assert (match tx_To tx with
          | None => add64 53000 (mul64 (words32 (Z.of_nat (length (tx_Data tx)))) 2)
          | Some _ => 21000 end = creation_gas tx) as ->.
  { unfold creation_gas in *. destruct (tx_To tx); [done|]. rewrite words32_spec by lia.
    set (w := (_ + 31) / 32) in *. assert (0 <= w <= 4294967296) by (unfold w; dlia).
    unfold mul64. rewrite (u64_small (w * 2)) by (unfold is_u64; lia).
    unfold add64. rewrite u64_small by (unfold is_u64; lia). lia. }
  assert (0 <= creation_gas tx) by (unfold creation_gas; destruct (tx_To tx); [lia|dlia]).
  rewrite fold_data_gas by lia. rewrite fold_access_gas; lia.
Qed.

(** ** Fees *)

Definition dynamic_fee (tx : Transaction) : bool := (tx_Type tx =? TxDynamicFee) || (tx_Type tx =? TxBlob).
Definition fee_limit (tx : Transaction) : Uint256 := if dynamic_fee tx then tx_GasFeeCap tx else tx_GasPrice tx.

(** The price paid is the base fee and a tip, and no more than the sender's limit; a
    limit below the base fee is the only error. *)
Lemma effectiveFees_spec header tx :
  u256_ok (h_BaseFee header) -> tx_ok tx ->
  match effectiveFees header tx with
  | Ok (eff, tip) =>
      u256_ok eff /\ u256_ok tip /\ toZ (h_BaseFee header) <= toZ (fee_limit tx) /\
      toZ eff = toZ (h_BaseFee header) + toZ tip /\ toZ eff <= toZ (fee_limit tx) /\
      toZ tip = if dynamic_fee tx then Z.min (toZ (tx_GasTipCap tx)) (toZ (tx_GasFeeCap tx) - toZ (h_BaseFee header))
                else toZ (tx_GasPrice tx) - toZ (h_BaseFee header)
  | Err x => x = ErrFeeCap /\ toZ (fee_limit tx) < toZ (h_BaseFee header)
  | _ => False
  end.
Proof.
  intros Hb Htx. pose proof (to_tip tx Htx) as Htip. pose proof (to_fee tx Htx) as Hfee. pose proof (to_price tx Htx) as Hpr.
  unfold effectiveFees, fee_limit. change ((tx_Type tx =? TxDynamicFee) || (tx_Type tx =? TxBlob)) with (dynamic_fee tx).
  set (base := h_BaseFee header) in *. pose proof (toZ_range base Hb).
  pose proof (toZ_range _ Htip). pose proof (toZ_range _ Hfee). pose proof (toZ_range _ Hpr).
  destruct (dynamic_fee tx).
  - rewrite Cmp_lt by done. destruct (Z.ltb_spec (toZ (tx_GasFeeCap tx)) (toZ base)); [done|].
    destruct (Sub256_spec (tx_GasFeeCap tx) base Hfee Hb) as [Hrok Hroom]. rewrite Z.mod_small in Hroom by lia.
    set (room := Sub256 _ _) in *. set (tip := minU256 _ _).
    assert (u256_ok tip /\ toZ tip = Z.min (toZ (tx_GasTipCap tx)) (toZ room)) as [Htok Ht].
    { unfold tip, minU256. rewrite Cmp_compare by done.
      destruct (Z.compare_spec (toZ (tx_GasTipCap tx)) (toZ room)); (split; [assumption|]).
      - rewrite Z.min_l by lia. reflexivity.
      - rewrite Z.min_l by lia. reflexivity.
      - rewrite Z.min_r by lia. reflexivity. }
    destruct (Add256_spec base tip Hb Htok) as [Heok He]. rewrite Z.mod_small in He by lia.
    split; [done|]. split; [done|]. split; [lia|]. split; [done|]. split; lia.
  - rewrite IsZero_spec, Cmp_lt by done.
    destruct (Z.eqb_spec (toZ base) 0) as [Hz|Hnz]; cbn [negb andb].
    + split; [done|]. split; [done|]. lia.
    + destruct (Z.ltb_spec (toZ (tx_GasPrice tx)) (toZ base)); [done|].
      destruct (Sub256_spec (tx_GasPrice tx) base Hpr Hb) as [Hrok Hroom]. rewrite Z.mod_small in Hroom by lia.
      split; [done|]. split; [done|]. lia.
Qed.

Lemma u256MulU64_spec a n :
  u256_ok a -> is_u64 n -> u256_ok (u256MulU64 a n) /\ toZ (u256MulU64 a n) = (toZ a * n) mod B256.
Proof.
  intros Ha Hn. unfold u256MulU64. rewrite <- (toZ_FromU64 n) at 3. apply Mul256_spec; [done|by apply FromU64_ok].
Qed.

(** ** Refunds *)

(** At most a fifth of the gas used is refunded, and no gas is created. *)
Lemma settle_gas_spec gas gasLeft refund :
  is_u64 gas -> 0 <= gasLeft <= gas -> 0 <= refund ->
  let '(used, left') := settle_gas gas gasLeft refund in
  left' = gasLeft + Z.min refund ((gas - gasLeft) / 5) /\ used = gas - left' /\ 0 <= used <= gas /\ 0 <= left' <= gas.
Proof.
  intros Hg Hl Hr. unfold settle_gas, is_u64 in *.
  assert (sub64 gas gasLeft = gas - gasLeft) as -> by (apply u64_small; unfold is_u64; lia).
  destruct (Z.ltb_spec gas (gas - gasLeft)); [lia|]. cbv beta iota zeta.
  set (cap := (gas - gasLeft) / 5). assert (0 <= cap <= gas - gasLeft) by (unfold cap; dlia). clearbody cap.
  set (actual := if cap <? refund then cap else refund).
  assert (actual = Z.min refund cap) as Ha by (unfold actual; ztest; lia). clearbody actual.
  destruct (Z.ltb_spec 0 actual); [|lia].
  assert (add64 gasLeft actual = gasLeft + actual) as -> by (apply u64_small; unfold is_u64; lia).
  assert (sub64 gas (gasLeft + actual) = gas - (gasLeft + actual)) as -> by (apply u64_small; unfold is_u64; lia).
  lia.
Qed.

(** ** Execution *)

Definition tx_fits (tx : Transaction) : Prop := tx_ok tx /\ Z.of_nat (length (tx_Data tx)) < 4294967296.

(** A well-formed state that extends [t]. *)
Definition reaches (t t' : StateTrie) : Prop := state_ok t' /\ codes_ok (accounts t') /\ st_extends t t'.

Lemma reaches_trans t1 t2 t3 : reaches t1 t2 -> reaches t2 t3 -> reaches t1 t3.
Proof. intros (_ & _ & H1) (? & ? & H2). split; [done|]. split; [done|]. by etrans. Qed.

Lemma steps_reaches e e' : steps e e' -> reaches (e_state e) (e_state e').
Proof. intros [[] []]. by split. Qed.

Lemma intrinsicGas_u64 tx : is_u64 (intrinsicGas tx).
Proof.
  unfold intrinsicGas.
  assert (forall A (h : A -> Z) l g, is_u64 g -> is_u64 (foldl (fun g x => add64 g (h x)) g l)) as Hf.
  { intros A h l. induction l as [|x l IH]; intros g Hg; cbn; [done|]. apply IH, u64_range. }
  apply (Hf _ (fun t => add64 2400 (mul64 (Z.of_nat (length (at_keys t))) 1900))).
  apply (Hf _ (fun b => if b =? 0 then 4 else 16)).
  destruct (tx_To tx); [unfold is_u64; lia|apply u64_range].
Qed.

Section tx.
  Context (range : nat -> storage_map -> list (storageKey * Uint256)).
  Context (range_perm : forall seed m, range seed m ≡ₚ map_to_list m).
  Context (range_accounts : nat -> account_map -> list (Uint256 * Account)).
  Context (range_set : nat -> gset Address -> list Address).
  Context (range_set_elem : forall seed s a, a ∈ range_set seed s -> a ∈ s).
  Context (RunPrecompile : Z -> bytes -> Z -> outcome unit (bytes * Z)) `{!PrecompileLaws RunPrecompile}.

Lemma new_env_ok t seed header tx eff :
  state_ok t -> codes_ok (accounts t) -> header_ok header -> tx_ok tx -> u256_ok eff ->
  env_ok (new_env t seed header tx eff).
Proof.
  intros Ht Hc Hh Htx He. unfold new_env.
  set (e0 := MkEnv _ _ _ _ _ _ _ _ _ _ _ _).
  assert (addresses ∅) as Hnone by (intros a Ha; by apply not_elem_of_empty in Ha).
  assert (env_ok e0) as H0.
  { constructor; cbn; try done. split; [constructor|cbn; lia]. }
  pose proof (touch_steps e0 _ H0 (to_from tx Htx)) as [H1 _].
  pose proof (touch_steps _ _ H1 (ho_coinbase header Hh)) as [H2 _].
  pose proof (to_to tx Htx) as Hto. destruct (tx_To tx) as [to|]; [|done].
  by apply touch_steps.
Qed.

Lemma e_state_new_env t seed header tx eff : e_state (new_env t seed header tx eff) = t.
Proof. unfold new_env. by destruct (tx_To tx). Qed.
Lemma e_depth_new_env t seed header tx eff : e_depth (new_env t seed header tx eff) = 0.
Proof. unfold new_env. by destruct (tx_To tx). Qed.
Lemma e_seed_new_env t seed header tx eff : e_seed (new_env t seed header tx eff) = seed.
Proof. unfold new_env. by destruct (tx_To tx). Qed.

Lemma tx_call_ok tx dest gas : tx_fits tx -> is_address dest -> is_u64 gas -> cp_ok (tx_call tx dest gas).
Proof.
  intros [[] Hl] Hd Hg. assert (data_ok [] /\ code_ok []) as [Hn Hn'] by (split; split; try constructor; cbn; lia).
  unfold tx_call. destruct (tx_To tx); constructor; cbn; try done; split; (done || lia).
Qed.

(** The outermost call, undone when it fails. *)
Lemma execute_tx_ok e tx gas :
  env_ok e -> tx_fits tx -> is_u64 gas ->
  match execute_tx range RunPrecompile e tx gas with
  | Ok (e', r, contract) =>
      steps e e' /\ 0 <= cr_left r <= gas /\ data_ok (cr_ret r) /\ (cr_ok r = false -> e' = restored e e')
  | Panic => True
  | _ => False
  end.
Proof.
  intros He Htx Hg. unfold execute_tx. cbn [Snapshot]. change (Marks _ _ _ _ _) with (marks_of e).
  set (dest := createAddress _ _). assert (is_address dest) as Hd by apply createAddress_ok.
  set (e1 := with_state e _). assert (steps e e1) as Hs1 by (by apply snapshot_steps).
  pose proof (run_spec range range_perm RunPrecompile e1 _ (proj1 Hs1) (tx_call_ok tx dest gas Htx Hd Hg)) as H.
  clearbody dest. destruct (run _ _ e1 _) as [[e2 r]|[]| |]; cbn [mbind outcome_bind run_ok] in *; [|done|done].
  destruct H as [H2 Hl Hr Hf _].
  assert (cp_gas (tx_call tx dest gas) = gas) as E by (unfold tx_call; by destruct (tx_To tx)). rewrite E in Hl.
  destruct (cr_ok r) eqn:Hok; cbn [negb mbind outcome_bind mret outcome_ret].
  - split; [|split; [done|split; [done|congruence]]]. eapply steps_trans; [exact Hs1|]. destruct (tx_To tx); [done|].
    eapply steps_trans; [exact H2|]. apply markCreated_steps; [apply H2|done].
  - rewrite (revert_call_exact e e2 (proj2 H2)). cbn [mbind outcome_bind]. split; [|done].
    by apply restored_steps; [|apply H2].
Qed.

(** ** Payment *)

Lemma AddBalance_reaches t a d :
  state_ok t -> codes_ok (accounts t) -> is_address a -> u256_ok d -> reaches t (AddBalance t (addrToU256 a) d).
Proof.
  intros. split; [|split]; [|by apply AddBalance_codes|apply AddBalance_extends].
  apply (AddBalance_state_ok range range_perm); auto with word.
Qed.

(** The code credits only non-zero amounts. *)
Lemma credit_ok t a d :
  state_ok t -> codes_ok (accounts t) -> is_address a -> u256_ok d ->
  let t' := if IsZero d then t else AddBalance t (addrToU256 a) d in
  reaches t t' /\ (toZ d + supply (accounts t) < B256 -> supply (accounts t') = supply (accounts t) + toZ d).
Proof.
  intros Ht Hc Ha Hd. cbv zeta. destruct (IsZero d) eqn:Ez.
  - split; [split; [done|split; [done|reflexivity]]|]. intros _. rewrite IsZero_spec in Ez by done. lia.
  - split; [by apply AddBalance_reaches|]. intros Hlt. rewrite AddBalance_supply; auto with word; lia.
Qed.

Lemma pay_ok t header tx eff tip used gasLeft :
  state_ok t -> codes_ok (accounts t) -> header_ok header -> tx_ok tx -> u256_ok eff -> u256_ok tip ->
  is_u64 used -> is_u64 gasLeft ->
  reaches t (pay t header tx eff tip used gasLeft) /\
  (toZ eff * gasLeft + toZ tip * used + supply (accounts t) < B256 ->
   supply (accounts (pay t header tx eff tip used gasLeft)) =
   supply (accounts t) + toZ eff * gasLeft + toZ tip * used).
Proof.
  intros Ht Hc Hh Htx He Htip Hu Hl. unfold pay.
  destruct (u256MulU64_spec eff gasLeft He Hl) as [Hrok Hr]. destruct (u256MulU64_spec tip used Htip Hu) as [Hmok Hm].
  assert (0 <= toZ eff * gasLeft) as Hp by (pose proof (toZ_range eff He); unfold is_u64 in Hl; nia).
  assert (0 <= toZ tip * used) as Hq by (pose proof (toZ_range tip Htip); unfold is_u64 in Hu; nia).
  revert Hrok Hr Hmok Hm Hp Hq. generalize (toZ eff * gasLeft) as p. generalize (toZ tip * used) as q.
  generalize (u256MulU64 eff gasLeft) as refund. generalize (u256MulU64 tip used) as miner.
  intros miner refund q p Hrok Hr Hmok Hm Hp Hq.
  pose proof (supply_nonneg _ (view_balances _ (state_view_ok t Ht))) as Hs. cbn [state_view fst] in Hs.
  assert (forall w x, toZ w = x mod B256 -> 0 <= x < B256 -> toZ w = x) as Hsmall by (intros w x -> ?; by apply Z.mod_small).
  set (t1 := if IsZero refund then t else _).
  destruct (credit_ok t (tx_From tx) refund Ht Hc (to_from tx Htx) Hrok) as [H1 H1s]. fold t1 in H1, H1s.
  clearbody t1. destruct H1 as (Ht1 & Hc1 & Hx1).
  destruct (credit_ok t1 (h_Coinbase header) miner Ht1 Hc1 (ho_coinbase header Hh) Hmok) as [H2 H2s].
  split; [by eapply reaches_trans|]. intros Hlt.
  pose proof (Hsmall _ _ Hr ltac:(lia)) as Er. pose proof (Hsmall _ _ Hm ltac:(lia)) as Em.
  rewrite Er in H1s. rewrite Em in H2s. specialize (H1s ltac:(lia)). rewrite H2s; lia.
Qed.

(** ** Clearing *)

Lemma clean_steps l1 l2 e :
  env_ok e -> (forall a, a ∈ l1 -> is_address a) -> (forall a, a ∈ l2 -> is_address a) ->
  steps e (cleanTouchedEmptyAccounts range l1 l2 e).
Proof.
  intros He H1 H2. unfold cleanTouchedEmptyAccounts.
  assert (forall e, env_ok e -> steps e (foldl (clean_empty range) e l1)) as Hs1.
  { clear - H1 range_perm. induction l1 as [|a l IH]; intros e He; cbn; [by apply steps_refl|].
    assert (steps e (clean_empty range e a)) as Hs.
    { unfold clean_empty. destruct (emptyAccount e a); [|by apply steps_refl].
      apply set_account_steps; [done|done|apply H1; set_solver|done]. }
    eapply steps_trans; [exact Hs|]. apply IH; [set_solver|apply Hs]. }
  assert (forall e, env_ok e -> steps e (foldl (clean_suicided range) e l2)) as Hs2.
  { clear - H2 range_perm. induction l2 as [|a l IH]; intros e He; cbn; [by apply steps_refl|].
    assert (steps e (clean_suicided range e a)) as Hs.
    { unfold clean_suicided. case_bool_decide; [|by apply steps_refl].
      apply set_account_steps; [done|done|apply H2; set_solver|done]. }
    eapply steps_trans; [exact Hs|]. apply IH; [set_solver|apply Hs]. }
  eapply steps_trans; [by apply Hs1|]. apply Hs2, Hs1, He.
Qed.

(** ** One transaction *)

Lemma set_nonce_reaches seed t header tx a n :
  state_ok t -> codes_ok (accounts t) -> header_ok header -> tx_ok tx -> is_address a -> is_u64 n ->
  reaches t (set_nonce range seed t a n) /\ conserves (accounts t) (accounts (set_nonce range seed t a n)).
Proof.
  intros Ht Hc Hh Htx Ha Hn. set (e := new_env t seed header tx zero256).
  assert (env_ok e) as He by (apply new_env_ok; auto with word).
  pose proof (setNonce_steps range range_perm e a n He Ha Hn) as Hs.
  assert (set_nonce range seed t a n = e_state (setNonce range e a n)) as ->.
  { unfold setNonce, set_account, set_nonce, account. cbn [e_state with_seed with_state].
    unfold e. by rewrite e_state_new_env, e_seed_new_env. }
  pose proof (steps_reaches _ _ Hs) as Hr. pose proof (gr_supply _ _ (proj2 Hs)) as Hm. unfold e in Hr, Hm at 1.
  rewrite e_state_new_env in Hr, Hm. done.
Qed.

(** What a transaction that is executed does to the state, the fees over the integers. *)
Record tx_post (header : BlockHeader) (tx : Transaction) (t t' : StateTrie) (rec : Receipt) : Prop := {
  tp_reaches : reaches t t';
  tp_gas : intrinsicGas tx <= tx_Gas tx;
  tp_used : 4 * intrinsicGas tx <= 5 * r_GasUsed rec /\ r_GasUsed rec <= tx_Gas tx;
  tp_limit : h_GasLimit header <> 0 -> tx_Gas tx <= h_GasLimit header;
  tp_nonce : nonceOf t (tx_From tx) = tx_Nonce tx;
  tp_fee : exists eff tip, effectiveFees header tx = Ok (eff, tip) /\
    (supply (accounts t) < B256 -> toZ eff * tx_Gas tx < B256 ->
     supply (accounts t') + toZ (h_BaseFee header) * r_GasUsed rec <= supply (accounts t));
}.

Record bought (header : BlockHeader) (tx : Transaction) (t t' : StateTrie) (eff tip : Uint256) : Prop := {
  bo_reaches : reaches t t';
  bo_gas : intrinsicGas tx <= tx_Gas tx;
  bo_limit : h_GasLimit header <> 0 -> tx_Gas tx <= h_GasLimit header;
  bo_nonce : nonceOf t (tx_From tx) = tx_Nonce tx;
  bo_fees : effectiveFees header tx = Ok (eff, tip);
  bo_supply : supply (accounts t) < B256 -> toZ eff * tx_Gas tx < B256 ->
    supply (accounts t') + toZ eff * tx_Gas tx <= supply (accounts t);
}.

Lemma buy_gas_spec header tx t seed :
  state_ok t -> codes_ok (accounts t) -> header_ok header -> tx_fits tx ->
  match buy_gas range header tx t seed with
  | Ok (t', eff, tip) => bought header tx t t' eff tip
  | Err (_, t') => t' = t
  | _ => False
  end.
Proof.
  intros Ht Hc Hh Hfit. pose proof (proj1 Hfit) as Htx. unfold buy_gas.
  destruct (negb (h_GasLimit header =? 0) && (h_GasLimit header <? tx_Gas tx)) eqn:Hlim; [done|].
  pose proof (to_gas tx Htx) as Hgas.
  destruct (Z.ltb_spec (tx_Gas tx) (intrinsicGas tx)) as [|Hge]; [done|].
  pose proof (effectiveFees_spec header tx (ho_fee header Hh) Htx) as Hfees.
  destruct (effectiveFees header tx) as [[eff tip]|x| |] eqn:Efee; [|done|done|done].
  destruct Hfees as (Heff & _).
  destruct (Z.eqb_spec (nonceOf t (tx_From tx)) (tx_Nonce tx)) as [Hnonce|]; cbn [negb]; [|done].
  destruct (Cmp _ _ <? 0); [done|].
  destruct (u256MulU64_spec eff (tx_Gas tx) Heff Hgas) as [Hcok Hcost].
  generalize dependent (u256MulU64 eff (tx_Gas tx)). intros gasCost Hcok Hcost.
  pose proof (addrToU256_ok _ (to_from tx Htx)) as Hfrom.
  destruct (SubBalance_no_panic t (addrToU256 (tx_From tx)) gasCost) as [->|[t1 E1]]; [done|]. rewrite E1.
  pose proof (SubBalance_supply _ _ _ _ Ht Hfrom Hcok E1) as Hsup1.
  assert (reaches t t1) as H1.
  { split; [by eapply (SubBalance_state_ok range), E1|]. split; [by eapply SubBalance_codes|by eapply SubBalance_extends]. }
  destruct (set_nonce_reaches seed t1 header tx (tx_From tx) (add64 (tx_Nonce tx) 1)) as [H2 Hsup2];
    [apply H1|apply H1|done|done|apply Htx|apply u64_range|].
  constructor; [by eapply reaches_trans|done| |done|done|].
  - intros Hz. apply andb_false_iff in Hlim. rewrite negb_false_iff, Z.eqb_eq, Z.ltb_ge in Hlim. lia.
  - intros Hs0 Hfit2. pose proof (toZ_range eff Heff). unfold is_u64 in Hgas.
    rewrite Z.mod_small in Hcost by nia. specialize (Hsup2 ltac:(pose proof (toZ_range _ Hcok); lia)). lia.
Qed.

Lemma finish_tx_spec header tx eff tip e r contract :
  env_ok e -> header_ok header -> tx_fits tx -> effectiveFees header tx = Ok (eff, tip) ->
  0 <= cr_left r <= tx_Gas tx - intrinsicGas tx ->
  let '(t', _, rec) := finish_tx range range_set header tx eff tip e r contract in
  reaches (e_state e) t' /\ 4 * intrinsicGas tx <= 5 * r_GasUsed rec /\ r_GasUsed rec <= tx_Gas tx /\
  (supply (accounts (e_state e)) + toZ eff * tx_Gas tx < B256 ->
   supply (accounts t') + toZ (h_BaseFee header) * r_GasUsed rec <= supply (accounts (e_state e)) + toZ eff * tx_Gas tx).
Proof.
  intros He Hh [Htx _] Efee Hl. pose proof (effectiveFees_spec header tx (ho_fee header Hh) Htx) as Hfees.
  rewrite Efee in Hfees. destruct Hfees as (Heff & Htip & _ & Hsum & _ & _).
  pose proof (intrinsicGas_u64 tx) as Hig. pose proof (to_gas tx Htx) as Hgas. unfold is_u64 in Hig.
  unfold finish_tx. pose proof (settle_gas_spec (tx_Gas tx) (cr_left r) (e_refund e) Hgas ltac:(lia)
    (proj1 (eo_refund e He))) as Hset.
  destruct (settle_gas _ _ _) as [used gasLeft]. destruct Hset as (Hgl & Hused & Hu & Hgl2).
  unfold is_u64 in Hgas.
  destruct (pay_ok (e_state e) header tx eff tip used gasLeft) as [H4 Hsup4];
    [apply He|apply He|done|done|done|done|unfold is_u64; lia|unfold is_u64; lia|].
  generalize dependent (pay (e_state e) header tx eff tip used gasLeft). intros t3 H4 Hsup4.
  assert (env_ok (with_state e t3)) as He3.
  { destruct He. destruct H4 as (? & ? & _). by constructor. }
  set (e3 := with_state e t3) in *. assert (e_state e3 = t3) as Est by done. clearbody e3.
  set (l1 := range_set (e_seed e3) _). set (l2 := range_set (S (e_seed e3)) _).
  assert (steps e3 (cleanTouchedEmptyAccounts range l1 l2 e3)) as Hcl.
  { apply clean_steps; [done| |]; intros a Ha; apply range_set_elem in Ha; [by apply (eo_touched _ He3)|by apply (eo_suicided _ He3)]. }
  generalize dependent (cleanTouchedEmptyAccounts range l1 l2 e3). intros e4 Hcl.
  pose proof (steps_reaches _ _ Hcl) as H5. pose proof (gr_supply _ _ (proj2 Hcl)) as Hsup5. rewrite Est in H5, Hsup5.
  cbn [r_GasUsed]. split; [by eapply reaches_trans|]. split; [|split; [lia|]].
  - set (cap := (tx_Gas tx - cr_left r) / 5) in *.
    assert (5 * cap <= tx_Gas tx - cr_left r) by (unfold cap; dlia). lia.
  - intros Hfit. pose proof (toZ_range _ (ho_fee header Hh)). pose proof (toZ_range _ Htip).
    assert (toZ eff * gasLeft + toZ tip * used + toZ (h_BaseFee header) * used = toZ eff * tx_Gas tx) as Hbal.
    { rewrite Hsum. replace (tx_Gas tx) with (used + gasLeft) by lia. ring. }
    assert (0 <= toZ (h_BaseFee header) * used) as Hb0 by nia.
    specialize (Hsup4 ltac:(lia)). specialize (Hsup5 ltac:(lia)). lia.
Qed.

Lemma ProcessTransaction_spec header tx t seed :
  state_ok t -> codes_ok (accounts t) -> header_ok header -> tx_fits tx ->
  match ProcessTransaction range range_set RunPrecompile header tx t seed with
  | Ok (t', _, rec) => tx_post header tx t t' rec
  | Err (_, t') => t' = t
  | Panic => True
  | OutOfFuel => False
  end.
Proof.
  intros Ht Hc Hh Hfit. unfold ProcessTransaction. pose proof (buy_gas_spec header tx t seed Ht Hc Hh Hfit) as Hb.
  destruct (buy_gas _ _ _ _ _) as [[[t2 eff] tip]|[x t2]| |]; cbn [mbind outcome_bind]; [|done|done|done].
  destruct Hb as [H2 Hge Hlim Hnonce Efee Hsup2]. pose proof (intrinsicGas_u64 tx) as Hig. pose proof (to_gas tx (proj1 Hfit)) as Hgas.
  pose proof (effectiveFees_spec header tx (ho_fee header Hh) (proj1 Hfit)) as Hfees. rewrite Efee in Hfees.
  pose proof (new_env_ok t2 (S seed) header tx eff (proj1 H2) (proj1 (proj2 H2)) Hh (proj1 Hfit) (proj1 Hfees)) as He.
  unfold is_u64 in *.
  assert (sub64 (tx_Gas tx) (intrinsicGas tx) = tx_Gas tx - intrinsicGas tx) as -> by (apply u64_small; unfold is_u64; lia).
  pose proof (execute_tx_ok _ tx (tx_Gas tx - intrinsicGas tx) He Hfit ltac:(unfold is_u64; lia)) as Hex.
  pose proof (e_state_new_env t2 (S seed) header tx eff) as Est.
  destruct (execute_tx _ _ _ _ _) as [[[e r] contract]|[]| |]; cbn [lift_panic mbind outcome_bind mret outcome_ret]; [|done|done].
  destruct Hex as (Hs & Hl & _ & _). pose proof (gr_supply _ _ (proj2 Hs)) as Hsup3.
  pose proof (steps_reaches _ _ Hs) as H3. rewrite Est in H3, Hsup3.
  pose proof (finish_tx_spec header tx eff tip e r contract (proj1 Hs) Hh Hfit Efee Hl) as Hfin.
  destruct (finish_tx _ _ _ _ _ _ _ _ _) as [[t' seed'] rec]. destruct Hfin as (H4 & Hu1 & Hu2 & Hsup4).
  constructor; try done; [|exists eff, tip; split; [done|]].
  - eapply reaches_trans; [exact H2|]. by eapply reaches_trans.
  - intros Hs0 Hfit2. specialize (Hsup2 Hs0 Hfit2). pose proof (toZ_range eff (proj1 Hfees)).
    assert (0 <= toZ eff * tx_Gas tx) by nia.
    specialize (Hsup3 ltac:(lia)). specialize (Hsup4 ltac:(lia)). lia.
Qed.

(** ** One block *)

(** The cumulative gas of the receipts, from [cum]. *)
Fixpoint cumulates (cum : Z) (recs : list Receipt) (cum' : Z) : Prop :=
  match recs with
  | [] => cum' = cum
  | r :: recs => r_CumulativeGasUsed r = cum + r_GasUsed r /\ cumulates (cum + r_GasUsed r) recs cum'
  end.

Lemma cumulates_app c1 l1 c2 l2 c3 : cumulates c1 l1 c2 -> cumulates c2 l2 c3 -> cumulates c1 (l1 ++ l2) c3.
Proof. revert c1. induction l1 as [|r l IH]; intros c1; cbn; [by intros ->|]. intros [? ?] ?. split; [done|]. by apply IH. Qed.

Definition total_gas (txs : list Transaction) : Z := foldr (fun tx g => tx_Gas tx + g) 0 txs.

(** The most a transaction can cost fits in 256 bits. *)
Definition fee_fits (tx : Transaction) : Prop := toZ (fee_limit tx) * tx_Gas tx < B256.

Lemma total_gas_nonneg txs : Forall tx_fits txs -> 0 <= total_gas txs.
Proof.
  induction 1 as [|tx txs [Htx _] _ IH]; cbn [total_gas foldr]; [lia|]. fold (total_gas txs).
  pose proof (to_gas tx Htx) as Hg. unfold is_u64 in Hg. lia.
Qed.

(** The fee condition of [tx_post] follows from [fee_fits]. *)
Lemma tx_post_supply header tx t t' rec :
  header_ok header -> tx_ok tx -> fee_fits tx -> tx_post header tx t t' rec -> supply (accounts t) < B256 ->
  supply (accounts t') + toZ (h_BaseFee header) * r_GasUsed rec <= supply (accounts t).
Proof.
  intros Hh Htx Hfit [_ _ _ _ _ (eff & tip & E & Hs)] Hlt.
  pose proof (effectiveFees_spec header tx (ho_fee header Hh) Htx) as Hf. rewrite E in Hf.
  destruct Hf as (_ & _ & _ & _ & Hle & _). apply Hs; [done|]. pose proof (to_gas tx Htx) as Hg.
  unfold fee_fits, is_u64 in *. nia.
Qed.

(** What running the transactions of a block leaves. *)
Record txs_post (header : BlockHeader) (txs : list Transaction) (t : StateTrie) (cum : Z)
  (t' : StateTrie) (cum' : Z) (recs : list Receipt) : Prop := {
  xp_reaches : reaches t t';
  xp_count : length recs = length txs;
  xp_gas : cumulates cum recs cum';
  xp_bound : cum <= cum' <= cum + total_gas txs;
  xp_limit : h_GasLimit header <> 0 -> cum <= h_GasLimit header -> cum' <= h_GasLimit header;
  xp_supply : Forall fee_fits txs -> supply (accounts t) < B256 ->
    supply (accounts t') + toZ (h_BaseFee header) * (cum' - cum) <= supply (accounts t);
}.

Lemma process_txs_spec header txs t seed cum recs :
  state_ok t -> codes_ok (accounts t) -> header_ok header -> Forall tx_fits txs ->
  0 <= cum -> cum + total_gas txs < B64 ->
  match process_txs range range_set RunPrecompile header txs t seed cum recs with
  | Ok (t', _, cum', recs') => exists new, recs' = recs ++ new /\ txs_post header txs t cum t' cum' new
  | Err (_, t') => st_extends t t'
  | Panic => True
  | OutOfFuel => False
  end.
Proof.
  intros Ht Hc Hh Hfit. revert t seed cum recs Ht Hc. induction Hfit as [|tx txs Htx Hfit IH]; intros t seed cum recs Ht Hc Hcum Htot.
  { cbn. exists []. rewrite app_nil_r. split; [done|]. constructor; cbn; try done; try lia. }
  cbn [process_txs total_gas foldr] in *. fold (total_gas txs) in *. pose proof (total_gas_nonneg txs Hfit).
  pose proof (ProcessTransaction_spec header tx t seed Ht Hc Hh Htx) as Hp.
  destruct (ProcessTransaction _ _ _ _ _ _ _) as [[[t1 seed1] rec]|[x t1]| |]; cbn [mbind outcome_bind]; [|by subst|done|done].
  pose proof (tx_post_supply header tx t t1 rec Hh (proj1 Htx)) as Hsup1. specialize (fun H => Hsup1 H Hp).
  destruct Hp as [H1 Hge Hused _ _ _]. pose proof (intrinsicGas_u64 tx) as Hig. unfold is_u64 in Hig.
  assert (add64 cum (r_GasUsed rec) = cum + r_GasUsed rec) as -> by (apply u64_small; unfold is_u64; lia).
  destruct (negb (h_GasLimit header =? 0) && _) eqn:Hlim; [apply H1|].
  specialize (IH t1 seed1 (cum + r_GasUsed rec) (recs ++ [with_cumulative rec (cum + r_GasUsed rec)])
    (proj1 H1) (proj1 (proj2 H1)) ltac:(lia) ltac:(lia)).
  destruct (process_txs _ _ _ _ _ _ _ _ _) as [[[[t2 seed2] cum2] recs2]|[x t2]| |]; [| |done|done].
  2: { etrans; [apply H1|done]. }
  destruct IH as (new & -> & [H2 Hn Hcums Hb Hl Hs]). exists (with_cumulative rec (cum + r_GasUsed rec) :: new).
  split; [by rewrite <- app_assoc|]. constructor.
  - by eapply reaches_trans.
  - cbn. lia.
  - cbn. done.
  - cbn [total_gas foldr]. fold (total_gas txs). lia.
  - intros Hz Hle. apply Hl; [done|]. apply andb_false_iff in Hlim. rewrite negb_false_iff, Z.eqb_eq, Z.ltb_ge in Hlim. lia.
  - intros [Hf1 Hf2]%Forall_cons_iff Hlt. specialize (Hsup1 Hf1 Hlt). pose proof (toZ_range _ (ho_fee header Hh)).
    specialize (Hs Hf2 ltac:(nia)). nia.
Qed.

(** A block that is accepted. *)
Record block_post (header : BlockHeader) (txs : list Transaction) (t t' : StateTrie) (header' : BlockHeader)
  (res : BlockResult) : Prop := {
  bp_state : state_ok t' /\ codes_ok (accounts t') /\ journal t' = [] /\ reverts t' = [];
  bp_count : length (res_Receipts res) = length txs;
  bp_gas : cumulates 0 (res_Receipts res) (res_GasUsed res);
  bp_limit : h_GasLimit header <> 0 -> res_GasUsed res <= h_GasLimit header;
  bp_supply : Forall fee_fits txs -> supply (accounts t) < B256 ->
    supply (accounts t') + toZ (h_BaseFee header) * res_GasUsed res <= supply (accounts t);
  bp_root seed a : 0 <= node_cap a -> ComputeRoot range range_accounts seed t' a = Ok (res_StateRoot res);
  bp_receipts : receiptsRoot (res_Receipts res) = Ok (res_ReceiptsRoot res);
  bp_bloom : res_Bloom res = logsBloom (concat (map r_Logs (res_Receipts res)));
  bp_header : header' = seal header res;
}.

Record block_fits (txs : list Transaction) : Prop := {
  bf_txs : Forall tx_fits txs;
  bf_gas : total_gas txs < B64;
  bf_count : Z.of_nat (length txs) < B64;
}.

Context (range_perm_accounts : forall seed m, range_accounts seed m ≡ₚ map_to_list m).

Lemma Commit_ok t : state_ok t -> state_ok (Commit t).
Proof. intros Ht. by apply (run_op_ok range range_perm t OpCommit). Qed.

(** The root of a state does not depend on how it is computed. *)
Lemma root_any seed seed' t a a' h :
  state_ok t -> 0 <= node_cap a -> 0 <= node_cap a' ->
  ComputeRoot range range_accounts seed t a = Ok h -> ComputeRoot range range_accounts seed' (Commit t) a' = Ok h.
Proof.
  intros Ht Ha Ha' E. pose proof (state_view_ok t Ht) as Hv.
  destruct (ComputeRoot_det range range_accounts range_perm range_perm_accounts seed seed' t (Commit t) a a') as (h' & E1 & E2);
    [done| | |done|done|congruence].
  - intros k x Hk. destruct (vo_storage _ Hv k x Hk) as (? & _ & ? & _). done.
  - intros k acc Hk. by apply (vo_accounts _ Hv k acc Hk).
Qed.

Lemma ProcessBlock_spec header txs t seed a :
  state_ok t -> codes_ok (accounts t) -> header_ok header -> block_fits txs -> 0 <= node_cap a ->
  match ProcessBlock range range_accounts range_set RunPrecompile header txs t seed a with
  | Ok (t', _, header', res) => block_post header txs t t' header' res
  | Err (_, t') => t' = t
  | Panic => True
  | OutOfFuel => False
  end.
Proof.
  intros Ht Hc Hh [Hfit Htot Hlen] Ha. unfold ProcessBlock. cbn [Snapshot].
  set (t0 := MkState _ _ _ _). change t0 with (Snapshot t).1.
  assert (state_ok (Snapshot t).1) as Ht0 by (by apply (run_op_ok range range_perm t OpSnapshot)).
  pose proof (process_txs_spec header txs (Snapshot t).1 seed 0 [] Ht0 Hc Hh Hfit ltac:(lia) ltac:(lia)) as H.
  destruct (process_txs _ _ _ _ _ _ _ _ _) as [[[[t1 seed1] cum] recs]|[x t1]| |]; [| |done|done].
  2: { change (Z.of_nat (length (reverts t))) with (Snapshot t).2. by rewrite (RevertToSnapshot_exact t t1 H). }
  destruct H as (new & -> & [H1 Hn Hg Hb Hl Hs]). cbn [app].
  pose proof (receiptsRoot_no_fuel new ltac:(lia)) as Hrf.
  destruct (receiptsRoot new) as [receipts|[]| |] eqn:Er; cbn [lift_panic mbind outcome_bind]; [|done|done].
  destruct H1 as (Hst1 & Hc1 & Hx1). pose proof (state_view_ok t1 Hst1) as Hv1.
  destruct (ComputeRoot_det range range_accounts range_perm range_perm_accounts seed1 seed1 t1 t1 a a) as (h & Eh & _);
    [done|intros k y Hk; by destruct (vo_storage _ Hv1 k y Hk) as (? & _ & ? & _)
    |intros k acc Hk; by apply (vo_accounts _ Hv1 k acc Hk)|done|done|].
  rewrite Eh. cbn [lift_panic mbind outcome_bind mret outcome_ret].
  constructor; cbn [res_Receipts res_GasUsed res_Bloom res_ReceiptsRoot res_StateRoot]; try done.
  - intros Hz. apply Hl; [done|]. pose proof (ho_limit header Hh) as Hlim. unfold is_u64 in Hlim. lia.
  - intros Hf Hlt. specialize (Hs Hf Hlt). rewrite Z.sub_0_r in Hs. exact Hs.
  - intros seed' a' Ha'. by apply (root_any seed1 seed' t1 a a').
Qed.
End tx.
