(* ===== verification/SequencerSpec.v ===== *)
(** * Block production: selection, conservation and publication

    The candidates of a block are well typed; the selection keeps the limits and
    the order of nonces; a block that is produced is sealed over exactly the
    selected transactions, and its batch is read back as them. *)

From S2P Require Import Prelude Uint256 Keccak StateTrie StateTrieSpec Trie StateRoot BlockTypes TxRlp GasMath Mempool MempoolSpec.
From S2P Require Import SeqQueues Retryable BatchRlp BatchSpec CallContext CallEnv CallSpec BlockProcessor BlockSpec Sequencer.

(** ** Well-formed sequencers *)

Record msg_ok (m : DelayedMessage) : Prop := {
  mo_from : is_address (m_From m);
  mo_to : match m_To m with Some a => is_address a | None => True end;
  mo_value : u256_ok (m_Value m);
  mo_data : bytes_ok (m_Data m) /\ Z.of_nat (length (m_Data m)) < 4294967296;
  mo_gas : is_u64 (m_GasLimit m);
  mo_fee : u256_ok (m_MaxFeePerGas m);
  mo_deposit : u256_ok (m_Deposit m);
  mo_maxsub : u256_ok (m_MaxSubmissionFee m);
  mo_l1 : u256_ok (m_L1BaseFee m);
  mo_provided : is_u64 (m_GasProvided m);
  mo_posted : is_u64 (m_PostedAt m);
}.

Lemma Forall_filter {A} (P Q : A -> Prop) `{!forall x, Decision (Q x)} (l : list A) : Forall P l -> Forall P (filter Q l).
Proof. induction 1 as [|x l Hx Hl IH]; [constructor|]. rewrite filter_cons. destruct (decide (Q x)); [by constructor|done]. Qed.

Definition pool_fits (m : Mempool) : Prop :=
  forall h tx, byHash m !! h = Some tx -> Z.of_nat (length (tx_Data tx)) < 4294967296.

Definition option_ok {A} (P : A -> Prop) (o : option A) : Prop := match o with Some x => P x | None => True end.

Record seq_ok (s : Sequencer) : Prop := {
  so_pool : option_ok (fun m => pool_ok m /\ pool_fits m) (s_Mempool s);
  so_boost : option_ok (fun b => Forall tx_fits (ei_tx <$> tb_items b)) (s_Timeboost s);
  so_inbox : option_ok (fun d => is_u64 (di_delay d) /\ Forall msg_ok (di_q d)) (s_DelayedInbox s);
  so_state : state_ok (s_State s) /\ codes_ok (accounts (s_State s));
  so_header : header_ok (s_Header s);
  so_max : 0 < s_maxTxs s <= 4096;
}.

Lemma AddTx_fits m tx m' :
  pool_ok m -> pool_fits m -> tx_fits tx -> AddTx m (Some tx) = Ok m' -> pool_ok m' /\ pool_fits m'.
Proof.
  intros Hm Hf [Htx Hl] E. pose proof (AddTx_post m tx Hm Htx) as H. rewrite E in H. split; [apply H|]. clear H.
  revert E. cbn [AddTx]. destruct (bool_decide _); [done|].
  assert (forall bh : gmap bytes Transaction, (forall h t, bh !! h = Some t -> byHash m !! h = Some t) -> forall h t, <[tx_Hash tx := tx]> bh !! h = Some t ->
    Z.of_nat (length (tx_Data t)) < 4294967296) as Hput.
  { intros bh Hbh h t. destruct (decide (h = tx_Hash tx)) as [->|Hne]; [rewrite lookup_insert_eq; by intros [= <-]|].
    rewrite lookup_insert_ne by done. intros Ht. by apply (Hf h), Hbh. }
  destruct (find_nonce _ _) as [[i ex]|]; [destruct (_ <=? 0); [done|]|]; intros [= <-]; unfold pool_fits; cbn [byHash]; apply Hput;
    [|done]. intros h t Ht. by apply lookup_delete_Some in Ht as [_ Ht].
Qed.

(** ** Delivery of the delayed messages *)

Lemma retryable_params_ok m : msg_ok m -> params_ok (retryable_params m).
Proof. intros []. constructor; cbn; try done. split; [tauto|]. lia. Qed.

Lemma lxor_byte a b : is_byte a -> is_byte b -> is_byte (Z.lxor a b).
Proof.
  intros Ha Hb. unfold is_byte in *. assert (0 <= Z.lxor a b) by (apply Z.lxor_nonneg; lia). split; [done|].
  apply (bits_bound 8); [lia|done|]. intros n Hn. by rewrite Z.lxor_spec, !(testbit_high 8) by lia.
Qed.

Lemma nonceOf_u64 t a : state_ok t -> is_u64 (nonceOf t a).
Proof.
  intros Ht. unfold nonceOf. destruct (GetAccount t (addrToU256 a)) as [acc|] eqn:E; [|unfold is_u64; lia].
  unfold GetAccount in E. by apply (vo_accounts _ (state_view_ok t Ht)) in E as (_ & _ & [? _ _ _ _]).
Qed.

(** The deposits of a list of messages, in order. *)
Definition credit (t : StateTrie) (m : DelayedMessage) : StateTrie :=
  if m_Kind m =? MsgRetryable then t
  else match m_To m with Some to => AddBalance t (addrToU256 to) (m_Value m) | None => t end.

Section sequencer.
  Context (range : nat -> storage_map -> list (storageKey * Uint256)).
  Context (range_perm : forall seed m, range seed m ≡ₚ map_to_list m).
  Context (range_accounts : nat -> account_map -> list (Uint256 * Account)).
  Context (accounts_perm : forall seed m, range_accounts seed m ≡ₚ map_to_list m).
  Context (range_set : nat -> gset Address -> list Address).
  Context (range_set_elem : forall seed s a, a ∈ range_set seed s -> a ∈ s).
  Context (range_heads : nat -> gmap bytes Z -> list (bytes * Z)).
  Context (heads_perm : forall seed m, range_heads seed m ≡ₚ map_to_list m).
  Context (RunPrecompile : Z -> bytes -> Z -> outcome unit (bytes * Z)) `{!PrecompileLaws RunPrecompile}.

Lemma credit_message_ok t m : state_ok t -> codes_ok (accounts t) -> msg_ok m -> state_ok (credit t m) /\ codes_ok (accounts (credit t m)).
Proof.
  intros Ht Hc [_ Hto Hv _ _ _ _ _ _ _ _]. unfold credit. destruct (_ =? _); [done|]. destruct (m_To m) as [a|]; [|done].
  destruct (AddBalance_reaches range range_perm t a (m_Value m) Ht Hc Hto Hv) as (? & ? & _). done.
Qed.

(** A delayed retryable whose ticket is redeemed as soon as it is created, and the
    transaction it becomes on the state [t]. *)
Definition auto_redeemed (m : DelayedMessage) : Prop :=
  m_Kind m = MsgRetryable /\ fundable (retryable_params m) /\
  0 < m_GasLimit m <= m_GasProvided m - sub_gas (retryable_params m).
#[export] Instance auto_redeemed_dec m : Decision (auto_redeemed m).
Proof. unfold auto_redeemed, fundable. apply _. Defined.

Definition redeem_tx (t : StateTrie) (m : DelayedMessage) : Transaction :=
  {| tx_Type := TxDynamicFee; tx_ChainID := zero256; tx_Nonce := nonceOf t (m_From m); tx_GasPrice := m_MaxFeePerGas m;
     tx_GasTipCap := m_MaxFeePerGas m; tx_GasFeeCap := m_MaxFeePerGas m; tx_Gas := m_GasLimit m; tx_To := m_To m;
     tx_Value := m_Value m; tx_Data := m_Data m; tx_AccessList := []; tx_BlobFeeCap := zero256; tx_BlobHashes := [];
     tx_V := zero256; tx_R := zero256; tx_S := zero256; tx_From := m_From m;
     tx_Hash := match ticketID (retryable_params m) with b :: l => Z.lxor b 0xa5 :: l | [] => [] end |}.

(** The transactions the delayed messages become, in order, each with the nonce its
    sender has once the deposits before it are credited. *)
Fixpoint retries (t : StateTrie) (msgs : list DelayedMessage) : list Transaction :=
  match msgs with
  | [] => []
  | m :: msgs => (if decide (auto_redeemed m) then [redeem_tx t m] else []) ++ retries (credit t m) msgs
  end.

(** The tickets of the engine after the messages: those it had, and one for each
    retryable that pays for itself. *)
Definition tickets_after (msgs : list DelayedMessage) (rets rets' : option RetryableEngine) : Prop :=
  match rets, rets' with
  | Some e, Some e' => forall id, is_Some (e' !! id) <-> is_Some (e !! id) \/
      Exists (fun m => m_Kind m = MsgRetryable /\ fundable (retryable_params m) /\ ticketID (retryable_params m) = id) msgs
  | None, None => True
  | _, _ => False
  end.

Lemma Create_message e t m :
  msg_ok m -> m_Kind m = MsgRetryable ->
  match Create e (retryable_params m) with
  | Ok (e', _, otx) => fundable (retryable_params m) /\ (exists tk, e' = <[ticketID (retryable_params m) := tk]> e) /\
      (fun tx => with_nonce tx (nonceOf t (tx_From tx))) <$> otx =
        if decide (auto_redeemed m) then Some (redeem_tx t m) else None
  | Err _ => ~ fundable (retryable_params m)
  | _ => False
  end.
Proof.
  intros Hm Hk. pose proof (Create_spec e _ (retryable_params_ok m Hm)) as C.
  destruct (Create e (retryable_params m)) as [[[e' tk] otx]|er| |] eqn:E; [|done..].
  destruct C as (HF & Eid & -> & _ & _ & C). split; [done|]. split; [by eexists|].
  unfold auto_redeemed. cbn [retryable_params p_GasLimit p_GasProvided] in C.
  destruct (decide (0 < m_GasLimit m <= m_GasProvided m - sub_gas (retryable_params m))) as [Hg|Hg].
  - rewrite bool_decide_eq_true_2 in C by done. destruct C as [_ ->]. rewrite decide_True by done. cbn [fmap option_fmap option_map].
    f_equal. revert E. unfold Create. destruct (quoteRetryable _) as [[[[g fee] x] tot]| | |]; cbn [mbind outcome_bind]; [|done..].
    destruct (SafeSubGas _ _); cbn [mbind outcome_bind]; [|done..]. destruct (_ =? 0); [done|]. destruct (_ <? _); [done|].
    intros [= _ <-]. reflexivity.
  - rewrite bool_decide_eq_false_2 in C by done. destruct C as [_ ->]. by rewrite decide_False by tauto.
Qed.

Lemma redeem_tx_fits t m : state_ok t -> msg_ok m -> tx_fits (redeem_tx t m).
Proof.
  intros Ht []. split; [|cbn; tauto]. constructor; cbn [redeem_tx tx_Type tx_Nonce tx_Gas tx_GasTipCap tx_GasFeeCap tx_GasPrice
    tx_To tx_Value tx_Data tx_From tx_Hash]; try done; [by apply nonceOf_u64|tauto|].
  assert (is_hash (ticketID (retryable_params m))) as [Hid Lid] by (split; [apply Keccak256_ok|apply length_ticketID]).
  destruct (ticketID (retryable_params m)) as [|b l]; [done|]. apply Forall_cons_iff in Hid as [Hb Hl].
  split; [|done]. constructor; [|done]. apply lxor_byte; [done|unfold is_byte; lia].
Qed.

Lemma deliver_retry e m msgs t out :
  msg_ok m -> m_Kind m = MsgRetryable ->
  exists e1, deliver (m :: msgs) (Some e) t out =
      deliver msgs (Some e1) t (out ++ if decide (auto_redeemed m) then [redeem_tx t m] else []) /\
    forall id, is_Some (e1 !! id) <->
      is_Some (e !! id) \/ m_Kind m = MsgRetryable /\ fundable (retryable_params m) /\ ticketID (retryable_params m) = id.
Proof.
  intros Hm Hk. cbn [deliver]. rewrite Hk, Z.eqb_refl. pose proof (Create_message e t m Hm Hk) as C.
  destruct (Create e (retryable_params m)) as [[[e' tk] otx]|er| |]; [| |done..].
  - destruct C as (HF & (tk' & ->) & E). eexists. split.
    + destruct (decide (auto_redeemed m)); destruct otx as [tx|]; try discriminate E; [apply (inj Some) in E; by rewrite E|by rewrite app_nil_r].
    + intros id. rewrite lookup_insert_is_Some. destruct (decide (ticketID (retryable_params m) = id)); tauto.
  - exists e. rewrite decide_False by (unfold auto_redeemed; tauto). rewrite app_nil_r. split; [done|]. tauto.
Qed.

Lemma deliver_spec msgs rets t out :
  Forall msg_ok msgs -> state_ok t -> codes_ok (accounts t) ->
  let new := match rets with Some _ => retries t msgs | None => [] end in
  exists rets', deliver msgs rets t out = Ok (rets', foldl credit t msgs, out ++ new) /\ Forall tx_fits new /\
    tickets_after msgs rets rets'.
Proof.
  cbv zeta. intros Hm. revert rets t out. induction Hm as [|m msgs Hmsg Hm IH]; intros rets t out Ht Hc.
  { exists rets. destruct rets; cbn; rewrite app_nil_r; (split; [done|]); (split; [constructor|]); [|done].
    intros id. rewrite Exists_nil. tauto. }
  cbn [foldl retries]. pose proof (credit_message_ok t m Ht Hc Hmsg) as [Ht' Hc'].
  destruct rets as [e|].
  2: { destruct (IH None (credit t m) out Ht' Hc') as (rets' & E & HF & HT). exists rets'. split; [|done].
       rewrite <- E. cbn [deliver]. unfold credit. destruct (m_Kind m =? MsgRetryable); [done|]. by destruct (m_To m). }
  destruct (decide (m_Kind m = MsgRetryable)) as [Hk|Hk].
  - assert (credit t m = t) as Ec by (unfold credit; by rewrite Hk). rewrite Ec.
    destruct (deliver_retry e m msgs t out Hmsg Hk) as (e1 & -> & He1).
    destruct (IH (Some e1) t (out ++ if decide (auto_redeemed m) then [redeem_tx t m] else []) Ht Hc) as (rets' & -> & HF & HT).
    exists rets'. rewrite <- app_assoc. split; [done|]. split.
    + apply Forall_app. split; [|done]. destruct (decide _); [|constructor]. constructor; [by apply redeem_tx_fits|constructor].
    + unfold tickets_after in *. destruct rets' as [e'|]; [|done]. intros id. rewrite HT, He1, Exists_cons. tauto.
  - destruct (IH (Some e) (credit t m) out Ht' Hc') as (rets' & E & HF & HT). exists rets'.
    rewrite decide_False by (unfold auto_redeemed; tauto). cbn [app]. split; [|split; [done|]].
    + rewrite <- E. cbn [deliver]. unfold credit. apply Z.eqb_neq in Hk. rewrite Hk. by destruct (m_To m).
    + unfold tickets_after in *. destruct rets' as [e'|]; [|done]. intros id. rewrite HT, Exists_cons. tauto.
Qed.

Lemma foldl_credit_ok msgs t :
  Forall msg_ok msgs -> state_ok t -> codes_ok (accounts t) ->
  state_ok (foldl credit t msgs) /\ codes_ok (accounts (foldl credit t msgs)).
Proof.
  intros Hm. revert t. induction Hm as [|m msgs Hmsg Hm IH]; intros t Ht Hc; [done|].
  destruct (credit_message_ok t m Ht Hc Hmsg). by apply IH.
Qed.

(** ** Collection *)

(** The messages delivered at [now]: those whose delay has elapsed. *)
Definition ready_msgs (s : Sequencer) (now : Z) : list DelayedMessage :=
  match s_DelayedInbox s with Some d => filter (is_ready (di_delay d) now) (di_q d) | None => [] end.

(** What enters before the pool is consulted: the redeemed tickets, then the
    express lane without its expired items. *)
Definition redemptions (s : Sequencer) (now : Z) : list Transaction :=
  match s_Retryables s with Some _ => retries (s_State s) (ready_msgs s now) | None => [] end.
Definition express (s : Sequencer) (now : Z) : list Transaction :=
  match s_Timeboost s with Some b => ei_tx <$> filter (fun it => now <= ei_deadline it) (tb_items b) | None => [] end.
Definition first_in (s : Sequencer) (now : Z) : list Transaction := redemptions s now ++ express s now.

(** The room they leave for the pool: gas is counted as long as the sum has 64 bits. *)
Fixpoint gas_counted (used : Z) (l : list Transaction) : Z :=
  match l with
  | [] => used
  | tx :: l => if decide (used + tx_Gas tx < B64) then gas_counted (used + tx_Gas tx) l else used
  end.
Definition gas_room (limit : Z) (l : list Transaction) : Z :=
  if decide (limit = 0) then B64 - 1 else Z.max 0 (limit - gas_counted 0 l).
Definition count_room (maxTxs : Z) (l : list Transaction) : Z := maxTxs - Z.of_nat (length l).

(** The transactions [popped] leave the pool [m] for [m']: best head first, within the
    room, a prefix of each sender's queue, and until the room is full or no head fits. *)
Record popped_from (gas count : Z) (m : Mempool) (popped : list Transaction) (m' : Mempool) : Prop := {
  pf_best : greedy gas count 0 0 m popped m';
  pf_gas : total_gas popped <= gas;
  pf_count : Z.of_nat (length popped) <= count;
  pf_queues a : queue m a = filter (fun tx => tx_From tx = a) popped ++ queue m' a;
  pf_full : Z.of_nat (length popped) = count \/ forall a tx, ~ fits m' (gas - total_gas popped) a tx;
}.

Definition pool_taken (gas count : Z) (p : option Mempool) (popped : list Transaction) (p' : option Mempool) : Prop :=
  match p, p' with
  | Some m, Some m' => if decide (0 < gas /\ 0 < count) then popped_from gas count m popped m' else popped = [] /\ m' = m
  | None, None => popped = []
  | _, _ => False
  end.

(** The candidates of a block, and the queues they leave. *)
Record collected (s : Sequencer) (now : Z) (s' : Sequencer) (cands : list Transaction) : Prop := {
  co_cands : exists popped, cands = first_in s now ++ popped /\
    pool_taken (gas_room (h_GasLimit (s_Header s)) (first_in s now)) (count_room (s_maxTxs s) (first_in s now))
      (s_Mempool s) popped (s_Mempool s');
  co_boost : s_Timeboost s' = (fun b => MkTimeboost (tb_window b) []) <$> s_Timeboost s;
  co_inbox : s_DelayedInbox s' = (fun d => MkInbox (di_delay d) (filter (fun m => ~ is_ready (di_delay d) now m) (di_q d))) <$>
    s_DelayedInbox s;
  co_tickets : tickets_after (ready_msgs s now) (s_Retryables s) (s_Retryables s');
}.

Lemma ready_msgs_ok s now : seq_ok s -> Forall msg_ok (ready_msgs s now).
Proof.
  intros Hs. unfold ready_msgs. pose proof (so_inbox s Hs) as Hi. destruct (s_DelayedInbox s); [|constructor].
  by apply Forall_filter, Hi.
Qed.

Lemma express_fits s now : seq_ok s -> Forall tx_fits (express s now).
Proof.
  intros Hs. unfold express. pose proof (so_boost s Hs) as Hb. destruct (s_Timeboost s); [|constructor].
  cbn [option_ok] in Hb. rewrite Forall_fmap in *. by apply Forall_filter.
Qed.

Lemma used_gas_counted l : forall used, 0 <= used < B64 -> Forall tx_fits l -> used_gas used l = gas_counted used l /\ 0 <= gas_counted used l < B64.
Proof.
  induction l as [|tx l IH]; intros used Hu Hl; [done|]. apply Forall_cons_iff in Hl as [Htx Hl].
  pose proof (to_gas tx (proj1 Htx)) as Hg. cbn [used_gas gas_counted]. rewrite SafeAddGas_spec by done. unfold is_u64 in Hg.
  gtest; [rewrite decide_True by done; apply IH; [lia|done]|rewrite decide_False by lia; done].
Qed.

Lemma remaining_room limit maxTxs l :
  is_u64 limit -> Forall tx_fits l ->
  remaining limit maxTxs l = (gas_room limit l, Z.max 0 (count_room maxTxs l)) /\ is_u64 (gas_room limit l).
Proof.
  intros Hl Hf. destruct (used_gas_counted l 0 ltac:(lia) Hf) as [E Hu]. unfold remaining, gas_room, count_room. rewrite E.
  unfold is_u64 in *. split.
  - f_equal; [|gtest; lia]. destruct (Z.eqb_spec limit 0); [by rewrite decide_True|]. rewrite decide_False by done. cbn [negb].
    gtest; [lia|]. unfold sub64. rewrite u64_small by (unfold is_u64; lia). lia.
  - destruct (decide _); lia.
Qed.

Lemma pool_out_fits m maxGas maxCount out m' :
  pool_ok m -> pool_fits m -> greedy maxGas maxCount 0 0 m out m' -> pool_ok m' /\ pool_fits m' /\ Forall tx_fits out.
Proof.
  intros Hm Hf G. destruct (greedy_post _ _ _ _ _ _ _ Hm G) as (Hm' & _ & _ & Hq & Hb & _). split; [done|]. split.
  - intros h tx. rewrite Hb. clear -Hf. revert Hf. unfold pool_fits. generalize (byHash m) as bh.
    induction out as [|t out IH]; intros bh Hf; cbn [foldl]; [apply Hf|]. apply IH. intros h' tx' E.
    apply lookup_delete_Some in E as [_ E]. by apply (Hf h').
  - apply Forall_forall. intros tx Htx%list_elem_of_In.
    assert (tx ∈ queue m (tx_From tx)) as Hin.
    { rewrite Hq. apply elem_of_app. left. by apply list_elem_of_filter. }
    apply (queue_elem m Hm) in Hin as (Hok & _ & E). split; [done|by apply (Hf (tx_Hash tx))].
Qed.

Lemma popped_post gas count m popped m' :
  pool_ok m -> 0 <= gas -> 0 < count -> greedy gas count 0 0 m popped m' -> popped_from gas count m popped m'.
Proof.
  intros Hm Hg Hc G. destruct (greedy_post _ _ _ _ _ _ _ Hm G) as (_ & H1 & H2 & Hq & _ & Hend). fold (total_gas popped) in H1, Hend.
  specialize (H1 Hg). specialize (H2 Hc ltac:(lia)). constructor; [done|lia|lia|done|].
  destruct Hend as [Hend|Hend]; [left; lia|right; by rewrite Z.sub_0_r in Hend].
Qed.

Lemma collect_spec seed s now :
  seq_ok s -> is_u64 now ->
  exists s' cands, collect range_heads seed s now = Ok (s', cands) /\ seq_ok s' /\ Forall tx_fits cands /\
    collected s now s' cands /\ s_State s' = foldl credit (s_State s) (ready_msgs s now) /\
    s_Header s' = s_Header s /\ s_maxTxs s' = s_maxTxs s.
Proof.
  intros Hs Hn. pose proof Hs as [Hp Hb Hi [Ht Hc] Hh Hmax]. unfold collect.
  replace (match s_DelayedInbox s with Some d => let '(d, ready) := PopReady d now in (Some d, ready) | None => (None, []) end)
    with ((fun d => MkInbox (di_delay d) (filter (fun m => ~ is_ready (di_delay d) now m) (di_q d))) <$> s_DelayedInbox s, ready_msgs s now).
  2: { unfold ready_msgs. destruct (s_DelayedInbox s) as [d|]; [|done].
       by rewrite PopReady_spec by (try apply Hi; try done; apply (List.Forall_impl _ mo_posted (proj2 Hi))). }
  pose proof (ready_msgs_ok s now Hs) as Hr. pose proof (express_fits s now Hs) as Hx.
  destruct (deliver_spec (ready_msgs s now) (s_Retryables s) (s_State s) [] Hr Ht Hc) as (rets & -> & Hre & Htk).
  destruct (foldl_credit_ok (ready_msgs s now) (s_State s) Hr Ht Hc) as [Ht' Hc']. cbn [mbind outcome_bind app].
  fold (redemptions s now) in Hre |- *.
  replace (match s_Timeboost s with Some b => _ | None => _ end)
    with ((fun b => MkTimeboost (tb_window b) []) <$> s_Timeboost s, first_in s now).
  2: { unfold first_in, express. destruct (s_Timeboost s) as [b|]; [by rewrite Drain_spec|by rewrite app_nil_r]. }
  assert (Forall tx_fits (first_in s now)) as Hf by (by apply Forall_app).
  destruct (remaining_room (h_GasLimit (s_Header s)) (s_maxTxs s) (first_in s now) (ho_limit _ Hh) Hf) as [-> Hg].
  set (g := gas_room _ _) in *. set (c := count_room _ _).
  set (mk := fun pool => MkSeq pool ((fun b => MkTimeboost (tb_window b) []) <$> s_Timeboost s)
    ((fun d => MkInbox (di_delay d) (filter (fun m => ~ is_ready (di_delay d) now m) (di_q d))) <$> s_DelayedInbox s) rets
    (foldl credit (s_State s) (ready_msgs s now)) (s_Header s) (s_LastBatch s) (s_LastTxs s) (s_maxTxs s)).
  assert (forall pool, option_ok (fun m => pool_ok m /\ pool_fits m) pool -> seq_ok (mk pool)) as Hok.
  { intros pool Hpool. constructor; cbn; try done; [destruct (s_Timeboost s); [constructor|done]|].
    destruct (s_DelayedInbox s); [|done]. split; [apply Hi|by apply Forall_filter, Hi]. }
  assert (forall pool popped, pool_taken g c (s_Mempool s) popped pool -> collected s now (mk pool) (first_in s now ++ popped)) as Hco.
  { intros pool popped Hpt. constructor; [by exists popped|done..]. }
  unfold is_u64 in Hg. destruct (s_Mempool s) as [m|].
  2: { eexists _, (first_in s now). split; [reflexivity|]. split; [by apply Hok|]. split; [done|]. split; [|done].
       rewrite <- (app_nil_r (first_in s now)). by apply Hco. }
  destruct Hp as [Hm Hpf]. destruct (decide (0 < g /\ 0 < c)) as [[Hg0 Hc0]|Hno].
  - replace ((0 <? Z.max 0 c) && (0 <? g)) with true by (symmetry; gtest; gtest; try done; lia). rewrite Z.max_r by lia.
    destruct (PopBatch_greedy range_heads heads_perm (S (Count m)) seed g c m) as (m' & sel & -> & G); [done|done|lia|lia|lia|].
    destruct (pool_out_fits m g c sel m' Hm Hpf G) as (Hm' & Hf' & Hsel).
    eexists _, _. split; [reflexivity|]. split; [by apply Hok|]. split; [by apply Forall_app|]. split; [|done].
    apply Hco. cbn [pool_taken]. rewrite decide_True by done. apply popped_post; [done|lia|lia|done].
  - replace ((0 <? Z.max 0 c) && (0 <? g)) with false by (symmetry; gtest; gtest; try done; lia).
    eexists _, (first_in s now). split; [reflexivity|]. split; [by apply Hok|]. split; [done|]. split; [|done].
    rewrite <- (app_nil_r (first_in s now)). apply Hco. cbn [pool_taken]. by rewrite decide_False.
Qed.

(** ** Selection *)

(** The transactions of one sender carry the nonces that follow [n]. *)
Fixpoint consecutive (n : Z) (l : list Transaction) : Prop :=
  match l with [] => True | tx :: l => tx_Nonce tx = n /\ consecutive (add64 n 1) l end.

Definition next_nonce (n : Z) (l : list Transaction) : Z := foldl (fun n _ => add64 n 1) n l.

Lemma consecutive_snoc n l tx : consecutive n (l ++ [tx]) <-> consecutive n l /\ tx_Nonce tx = next_nonce n l.
Proof.
  revert n. induction l as [|t l IH]; intros n; cbn; [tauto|]. rewrite IH. unfold next_nonce. tauto.
Qed.

(** Why a candidate is left out, once the transactions of [batch] are taken: the count
    or the gas is exhausted, its nonce does not follow, or the sum overflows. *)
Definition left_out (t : StateTrie) (limit maxTxs : Z) (batch : list Transaction) (tx : Transaction) : Prop :=
  0 < maxTxs <= Z.of_nat (length batch) \/
  (limit <> 0 /\ (limit <= total_gas batch \/ limit < total_gas batch + tx_Gas tx)) \/
  tx_Nonce tx <> next_nonce (nonceOf t (tx_From tx)) (filter (fun x => tx_From x = tx_From tx) batch) \/
  B64 <= total_gas batch + tx_Gas tx.

(** The selection: every candidate, in order, is taken unless it is left out. *)
Inductive chosen (t : StateTrie) (limit maxTxs : Z) : list Transaction -> list Transaction -> list Transaction -> Prop :=
  | chosen_nil batch : chosen t limit maxTxs batch [] []
  | chosen_take batch tx cands l : ~ left_out t limit maxTxs batch tx ->
      chosen t limit maxTxs (batch ++ [tx]) cands l -> chosen t limit maxTxs batch (tx :: cands) (tx :: l)
  | chosen_skip batch tx cands l : left_out t limit maxTxs batch tx ->
      chosen t limit maxTxs batch cands l -> chosen t limit maxTxs batch (tx :: cands) l.

Record selected (t : StateTrie) (limit maxTxs : Z) (cands batch : list Transaction) : Prop := {
  sl_chosen : chosen t limit maxTxs [] cands batch;
  sl_sub : batch `sublist_of` cands;
  sl_count : 0 < maxTxs -> Z.of_nat (length batch) <= maxTxs;
  sl_gas : limit <> 0 -> total_gas batch <= limit;
  sl_total : total_gas batch < B64;
  sl_nonces a : consecutive (nonceOf t a) (filter (fun tx => tx_From tx = a) batch);
}.

Definition seen_ok (t : StateTrie) (seen : gmap Address Z) (batch : list Transaction) : Prop :=
  forall a, default (nonceOf t a) (seen !! a) = next_nonce (nonceOf t a) (filter (fun tx => tx_From tx = a) batch).

Lemma total_gas_snoc l tx : total_gas (l ++ [tx]) = total_gas l + tx_Gas tx.
Proof. induction l as [|x l IH]; cbn; [lia|]. fold (total_gas (l ++ [tx])) (total_gas l). lia. Qed.

Lemma seen_snoc t seen batch tx :
  seen_ok t seen batch -> seen_ok t (<[tx_From tx := add64 (default (nonceOf t (tx_From tx)) (seen !! tx_From tx)) 1]> seen) (batch ++ [tx]).
Proof.
  intros Hs a. rewrite list.filter_app. destruct (decide (tx_From tx = a)) as [<-|Hne].
  - rewrite lookup_insert_eq. rewrite filter_cons_True by done. unfold next_nonce. rewrite foldl_app. cbn [default foldl].
    rewrite Hs. reflexivity.
  - rewrite lookup_insert_ne by done. rewrite filter_cons_False by done. rewrite app_nil_r. apply Hs.
Qed.

Lemma chosen_full t limit maxTxs batch cands :
  (forall tx, left_out t limit maxTxs batch tx) -> chosen t limit maxTxs batch cands [].
Proof. intros H. induction cands as [|tx cands IH]; [constructor|]. by apply chosen_skip. Qed.

(** The selection within the limits, given what is already taken. *)
Definition within (t : StateTrie) (limit maxTxs : Z) (batch : list Transaction) : Prop :=
  (0 < maxTxs -> Z.of_nat (length batch) <= maxTxs) /\ (limit <> 0 -> total_gas batch <= limit) /\
  total_gas batch < B64 /\ forall a, consecutive (nonceOf t a) (filter (fun tx => tx_From tx = a) batch).

Lemma within_snoc t limit maxTxs batch tx :
  within t limit maxTxs batch -> ~ left_out t limit maxTxs batch tx -> within t limit maxTxs (batch ++ [tx]).
Proof.
  intros (H1 & H2 & H3 & H4) Hn. unfold left_out in Hn. unfold within. rewrite total_gas_snoc, length_app. cbn [length].
  split; [lia|]. split; [lia|]. split; [lia|]. intros a. rewrite list.filter_app.
  destruct (decide (tx_From tx = a)) as [<-|Hne].
  - rewrite filter_cons_True by done. apply consecutive_snoc. split; [done|]. destruct (decide (tx_Nonce tx = 
      next_nonce (nonceOf t (tx_From tx)) (filter (fun x => tx_From x = tx_From tx) batch))); [done|]. tauto.
  - rewrite filter_cons_False by done. by rewrite app_nil_r.
Qed.

Lemma chosen_within t limit maxTxs batch cands l :
  chosen t limit maxTxs batch cands l -> within t limit maxTxs batch -> within t limit maxTxs (batch ++ l) /\ l `sublist_of` cands.
Proof.
  induction 1 as [batch|batch tx cands l Hn _ IH|batch tx cands l Ho _ IH]; intros Hw.
  - by rewrite app_nil_r.
  - destruct IH as [Hw' Hs]; [by apply within_snoc|]. rewrite <- app_assoc in Hw'. split; [done|]. by apply sublist_skip.
  - destruct IH as [Hw' Hs]; [done|]. split; [done|]. by apply sublist_cons.
Qed.

Lemma select_chosen t limit maxTxs cands : forall seen batch,
  is_u64 limit -> Forall tx_fits cands -> Forall tx_fits batch -> within t limit maxTxs batch -> seen_ok t seen batch ->
  exists l, select t limit maxTxs cands seen (total_gas batch) batch = batch ++ l /\ chosen t limit maxTxs batch cands l.
Proof.
  induction cands as [|tx cands IH]; intros seen batch Hl Hc Hb Hw Hseen.
  { exists []. split; [by rewrite app_nil_r|constructor]. }
  cbn [select]. apply Forall_cons_iff in Hc as [Htx Hc]. pose proof (to_gas tx (proj1 Htx)) as Hgas.
  pose proof (total_gas_nonneg batch Hb) as H0. destruct Hw as (W1 & W2 & W3 & W4). unfold is_u64 in *.
  assert (forall seen', seen_ok t seen' batch -> left_out t limit maxTxs batch tx -> exists l,
    select t limit maxTxs cands seen' (total_gas batch) batch = batch ++ l /\ chosen t limit maxTxs batch (tx :: cands) l) as Hskip.
  { intros seen' Hs' Ho. destruct (IH seen' batch Hl Hc Hb) as (l & E & G); [done|done|]. exists l. split; [done|by apply chosen_skip]. }
  assert ((forall tx, left_out t limit maxTxs batch tx) -> exists l, batch = batch ++ l /\ chosen t limit maxTxs batch (tx :: cands) l) as Hstop.
  { intros Ho. exists []. split; [by rewrite app_nil_r|by apply chosen_full]. }
  destruct ((0 <? maxTxs) && (maxTxs <=? Z.of_nat (length batch))) eqn:E1; [apply Hstop; intros x; left; lia|].
  destruct (negb (limit =? 0) && (limit <=? total_gas batch)) eqn:E2.
  { apply Hstop. intros x. right; left. apply andb_true_iff in E2 as [E2 E2']. apply negb_true_iff, Z.eqb_neq in E2. lia. }
  assert (limit <> 0 -> total_gas batch < limit) as E2' by (intros Hz; apply Z.eqb_neq in Hz; rewrite Hz in E2; cbn in E2; lia).
  destruct (negb (limit =? 0) && (sub64 limit (total_gas batch) <? tx_Gas tx)) eqn:E3.
  { apply Hskip; [done|]. right; left. apply andb_true_iff in E3 as [E3 E3']. apply negb_true_iff, Z.eqb_neq in E3.
    specialize (E2' E3). unfold sub64 in E3'. rewrite u64_small in E3' by (unfold is_u64; lia). lia. }
  assert (limit <> 0 -> total_gas batch + tx_Gas tx <= limit) as E3'.
  { intros Hz. specialize (E2' Hz). apply Z.eqb_neq in Hz. rewrite Hz in E3. cbn in E3. unfold sub64 in E3.
    rewrite u64_small in E3 by (unfold is_u64; lia). lia. }
  set (want := default (nonceOf t (tx_From tx)) (seen !! tx_From tx)).
  assert (exists seen', match seen !! tx_From tx with Some want => (want, seen)
    | None => (nonceOf t (tx_From tx), <[tx_From tx := nonceOf t (tx_From tx)]> seen) end = (want, seen') /\
    seen_ok t seen' batch /\ default (nonceOf t (tx_From tx)) (seen' !! tx_From tx) = want) as (seen' & -> & Hseen' & Hw).
  { subst want. destruct (seen !! tx_From tx) as [w|] eqn:E; [exists seen; by rewrite E|].
    eexists. split; [reflexivity|]. rewrite lookup_insert_eq. split; [|done]. intros a. rewrite <- Hseen.
    destruct (decide (tx_From tx = a)) as [<-|]; [by rewrite lookup_insert_eq, E|by rewrite lookup_insert_ne]. }
  assert (want = next_nonce (nonceOf t (tx_From tx)) (filter (fun x => tx_From x = tx_From tx) batch)) as Ewant by apply Hseen.
  destruct (Z.eqb_spec (tx_Nonce tx) want) as [En|En]; cbn [negb].
  2: { apply Hskip; [done|]. right; right; left. by rewrite <- Ewant. }
  rewrite SafeAddGas_spec by (unfold is_u64; lia).
  destruct (Z.ltb_spec (total_gas batch + tx_Gas tx) B64); [|apply Hskip; [done|]; right; right; right; lia].
  assert (~ left_out t limit maxTxs batch tx) as Hin.
  { unfold left_out. rewrite <- Ewant. intros [?|[[? ?]|[?|?]]]; [|specialize (E3' ltac:(done)); specialize (E2' ltac:(done))|done|]; lia. }
  rewrite <- total_gas_snoc, <- Hw.
  destruct (IH _ (batch ++ [tx]) Hl Hc ltac:(apply Forall_app; split; [done|by constructor]) (within_snoc t limit maxTxs batch tx (conj W1 (conj W2 (conj W3 W4))) Hin)
    (seen_snoc t seen' batch tx Hseen')) as (l & E & G).
  exists (tx :: l). rewrite E, <- app_assoc. split; [done|by apply chosen_take].
Qed.

Lemma select_spec t limit maxTxs cands :
  is_u64 limit -> Forall tx_fits cands ->
  let batch := select t limit maxTxs cands ∅ 0 [] in selected t limit maxTxs cands batch /\ Forall tx_fits batch.
Proof.
  intros Hl Hc. cbv zeta.
  assert (within t limit maxTxs []) as H0 by (unfold within; cbn; unfold is_u64 in Hl; split_and!; try lia; done).
  destruct (select_chosen t limit maxTxs cands ∅ [] Hl Hc (Forall_nil_2 _) H0 ltac:(intros a; by rewrite lookup_empty)) as (l & E & G).
  change (total_gas []) with 0 in E. rewrite E. cbn [app]. destruct (chosen_within _ _ _ _ _ _ G H0) as [(W1 & W2 & W3 & W4) Hs].
  split; [by constructor|]. clear -Hc G. revert Hc. induction G as [|batch tx cands l _ _ IH|batch tx cands l _ _ IH]; intros Hc; [constructor|..];
    apply Forall_cons_iff in Hc as [Htx Hc]; [constructor; [done|]|]; by apply IH.
Qed.

(** ** Production *)

(** The block of [s] at [now] is over [batch], and its production leaves the queues of
    [s']: the batch is the selection among the collected candidates, on the state with
    the deposits credited. *)
Definition gathered (s : Sequencer) (now : Z) (s' : Sequencer) (batch : list Transaction) : Prop :=
  exists cands, collected s now s' cands /\
    selected (foldl credit (s_State s) (ready_msgs s now)) (h_GasLimit (s_Header s)) (s_maxTxs s) cands batch.

(** The header the block is processed under. *)
Definition opened (s : Sequencer) (now : Z) : BlockHeader := next_header (s_Header s) now (h_Number (s_Header s) + 1) 0.

(** What a block leaves: the gathered transactions were processed on the state with
    the deposits credited, and they are what [LastTxs] and [LastBatch] carry. *)
Record produced (s : Sequencer) (now : Z) (s' : Sequencer) (res : BlockResult) : Prop := {
  pr_ok : seq_ok s';
  pr_number : h_Number (s_Header s') = h_Number (s_Header s) + 1;
  pr_parent : h_ParentHash (s_Header s') = h_StateRoot (s_Header s);
  pr_batch : gathered s now s' (s_LastTxs s');
  pr_block : block_post range range_accounts (opened s now) (s_LastTxs s') (foldl credit (s_State s) (ready_msgs s now))
    (s_State s') (s_Header s') res;
  pr_packed : exists plain, pack_plain (Some <$> s_LastTxs s') = Ok plain /\ brotliUncompressed plain = Ok (s_LastBatch s') /\
    forall fuel, unpack_plain (S (S (S fuel))) plain = Ok (map carried (s_LastTxs s'));
}.

(** A failure: the last block number leaves the queues alone; a block that is refused
    leaves the deposits credited and the queues emptied; a batch that cannot be packed
    leaves the accepted block. *)
Definition failed (seed : nat) (arena : mptArena) (s : Sequencer) (now : Z) (e : produce_err) (s' : Sequencer) : Prop :=
  seq_ok s' /\ s_LastTxs s' = s_LastTxs s /\ s_LastBatch s' = s_LastBatch s /\
  match e with
  | ProduceSeq ErrGasOverflow => h_Number (s_Header s) = B64 - 1 /\
      s' = with_header s (next_header (s_Header s) now (h_Number (s_Header s)) (h_GasUsed (s_Header s)))
  | ProduceSeq e => e = ErrBatchTooLarge /\ exists batch res, gathered s now s' batch /\ Pack (Some <$> batch) = Err e /\
      block_post range range_accounts (opened s now) batch (foldl credit (s_State s) (ready_msgs s now)) (s_State s') (s_Header s') res
  | ProduceBlk e => s_State s' = foldl credit (s_State s) (ready_msgs s now) /\ s_Header s' = opened s now /\
      exists batch, gathered s now s' batch /\
        ProcessBlock range range_accounts range_set RunPrecompile (opened s now) batch (s_State s') (S seed) arena = Err (e, s_State s')
  end.

(** The only panic is that of the block. *)
Definition panicked (seed : nat) (arena : mptArena) (s : Sequencer) (now : Z) : Prop :=
  exists s' batch, gathered s now s' batch /\
    ProcessBlock range range_accounts range_set RunPrecompile (opened s now) batch
      (foldl credit (s_State s) (ready_msgs s now)) (S seed) arena = Panic.

Lemma pack_items_cases l total :
  match pack_items (Some <$> l) total with Ok _ => True | Err e => e = ErrBatchTooLarge | _ => False end.
Proof.
  revert total. induction l as [|tx l IH]; intros total; [done|]. rewrite fmap_cons. cbn [pack_items]. gtest; [done|].
  specialize (IH (total + Z.of_nat (length (encodeTx tx)))). by destruct (pack_items _ _).
Qed.

Lemma Pack_cases l :
  match Pack (Some <$> l) with
  | Ok packed => exists plain, pack_plain (Some <$> l) = Ok plain /\ brotliUncompressed plain = Ok packed
  | Err e => e = ErrBatchTooLarge
  | _ => False
  end.
Proof.
  unfold Pack. destruct (pack_plain (Some <$> l)) as [plain|e| |] eqn:E; cbn [mbind outcome_bind].
  - destruct (brotliUncompressed plain) as [packed|e| |] eqn:Eb; [by exists plain|..]; revert Eb; unfold brotliUncompressed;
      repeat (gtest; try done); congruence.
  - revert E. unfold pack_plain. pose proof (pack_items_cases l 0) as H. destruct (pack_items _ _); cbn [mbind outcome_bind];
      [gtest; congruence|congruence|done..].
  - revert E. unfold pack_plain. pose proof (pack_items_cases l 0) as H. destruct (pack_items _ _); cbn [mbind outcome_bind];
      [by gtest|done..].
  - revert E. unfold pack_plain. pose proof (pack_items_cases l 0) as H. destruct (pack_items _ _); cbn [mbind outcome_bind];
      [by gtest|done..].
Qed.

Lemma unpack_batch l plain fuel :
  Forall tx_fits l -> pack_plain (Some <$> l) = Ok plain -> (length l <= 4096)%nat ->
  unpack_plain (S (S (S fuel))) plain = Ok (map carried l).
Proof.
  intros Hl E Hn. destruct (unpack_pack fuel (Some <$> l) plain) as (l' & El & _ & ->); [|done|].
  - clear -Hl. induction Hl as [|x l [Hx _] Hl IH]; [constructor|]. by constructor.
  - apply (inj (fmap Some)) in El as <-. by rewrite decide_True.
Qed.

Lemma next_header_ok h now n g : header_ok h -> is_u64 now -> is_u64 n -> header_ok (next_header h now n g).
Proof. intros [] Hn Hnum. by constructor. Qed.

Lemma seq_ok_with s t h : seq_ok s -> state_ok t -> codes_ok (accounts t) -> header_ok h -> seq_ok (with_header (with_state s t) h).
Proof. intros [] Ht Hc Hh. by constructor. Qed.

Lemma collect_last seed s now s' cands :
  collect range_heads seed s now = Ok (s', cands) -> s_LastTxs s' = s_LastTxs s /\ s_LastBatch s' = s_LastBatch s.
Proof.
  unfold collect. destruct (match s_DelayedInbox s with Some d => _ | None => _ end) as [inbox ready].
  destruct (deliver _ _ _ _) as [[[rets t] out]| | |]; cbn [mbind outcome_bind]; [|done..].
  destruct (match s_Timeboost s with Some b => _ | None => _ end) as [boost l]. destruct (remaining _ _ _) as [g c].
  destruct (s_Mempool s) as [m|]; [|by intros [= <- _]]. destruct (_ && _); [|by intros [= <- _]].
  destruct (PopBatch _ _ _ _ _ _) as [[m' sel]| | |]; [by intros [= <- _]|done..].
Qed.

Lemma collected_header s now h s' cands :
  h_GasLimit h = h_GasLimit (s_Header s) -> collected (with_header s h) now s' cands -> collected s now s' cands.
Proof. intros Eh [C1 C2 C3 C4]. constructor; [|done..]. cbn in C1. rewrite Eh in C1. exact C1. Qed.

Lemma gathered_queues s now s1 s2 batch :
  s_Mempool s1 = s_Mempool s2 -> s_Timeboost s1 = s_Timeboost s2 -> s_DelayedInbox s1 = s_DelayedInbox s2 ->
  s_Retryables s1 = s_Retryables s2 -> gathered s now s1 batch -> gathered s now s2 batch.
Proof.
  intros E1 E2 E3 E4 (cands & [C1 C2 C3 C4] & H). exists cands. split; [|done]. constructor; [by rewrite <- E1|congruence|congruence|by rewrite <- E4].
Qed.

Lemma ProduceBlock_spec seed arena s now :
  seq_ok s -> is_u64 now -> 0 <= node_cap arena ->
  match ProduceBlock range range_accounts range_set range_heads RunPrecompile seed arena s now with
  | Ok (s', res) => produced s now s' res
  | Err (e, s') => failed seed arena s now e s'
  | Panic => panicked seed arena s now
  | OutOfFuel => False
  end.
Proof.
  intros Hs Hn Ha. pose proof (ho_number _ (so_header s Hs)) as Hnum. unfold is_u64 in Hnum. unfold ProduceBlock.
  rewrite SafeAddGas_spec by (unfold is_u64; lia). destruct (Z.ltb_spec (h_Number (s_Header s) + 1) B64) as [Hlt|Hge].
  2: { split; [|split; [done|split; [done|split; [lia|done]]]]. destruct Hs as [? ? ? ? Hh ?]. constructor; try done.
       by apply next_header_ok. }
  fold (opened s now). set (s1 := with_header s (opened s now)). assert (seq_ok s1) as Hs1.
  { destruct Hs as [? ? ? ? Hh ?]. constructor; try done. apply next_header_ok; [done|done|unfold is_u64; lia]. }
  destruct (collect_spec seed s1 now Hs1 Hn) as (s2 & cands & Ec & Hs2 & Hc & Hco & Et & Eh & Em).
  destruct (collect_last _ _ _ _ _ Ec) as [ElT ElB]. rewrite Ec. cbn [lift_panic mbind outcome_bind].
  apply collected_header in Hco; [|done].
  change (s_State s1) with (s_State s) in Et. change (ready_msgs s1 now) with (ready_msgs s now) in Et.
  change (s_maxTxs s1) with (s_maxTxs s) in Em. change (s_Header s1) with (opened s now) in Eh.
  destruct (so_state s2 Hs2) as [Ht Hcd]. set (batch := select _ _ _ _ _ _ _).
  destruct (select_spec (s_State s2) (h_GasLimit (s_Header s2)) (s_maxTxs s2) cands (ho_limit _ (so_header s2 Hs2)) Hc) as [Hsel Hfit].
  fold batch in Hsel, Hfit. assert (block_fits batch) as Hbf.
  { pose proof (so_max s2 Hs2). pose proof (sl_count _ _ _ _ _ Hsel ltac:(lia)). split; [done|apply Hsel|lia]. }
  assert (length batch <= 4096)%nat as Hlen by (pose proof (so_max s2 Hs2); pose proof (sl_count _ _ _ _ _ Hsel ltac:(lia)); lia).
  assert (gathered s now s2 batch) as Hg.
  { exists cands. split; [done|]. by rewrite Eh, Em, Et in Hsel. }
  pose proof (ProcessBlock_spec range range_perm range_accounts range_set range_set_elem RunPrecompile accounts_perm
    (s_Header s2) batch (s_State s2) (S seed) arena Ht Hcd (so_header s2 Hs2) Hbf Ha) as HP.
  rewrite Eh in HP |- *. destruct (ProcessBlock _ _ _ _ _ _ _ _ _) as [[[[t sd] h] res]|[x t]| |] eqn:EP; [| | |done].
  - pose proof HP as [(Ht' & Hcd' & _) _ _ _ _ _ _ _ Ehh].
    assert (header_ok h) as Hh by (subst h; pose proof (so_header s2 Hs2) as [? ? ? ?]; rewrite Eh in *; by constructor).
    pose proof (seq_ok_with s2 t h Hs2 Ht' Hcd' Hh) as Hs3. rewrite Et in HP.
    pose proof (Pack_cases batch) as HK. destruct (Pack (Some <$> batch)) as [packed|e| |] eqn:EK; [| |done|done].
    + destruct HK as (plain & Epl & Ebr). constructor; cbn [with_last s_Header s_LastTxs s_LastBatch s_State with_header with_state].
      * by destruct Hs3.
      * by subst h.
      * by subst h.
      * by apply (gathered_queues s now s2).
      * exact HP.
      * exists plain. split; [done|]. split; [done|]. intros fuel. by apply unpack_batch.
    + subst e. split; [done|]. split; [done|]. split; [done|]. split; [done|]. exists batch, res.
      split; [by apply (gathered_queues s now s2)|]. split; [done|exact HP].
  - subst t. split; [pose proof (seq_ok_with s2 (s_State s2) (s_Header s2) Hs2 Ht Hcd (so_header s2 Hs2)) as H2; by destruct H2|].
    split; [done|]. split; [done|]. split; [done|]. split; [done|]. exists batch.
    split; [by apply (gathered_queues s now s2)|exact EP].
  - exists s2, batch. split; [done|]. by rewrite <- Et.
Qed.
End sequencer.
