(* ===== verification/BlockProps.v ===== *)
(** * Properties of message calls, transactions and blocks

    The statements about [CallContext], [BlockProcessor] and [ReceiptTrie]; the
    witnesses at the end run the model on a small chain. *)

From S2P Require Import Prelude Uint256 Bitwise256 Arith256 Keccak Frame Stepper StepperSpec StateTrie.
From S2P Require Import StateTrieSpec Trie TrieSpec StateRoot StateRootSpec BlockTypes TxRlp CallContext CallEnv.
From S2P Require Import HostSpec CallSpec ReceiptTrie ReceiptSpec BlockProcessor BlockSpec.

Section calls.
  Context (range : nat -> storage_map -> list (storageKey * Uint256)).
  Context (range_perm : forall seed m, range seed m ≡ₚ map_to_list m).
  Context (RunPrecompile : Z -> bytes -> Z -> outcome unit (bytes * Z)) `{!PrecompileLaws RunPrecompile}.

(** C24: a call always terminates: the bounds [run] computes, 1024 nested calls and as many rounds
    as units of gas, are never exhausted. *)
Theorem run_terminates e p :
  env_ok e -> cp_ok p -> run range RunPrecompile e p <> OutOfFuel.
Proof.
  intros He Hp E. pose proof (run_spec range range_perm RunPrecompile e p He Hp) as H. by rewrite E in H.
Qed.

(** C2: a call that fails is undone: the environment is the one before the call, but for the return
    data, the refund counter and the count of map enumerations. *)
Theorem run_failure_undone e p e' r :
  env_ok e -> cp_ok p -> run range RunPrecompile e p = Ok (e', r) -> cr_ok r = false ->
  e_state e' = e_state e /\ e_logs e' = e_logs e /\ e_depth e' = e_depth e /\
  e_touched e' = e_touched e /\ e_created e' = e_created e /\ e_suicided e' = e_suicided e.
Proof.
  intros He Hp E Hf. pose proof (run_spec range range_perm RunPrecompile e p He Hp) as H. rewrite E in H.
  destruct H as [_ _ _ Hu _]. rewrite (Hu Hf). done.
Qed.

(** C1: a call keeps the environment well formed, returns no more gas than it was given, extends
    the logs, and never increases the total balance. *)
Theorem run_sound e p e' r :
  env_ok e -> cp_ok p -> run range RunPrecompile e p = Ok (e', r) ->
  env_ok e' /\ 0 <= cr_left r <= cp_gas p /\ (exists new, e_logs e' = e_logs e ++ new) /\ e_depth e' = e_depth e /\
  (supply (accounts (e_state e)) < B256 -> supply (accounts (e_state e')) <= supply (accounts (e_state e))).
Proof.
  intros He Hp E. pose proof (run_spec range range_perm RunPrecompile e p He Hp) as H. rewrite E in H.
  destruct H as [[He' []] Hl _ _ _]. done.
Qed.

(** C25: a read-only call changes nothing observable: accounts, storage, logs, created and destroyed
    accounts are those before the call, whatever the callees do. *)
Theorem static_call_pure e p e' r :
  env_ok e -> cp_ok p -> run range RunPrecompile e p = Ok (e', r) ->
  cp_readOnly p = true -> is_create p = false -> cp_kind p = 0xf4 \/ cp_callVal p = zero256 ->
  state_view (e_state e') = state_view (e_state e) /\ e_logs e' = e_logs e /\
  e_created e' = e_created e /\ e_suicided e' = e_suicided e.
Proof.
  intros He Hp E H1 H2 H3. pose proof (run_spec range range_perm RunPrecompile e p He Hp) as H. rewrite E in H.
  destruct H as [_ _ _ _ Hs]. destruct (Hs H1 H2 H3) as [Ha Hst Hl Hc Hsu]. unfold state_view. by rewrite Ha, Hst.
Qed.

(** The callee [m], with a failure that hands the gas back in place of a panic. *)
Definition catching (m : vmEnv -> callParams -> outcome Empty_set (vmEnv * callResult)) (e : vmEnv) (p : callParams) :
  outcome Empty_set (vmEnv * callResult) :=
  match m e p with Panic => Ok (e, CallResult [] (cp_gas p) false) | x => x end.

Lemma catching_ok P m e p : env_ok e -> cp_ok p -> run_ok P (m e p) e p -> run_ok False (catching m e p) e p.
Proof.
  intros He Hp H. unfold catching. destruct (m e p) as [[e' r]|x| |]; [exact H|exact H| |exact H].
  pose proof (co_gas p Hp) as Hg. unfold is_u64 in Hg.
  constructor; cbn; [by apply steps_refl|lia|split; [constructor|cbn; lia]|by rewrite restored_refl|done].
Qed.

(** C31: one instruction of a call, host opcodes included, with [run] itself as the callee: the
    frame invariant is kept and the gas decreases or the frame halts. It panics only for LOG,
    CREATE or CALL with an empty memory range that starts past the end of the memory, or because
    the call it makes panics: it would not if that call failed instead. *)
Theorem exec_one_sound e f p code :
  let L := bs_laws None (addrToU256 (cp_addr p)) (cp_readOnly p) in
  env_ok e -> cp_ok p -> @frame_ok _ _ L f -> code_ok code -> Status f = StatusRunning ->
  PC f < Z.of_nat (length code) ->
  match exec_one range (run range RunPrecompile) e f p code with
  | Ok (e', f') => env_ok e' /\ grows e e' /\ @frame_ok _ _ L f' /\ Gas f' <= Gas f /\
      (Status f' = StatusRunning -> Gas f' < Gas f)
  | Panic => bad_op f (code !!! Z.to_nat (PC f)) \/
      exists e' f', exec_one range (catching (run range RunPrecompile)) e f p code = Ok (e', f')
  | _ => False
  end.
Proof.
  intros L He Hp Hf Hc Hs Hpc.
  pose proof (exec_one_ok range range_perm (run range RunPrecompile) True (e_depth e)
    (fun e p He Hp _ => run_spec range range_perm RunPrecompile e p He Hp) _ _ e f p code He Hp Hf Hc eq_refl eq_refl Hs Hpc) as H.
  destruct (exec_one range (run range RunPrecompile) e f p code) as [[e' f']|x| |]; [|done| |done].
  { destruct H as [[[H1 H2] _] H3 H4 H5]. done. }
  pose proof (exec_one_ok range range_perm (catching (run range RunPrecompile)) False (e_depth e)
    (fun e p He Hp _ => catching_ok True _ e p He Hp (run_spec range range_perm RunPrecompile e p He Hp))
    _ _ e f p code He Hp Hf Hc eq_refl eq_refl Hs Hpc) as H'.
  destruct (exec_one range (catching _) e f p code) as [[e' f']|x| |]; [right; by exists e', f'|done| |done].
  left. by destruct H'.
Qed.
End calls.

(** the price of gas: the effective price is the base fee plus the tip, at most the sender's
    limit; a limit below the base fee is the only error. *)
Theorem effectiveFees_exact header tx :
  u256_ok (h_BaseFee header) -> tx_ok tx ->
  match effectiveFees header tx with
  | Ok (eff, tip) =>
      toZ (h_BaseFee header) <= toZ (fee_limit tx) /\
      toZ eff = toZ (h_BaseFee header) + toZ tip /\ toZ eff <= toZ (fee_limit tx) /\
      toZ tip = if dynamic_fee tx then Z.min (toZ (tx_GasTipCap tx)) (toZ (tx_GasFeeCap tx) - toZ (h_BaseFee header))
                else toZ (tx_GasPrice tx) - toZ (h_BaseFee header)
  | Err x => x = ErrFeeCap /\ toZ (fee_limit tx) < toZ (h_BaseFee header)
  | _ => False
  end.
Proof.
  intros Hb Htx. pose proof (effectiveFees_spec header tx Hb Htx) as H.
  destruct (effectiveFees header tx) as [[eff tip]|x| |]; [|done|done|done]. by destruct H as (_ & _ & ?).
Qed.

(** the intrinsic gas is 21000, or 53000 and 2 per word of init code, plus 4 per zero byte, 16
    per other byte, 2400 per access-list address and 1900 per key, when that fits in 64 bits. *)
Theorem intrinsicGas_exact tx :
  Z.of_nat (length (tx_Data tx)) < 4294967296 ->
  creation_gas tx + data_gas (tx_Data tx) + access_gas (tx_AccessList tx) < B64 ->
  intrinsicGas tx = creation_gas tx + data_gas (tx_Data tx) + access_gas (tx_AccessList tx).
Proof. exact (intrinsicGas_spec tx). Qed.

Section blocks.
  Context (range : nat -> storage_map -> list (storageKey * Uint256)).
  Context (range_perm : forall seed m, range seed m ≡ₚ map_to_list m).
  Context (range_accounts : nat -> account_map -> list (Uint256 * Account)).
  Context (accounts_perm : forall seed m, range_accounts seed m ≡ₚ map_to_list m).
  Context (range_set : nat -> gset Address -> list Address).
  Context (range_set_elem : forall seed s a, a ∈ range_set seed s -> a ∈ s).
  Context (RunPrecompile : Z -> bytes -> Z -> outcome unit (bytes * Z)) `{!PrecompileLaws RunPrecompile}.

(** C34: a transaction that is refused leaves the state as it was, and a transaction always
    terminates. *)
Theorem ProcessTransaction_refused header tx t seed :
  state_ok t -> codes_ok (accounts t) -> header_ok header -> tx_fits tx ->
  match ProcessTransaction range range_set RunPrecompile header tx t seed with
  | Err (_, t') => t' = t
  | OutOfFuel => False
  | _ => True
  end.
Proof.
  intros Ht Hc Hh Htx.
  pose proof (ProcessTransaction_spec range range_perm range_set range_set_elem RunPrecompile header tx t seed Ht Hc Hh Htx) as H.
  by destruct (ProcessTransaction _ _ _ _ _ _ _) as [[[? ?] ?]|[? ?]| |].
Qed.

(** C6: a transaction that is executed had the nonce of its sender and enough gas; it uses at most
    its gas limit and at least four fifths of the intrinsic gas. When its fee limit times its gas
    fits in 256 bits ([fee_fits]) and the total balance before it does too, it creates no value: the
    total balance falls by at least the base fee of the gas used. This is an inequality: nothing is
    said of what else may leave the balances, and without [fee_fits] value can be created
    ([fee_overflow_mints]). *)
Theorem ProcessTransaction_executed header tx t seed t' seed' rec :
  state_ok t -> codes_ok (accounts t) -> header_ok header -> tx_fits tx ->
  ProcessTransaction range range_set RunPrecompile header tx t seed = Ok (t', seed', rec) ->
  state_ok t' /\ nonceOf t (tx_From tx) = tx_Nonce tx /\ intrinsicGas tx <= tx_Gas tx /\
  4 * intrinsicGas tx <= 5 * r_GasUsed rec /\ r_GasUsed rec <= tx_Gas tx /\
  (fee_fits tx -> supply (accounts t) < B256 ->
   supply (accounts t') + toZ (h_BaseFee header) * r_GasUsed rec <= supply (accounts t)).
Proof.
  intros Ht Hc Hh Htx E.
  pose proof (ProcessTransaction_spec range range_perm range_set range_set_elem RunPrecompile header tx t seed Ht Hc Hh Htx) as H.
  rewrite E in H. pose proof (tx_post_supply header tx t t' rec Hh (proj1 Htx)) as Hs.
  destruct H as [Hr Hg [Hu1 Hu2] Hl Hn Hf] eqn:EH. split; [apply Hr|]. do 4 (split; [done|]).
  intros Hfit Hlt. exact (Hs Hfit H Hlt).
Qed.

(** C26: a block is all or nothing: when a transaction is refused, or the block's gas limit is
    exceeded, the state is exactly the one before the block. *)
Theorem ProcessBlock_atomic header txs t seed a x t' :
  state_ok t -> codes_ok (accounts t) -> header_ok header -> block_fits txs -> 0 <= node_cap a ->
  ProcessBlock range range_accounts range_set RunPrecompile header txs t seed a = Err (x, t') -> t' = t.
Proof.
  intros Ht Hc Hh Hf Ha E.
  pose proof (ProcessBlock_spec range range_perm range_accounts range_set range_set_elem RunPrecompile accounts_perm
    header txs t seed a Ht Hc Hh Hf Ha) as H. by rewrite E in H.
Qed.

(** C5: a block that is accepted: one receipt per transaction, with the cumulative gas; the gas
    used within the limit; the state root that of the state left, whatever the order in which the
    maps are enumerated; the header sealed with the roots. When, besides, the fee limit times the
    gas of every transaction fits in 256 bits ([fee_fits]) and the total balance before the block
    does too, the balances left and the base fee of the gas used are at most the total balance
    before: no value is created. *)
Theorem ProcessBlock_accepted header txs t seed a t' seed' header' res :
  state_ok t -> codes_ok (accounts t) -> header_ok header -> block_fits txs -> 0 <= node_cap a ->
  ProcessBlock range range_accounts range_set RunPrecompile header txs t seed a = Ok (t', seed', header', res) ->
  block_post range range_accounts header txs t t' header' res.
Proof.
  intros Ht Hc Hh Hf Ha E.
  pose proof (ProcessBlock_spec range range_perm range_accounts range_set range_set_elem RunPrecompile accounts_perm
    header txs t seed a Ht Hc Hh Hf Ha) as H. by rewrite E in H.
Qed.
End blocks.

(** C35: the receipts root is the root of the trie that holds receipt [i] under the RLP of [i] and
    nothing else. It is a panic exactly when some node of that trie has an encoding longer than
    the 2048 bytes of the encoder's buffers, which takes an encoded receipt of more than 1500 bytes. *)
Theorem receiptsRoot_commits recs :
  Z.of_nat (length recs) < B64 ->
  exists n, owf n /\
    (forall i r, recs !! i = Some r -> oget n (receipt_key i) = Some (encodeReceipt r)) /\
    (forall k, nibs k -> (forall i, (i < length recs)%nat -> k <> receipt_key i) -> oget n k = None) /\
    (receiptsRoot recs = if oencodable n then Ok (hashRoot n) else Panic) /\
    (Forall (fun r => (length (encodeReceipt r) <= 1500)%nat) recs -> oencodable n = true).
Proof. exact (receiptsRoot_spec recs). Qed.

(** ** A small chain *)

Abbreviation maps_in_order := (fun (_ : nat) m => map_to_list m).
Abbreviation sets_in_order := (fun (_ : nat) (s : gset Address) => elements s).

Lemma maps_perm {K A} `{Countable K} (seed : nat) (m : gmap K A) : map_to_list m ≡ₚ map_to_list m.
Proof. done. Qed.
Lemma sets_elem (seed : nat) (s : gset Address) a : a ∈ elements s -> a ∈ s.
Proof. apply elem_of_elements. Qed.

(** Precompiled contracts that echo their input. *)
Definition echo (_ : Z) (d : bytes) (g : Z) : outcome unit (bytes * Z) := Ok (d, g).
#[export] Instance echo_laws : PrecompileLaws echo.
Proof. intros id d g Hd Hg. cbn. unfold is_u64 in Hg. split; [done|lia]. Qed.

Definition addr_of (n : Z) : Address := zeros 19 ++ [n].
Lemma addr_of_ok n : is_byte n -> is_address (addr_of n).
Proof. intros Hn. split; [apply bytes_ok_app; [apply zeros_ok|by constructor]|done]. Qed.

Abbreviation sender := (addr_of 200).
Abbreviation callee := (addr_of 201).

Definition w_header (limit : Z) (fee : Uint256) : BlockHeader :=
  MkHeader (zeros 32) (addr_of 100) (zeros 32) (zeros 32) (zeros 256) 1 limit 0 1000 [] (zeros 32) 0 fee 0 0
    zero256 (FromU64 55).

Lemma w_header_ok limit fee : is_u64 limit -> u256_ok fee -> header_ok (w_header limit fee).
Proof.
  intros Hl Hf. constructor; cbn [w_header h_Coinbase h_Number h_GasLimit h_Timestamp h_BaseFee h_Difficulty h_ChainID];
    try assumption; try (unfold is_u64; lia); try apply zero256_ok.
  - apply addr_of_ok. unfold is_byte. lia.
  - apply FromU64_ok. unfold is_u64. lia.
Qed.

(** A state with a rich sender and a contract. *)
Definition w_state (code : bytes) : StateTrie :=
  SetAccount maps_in_order 0 (AddBalance NewStateTrie (addrToU256 sender) (U256 0 1 0 0)) (addrToU256 callee)
    (Some (MkAccount 1 zero256 hash0 (Keccak256 code) code)).

Lemma w_state_ok code : code_ok code -> state_ok (w_state code) /\ codes_ok (accounts (w_state code)).
Proof.
  intros [Hc Hl].
  assert (is_address sender /\ is_address callee) as [Hs Hca] by (split; apply addr_of_ok; unfold is_byte; lia).
  assert (u256_ok (U256 0 1 0 0)) as Hv by (repeat split; cbn; lia).
  assert (codes_ok (accounts NewStateTrie)) as H0.
  { intros a acc H. cbn in H. by rewrite lookup_empty in H. }
  pose proof (AddBalance_state_ok maps_in_order maps_perm NewStateTrie _ _ NewStateTrie_ok (addrToU256_ok _ Hs) Hv) as H1.
  unfold w_state. split.
  - apply (run_op_ok maps_in_order maps_perm _ (OpSetAccount 0 (addrToU256 callee) (Some (MkAccount 1 zero256 hash0 (Keccak256 code) code))) _ H1);
      [|reflexivity].
    split; [by apply addrToU256_ok|]. constructor; cbn [Nonce Balance StorageRoot CodeHash Code];
      [unfold is_u64; lia|apply zero256_ok| | |done].
    + split; [apply zeros_ok|done].
    + split; [apply Keccak256_ok|apply length_Keccak256].
  - rewrite accounts_SetAccount. apply codes_insert; [by apply AddBalance_codes|by split].
Qed.

Definition w_env (code : bytes) : vmEnv :=
  MkEnv (w_state code) (w_header 30000000 (FromU64 7)) sender (FromU64 9) [] [] 0 0 (JSet ∅ []) (JSet ∅ []) (JSet ∅ []) 0.

Lemma w_env_ok code : code_ok code -> env_ok (w_env code).
Proof.
  intros Hc. destruct (w_state_ok code Hc) as [H1 H2].
  assert (addresses ∅) as Hnone by (intros a Ha; by apply not_elem_of_empty in Ha).
  constructor; cbn [w_env e_state e_header e_gasPrice e_retData e_refund e_touched e_created e_suicided js_set]; try assumption.
  - apply w_header_ok; [unfold is_u64; lia|apply FromU64_ok; unfold is_u64; lia].
  - apply FromU64_ok. unfold is_u64. lia.
  - split; [constructor|cbn; lia].
  - unfold is_u64. lia.
Qed.

Definition w_call (ro : bool) (kind gas : Z) : callParams :=
  MkCall sender callee zeroAddress sender zero256 zero256 [1; 2; 3] [] gas ro kind.

Lemma w_call_ok ro kind gas : is_u64 gas -> cp_ok (w_call ro kind gas).
Proof.
  intros Hg. assert (is_address sender /\ is_address callee) as [Hs Hca] by (split; apply addr_of_ok; unfold is_byte; lia).
  constructor; cbn [w_call cp_caller cp_addr cp_origin cp_callVal cp_data cp_code cp_gas]; try assumption.
  - apply zero256_ok.
  - split; [repeat constructor; unfold is_byte; lia|cbn; lia].
  - split; [constructor|cbn; lia].
Qed.

(** SSTORE then REVERT; LOG1 after SSTORE; a call of itself; MSTORE then STOP. *)
Definition code_revert : bytes := [0x60; 0x2a; 0x60; 0x00; 0x55; 0x60; 0x00; 0x60; 0x00; 0xfd].
Definition code_log : bytes := [0x60; 0x2a; 0x60; 0x00; 0x55; 0x60; 0x01; 0x60; 0x02; 0x60; 0x03; 0xa1; 0x00].
Definition code_self : bytes := [0x60; 0; 0x60; 0; 0x60; 0; 0x60; 0; 0x60; 0; 0x30; 0x5a; 0xf1; 0x00].

Ltac code := split; [repeat constructor; unfold is_byte; lia|vm_compute; reflexivity].

(** The outcome of a call, as far as a boolean can tell it. *)
Definition check_run (code : bytes) (p : callParams) (ok : bool) : bool :=
  match run maps_in_order echo (w_env code) p with Ok (_, r) => Bool.eqb (cr_ok r) ok | _ => false end.

Lemma check_run_sound code p ok :
  check_run code p ok = true -> exists e' r, run maps_in_order echo (w_env code) p = Ok (e', r) /\ cr_ok r = ok.
Proof.
  unfold check_run. destruct (run _ _ _ _) as [[e' r]|x| |]; try discriminate.
  intros H. exists e', r. split; [done|]. by apply eqb_prop.
Qed.

Ltac w64 := unfold is_u64; lia.

Lemma run_terminates_witness :
  run maps_in_order echo (w_env code_self) (w_call false 0xf1 100000) <> OutOfFuel.
Proof. apply (run_terminates maps_in_order maps_perm echo); [apply w_env_ok; code|apply w_call_ok; w64]. Defined.

Lemma run_failure_undone_witness :
  exists e' r, run maps_in_order echo (w_env code_revert) (w_call false 0xf1 100000) = Ok (e', r) /\
    e_state e' = w_state code_revert.
Proof.
  destruct (check_run_sound code_revert (w_call false 0xf1 100000) false) as (e' & r & E & Hf); [vm_compute; reflexivity|].
  exists e', r. split; [exact E|].
  refine (proj1 (run_failure_undone maps_in_order maps_perm echo _ _ _ _ _ _ E Hf)); [apply w_env_ok; code|apply w_call_ok; w64].
Defined.

Lemma run_sound_witness :
  exists e' r, run maps_in_order echo (w_env code_log) (w_call false 0xf1 100000) = Ok (e', r) /\ env_ok e'.
Proof.
  destruct (check_run_sound code_log (w_call false 0xf1 100000) true) as (e' & r & E & Hf); [vm_compute; reflexivity|].
  exists e', r. split; [exact E|].
  refine (proj1 (run_sound maps_in_order maps_perm echo _ _ _ _ _ _ E)); [apply w_env_ok; code|apply w_call_ok; w64].
Defined.

(** SLOAD, then a call of itself. *)
Definition code_read : bytes := [0x60; 0x00; 0x54] ++ code_self.

Lemma static_call_pure_witness :
  exists e' r, run maps_in_order echo (w_env code_read) (w_call true 0xfa 100000) = Ok (e', r) /\
    state_view (e_state e') = state_view (w_state code_read).
Proof.
  destruct (check_run_sound code_read (w_call true 0xfa 100000) true) as (e' & r & E & Hf); [vm_compute; reflexivity|].
  exists e', r. split; [exact E|].
  refine (proj1 (static_call_pure maps_in_order maps_perm echo _ _ _ _ _ _ E _ _ _));
    [apply w_env_ok; code|apply w_call_ok; w64|reflexivity|reflexivity|by right].
Defined.

(** A frame at a CALL of the address 0, without gas, value or data. *)
Definition w_frame (gas : Z) : ExecutionFrame boundState :=
  with_SP (Reset (Frame [] 0 0 0 0 StatusRunning [] 0 0 0 (Some (BState (w_state [0xf1]) (addrToU256 callee) false false))) gas) 7.

Lemma w_call_frame_ok gas : is_u64 gas -> @frame_ok _ _ (bs_laws None (addrToU256 callee) false) (w_frame gas).
Proof.
  intros Hg. apply (@ok_with_SP _ _ (bs_laws None (addrToU256 callee) false)); [|lia]. apply Reset_ok; [exact Hg|].
  constructor; cbn [bs_addr bs_readOnly bs_trie]; [|reflexivity|reflexivity| |exact I].
  - apply addrToU256_ok, addr_of_ok. unfold is_byte. lia.
  - apply w_state_ok. code.
Qed.

Lemma exec_one_sound_witness :
  exists e' f', exec_one maps_in_order (run maps_in_order echo) (w_env [0xf1]) (w_frame 50000) (w_call false 0xf1 50000) [0xf1] =
    Ok (e', f') /\ env_ok e' /\ Gas f' <= 50000 /\ SP f' = 1.
Proof.
  assert (code_ok [0xf1]) as Hc by code.
  assert (match exec_one maps_in_order (run maps_in_order echo) (w_env [0xf1]) (w_frame 50000) (w_call false 0xf1 50000) [0xf1] with
          | Ok (_, f') => SP f' = 1 | _ => False end) as K by (vm_compute; reflexivity).
  generalize (exec_one_sound maps_in_order maps_perm echo (w_env [0xf1]) (w_frame 50000) (w_call false 0xf1 50000) [0xf1]
    (w_env_ok _ Hc) (w_call_ok false 0xf1 50000 ltac:(w64)) (w_call_frame_ok 50000 ltac:(w64)) Hc eq_refl ltac:(vm_compute; reflexivity)).
  generalize (exec_one maps_in_order (catching (run maps_in_order echo)) (w_env [0xf1]) (w_frame 50000) (w_call false 0xf1 50000) [0xf1]).
  revert K. generalize (exec_one maps_in_order (run maps_in_order echo) (w_env [0xf1]) (w_frame 50000) (w_call false 0xf1 50000) [0xf1]).
  intros [[e' f']|x| |] K c H; [|destruct K..].
  exists e', f'. split; [reflexivity|]. split; [exact (proj1 H)|]. split; [exact (proj1 (proj2 (proj2 (proj2 H))))|exact K].
Defined.

(** ** Transactions *)

Definition w_tx (price : Uint256) (gas : Z) (nonce : Z) : Transaction :=
  MkTx TxLegacy (FromU64 55) nonce price zero256 zero256 gas (Some callee) (FromU64 5) [1; 0] [] zero256 [] zero256 zero256
    zero256 sender (zeros 32).

Lemma w_tx_fits price gas nonce : u256_ok price -> is_u64 gas -> is_u64 nonce -> tx_fits (w_tx price gas nonce).
Proof.
  intros Hp Hg Hn. assert (is_address sender /\ is_address callee) as [Hs Hca] by (split; apply addr_of_ok; unfold is_byte; lia).
  split; [|cbn; lia].
  constructor; cbn [w_tx tx_Type tx_Nonce tx_Gas tx_GasTipCap tx_GasFeeCap tx_GasPrice tx_To tx_Value tx_Data tx_From tx_Hash];
    try assumption; try apply zero256_ok.
  - apply FromU64_ok. w64.
  - repeat constructor; unfold is_byte; lia.
  - split; [apply zeros_ok|done].
Qed.

Lemma effectiveFees_exact_witness :
  match effectiveFees (w_header 0 (FromU64 7)) (w_tx (FromU64 9) 30000 0) with
  | Ok (eff, tip) => toZ eff = 7 + toZ tip
  | _ => False
  end.
Proof.
  pose proof (effectiveFees_exact (w_header 0 (FromU64 7)) (w_tx (FromU64 9) 30000 0) ltac:(apply FromU64_ok; w64)
    (proj1 (w_tx_fits (FromU64 9) 30000 0 ltac:(apply FromU64_ok; w64) ltac:(w64) ltac:(w64)))) as H.
  destruct (effectiveFees _ _) as [[eff tip]|x| |] eqn:E; [exact (proj1 (proj2 H))| | |].
  all: exfalso; revert E; vm_compute; discriminate.
Defined.

Lemma intrinsicGas_exact_witness : intrinsicGas (w_tx (FromU64 9) 30000 0) = 21020.
Proof. rewrite (intrinsicGas_exact (w_tx (FromU64 9) 30000 0)); [reflexivity|cbn; lia|vm_compute; reflexivity]. Defined.

Abbreviation w_process := (ProcessTransaction maps_in_order sets_in_order echo).
Abbreviation w_block := (ProcessBlock maps_in_order maps_in_order sets_in_order echo).

Lemma ProcessTransaction_refused_witness :
  exists x, w_process (w_header 0 (FromU64 7)) (w_tx (FromU64 9) 30000 1) (w_state code_log) 0 = Err (x, w_state code_log).
Proof.
  assert (code_ok code_log) as Hc by code. destruct (w_state_ok code_log Hc) as [H1 H2].
  pose proof (ProcessTransaction_refused maps_in_order maps_perm sets_in_order sets_elem echo
    (w_header 0 (FromU64 7)) (w_tx (FromU64 9) 30000 1) (w_state code_log) 0 H1 H2
    (w_header_ok 0 (FromU64 7) ltac:(w64) ltac:(apply FromU64_ok; w64))
    (w_tx_fits (FromU64 9) 30000 1 ltac:(apply FromU64_ok; w64) ltac:(w64) ltac:(w64))) as H.
  destruct (w_process _ _ _ _) as [[[t s] r]|[x t]| |] eqn:E; [|exists x; by rewrite H| |].
  all: exfalso; revert E; vm_compute; discriminate.
Defined.

(** The success of a computation, as a boolean. *)
Lemma ok_exists {E A} (m : outcome E A) : is_ok m = true -> exists a, m = Ok a.
Proof. destruct m; [by eexists|done..]. Qed.

Lemma ProcessTransaction_executed_witness :
  exists t' s r, w_process (w_header 0 (FromU64 7)) (w_tx (FromU64 9) 60000 0) (w_state code_log) 0 = Ok (t', s, r) /\
    supply (accounts t') + 7 * r_GasUsed r <= supply (accounts (w_state code_log)).
Proof.
  assert (code_ok code_log) as Hc by code. destruct (w_state_ok code_log Hc) as [H1 H2].
  destruct (ok_exists (w_process (w_header 0 (FromU64 7)) (w_tx (FromU64 9) 60000 0) (w_state code_log) 0)) as [[[t' s] r] E];
    [vm_compute; reflexivity|].
  exists t', s, r. split; [exact E|].
  refine (proj2 (proj2 (proj2 (proj2 (proj2 (ProcessTransaction_executed maps_in_order maps_perm sets_in_order sets_elem echo
    (w_header 0 (FromU64 7)) (w_tx (FromU64 9) 60000 0) (w_state code_log) 0 t' s r H1 H2 _ _ E))))) _ _).
  - apply w_header_ok; [w64|apply FromU64_ok; w64].
  - apply w_tx_fits; [apply FromU64_ok; w64|w64|w64].
  - vm_compute. reflexivity.
  - vm_compute. reflexivity.
Defined.

(** ** Blocks *)

Definition w_txs (second : Z) : list Transaction := [w_tx (FromU64 9) 60000 0; w_tx (FromU64 9) 60000 second].

Lemma w_txs_fit second : is_u64 second -> block_fits (w_txs second).
Proof.
  intros Hs. constructor; [|vm_compute; reflexivity|vm_compute; reflexivity].
  constructor; [|constructor; [|constructor]]; apply w_tx_fits; try (apply FromU64_ok; w64); try w64; done.
Qed.

Lemma ProcessBlock_atomic_witness :
  exists x, w_block (w_header 0 (FromU64 7)) (w_txs 5) (w_state code_log) 0 (Arena 0 0) = Err (x, w_state code_log).
Proof.
  assert (code_ok code_log) as Hc by code. destruct (w_state_ok code_log Hc) as [H1 H2].
  destruct (w_block (w_header 0 (FromU64 7)) (w_txs 5) (w_state code_log) 0 (Arena 0 0)) as [y|[x t]| |] eqn:E;
    [exfalso; revert E; vm_compute; discriminate| |exfalso; revert E; vm_compute; discriminate
    |exfalso; revert E; vm_compute; discriminate].
  exists x. f_equal. f_equal.
  refine (ProcessBlock_atomic maps_in_order maps_perm maps_in_order maps_perm sets_in_order sets_elem echo
    (w_header 0 (FromU64 7)) (w_txs 5) (w_state code_log) 0 (Arena 0 0) x t H1 H2 _ _ _ E).
  - apply w_header_ok; [w64|apply FromU64_ok; w64].
  - apply w_txs_fit. w64.
  - reflexivity.
Defined.

Lemma ProcessBlock_accepted_witness :
  exists t' s h res, w_block (w_header 0 (FromU64 7)) (w_txs 1) (w_state code_log) 0 (Arena 0 0) = Ok (t', s, h, res) /\
    ComputeRoot maps_in_order maps_in_order 3 t' (Arena 5 0) = Ok (res_StateRoot res) /\ length (res_Receipts res) = 2%nat.
Proof.
  assert (code_ok code_log) as Hc by code. destruct (w_state_ok code_log Hc) as [H1 H2].
  destruct (ok_exists (w_block (w_header 0 (FromU64 7)) (w_txs 1) (w_state code_log) 0 (Arena 0 0))) as [[[[t' s] h] res] E];
    [vm_compute; reflexivity|].
  exists t', s, h, res. split; [exact E|].
  pose proof (ProcessBlock_accepted maps_in_order maps_perm maps_in_order maps_perm sets_in_order sets_elem echo
    (w_header 0 (FromU64 7)) (w_txs 1) (w_state code_log) 0 (Arena 0 0) t' s h res H1 H2
    (w_header_ok 0 (FromU64 7) ltac:(w64) ltac:(apply FromU64_ok; w64)) (w_txs_fit 1 ltac:(w64)) ltac:(cbn; lia) E) as [].
  split; [by apply bp_root|done].
Defined.

Lemma receiptsRoot_commits_witness :
  exists n, owf n /\ oget n (receipt_key 0) = Some (encodeReceipt (MkReceipt 1 21000 (zeros 256) [] (zeros 32) (zeros 20) 21000 [])) /\
    receiptsRoot [MkReceipt 1 21000 (zeros 256) [] (zeros 32) (zeros 20) 21000 []] = Ok (hashRoot n).
Proof.
  destruct (receiptsRoot_commits [MkReceipt 1 21000 (zeros 256) [] (zeros 32) (zeros 20) 21000 []]) as (n & Hw & Hg & _ & Hr & Hb);
    [cbn; lia|].
  exists n. split; [exact Hw|]. split; [apply (Hg 0%nat); reflexivity|]. rewrite Hr, Hb; [reflexivity|].
  constructor; [vm_compute; repeat constructor|constructor].
Defined.

(** ** Defects the model shows *)

(** LOG0 with an empty range past the end of the memory stops the process. *)
Definition code_bad_log : bytes := [0x60; 0x00; 0x62; 0x01; 0x00; 0x01; 0xa0].

(** a contract can stop the node: LOG0 with an empty range that starts past the end of the
    memory passes the memory charge and then slices out of range. *)
Theorem LOG0_panics :
  run maps_in_order echo (w_env code_bad_log) (w_call false 0xf1 100000) = Panic.
Proof. vm_compute. reflexivity. Qed.

Abbreviation mint_price := (U256 0 0 0 288230376151711744).

(** value can be created: with a price of 2^250 the cost of 21056 units of gas is a multiple
    of 2^256, so the sender pays nothing and receives the refund, and the miner the tip. *)
Theorem fee_overflow_mints :
  exists t' s r,
    w_process (w_header 0 zero256) (w_tx mint_price 21056 0) (w_state []) 0 = Ok (t', s, r) /\
    supply (accounts (w_state [])) < 2 ^ 65 /\ 2 ^ 250 < supply (accounts t').
Proof.
  destruct (ok_exists (w_process (w_header 0 zero256) (w_tx mint_price 21056 0) (w_state []) 0)) as [[[t' s] r] E];
    [vm_compute; reflexivity|].
  exists t', s, r. split; [exact E|].
  assert (match w_process (w_header 0 zero256) (w_tx mint_price 21056 0) (w_state []) 0 with
          | Ok (t', _, _) => 2 ^ 250 <? supply (accounts t') | _ => false end = true) as H by (vm_compute; reflexivity).
  rewrite E in H. split; [vm_compute; reflexivity|]. by apply Z.ltb_lt.
Qed.

(** A receipt whose log carries 2048 bytes cannot be hashed: the trie encoder panics. *)
Lemma large_log_panics :
  receiptsRoot [MkReceipt 1 21000 (zeros 256) [MkLog (addr_of 1) [] (zeros 2048)] (zeros 32) (zeros 20) 21000 []] = Panic.
Proof. vm_compute. reflexivity. Qed.

(** CALLDATALOAD near 2^64 wraps around and reads the beginning of the data. *)
Lemma calldataload_wraps : calldataload [1; 2; 3] (U256 (B64 - 1) 0 0 0) <> zero256.
Proof. vm_compute. discriminate. Qed.
