(* ===== verification/EvmProps.v ===== *)
(** * What the interpreter guarantees: properties of [pkg/c2evm], [pkg/evm256] and [pkg/c2crypto]

    Each theorem is stated for every well-formed frame, and applied in its witness
    to a concrete one built by [frame_of]. *)

From S2P Require Import Prelude Uint256 Bitwise256 Limbs Arith256 Division256 Keccak Frame Stepper StepperSpec.
From S2P Require Import StepperRefine.
From S2P Require Import StateTrie StateTrieSpec.

(** A fresh frame whose stack is [st], bottom first. *)
Definition frame_of {S} (gas : Z) (st : list Uint256) : ExecutionFrame S :=
  Frame (st ++ replicate (1024 - length st) zero256) (Z.of_nat (length st)) 0 gas 0 StatusRunning
    (zeros (Z.to_nat memMax)) 0 0 0 None.

Section frame_of.
  Context {S : Type} `{StateAccessorLaws S}.

Lemma frame_of_ok gas st :
  is_u64 gas -> Forall u256_ok st -> (length st <= 1024)%nat -> frame_ok (frame_of (S := S) gas st).
Proof.
  intros Hg Hst Hl. constructor; cbn [frame_of Stack SP PC Gas Refund Memory MemorySize ReturnDataOffset ReturnDataSize StateDB];
    unfold is_u32, is_u64 in *; try apply length_zeros; try apply zeros_ok; try lia; try done.
  - rewrite length_app, length_replicate. lia.
  - apply Forall_app. split; [done|]. apply Forall_replicate, zero256_ok.
  - rewrite drop_0. by apply Forall_replicate.
Qed.

Lemma astack_frame_of gas st : astack (frame_of (S := S) gas st) = reverse st.
Proof. unfold astack. cbn [frame_of Stack SP]. by rewrite Nat2Z.id, take_app_length. Qed.

(** C3: one step keeps a well-formed frame well formed, never panics, never gives gas back, never
    shrinks memory; an instruction that continues costs gas, and an exceptional halt consumes all of
    it and leaves the state and the refund as they were. *)
Theorem StepOne_sound f code :
  frame_ok f -> bytes_ok code ->
  exists f', StepOne f code = Some f' /\ frame_ok f' /\ Gas f' <= Gas f /\
    MemorySize f <= MemorySize f' /\
    (Status f = StatusRunning -> Status f' = StatusRunning -> Gas f' < Gas f) /\
    (Status f = StatusRunning -> exceptional (Status f') = true ->
       Gas f' = 0 /\ StateDB f' = StateDB f /\ Refund f' = Refund f).
Proof. exact (StepOne_post f code). Qed.

(** C32: running a program terminates: one step more than the units of gas is enough for the
    interpreter to reach a halting status, whatever the code. *)
Theorem run_steps_terminates n f code :
  frame_ok f -> bytes_ok code -> Gas f < Z.of_nat n -> Status f = StatusRunning ->
  exists f', run_steps n f code = Some f' /\ frame_ok f' /\ Status f' <> StatusRunning /\ Gas f' <= Gas f.
Proof. exact (run_steps_total n f code). Qed.

(** C7: the 25 arithmetic, comparison and bitwise opcodes refine their integer specification [alu]:
    the operands are replaced by the specified result at the specified cost and the rest of the frame
    is untouched; a missing operand is a stack underflow. *)
Theorem StepOne_alu_refines f code op n g :
  frame_ok f -> Status f = StatusRunning -> PC f < Z.of_nat (length code) ->
  code !!! Z.to_nat (PC f) = op -> alu op = Some (n, g) ->
  let st := map toZ (astack f) in
  alu_cost op st <= Gas f ->
  if (length st <? n)%nat
  then exists f', StepOne f code = Some f' /\ Status f' = StatusStackUnderflow /\ Gas f' = 0
  else exists f' v, StepOne f code = Some f' /\
    f' = with_PC (replaced f (Z.of_nat n) (alu_cost op st) v) (u32 (PC f + 1)) /\
    map toZ (astack f') = g st :: drop n st.
Proof. exact (StepOne_alu_post f code op n g). Qed.

(** C39: memory expansion charges exactly the difference of the quadratic cost, and refuses exactly
    the accesses past 64 KiB or past the gas left; an empty access is free. *)
Theorem chargeMem_exact f off sz :
  frame_ok f -> is_u64 off -> is_u64 sz ->
  let m := mem_extent (MemorySize f) off sz in
  let cost := mem_cost m - mem_cost (MemorySize f) in
  chargeMem f off sz =
  if (sz =? 0) || (off + sz <=? memMax) && (cost <=? Gas f)
  then Some (with_MemorySize (with_Gas f (Gas f - cost)) m) else None.
Proof. exact (chargeMem_spec f off sz). Qed.

(** PUSH pushes the big-endian value of the immediate bytes, read as zeros past the end of the
    code, and moves the program counter over them. *)
Theorem execPush_immediate f code n :
  frame_ok f -> bytes_ok code -> (n <= 32)%nat -> PC f + Z.of_nat n < 4294967296 -> SP f < stackMax ->
  exists f', execPush f code n = Ok f' /\ PC f' = PC f + Z.of_nat n /\
    map toZ (astack f') = be_val (immediate code (PC f) n) :: map toZ (astack f).
Proof. exact (execPush_post f code n). Qed.

(** SWAPn exchanges the top of the stack with the word n below it. *)
Theorem execSwap_exchanges f n :
  frame_ok f -> 1 <= n <= 16 -> n < SP f ->
  exists f', execSwap f n = Ok f' /\
    astack f' = <[0%nat := astack f !!! Z.to_nat n]> (<[Z.to_nat n := astack f !!! 0%nat]> (astack f)).
Proof. exact (execSwap_post f n). Qed.

(** a word stored by MSTORE is the word MLOAD reads back at the same offset, at no further
    expansion cost. *)
Theorem mstore_mload f f1 f2 off v :
  frame_ok f -> execMstore f = Ok f1 ->
  astack f !! 0%nat = Some off -> astack f !! 1%nat = Some v ->
  execPushWord f1 off = Ok f2 ->
  exists f3, execMload f2 = Ok f3 /\ Gas f3 = Gas f2 /\ astack f3 = v :: astack f1.
Proof. exact (mstore_mload_post f f1 f2 off v). Qed.
End frame_of.

(** a jump destination is accepted exactly when it is a JUMPDEST byte at the start of an
    instruction, reached from the start of the code by whole instructions. *)
Theorem jumpdestOK_valid code d :
  0 <= d ->
  jumpdestOK code d = true <->
  d < Z.of_nat (length code) /\ code !!! Z.to_nat d = 0x5b /\ instr_start code d.
Proof. exact (jumpdestOK_spec code d). Qed.

(** C37: Knuth's division with reciprocals divides: the quotient and the remainder of a number of up
    to eight limbs by any non-zero 256-bit divisor are the Euclidean ones. *)
Theorem udivrem_correct u nIn d :
  limbs_ok u -> length u = 8%nat -> u256_ok d -> toZ d <> 0 -> (nIn <= 8)%nat ->
  let '(quot, rem) := udivrem (replicate 8 0) u nIn d in
  divides (lsub u 0 nIn) (toZ d) quot rem.
Proof. exact (udivrem_spec u nIn d). Qed.

(** C38: the unrolled Keccak permutation, two rounds at a time, is the composition of theta, rho, pi,
    chi and iota over the 24 round constants. *)
Theorem KeccakF1600_reference st : length st = 25%nat -> KeccakF1600 st = keccak_f st.
Proof. exact (KeccakF1600_spec st). Qed.

(** 32 big-endian bytes and 256-bit words are in bijection. *)
Theorem BytesBE_roundtrip z b :
  u256_ok z -> bytes_ok b -> length b = 32%nat ->
  FromBytesBE (BytesBE z) = z /\ BytesBE (FromBytesBE b) = b.
Proof. intros Hz Hb Hl. split; [by apply FromBytesBE_BytesBE|by apply BytesBE_FromBytesBE]. Qed.

(** ** Witnesses *)

Abbreviation w_add := [FromU64 5; FromU64 3].

Lemma w_add_ok : Forall u256_ok w_add.
Proof. repeat constructor; cbn; lia. Qed.
Lemma w_frame_ok gas st : is_u64 gas -> Forall u256_ok st -> (length st <= 1024)%nat -> frame_ok (S := StateTrie) (frame_of gas st).
Proof. apply frame_of_ok. Qed.

Lemma StepOne_sound_witness :
  exists f', StepOne (frame_of (S := StateTrie) 100 w_add) [0x01] = Some f' /\ frame_ok f' /\ Gas f' <= 100.
Proof.
  destruct (StepOne_sound (S := StateTrie) (frame_of 100 w_add) [0x01]) as (f' & E & Hok & Hg & _).
  - apply w_frame_ok; [unfold is_u64; lia|apply w_add_ok|cbn; lia].
  - repeat constructor; cbn; lia.
  - exists f'. auto.
Defined.

Lemma run_steps_terminates_witness :
  exists f', run_steps 101 (frame_of (S := StateTrie) 100 w_add) [0x5b; 0x60; 0x00; 0x56] = Some f' /\
    frame_ok f' /\ Status f' <> StatusRunning /\ Gas f' <= 100.
Proof.
  apply (run_steps_terminates (S := StateTrie) 101 (frame_of 100 w_add) [0x5b; 0x60; 0x00; 0x56]).
  - apply w_frame_ok; [unfold is_u64; lia|apply w_add_ok|cbn; lia].
  - repeat constructor; cbn; lia.
  - cbn. lia.
  - done.
Defined.

Lemma StepOne_alu_refines_witness :
  exists f' v, StepOne (frame_of (S := StateTrie) 100 w_add) [0x01] = Some f' /\
    f' = with_PC (replaced (frame_of 100 w_add) 2 3 v) 1 /\ map toZ (astack f') = [8].
Proof.
  pose proof (StepOne_alu_refines (S := StateTrie) (frame_of 100 w_add) [0x01] 0x01 2 (bin (fun a b => (a + b) mod B256)).2
    (w_frame_ok 100 w_add ltac:(unfold is_u64; lia) w_add_ok ltac:(cbn; lia)) eq_refl ltac:(cbn; lia) eq_refl eq_refl) as H.
  rewrite astack_frame_of in H. exact (H ltac:(vm_compute; discriminate)).
Defined.

Lemma chargeMem_exact_witness :
  chargeMem (frame_of (S := StateTrie) 100 []) 32 32 =
    Some (with_MemorySize (with_Gas (frame_of 100 []) 94) 64).
Proof.
  rewrite (chargeMem_exact (S := StateTrie) (frame_of 100 []) 32 32); [reflexivity| |unfold is_u64; lia..].
  apply w_frame_ok; [unfold is_u64; lia|constructor|cbn; lia].
Defined.

Lemma execPush_immediate_witness :
  exists f', execPush (frame_of (S := StateTrie) 100 []) [0x61; 0x12] 2 = Ok f' /\ PC f' = 2 /\
    map toZ (astack f') = [0x6112].
Proof.
  assert (frame_ok (S := StateTrie) (frame_of 100 [])) as H1. { apply w_frame_ok; [unfold is_u64; lia|constructor|cbn; lia]. }
  assert (bytes_ok [0x61; 0x12]) as H2. { repeat constructor; cbn; lia. }
  assert (PC (frame_of (S := StateTrie) 100 []) + Z.of_nat 2 < 4294967296) as H3. { reflexivity. }
  assert (SP (frame_of (S := StateTrie) 100 []) < stackMax) as H4. { reflexivity. }
  destruct (execPush_immediate (S := StateTrie) (frame_of 100 []) [0x61; 0x12] 2 H1 H2 ltac:(lia) H3 H4) as (f' & E & P & A).
  exists f'. rewrite P, A, astack_frame_of. split; [exact E|]. split; reflexivity.
Defined.

Lemma execSwap_exchanges_witness :
  exists f', execSwap (frame_of (S := StateTrie) 100 w_add) 1 = Ok f' /\ astack f' = [FromU64 5; FromU64 3].
Proof.
  destruct (execSwap_exchanges (S := StateTrie) (frame_of 100 w_add) 1) as (f' & E & A);
    [apply w_frame_ok; [unfold is_u64; lia|apply w_add_ok|cbn; lia]|lia|reflexivity|].
  exists f'. split; [exact E|]. rewrite A, astack_frame_of. reflexivity.
Defined.

Lemma mstore_mload_witness :
  exists f1 f2 f3, execMstore (frame_of (S := StateTrie) 100 [FromU64 7; FromU64 32]) = Ok f1 /\
    execPushWord f1 (FromU64 32) = Ok f2 /\ execMload f2 = Ok f3 /\ astack f3 = [FromU64 7].
Proof.
  assert (frame_ok (S := StateTrie) (frame_of 100 [FromU64 7; FromU64 32])) as Hf
    by (apply w_frame_ok; [unfold is_u64; lia|repeat constructor; cbn; lia|cbn; lia]).
  assert (match execMstore (frame_of (S := StateTrie) 100 [FromU64 7; FromU64 32]) with
    | Ok f1 => is_ok (execPushWord f1 (FromU64 32)) = true /\ astack f1 = [] | _ => False end) as K
    by (vm_compute; split; reflexivity).
  destruct (execMstore (frame_of (S := StateTrie) 100 [FromU64 7; FromU64 32])) as [f1| | |] eqn:E1; [|destruct K..].
  destruct K as [K A1]. destruct (execPushWord f1 (FromU64 32)) as [f2| | |] eqn:E2; [|discriminate K..].
  destruct (mstore_mload (S := StateTrie) _ f1 f2 (FromU64 32) (FromU64 7) Hf E1) as (f3 & E3 & _ & A);
    [by rewrite astack_frame_of|by rewrite astack_frame_of|done|].
  exists f1, f2, f3. split; [reflexivity|]. split; [exact E2|]. split; [exact E3|]. by rewrite A, A1.
Defined.

Lemma jumpdestOK_valid_witness : jumpdestOK [0x60; 0x5b; 0x5b] 2 = true /\ instr_start [0x60; 0x5b; 0x5b] 2.
Proof. split; [reflexivity|]. apply (proj1 (jumpdestOK_valid [0x60; 0x5b; 0x5b] 2 ltac:(lia)) eq_refl). Defined.

Lemma udivrem_correct_witness :
  let '(quot, rem) := udivrem (replicate 8 0) [7; 9; 1; 0; 5; 0; 0; 0] 5 (U256 3 0 1 0) in
  divides (lsub [7; 9; 1; 0; 5; 0; 0; 0] 0 5) (toZ (U256 3 0 1 0)) quot rem.
Proof.
  apply udivrem_correct; [repeat constructor; cbn; lia|reflexivity|repeat constructor; cbn; lia|vm_compute; discriminate|lia].
Defined.

Lemma KeccakF1600_reference_witness : KeccakF1600 (map Z.of_nat (seq 0 25)) = keccak_f (map Z.of_nat (seq 0 25)).
Proof. apply KeccakF1600_reference. reflexivity. Defined.

Lemma BytesBE_roundtrip_witness :
  FromBytesBE (BytesBE (U256 1 2 3 4)) = U256 1 2 3 4 /\ BytesBE (FromBytesBE (replicate 32 7)) = replicate 32 7.
Proof. apply BytesBE_roundtrip; [repeat constructor; cbn; lia|repeat constructor; cbn; lia|reflexivity]. Defined.
