(* ===== verification/StateProps.v ===== *)
(** * What the world state guarantees: properties of [pkg/statetrie] *)

From S2P Require Import Prelude Uint256 Bitwise256 Arith256 Keccak Mpt Frame StateTrie StateTrieSpec.
From S2P Require Import Trie TrieSpec StateRoot StateRootSpec StorageProof StorageProofSpec.

Section state.
  Context (range : nat -> storage_map -> list (storageKey * Uint256)).
  Context (range_perm : forall seed m, range seed m ≡ₚ map_to_list m).

(** C4: the journaled state refines a machine without a journal, whose snapshots are saved copies of
    the state: every operation commutes with the abstraction, and panics exactly when the
    specification has no step. *)
Theorem state_refines_snapshots t o :
  journal_ok t ->
  match run_op range t o with
  | Some t' => spec_step (abs t) o = Some (abs t') /\ journal_ok t'
  | None => spec_step (abs t) o = None
  end.
Proof. exact (run_op_refines range range_perm t o). Qed.

(** reverting to a snapshot restores the accounts, the storage and the outer snapshots whatever
    was done since, nested snapshots, reverts and deletions included. *)
Theorem revert_restores t os t2 :
  journal_ok t ->
  Forall (above (Snapshot t).2) os ->
  run_ops range (Snapshot t).1 os = Some t2 ->
  exists t3, RevertToSnapshot t2 (Snapshot t).2 = Ok t3 /\ abs t3 = abs t /\ journal_ok t3.
Proof. exact (snapshot_revert_post range range_perm t os t2). Qed.

(** C33: every operation preserves the invariant of the state: a well-formed journal, keys normalised
    to 160-bit addresses, 256-bit values, no zero slot stored, in the current state and in every
    saved one. *)
Theorem state_invariant t o t' : state_ok t -> op_ok o -> run_op range t o = Some t' -> state_ok t'.
Proof. exact (run_op_ok range range_perm t o t'). Qed.
End state.

(** A debit takes exactly the amount from exactly the account addressed, and fails, leaving
    nothing changed, exactly when the balance is smaller. *)
Theorem SubBalance_exact t a d :
  state_ok t -> u256_ok a -> u256_ok d ->
  if toZ (GetBalance t a) <? toZ d then SubBalance t a d = Err ErrInsufficientBalance
  else exists t', SubBalance t a d = Ok t' /\
    forall a', toZ (GetBalance t' a') =
      if bool_decide (normalizeAddr a = normalizeAddr a')
      then toZ (GetBalance t a) - toZ d else toZ (GetBalance t a').
Proof. exact (SubBalance_post t a d). Qed.

(** A slot reads back what was written to it, zero included, and no other slot changes. *)
Theorem GetStorage_after_SetStorage t a k v a' k' :
  u256_ok v ->
  GetStorage (SetStorage t a k v) a' k' =
  if bool_decide (normalizeAddr a = normalizeAddr a' /\ k = k') then v else GetStorage t a' k'.
Proof. exact (GetStorage_SetStorage t a k v a' k'). Qed.

(** C27: an insertion in a Merkle Patricia trie maps the key to the value, changes no other key, keeps
    the trie well formed and allocates at most four nodes. *)
Theorem insertNode_correct n key value a :
  wf n -> nibs key -> value <> [] -> nodeCount a + 4 <= node_cap a ->
  inserted 4 (tget n) key value a (insertNode n key value a) (fun n' => is_branch n -> is_branch n').
Proof. exact (insertNode_spec n key value a). Qed.

(** Well-formed tries are canonical: two of them with the same contents are the same tree, so a
    root hash is a function of the contents. *)
Theorem trie_canonical n1 n2 : wf n1 -> wf n2 -> same_contents n1 n2 -> n1 = n2.
Proof. exact (trie_canonical_post n1 n2). Qed.

(** The trie built from pairs with distinct keys does not depend on the order of insertion, and
    an arena with four nodes per pair suffices. *)
Theorem insertion_order_irrelevant l1 l2 a1 a2 :
  l1 ≡ₚ l2 -> NoDup l1.*1 -> Forall pair_ok l1 ->
  nodeCount a1 + 4 * Z.of_nat (length l1) <= node_cap a1 ->
  nodeCount a2 + 4 * Z.of_nat (length l2) <= node_cap a2 ->
  exists n a1' a2', insert_all None l1 a1 = Ok (n, a1') /\ insert_all None l2 a2 = Ok (n, a2').
Proof. exact (insert_all_perm l1 l2 a1 a2). Qed.

Section root.
  Context (range_storage : nat -> storage_map -> list (storageKey * Uint256)).
  Context (range_accounts : nat -> account_map -> list (Uint256 * Account)).
  Context (storage_perm : forall seed m, range_storage seed m ≡ₚ map_to_list m).
  Context (accounts_perm : forall seed m, range_accounts seed m ≡ₚ map_to_list m).

(** the arena reserved for a state never saturates: building the account trie and the storage
    tries of any state succeeds, with at most 4 nodes per account and 8 per slot. *)
Theorem buildAccountTrie_capacity seed t a :
  0 <= node_cap a ->
  exists a', buildAccountTrie range_storage range_accounts seed t a =
      Ok (trie_of None (state_pairs (account_entries range_accounts seed t) (storage_entries range_storage seed t)), a') /\
    nodeCount a' <= 4 * Z.of_nat (size (accounts t)) + 8 * Z.of_nat (size (storage t)).
Proof. exact (buildAccountTrie_spec range_storage range_accounts storage_perm accounts_perm seed t a). Qed.

(** C23: the state root depends on the accounts and the storage only: not on the iteration order of
    the maps, nor on the journal, nor on the arena. *)
Theorem ComputeRoot_deterministic seed seed' t t' a a' :
  state_view t = state_view t' ->
  (forall k x, storage t !! k = Some x -> u256_ok (sk_addr k) /\ u256_ok (sk_slot k)) ->
  (forall k acc, accounts t !! k = Some acc -> u256_ok k) ->
  0 <= node_cap a -> 0 <= node_cap a' ->
  exists h, ComputeRoot range_storage range_accounts seed t a = Ok h /\
    ComputeRoot range_storage range_accounts seed' t' a' = Ok h.
Proof. exact (ComputeRoot_det range_storage range_accounts storage_perm accounts_perm seed seed' t t' a a'). Qed.
End root.

(** C28: storage proofs are binding: two proofs accepted for the same root and the same key prove the
    same value, unless the two proofs contain a Keccak collision. *)
Theorem storage_proofs_bind keyHash f1 f2 p1 p2 e1 e2 root :
  VerifyStorageProof f1 root keyHash e1 p1 = Ok true ->
  VerifyStorageProof f2 root keyHash e2 p2 = Ok true -> e1 = e2 \/ collision p1 p2.
Proof. exact (verify_agree keyHash f1 f2 p1 p2 e1 e2 root). Qed.

(** the verifier does not terminate on every proof: an item whose eight-byte length makes the
    next offset wrap around keeps the counting loop of [walkProof] where it is. *)
Theorem VerifyStorageProof_loops fuel keyHash expected :
  VerifyStorageProof fuel (Keccak256 looping_node) keyHash expected [looping_node] = OutOfFuel.
Proof. exact (VerifyStorageProof_diverges fuel keyHash expected). Qed.

(** ** Witnesses *)

Abbreviation in_order := (fun (_ : nat) m => map_to_list m).

Lemma in_order_perm {K A} `{Countable K} (seed : nat) (m : gmap K A) : map_to_list m ≡ₚ map_to_list m.
Proof. done. Qed.

(** A state with one account and one slot. *)
Abbreviation addr1 := (FromU64 1).
Definition one_slot : StateTrie := SetStorage (AddBalance NewStateTrie addr1 (FromU64 10)) addr1 (FromU64 2) (FromU64 3).

Lemma small_ok n : is_u64 n -> u256_ok (FromU64 n).
Proof. apply FromU64_ok. Qed.

Lemma one_slot_ok : state_ok one_slot.
Proof.
  apply (run_op_ok in_order in_order_perm (AddBalance NewStateTrie addr1 (FromU64 10)) (OpSetStorage addr1 (FromU64 2) (FromU64 3)));
    [|repeat split; cbn; lia|done].
  apply (run_op_ok in_order in_order_perm NewStateTrie (OpAddBalance addr1 (FromU64 10)));
    [apply NewStateTrie_ok|repeat split; cbn; lia|done].
Qed.

Lemma state_refines_snapshots_witness :
  spec_step (abs one_slot) (OpSetAccount 0 addr1 None) = Some (abs (SetAccount in_order 0 one_slot addr1 None)).
Proof.
  exact (proj1 (state_refines_snapshots in_order in_order_perm one_slot (OpSetAccount 0 addr1 None) (proj1 one_slot_ok))).
Defined.

Lemma revert_restores_witness :
  exists t2 t3, run_ops in_order (Snapshot one_slot).1 [OpSetAccount 0 addr1 None; OpSnapshot; OpAddBalance addr1 (FromU64 1)] = Some t2 /\
    RevertToSnapshot t2 (Snapshot one_slot).2 = Ok t3 /\ abs t3 = abs one_slot.
Proof.
  set (os := [OpSetAccount 0 addr1 None; OpSnapshot; OpAddBalance addr1 (FromU64 1)]).
  destruct (run_ops in_order (Snapshot one_slot).1 os) as [t2|] eqn:E; [|discriminate E].
  destruct (revert_restores in_order in_order_perm one_slot os t2 (proj1 one_slot_ok) ltac:(repeat constructor) E) as (t3 & R & A & _).
  exists t2, t3. exact (conj eq_refl (conj R A)).
Defined.

Lemma state_invariant_witness : state_ok (SetStorage one_slot addr1 (FromU64 2) zero256).
Proof.
  apply (state_invariant in_order in_order_perm one_slot (OpSetStorage addr1 (FromU64 2) zero256));
    [apply one_slot_ok|repeat split; cbn; lia|done].
Defined.

Lemma SubBalance_exact_witness :
  exists t', SubBalance one_slot addr1 (FromU64 4) = Ok t' /\ toZ (GetBalance t' addr1) = 6.
Proof.
  pose proof (SubBalance_exact one_slot addr1 (FromU64 4) one_slot_ok (small_ok 1 ltac:(done)) (small_ok 4 ltac:(done))) as H.
  destruct H as (t' & E & Hb). exists t'. split; [exact E|]. rewrite Hb. reflexivity.
Defined.

Lemma GetStorage_after_SetStorage_witness : GetStorage (SetStorage one_slot addr1 (FromU64 2) zero256) addr1 (FromU64 2) = zero256.
Proof. rewrite (GetStorage_after_SetStorage one_slot addr1 (FromU64 2) zero256 addr1 (FromU64 2) zero256_ok). reflexivity. Defined.

Lemma insertNode_correct_witness :
  inserted 4 (tget (mptLeaf [1; 2] [7])) [1; 3] [8] (Arena 8 0) (insertNode (mptLeaf [1; 2] [7]) [1; 3] [8] (Arena 8 0))
    (fun n' => is_branch (mptLeaf [1; 2] [7]) -> is_branch n').
Proof.
  apply insertNode_correct; [constructor; [repeat constructor; cbn; lia|done]|repeat constructor; cbn; lia|done|cbn; lia].
Defined.

Lemma trie_canonical_witness : mptLeaf [1; 2] [7] = mptLeaf [1; 2] [7].
Proof.
  apply trie_canonical; [constructor; [repeat constructor; cbn; lia|done]..|by intros k Hk].
Defined.

Lemma insertion_order_irrelevant_witness :
  exists n a1 a2, insert_all None [([1; 2], [7]); ([1; 3], [8])] (Arena 8 0) = Ok (n, a1) /\
    insert_all None [([1; 3], [8]); ([1; 2], [7])] (Arena 8 0) = Ok (n, a2).
Proof.
  apply insertion_order_irrelevant; [apply Permutation_swap| |repeat constructor; cbn; (lia || done)|cbn; lia..].
  apply (bool_decide_unpack _). vm_compute. exact I.
Defined.

Lemma buildAccountTrie_capacity_witness :
  exists n a', buildAccountTrie in_order in_order 0 one_slot (Arena 0 0) = Ok (n, a') /\ nodeCount a' <= 12.
Proof.
  destruct (buildAccountTrie_capacity in_order in_order in_order_perm in_order_perm 0 one_slot (Arena 0 0)) as (a' & E & Hn);
    [cbn; lia|]. eexists _, a'. split; [exact E|]. exact Hn.
Defined.

Lemma ComputeRoot_deterministic_witness :
  exists h, ComputeRoot in_order (fun _ m => reverse (map_to_list m)) 0 one_slot (Arena 0 0) = Ok h /\
    ComputeRoot in_order (fun _ m => reverse (map_to_list m)) 1 (Snapshot one_slot).1 (Arena 5 3) = Ok h.
Proof.
  apply ComputeRoot_deterministic; [intros; reflexivity|intros; apply reverse_Permutation|reflexivity| | |cbn; lia..].
  - intros k x. destruct one_slot_ok as [_ [[_ Hs] _]]. intros E. cbn in Hs. by apply Hs in E as (? & ? & ? & ? & _).
  - intros k acc. destruct one_slot_ok as [_ [[Ha _] _]]. intros E. cbn in Ha. by apply Ha in E as (? & _).
Defined.

(** A trie with one leaf, and its proof. *)
Definition leaf_proof : bytes := MptEncodeLeaf (hashToNibbles (zeros 32)) [5].

Lemma storage_proofs_bind_witness :
  VerifyStorageProof 10 (Keccak256 leaf_proof) (zeros 32) [5] [leaf_proof] = Ok true /\
  ([5] = [5] \/ collision [leaf_proof] [leaf_proof]).
Proof.
  assert (VerifyStorageProof 10 (Keccak256 leaf_proof) (zeros 32) [5] [leaf_proof] = Ok true) as V by (vm_compute; reflexivity).
  split; [exact V|]. exact (storage_proofs_bind (zeros 32) 10 10 [leaf_proof] [leaf_proof] [5] [5] (Keccak256 leaf_proof) V V).
Defined.
