(* ===== verification/SeqProps.v ===== *)
(** * What the sequencer's parts guarantee: properties of [pkg/c2seq] *)

From S2P Require Import Prelude Uint256 Arith256 Keccak BlockTypes GasMath.
From S2P Require Import Mempool MempoolSpec SeqQueues Retryable StateRoot BatchRlp BatchSpec.

(** ** Transaction pool *)

(** C29: adding a transaction keeps the two indexes of the pool consistent and writes exactly the slot
    (sender, nonce): a known hash is a duplicate, a pending transaction of the same slot is replaced
    only by a strictly higher tip. *)
Theorem AddTx_correct m tx :
  pool_ok m -> tx_ok tx ->
  let a := tx_From tx in let n := tx_Nonce tx in
  match AddTx m (Some tx) with
  | Ok m' => pool_ok m' /\ byHash m !! tx_Hash tx = None /\
      (forall ex, slot m a n = Some ex -> toZ (txTip ex) < toZ (txTip tx)) /\
      forall b k, slot m' b k = if bool_decide (b = a) && (n =? k) then Some tx else slot m b k
  | Err ErrDuplicate => is_Some (byHash m !! tx_Hash tx)
  | Err ErrUnderpriced => byHash m !! tx_Hash tx = None /\
      exists ex, slot m a n = Some ex /\ toZ (txTip tx) <= toZ (txTip ex)
  | _ => False
  end.
Proof. exact (AddTx_post m tx). Qed.

Section pop.
  Context (range : nat -> gmap bytes Z -> list (bytes * Z)).
  Context (range_perm : forall seed m, range seed m ≡ₚ map_to_list m).

(** C8: a batch popped from the pool stays within its gas and count limits, takes from each sender a
    prefix of its queue in nonce order, removes exactly what it returns, and is maximal: it is full or
    no remaining head fits in the gas left. *)
Theorem PopBatch_correct seed m maxGas maxCount :
  pool_ok m -> is_u64 maxGas -> maxGas <> 0 -> maxCount <> 0 ->
  exists m' out, PopBatch range (S (Count m)) seed m maxGas maxCount = Ok (m', out) /\ pool_ok m' /\
    let gas := foldr (fun tx s => tx_Gas tx + s) 0 out in
    gas <= maxGas /\ (0 < maxCount -> Z.of_nat (length out) <= maxCount) /\
    (forall a, queue m a = filter (fun tx => tx_From tx = a) out ++ queue m' a) /\
    byHash m' = foldl (fun bh tx => delete (tx_Hash tx) bh) (byHash m) out /\
    (0 < maxCount <= Z.of_nat (length out) \/ forall a tx, ~ fits m' (maxGas - gas) a tx).
Proof.
  intros Hm HG Hg Hc.
  destruct (PopBatch_greedy range range_perm (S (Count m)) seed maxGas maxCount m Hm HG Hc Hg ltac:(lia)) as (m' & out & E & G).
  destruct (greedy_post _ _ _ _ _ _ _ Hm G) as (Hm' & H1 & H2 & H3 & H4 & H5). unfold is_u64 in HG.
  exists m', out. split; [done|]. split; [done|]. rewrite Z.sub_0_r in H5. split_and!; try done; [|by intros; apply H2; lia].
  specialize (H1 ltac:(lia)). lia.
Qed.
End pop.

(** the batch does not depend on the iteration order of the map of heads. *)
Theorem PopBatch_deterministic range range' seed seed' m maxGas maxCount :
  (forall seed m, range seed m ≡ₚ map_to_list m) -> (forall seed m, range' seed m ≡ₚ map_to_list m) ->
  pool_ok m -> is_u64 maxGas ->
  PopBatch range (S (Count m)) seed m maxGas maxCount = PopBatch range' (S (Count m)) seed' m maxGas maxCount.
Proof.
  intros P P' Hm HG. destruct (decide (maxCount = 0 \/ maxGas = 0)) as [H0|H0].
  { unfold PopBatch. destruct (Z.eqb_spec maxCount 0), (Z.eqb_spec maxGas 0); (done || tauto). }
  destruct (PopBatch_greedy range P (S (Count m)) seed maxGas maxCount m Hm HG) as (m1 & o1 & -> & G1); [tauto..|lia|].
  destruct (PopBatch_greedy range' P' (S (Count m)) seed' maxGas maxCount m Hm HG) as (m2 & o2 & -> & G2); [tauto..|lia|].
  by destruct (greedy_det _ _ _ _ _ _ _ _ _ Hm G1 G2) as [-> ->].
Qed.

(** ** Queues *)

(** The express lane returns, in order, the transactions pushed whose window is still open at the
    time of the drain (the deadline saturates at the largest time), and empties itself. *)
Theorem express_lane_fifo w pushes now :
  is_u64 w -> Forall (fun p => is_u64 p.2) pushes -> (length pushes <= 1024)%nat ->
  exists t, foldl (fun r p => t ← r; PushExpress t (Some p.1) p.2) (Ok (MkTimeboost w [])) pushes = Ok t /\
    length (tb_items t) = length pushes /\
    Drain t now = (MkTimeboost w [], (filter (fun p => now <= deadline w p.2) pushes).*1).
Proof. exact (push_all_Drain w pushes now). Qed.

(** polling the delayed inbox splits it without loss or duplication: the messages returned are
    those whose delay has elapsed, the others stay, and polling again at the same time or earlier
    returns nothing. *)
Theorem PopReady_partition d now :
  is_u64 now -> is_u64 (di_delay d) -> Forall (fun m => is_u64 (m_PostedAt m)) (di_q d) ->
  let '(d', ready) := PopReady d now in
  ready ++ di_q d' ≡ₚ di_q d /\ Forall (is_ready (di_delay d) now) ready /\
  Forall (fun m => ~ is_ready (di_delay d) now m) (di_q d') /\
  forall now', is_u64 now' -> now' <= now -> (PopReady d' now').2 = [].
Proof. exact (PopReady_perm d now). Qed.

(** ** Retryable tickets *)

(** C36: a ticket is created exactly when its parameters pay for themselves over the integers, with
    the exact submission price, and is redeemed at once exactly when its gas limit is above zero and
    covered by the gas left. *)
Theorem Create_exact e p :
  params_ok p ->
  match Create e p with
  | Ok (e', t, otx) => fundable p /\ t_ID t = ticketID p /\ e' = <[ticketID p := t]> e /\
      t_SubmissionGas t = sub_gas p /\ toZ (t_SubmissionFee t) = sub_fee p /\
      (if bool_decide (0 < p_GasLimit p <= p_GasProvided p - sub_gas p)
       then t_Status t = RetryableAutoRedeemed /\ otx = Some (ticketToTx t 0)
       else t_Status t = RetryableCreated /\ otx = None)
  | Err _ => ~ fundable p
  | _ => False
  end.
Proof. exact (Create_spec e p). Qed.

(** C30: over any sequence of calls a ticket emits at most one transaction per creation of its
    identifier: automatic and manual redemptions never redeem it twice. *)
Theorem ticket_redeemed_once e os id :
  Forall op_typed os ->
  let '(e', out) := retry_run e os in
  (emitted id out + redeemable e' id <= redeemable e id + length (filter (fun o => creates id o = true) os))%nat.
Proof. exact (retry_run_once e os id). Qed.

(** the identifier of a ticket commits to its sender, recipient, value, data and gas limit: equal
    identifiers of different such fields are a Keccak collision. *)
Theorem ticketID_commits p q :
  params_ok p -> params_ok q -> ticketID p = ticketID q ->
  (p_From p = p_From q /\ p_To p = p_To q /\ p_CallValue p = p_CallValue q /\ p_Data p = p_Data q /\
   p_GasLimit p = p_GasLimit q) \/
  (ticket_preimage p <> ticket_preimage q /\ Keccak256 (ticket_preimage p) = Keccak256 (ticket_preimage q)).
Proof.
  intros Hp Hq E. destruct (decide (ticket_preimage p = ticket_preimage q)) as [Ep|Ep]; [left|by right].
  by apply ticket_preimage_inj.
Qed.

(** Fee multiplication is exact or reports that the product does not fit in 256 bits. *)
Theorem mulU256U64Checked_exact a n :
  u256_ok a -> is_u64 n ->
  if toZ a * n <? B256
  then exists r, mulU256U64Checked a n = Ok r /\ u256_ok r /\ toZ r = toZ a * n
  else mulU256U64Checked a n = Err ErrGasOverflow.
Proof. exact (mulU256U64Checked_spec a n). Qed.

(** ** Batches *)

(** the RLP decoder of batches is total: on any bytes it returns a value and a strictly shorter
    rest, or an error; it never panics, and a nesting bound of the input's length is enough. *)
Theorem rlpDecode_terminates fuel buf :
  (length buf < fuel)%nat ->
  match rlpDecode fuel buf with
  | Ok (_, rest) => (length rest < length buf)%nat
  | Err _ => True
  | _ => False
  end.
Proof. exact (rlpDecode_total fuel buf). Qed.

(** only canonical encodings are accepted: the bytes consumed are the encoding of the value
    returned. *)
Theorem rlpDecode_is_canonical fuel buf v rest :
  bytes_ok buf -> rlpDecode fuel buf = Ok (v, rest) -> buf = rlp_encode v ++ rest /\ bytes_ok rest.
Proof. exact (rlpDecode_canonical fuel buf v rest). Qed.

(** C22: the RLP payload of a batch, without the Brotli frame around it: decoding the payload that
    [pack_plain] encodes gives back its transactions, cut down to the fields a batch carries
    ([carried]: signature, chain identifier, access list and blob fields are dropped), when there
    are at most 4096 of them, and is an error for every larger batch that [pack_plain] accepts. *)
Theorem batch_roundtrip fuel txs plain :
  Forall (fun o => match o with Some tx => tx_ok tx | None => True end) txs -> pack_plain txs = Ok plain ->
  exists l, txs = Some <$> l /\ Z.of_nat (length plain) <= maxBatchPlain /\
    unpack_plain (S (S (S fuel))) plain =
      if decide (length l <= 4096)%nat then Ok (map carried l) else Err ErrBatchTooLarge.
Proof. exact (unpack_pack fuel txs plain). Qed.

(** ** Witnesses *)

Definition w_tx (nonce gas : Z) (from h : Z) : Transaction :=
  MkTx 2 zero256 nonce (FromU64 1) (FromU64 nonce) (FromU64 9) gas (Some (replicate 20 7)) (FromU64 5) [1; 2; 3] [] zero256 []
    zero256 zero256 zero256 (replicate 20 from) (replicate 32 h).

Lemma w_tx_ok nonce gas from h : is_u64 nonce -> is_u64 gas -> is_byte from -> is_byte h -> tx_ok (w_tx nonce gas from h).
Proof.
  intros. constructor; cbn -[replicate]; try done; try (apply FromU64_ok; unfold is_u64; (lia || done)); try (split; [by apply Forall_replicate|done]).
  repeat constructor; cbn; lia.
Qed.

Lemma w_tx1_ok : tx_ok (w_tx 4 100 1 1).
Proof. apply w_tx_ok; cbn; unfold is_u64, is_byte; lia. Qed.

Definition w_pool : Mempool := match AddTx NewMempool (Some (w_tx 4 100 1 1)) with Ok m => m | _ => NewMempool end.

Lemma w_pool_ok : pool_ok w_pool.
Proof.
  pose proof (AddTx_post NewMempool (w_tx 4 100 1 1) NewMempool_ok w_tx1_ok) as H. unfold w_pool.
  destruct (AddTx NewMempool (Some (w_tx 4 100 1 1))); [apply H|apply NewMempool_ok..].
Qed.

Lemma AddTx_correct_witness :
  exists m', AddTx w_pool (Some (w_tx 3 50 1 2)) = Ok m' /\ pool_ok m' /\ slot m' (replicate 20 1) 3 = Some (w_tx 3 50 1 2).
Proof.
  assert (tx_ok (w_tx 3 50 1 2)) as Ht by (apply w_tx_ok; cbn; unfold is_u64, is_byte; lia).
  pose proof (AddTx_correct w_pool (w_tx 3 50 1 2) w_pool_ok Ht) as H.
  assert (is_ok (AddTx w_pool (Some (w_tx 3 50 1 2))) = true) as K by (vm_compute; reflexivity).
  destruct (AddTx w_pool (Some (w_tx 3 50 1 2))) as [m'| | |]; [|discriminate K..].
  exists m'. split; [reflexivity|]. destruct H as (Hm & _ & _ & Hs). split; [exact Hm|].
  rewrite Hs. reflexivity.
Defined.

Abbreviation in_map_order := (fun (_ : nat) m => map_to_list m).

Lemma PopBatch_correct_witness :
  exists m' out, PopBatch in_map_order 2 0 w_pool 1000 5 = Ok (m', out) /\ pool_ok m' /\ Z.of_nat (length out) <= 5.
Proof.
  destruct (PopBatch_correct in_map_order (fun _ _ => Permutation_refl _) 0 w_pool 1000 5 w_pool_ok) as (m' & out & E & Hm & _ & Hl & _);
    [unfold is_u64; lia|lia|lia|]. exists m', out. split; [exact E|]. split; [exact Hm|]. apply Hl. lia.
Defined.

Lemma PopBatch_deterministic_witness :
  PopBatch in_map_order (S (Count w_pool)) 0 w_pool 1000 5 =
  PopBatch (fun _ m => reverse (map_to_list m)) (S (Count w_pool)) 7 w_pool 1000 5.
Proof.
  apply PopBatch_deterministic; [intros; reflexivity|intros; apply reverse_Permutation|apply w_pool_ok|unfold is_u64; lia].
Defined.

Lemma express_lane_fifo_witness :
  exists t, foldl (fun r p => t ← r; PushExpress t (Some p.1) p.2) (Ok (MkTimeboost 60 [])) [(w_tx 0 1 1 1, 0); (w_tx 1 1 1 2, 50)] = Ok t /\
    Drain t 100 = (MkTimeboost 60 [], [w_tx 1 1 1 2]).
Proof.
  destruct (express_lane_fifo 60 [(w_tx 0 1 1 1, 0); (w_tx 1 1 1 2, 50)] 100) as (t & E & _ & D);
    [unfold is_u64; lia|repeat constructor; cbn; lia|cbn; lia|]. exists t. split; [exact E|]. rewrite D. reflexivity.
Defined.

Definition w_msg (at_ : Z) : DelayedMessage := MkMsg 0 [] None zero256 [] 0 zero256 zero256 zero256 zero256 0 at_.

Lemma PopReady_partition_witness :
  let '(d', ready) := PopReady (MkInbox 1 [w_msg 5; w_msg 3]) 5 in ready ++ di_q d' ≡ₚ [w_msg 5; w_msg 3].
Proof.
  pose proof (PopReady_partition (MkInbox 1 [w_msg 5; w_msg 3]) 5) as H. destruct (PopReady _ _) as [d' ready].
  apply H; [unfold is_u64; cbn; lia..|repeat constructor; cbn; lia].
Defined.

Definition w_params : RetryableParams :=
  MkParams (replicate 20 1) (Some (replicate 20 2)) (FromU64 10) (FromU64 100000) (FromU64 5000) (replicate 20 1) (replicate 20 1)
    100 (FromU64 2) [1; 2] (FromU64 1) 2000.

Lemma w_params_ok : params_ok w_params.
Proof.
  constructor; cbn -[replicate]; try (apply FromU64_ok; unfold is_u64; lia); unfold is_u64; try lia;
    try (split; [apply Forall_replicate; unfold is_byte; lia|done]).
  split; [repeat constructor; cbn; lia|lia].
Qed.

Lemma Create_exact_witness :
  exists e t tx, Create NewRetryableEngine w_params = Ok (e, t, Some tx) /\ t_SubmissionGas t = 1412.
Proof.
  pose proof (Create_exact NewRetryableEngine w_params w_params_ok) as H.
  assert (match Create NewRetryableEngine w_params with Ok (_, _, Some _) => True | _ => False end) as K by (vm_compute; exact I).
  destruct (Create NewRetryableEngine w_params) as [[[e t] [tx|]]| | |]; [|destruct K..].
  exists e, t, tx. split; [reflexivity|]. destruct H as (_ & _ & _ & Hg & _). rewrite Hg. reflexivity.
Defined.

Lemma ticket_redeemed_once_witness :
  let '(e', out) := retry_run NewRetryableEngine [OpCreate w_params; OpAuto (ticketID w_params); OpManual (ticketID w_params) 5 zero256] in
  (emitted (ticketID w_params) out + redeemable e' (ticketID w_params) <= 1)%nat.
Proof.
  pose proof (ticket_redeemed_once NewRetryableEngine [OpCreate w_params; OpAuto (ticketID w_params); OpManual (ticketID w_params) 5 zero256]
    (ticketID w_params)) as H.
  destruct (retry_run _ _) as [e' out]. assert (redeemable NewRetryableEngine (ticketID w_params) = 0%nat) as R by reflexivity.
  rewrite R, filter_cons_True in H by (apply (bool_decide_eq_true_2 (ticketID w_params = ticketID w_params)); reflexivity).
  rewrite filter_cons_False, filter_cons_False in H by discriminate. cbn [length filter list_filter] in H.
  apply H. repeat constructor; cbn; try lia; apply w_params_ok.
Defined.

Lemma ticketID_commits_witness : p_From w_params = p_From w_params.
Proof.
  destruct (ticketID_commits w_params w_params w_params_ok w_params_ok eq_refl) as [H|[H _]]; [apply H|destruct (H eq_refl)].
Defined.

Lemma mulU256U64Checked_exact_witness : mulU256U64Checked (U256 0 0 0 1) B64 = Err ErrGasOverflow \/ mulU256U64Checked (U256 0 0 0 4) (2 ^ 62) = Err ErrGasOverflow.
Proof.
  right. apply (mulU256U64Checked_exact (U256 0 0 0 4) (2 ^ 62)); [repeat constructor; cbn; lia|unfold is_u64; lia].
Defined.

Lemma rlpDecode_terminates_witness :
  match rlpDecode 4 [0xc2; 0x01; 0xc0] with Ok (_, rest) => (length rest < 3)%nat | Err _ => True | _ => False end.
Proof. apply (rlpDecode_terminates 4 [0xc2; 0x01; 0xc0]). cbn. lia. Defined.

Lemma rlpDecode_is_canonical_witness : [0xc2; 0x01; 0xc0; 0x05] = rlp_encode (RList [RStr [1]; RList []]) ++ [5].
Proof.
  apply (rlpDecode_is_canonical 4 [0xc2; 0x01; 0xc0; 0x05]); [repeat constructor; cbn; lia|reflexivity].
Defined.

Lemma batch_roundtrip_witness :
  exists plain, pack_plain [Some (w_tx 4 100 1 1)] = Ok plain /\ unpack_plain 3 plain = Ok [carried (w_tx 4 100 1 1)].
Proof.
  destruct (pack_plain [Some (w_tx 4 100 1 1)]) as [plain| | |] eqn:E; [|vm_compute in E; discriminate E..].
  exists plain. split; [reflexivity|].
  destruct (batch_roundtrip 0 [Some (w_tx 4 100 1 1)] plain) as (l & El & _ & U); [repeat constructor; apply w_tx1_ok|exact E|].
  destruct l as [|t [|]]; [discriminate El| |discriminate El]. injection El as <-. rewrite U. reflexivity.
Defined.
