(* ===== verification/CryptoProps.v ===== *)
(** * Properties of the cryptographic components

    Public key recovery and the arithmetic under it. *)

From S2P Require Import Prelude Uint256 ModArith Primes AffineCurve Secp256k1 SecpField SecpCurve SecpSpec.
From Stdlib Require Import Zdivisibility.

(** C10: EcRecover returns a key exactly when the three strings have 32 bytes, the
    recovery byte is known, [0 < r < n], [0 < s <= n/2], and the point
    [u1 G + u2 R] is finite for the point [R] of abscissa [r] and of the given
    parity, with [u1 = -z/r] and [u2 = s/r] modulo the order. The key is the
    coordinates of that point. It fails otherwise, and never panics. *)
Theorem EcRecover_correct z v r s (Hz : bytes_ok z) (Hr : bytes_ok r) (Hs : bytes_ok s) :
  (EcRecover z v r s = Err tt \/ exists pub, EcRecover z v r s = Ok pub) /\
  (forall pub, EcRecover z v r s = Ok pub <->
    exists recid x y, parseRecid v = Some recid /\
      length z = 32%nat /\ length r = 32%nat /\ length s = 32%nat /\
      recovers (be_val z) (be_val r) (be_val s) recid (Some (x, y)) /\
      pub = be_bytes 32 x ++ be_bytes 32 y).
Proof.
  assert (length z = 32%nat /\ length r = 32%nat /\ length s = 32%nat \/ EcRecover z v r s = Err tt /\
    ~ (length z = 32%nat /\ length r = 32%nat /\ length s = 32%nat)) as [(Lz & Lr & Ls)|[-> Hn]].
  { unfold EcRecover. destruct (Nat.eqb_spec (length z) 32) as [Lz|]; [|by right; split; [|intros [? _]]].
    destruct (Nat.eqb_spec (length r) 32) as [Lr|]; [|by right; split; [|intros (_ & ? & _)]].
    destruct (Nat.eqb_spec (length s) 32) as [Ls|]; [by left|by right; split; [|intros (_ & _ & ?)]]. }
  2: { split; [by left|]. intros pub. split; [done|]. intros (recid & x & y & _ & Lz & Lr & Ls & _).
    destruct Hn. done. }
  destruct (parseRecid v) as [recid|] eqn:Ev.
  2: { assert (EcRecover z v r s = Err tt) as -> by (unfold EcRecover; rewrite Lz, Lr, Ls, Ev; done).
    split; [by left|]. intros pub. split; [done|]. intros (recid & x & y & Hv & _). discriminate Hv. }
  pose proof (EcRecover_body z r s v recid Hz Hr Hs Lz Lr Ls Ev) as H.
  destruct (EcRecover z v r s) as [pub|[]| |]; [|split; [by left|]|destruct H..].
  - destruct H as (x & y & HQ & _ & ->). split; [by right; eexists|]. intros pub. split.
    + intros [= <-]. exists recid, x, y. done.
    + intros (recid' & x' & y' & [= <-] & _ & _ & _ & HQ' & ->).
      pose proof (recovers_unique _ _ _ _ _ _ (parseRecid_range v recid Ev) HQ HQ') as [= -> ->]. done.
  - intros pub. split; [done|]. intros (recid' & x & y & [= <-] & _ & _ & _ & HQ & _). by specialize (H _ HQ).
Qed.

(** The signature [(Gx, Gx)] of the digest [- Gx]: the key is [G + G]. *)
Definition w_gx : bytes := be_bytes 32 (toZ secpGX).
Definition w_digest : bytes := be_bytes 32 (fn - toZ secpGX).
Definition w_2g : Z * Z := default (0, 0) (ec_double fp G).

Lemma EcRecover_correct_witness :
  EcRecover w_digest 27 w_gx w_gx = Ok (be_bytes 32 (fst w_2g) ++ be_bytes 32 (snd w_2g)).
Proof.
  assert (bytes_ok w_digest /\ bytes_ok w_gx) as [Hd Hg] by (split; apply be_bytes_ok).
  apply (proj2 (EcRecover_correct w_digest 27 w_gx w_gx Hd Hg Hg)).
  exists 0, (fst w_2g), (snd w_2g). do 4 (split; [reflexivity|]). split; [|reflexivity].
  assert (be_val w_gx = toZ secpGX) as -> by (vm_compute; reflexivity).
  assert (be_val w_digest = fn - toZ secpGX) as -> by (vm_compute; reflexivity).
  constructor; [vm_compute; split; reflexivity|vm_compute; split; [reflexivity|discriminate]|].
  exists (toZ secpGY), 1, 1. split; [exact G_on_secp|]. split; [left; vm_compute; reflexivity|].
  split; [lia|]. split; [lia|]. split; [vm_compute; reflexivity|]. split; vm_compute; reflexivity.
Defined.

(** C11: The Jacobian formulas, which select their result with masks instead of
    branches, refine the chord-and-tangent law for every input: points at
    infinity, equal points, opposite points and points of order two included;
    multiplication is the sum of [k] copies, and the affine coordinates read
    back are those of the point. *)
Theorem secp256k1_refines_group_law J K P Q k (HJ : jac_rep J P) (HK : jac_rep K Q) (Hk : u256_ok k) :
  jac_rep (secp256k1JacDouble J) (ec_double fp P) /\
  jac_rep (secp256k1JacAdd J K) (ec_add fp P Q) /\
  jac_rep (secp256k1JacMul J k) (ec_mul fp (toZ k) P) /\
  match jacToAffine J with
  | None => P = None
  | Some (x, y) => fe x /\ fe y /\ P = Some (toZ x, toZ y)
  end.
Proof.
  split; [by apply secp256k1JacDouble_rep|]. split; [by apply secp256k1JacAdd_rep|].
  split; [by apply secp256k1JacMul_rep|by apply jacToAffine_rep].
Qed.

Lemma secp256k1_refines_group_law_witness :
  jac_rep (secp256k1JacAdd gjac gjac) (Some w_2g) /\ jac_rep (secp256k1JacMul gjac (FromU64 2)) (Some w_2g).
Proof.
  assert (u256_ok (FromU64 2)) as H2 by (repeat split; vm_compute; congruence).
  destruct (secp256k1_refines_group_law gjac gjac G G (FromU64 2) gjac_rep gjac_rep H2) as (_ & Ha & Hm & _).
  split; [|exact Hm].
  assert (ec_add fp G G = Some w_2g) as E by (vm_compute; reflexivity). rewrite E in Ha. exact Ha.
Defined.

(** The public key of a 32-byte secret [k] is the coordinates of [k G]; the
    secrets outside [1 .. n-1] are refused. *)
Theorem Secp256k1PubkeyFromSeckey_correct k pub (Hk : bytes_ok k) (Lk : length k = 32%nat) :
  Secp256k1PubkeyFromSeckey k = Ok pub <->
  0 < be_val k < fn /\ exists x y, ec_mul fp (be_val k) G = Some (x, y) /\ on_secp (Some (x, y)) /\
    pub = be_bytes 32 x ++ be_bytes 32 y.
Proof.
  pose proof (Secp256k1PubkeyFromSeckey_spec k Hk Lk) as H.
  destruct (Secp256k1PubkeyFromSeckey k) as [pub'| | |]; [|split; [done|]|destruct H..].
  - destruct H as (Hr & x & y & E & Hc & ->). split.
    + intros [= <-]. split; [exact Hr|]. exists x, y. done.
    + intros (_ & x' & y' & E' & _ & ->). rewrite E in E'. injection E' as <- <-. done.
  - intros (Hr & x & y & E & _). destruct H as [H|[H|H]]; [lia|lia|]. by rewrite E in H.
Qed.
