(* ===== verification/TxProps.v ===== *)
(** * Properties of transactions on the wire

    Decoding, typing, sender recovery and what a signature commits to. *)

From S2P Require Import Prelude Uint256 Keccak StateRoot StateRootSpec BlockTypes ModArith Primes AffineCurve.
From S2P Require Import Secp256k1 SecpSpec TxRlp TxDecode TxDecodeSpec TxDecodeTyped.

(** ** A signed transaction

    The digest [z] of [w_tx] gives [r = s = - z], so that [u1 = u2 = 1]: its
    sender is the address of [G + R]. *)

Definition w_r : Uint256 := FromBytesBE (be_bytes 32 0x44a60d3dea7667e472331392ee37c7d95d27aebb6781adb600c32c96b4842780).
Definition w_y : Z := 0xf7fb0b740394fed8befb4894af21129361ebba825b197af9c5cccf8a4db9e122.

Definition w_tx : Transaction :=
  MkTx TxDynamicFee (FromU64 55) 1 (FromU64 100) (FromU64 2) (FromU64 100) 21000 (Some (replicate 20 7)) (FromU64 1000) [1; 2; 3]
    [MkAccessTuple (replicate 20 9) [replicate 32 1]] zero256 [] (FromU64 0) w_r w_r no_address no_hash.

Definition w_key : Z * Z := default (0, 0) (ec_add fp G (Some (toZ w_r, w_y))).
Definition w_sender : Address := slice (keccak32 (be_bytes 32 (fst w_key) ++ be_bytes 32 (snd w_key))) 12 32.

Lemma w_r_ok : u256_ok w_r.
Proof. apply FromBytesBE_ok, be_bytes_ok. Qed.

Ltac wire_field :=
  lazymatch goal with
  | |- u256_ok (FromU64 _) => apply FromU64_ok; unfold is_u64; lia
  | |- u256_ok w_r => exact w_r_ok
  | |- u256_ok zero256 => apply zero256_ok
  | |- is_u64 _ => unfold is_u64; lia
  | |- bytes_ok _ => by repeat constructor
  | |- Forall is_hash [] => constructor
  | _ => idtac
  end.

Lemma w_signed_tx_ok : wire_ok w_tx.
Proof.
  unfold w_tx. constructor; cbn [tx_ChainID tx_Nonce tx_GasPrice tx_GasTipCap tx_GasFeeCap tx_Gas tx_To tx_Value tx_Data
    tx_AccessList tx_BlobFeeCap tx_BlobHashes tx_V tx_R tx_S]; wire_field.
  - right; right; left. repeat split.
  - split; [by repeat constructor|reflexivity].
  - repeat constructor; done.
Qed.

Lemma w_tx_signed : signed_by (signingHash w_tx) true (tx_V w_tx) (tx_R w_tx) (tx_S w_tx) w_sender.
Proof.
  exists 0, (fst w_key), (snd w_key). split; [reflexivity|]. split; [|reflexivity].
  assert (be_val (signingHash w_tx) = fn - toZ w_r) as -> by (vm_compute; reflexivity).
  constructor; [vm_compute; split; reflexivity|vm_compute; split; [reflexivity|discriminate]|].
  exists w_y, 1, 1. split; [repeat split; vm_compute; congruence|]. split; [left; vm_compute; reflexivity|].
  split; [lia|]. split; [lia|]. split; [vm_compute; reflexivity|]. split; vm_compute; reflexivity.
Qed.

(** C12: Decoding the encoding of a signed transaction of any of the four types
    gives it back, with the sender recovered from its signed hash and the hash of
    the bytes read; it fails exactly when the signature recovers no sender. *)
Theorem DecodeTransaction_roundtrip fuel tx (Hw : wire_ok tx)
  (Hlen : Z.of_nat (length (tx_encode tx)) < max_len) (Hf : (length (tx_encode tx) < fuel)%nat) :
  let typed := negb (tx_Type tx =? TxLegacy) in
  (forall from, signed_by (signingHash tx) typed (tx_V tx) (tx_R tx) (tx_S tx) from ->
    DecodeTransaction fuel (tx_encode tx) = Ok (with_sender tx from (keccak32 (tx_encode tx)))) /\
  ((forall from, ~ signed_by (signingHash tx) typed (tx_V tx) (tx_R tx) (tx_S tx) from) ->
    DecodeTransaction fuel (tx_encode tx) = Err ErrSender).
Proof.
  cbv zeta. rewrite (decode_encode fuel tx Hw Hlen Hf).
  pose proof (recoverSender_Ok (signingHash tx) (negb (tx_Type tx =? TxLegacy)) (tx_V tx) (tx_R tx) (tx_S tx)) as H.
  pose proof (recoverSender_spec (signingHash tx) (negb (tx_Type tx =? TxLegacy)) (tx_V tx) (tx_R tx) (tx_S tx)
    (signingHash_ok tx) (wo_v tx Hw) (wo_r tx Hw) (wo_s tx Hw)) as R. split.
  - intros from Hs. apply H in Hs; [|apply signingHash_ok|apply Hw..]. by rewrite Hs.
  - intros Hno. destruct (recoverSender _ _ _ _ _) as [from|e| |]; [by destruct (Hno from)| |destruct R..].
    by destruct R as [-> _].
Qed.

Lemma DecodeTransaction_roundtrip_witness :
  DecodeTransaction 1000 (tx_encode w_tx) = Ok (with_sender w_tx w_sender (keccak32 (tx_encode w_tx))).
Proof.
  assert (Z.of_nat (length (tx_encode w_tx)) < 1000) as Hl by (vm_compute; reflexivity).
  exact (proj1 (DecodeTransaction_roundtrip 1000 w_tx w_signed_tx_ok ltac:(lia) ltac:(lia)) w_sender w_tx_signed).
Defined.

(** C13: On every input, decoding returns a transaction whose fields have their Go
    types and the values its type prescribes, whose hash is the one of the input
    and whose sender signed it; or an error. It panics only on an input
    with eight consecutive bytes whose value is within nine units of [2^63] (a length
    prefix that wraps around), and a nesting bound of the length of the input is enough. *)
Theorem DecodeTransaction_typed fuel raw (Hraw : bytes_ok raw) (Hf : (length raw < fuel)%nat) :
  match DecodeTransaction fuel raw with
  | Ok tx => wire_ok tx /\ is_address (tx_From tx) /\ tx_Hash tx = keccak32 raw /\
      signed_by (signingHash tx) (negb (tx_Type tx =? TxLegacy)) (tx_V tx) (tx_R tx) (tx_S tx) (tx_From tx)
  | Err _ => True
  | Panic => has_wrapping raw
  | OutOfFuel => False
  end.
Proof. exact (DecodeTransaction_total fuel raw Hraw Hf). Qed.

Lemma DecodeTransaction_typed_witness :
  DecodeTransaction 20 [0xff; 0x7f; 0xff; 0xff; 0xff; 0xff; 0xff; 0xff; 0xff] = Panic /\
  has_wrapping [0xff; 0x7f; 0xff; 0xff; 0xff; 0xff; 0xff; 0xff; 0xff].
Proof.
  assert (DecodeTransaction 20 [0xff; 0x7f; 0xff; 0xff; 0xff; 0xff; 0xff; 0xff; 0xff] = Panic) as E by reflexivity.
  split; [exact E|]. assert (bytes_ok [0xff; 0x7f; 0xff; 0xff; 0xff; 0xff; 0xff; 0xff; 0xff]) as Hb by (by repeat constructor).
  pose proof (DecodeTransaction_typed 20 [0xff; 0x7f; 0xff; 0xff; 0xff; 0xff; 0xff; 0xff; 0xff] Hb ltac:(cbn; lia)) as H.
  rewrite E in H. exact H.
Defined.

(** C40: Two transactions with the same signed hash have the same type and the same
    fields but the signature, and are bound to the same chain, unless their signed
    strings are a collision of Keccak-256. *)
Theorem signingHash_commits t1 t2 p1 p2 (H1 : wire_ok t1) (H2 : wire_ok t2)
  (E1 : signing_payload t1 = Some p1) (E2 : signing_payload t2 = Some p2)
  (L1 : Z.of_nat (length p1) < max_len) (E : signingHash t1 = signingHash t2) :
  signed_content t1 = signed_content t2 \/ p1 <> p2 /\ keccak32 p1 = keccak32 p2.
Proof.
  destruct (decide (p1 = p2)) as [->|Hne].
  - left. exact (signing_payload_inj t1 t2 p2 H1 H2 L1 E1 E2).
  - right. split; [exact Hne|]. unfold signingHash in E. by rewrite E1, E2 in E.
Qed.

Lemma signingHash_commits_witness :
  signed_content w_tx = signed_content (with_sender w_tx w_sender no_hash) \/
  default [] (signing_payload w_tx) <> default [] (signing_payload w_tx) /\
  keccak32 (default [] (signing_payload w_tx)) = keccak32 (default [] (signing_payload w_tx)).
Proof.
  assert (wire_ok (with_sender w_tx w_sender no_hash)) as H2 by (destruct w_signed_tx_ok; constructor; assumption).
  apply (signingHash_commits w_tx (with_sender w_tx w_sender no_hash) _ _ w_signed_tx_ok H2); reflexivity.
Defined.
