(* ===== verification/NodeProps.v ===== *)
(** * Properties of block production

    What the sequencer puts in a block, and what it publishes. *)

From S2P Require Import Prelude Uint256 StateTrie StateTrieSpec Trie StateRoot BlockTypes GasMath Mempool MempoolSpec.
From S2P Require Import SeqQueues Retryable BatchRlp CallContext CallEnv CallSpec BlockProcessor BlockSpec Sequencer SequencerSpec.
From S2P Require Import BlockProps.

Section sequencer.
  Context (range : nat -> storage_map -> list (storageKey * Uint256)).
  Context (range_perm : forall seed m, range seed m ≡ₚ map_to_list m).
  Context (range_accounts : nat -> account_map -> list (Uint256 * Account)).
  Context (accounts_perm : forall seed m, range_accounts seed m ≡ₚ map_to_list m).
  Context (range_set : nat -> gset Address -> list Address).
  Context (range_set_elem : forall seed s a, a ∈ range_set seed s -> a ∈ s).
  Context (range_heads : nat -> gmap bytes Z -> list (bytes * Z)).
  Context (heads_perm : forall seed m, range_heads seed m ≡ₚ map_to_list m).
  Context (RunPrecompile : Z -> bytes -> Z -> outcome unit (bytes * Z)) `{!PrecompileLaws RunPrecompile}.

(** C9: producing a block keeps the sequencer well formed. The candidates are exactly
    the tickets redeemed from the delayed messages that are due, then the unexpired
    items of the express lane, then what the pool yields in the room they leave (best
    heads first, until it is full or no head fits); the queues keep the rest. The block
    is the greedy selection among them, in order: a candidate is left out only when the
    count or the gas is exhausted or its nonce does not follow the state and the ones
    taken. On success the block is accepted over the state with the delayed deposits
    credited, numbered one more, and the batch published carries it. On failure nothing
    is published: the number overflows and nothing is taken, or the block is refused and
    the deposits stay credited, or the batch is too large. It always terminates, and
    panics only when the processing of that block does. *)
Theorem ProduceBlock_correct seed arena s now :
  seq_ok s -> is_u64 now -> 0 <= node_cap arena ->
  match ProduceBlock range range_accounts range_set range_heads RunPrecompile seed arena s now with
  | Ok (s', res) => produced range range_accounts s now s' res
  | Err (e, s') => failed range range_accounts range_set RunPrecompile seed arena s now e s'
  | Panic => panicked range range_accounts range_set RunPrecompile seed arena s now
  | OutOfFuel => False
  end.
Proof.
  intros Hs Hn Ha.
  exact (ProduceBlock_spec range range_perm range_accounts accounts_perm range_set range_set_elem range_heads heads_perm
    RunPrecompile seed arena s now Hs Hn Ha).
Qed.
End sequencer.

(** ** A small sequencer *)

Abbreviation w_produce := (ProduceBlock maps_in_order maps_in_order sets_in_order maps_in_order echo).

(** Two transactions in the pool, the second one with nonce [n]; a deposit is due. *)
Definition w_tx2 (n : Z) : Transaction :=
  MkTx TxLegacy (FromU64 55) n (FromU64 9) zero256 zero256 50000 (Some callee) (FromU64 5) [] [] zero256 [] zero256 zero256
    zero256 sender (replicate 32 1).
Definition w_pool2 (n : Z) : Mempool :=
  match (m ← AddTx NewMempool (Some (w_tx (FromU64 9) 60000 0)); AddTx m (Some (w_tx2 n))) with Ok m => m | _ => NewMempool end.
Definition w_deposit : DelayedMessage :=
  MkMsg MsgEthDeposit sender (Some (addr_of 7)) (FromU64 1000) [] 0 zero256 zero256 zero256 zero256 0 10.
Definition w_seq (n : Z) : Sequencer :=
  MkSeq (Some (w_pool2 n)) (Some (NewTimeboost 60)) (Some (MkInbox 1 [w_deposit])) (Some NewRetryableEngine) (w_state code_log)
    (w_header 30000000 (FromU64 7)) [] [] defaultTxs.

Lemma w_tx2_fits n : is_u64 n -> tx_fits (w_tx2 n).
Proof.
  intros Hn. assert (is_address sender /\ is_address callee) as [Hs Hc] by (split; apply addr_of_ok; unfold is_byte; lia).
  split; [|cbn; lia].
  constructor; cbn [w_tx2 tx_Type tx_Nonce tx_Gas tx_GasTipCap tx_GasFeeCap tx_GasPrice tx_To tx_Value tx_Data tx_From tx_Hash];
    try assumption; try apply zero256_ok; try (apply FromU64_ok; w64); try w64; try lia; [constructor|].
  split; [repeat constructor; unfold is_byte; lia|done].
Qed.

Lemma w_pool2_ok n : is_u64 n -> pool_ok (w_pool2 n) /\ pool_fits (w_pool2 n).
Proof.
  intros Hn. assert (pool_ok NewMempool /\ pool_fits NewMempool) as [H0 F0].
  { split; [apply NewMempool_ok|]. intros h tx E. cbn in E. by rewrite lookup_empty in E. }
  unfold w_pool2. destruct (AddTx NewMempool _) as [m1| | |] eqn:E1; cbn [mbind outcome_bind]; [|done..].
  assert (tx_fits (w_tx (FromU64 9) 60000 0)) as Ht by (apply w_tx_fits; [apply FromU64_ok; w64|w64|w64]).
  destruct (AddTx_fits _ _ _ H0 F0 Ht E1) as [H1 F1].
  destruct (AddTx m1 _) as [m2| | |] eqn:E2; [|done..]. exact (AddTx_fits _ _ _ H1 F1 (w_tx2_fits n Hn) E2).
Qed.

Lemma w_seq_ok n : is_u64 n -> seq_ok (w_seq n).
Proof.
  intros Hn. assert (code_ok code_log) as Hc by code.
  assert (is_address sender /\ is_address (addr_of 7)) as [Hs Ha] by (split; apply addr_of_ok; unfold is_byte; lia).
  constructor; cbn [w_seq s_Mempool s_Timeboost s_DelayedInbox s_State s_Header s_maxTxs option_ok].
  - by apply w_pool2_ok.
  - constructor.
  - split; [cbn; w64|]. constructor; [|constructor].
    constructor; cbn [w_deposit m_From m_To m_Value m_Data m_GasLimit m_MaxFeePerGas m_Deposit m_MaxSubmissionFee m_L1BaseFee
      m_GasProvided m_PostedAt]; try assumption; try apply zero256_ok; try w64; [apply FromU64_ok; w64|split; [constructor|cbn; lia]].
  - by apply w_state_ok.
  - apply w_header_ok; [w64|apply FromU64_ok; w64].
  - lia.
Qed.

Lemma ProduceBlock_correct_witness :
  exists s' res, w_produce 0 (Arena 0 0) (w_seq 1) 20 = Ok (s', res) /\ seq_ok s' /\ h_Number (s_Header s') = 2 /\
    gathered (w_seq 1) 20 s' (s_LastTxs s') /\ length (s_LastTxs s') = 2%nat /\
    consecutive 0 (filter (fun tx => tx_From tx = sender) (s_LastTxs s')).
Proof.
  assert (match w_produce 0 (Arena 0 0) (w_seq 1) 20 with Ok (s', _) => length (s_LastTxs s') = 2%nat | _ => False end) as L
    by (vm_compute; reflexivity).
  destruct (ok_exists (w_produce 0 (Arena 0 0) (w_seq 1) 20)) as [[s' res] E]; [vm_compute; reflexivity|].
  rewrite E in L. exists s', res. split; [exact E|].
  pose proof (ProduceBlock_correct maps_in_order maps_perm maps_in_order maps_perm sets_in_order sets_elem maps_in_order maps_perm echo
    0 (Arena 0 0) (w_seq 1) 20 (w_seq_ok 1 ltac:(w64)) ltac:(w64) ltac:(cbn; lia)) as H. rewrite E in H.
  destruct H as [Hok Hn _ Hg _ _]. split; [exact Hok|]. split; [exact Hn|]. split; [exact Hg|]. split; [exact L|].
  destruct Hg as (cands & _ & Hsel). exact (sl_nonces _ _ _ _ _ Hsel sender).
Defined.

(** A transaction with a nonce gap leaves the pool and enters no block. *)
Lemma gap_transaction_lost :
  match w_produce 0 (Arena 0 0) (w_seq 5) 20 with
  | Ok (s', _) => map tx_Nonce (s_LastTxs s') = [0] /\ option_map Count (s_Mempool s') = Some 0%nat
  | _ => False
  end.
Proof. vm_compute. split; reflexivity. Qed.
