(* ===== verification/PrecompileProps.v ===== *)
(** * Properties of the precompiled contracts *)

From S2P Require Import Prelude ModArith Primes AffineCurve TxRlp CallEnv CallSpec Hashes HashSpec Bn254 BnTower BnCurve BnPairing.
From S2P Require Import Bls12 BlsSpec Precompiles PrecompileSpec.

(** The pieces of a concrete input are bytes. *)
Ltac input_ok :=
  repeat lazymatch goal with
  | |- bytes_ok (_ ++ _) => apply bytes_ok_app
  | |- bytes_ok (be_bytes _ _) => apply be_bytes_ok
  | |- bytes_ok (zeros _) => apply zeros_ok
  | |- bytes_ok (_ :: _) => apply List.Forall_cons; [unfold is_byte; lia|]
  | |- Forall is_byte (_ :: _) => apply List.Forall_cons; [unfold is_byte; lia|]
  | |- Forall is_byte [] => apply List.Forall_nil
  | |- Forall is_byte ?l => change (bytes_ok l)
  end.

(** C14: Every call of a precompiled contract ends. It answers with a byte string and
    the gas left by the exact price of the contract, which is affordable; it
    reports the lack of gas only when the price is not affordable; it refuses exactly
    the inputs of [pc_refuses]: lengths of modexp above 1024, bytes that are no point
    of a curve, pairs of the wrong length, a wrong flag, an evaluation that is not
    accepted, a contract that does not exist. It panics only in the pairing, on a pair of
    points that decode and are finite, when the chain of doublings and additions of the
    second point along the bits of [6 u + 2] meets a point of order two. *)
Theorem RunPrecompile_priced id input gas :
  bytes_ok input -> Z.of_nat (length input) < 2 ^ 40 ->
  match RunPrecompile id input gas with
  | Ok (out, rest) => data_ok out /\ pc_cost id input <= gas /\ rest = gas - pc_cost id input /\ ~ pc_refuses id input
  | Err OOG => gas < pc_cost id input
  | Err Exec => pc_refuses id input
  | Panic => id = 8 /\ exists i, (i < length input / 192)%nat /\ pair_panics input i
  | OutOfFuel => False
  end.
Proof.
  intros Hb Hl. pose proof (RunPrecompile_sound id input gas ltac:(split; [exact Hb|lia])) as H.
  unfold pc_sound in H. rewrite pc_price_exact in H by exact Hl.
  destruct (RunPrecompile id input gas) as [[out rest]|[|]| |]; exact H.
Qed.

Lemma RunPrecompile_priced_witness : RunPrecompile 4 abc 1000 = Ok (abc, 1000 - pc_cost 4 abc) /\ pc_cost 4 abc <= 1000.
Proof.
  assert (bytes_ok abc) as Hb by (unfold abc; input_ok).
  pose proof (RunPrecompile_priced 4 abc 1000 Hb ltac:(cbn; lia)) as H.
  assert (RunPrecompile 4 abc 1000 = Ok (abc, 982)) as E by (vm_compute; reflexivity). rewrite E in *.
  destruct H as (_ & Hc & -> & _). split; [reflexivity|exact Hc].
Defined.

(** C16: Modular exponentiation answers with [base ^ exp mod m] on the announced
    number of bytes, or zeros when [m] is zero, for operands read from the input
    extended with zeros; it charges the price of the schedule without wrapping
    around, and refuses announced lengths above 1024. *)
Theorem pcModexp_correct input gas (Hb : bytes_ok input) :
  pcModexp input gas =
    if decide (modexp_len input 0 <= 1024 /\ modexp_len input 32 <= 1024 /\ modexp_len input 64 <= 1024) then
      if decide (modexp_cost input <= gas) then Ok (modexp_value input, gas - modexp_cost input) else Err OOG
    else Err Exec.
Proof. by apply pcModexp_spec. Qed.

Definition w_modexp : bytes := be_bytes 32 1 ++ be_bytes 32 2 ++ be_bytes 32 1 ++ [3; 1; 1; 7].

Lemma pcModexp_correct_witness : pcModexp w_modexp 1000 = Ok ([3 ^ 257 mod 7], 800).
Proof.
  rewrite (pcModexp_correct w_modexp 1000); [vm_compute; reflexivity|].
  unfold w_modexp. input_ok.
Defined.

(** C15: On bn254, addition and multiplication decode their points, refuse what is not
    a point, and answer with the sum and the multiple under the group law of the
    curve; they never panic. *)
Theorem bn_group_correct input gas (Hb : bytes_ok input) :
  pcEcAdd input gas =
    (if decide (150 <= gas) then
       match bn_decode (window input 0 64), bn_decode (window input 64 64) with
       | Some P, Some Q => Ok (bn_encode (ec_add bnP P Q), gas - 150)
       | _, _ => Err Exec
       end
     else Err OOG) /\
  pcEcMul input gas =
    (if decide (6000 <= gas) then
       match bn_decode (window input 0 64) with
       | Some P => Ok (bn_encode (ec_scale bnP (be_val (window input 64 32)) P), gas - 6000)
       | None => Err Exec
       end
     else Err OOG).
Proof. split; [by apply pcEcAdd_spec|by apply pcEcMul_spec]. Qed.

Definition w_g1 : bytes := be_bytes 32 1 ++ be_bytes 32 2.
Definition w_2g1 : apoint := ec_double bnP (Some (1, 2)).

Lemma bn_group_correct_witness :
  pcEcAdd (w_g1 ++ w_g1) 150 = Ok (bn_encode w_2g1, 0) /\ pcEcMul (w_g1 ++ be_bytes 32 2) 6000 = Ok (bn_encode w_2g1, 0).
Proof.
  assert (bytes_ok w_g1) as Hg by (apply bytes_ok_app; apply be_bytes_ok).
  split.
  - rewrite (proj1 (bn_group_correct (w_g1 ++ w_g1) 150 (bytes_ok_app _ _ Hg Hg))). vm_compute. reflexivity.
  - rewrite (proj2 (bn_group_correct (w_g1 ++ be_bytes 32 2) 6000 (bytes_ok_app _ _ Hg (be_bytes_ok _ _)))). vm_compute. reflexivity.
Defined.

(** C17: The tower of fields under the pairing: on the six coefficients in [w], pairs of integers
    that stand for [x + y i], the product of the code is modulo the prime the product of
    polynomials with [i^2 = -1] and [w^6 = 9 + i], which is associative; [fp12Inv] returns an
    inverse for this product, and panics only on an element that has none. *)
Theorem fp12_arithmetic a b :
  Forall2 geq (coeffs (fp12Mul a b)) (ref_product (coeffs a) (coeffs b)) /\
  (forall c, eq12 (fp12Mul a (fp12Mul b c)) (fp12Mul (fp12Mul a b) c)) /\
  match fp12Inv a with
  | Ok i => Forall2 geq (ref_product (coeffs a) (coeffs i)) ref_one
  | Panic => forall c, ~ Forall2 geq (ref_product (coeffs a) (coeffs c)) ref_one
  | _ => False
  end.
Proof. split; [apply fp12Mul_reference|]. split; [intros c; apply fp12Mul_assoc|apply fp12Inv_reference]. Qed.

(** C19: The pairing accepts no pair whose second point is on the twist of the
    specification, [y^2 = x^3 + 3 / xi]: the code tests [y^2 = x^3 + 3 xi]. *)
Theorem pairing_rejects_the_twist input gas i
  (Hb : bytes_ok input) (Hi : (i < length input / 192)%nat) (Ht : spec_twist_bytes (pair_g2 input i)) :
  forall r, pcEcPairing input gas <> Ok r.
Proof.
  intros [out rest] E. pose proof (pcEcPairing_spec input gas Hb) as H. cbv zeta in H. rewrite E in H.
  destruct H as (_ & _ & _ & _ & H). destruct (H i Hi) as (P & q & _ & Hq).
  rewrite <- g2Unmarshal_decode in Hq; [|by apply bytes_ok_slice|by apply length_pair_g2].
  rewrite (g2Unmarshal_spec_twist (pair_g2 input i)) in Hq; [discriminate Hq|by apply bytes_ok_slice|exact Ht].
Qed.

(** The generators of the two groups. *)
Definition w_g2 : bytes :=
  be_bytes 32 11559732032986387107991004021392285783925812861821192530917403151452391805634 ++
  be_bytes 32 10857046999023057135944570762232829481370756359578518086990519993285655852781 ++
  be_bytes 32 4082367875863433681332203403145435568316851327593401208105741076214120093531 ++
  be_bytes 32 8495653923123431417604973247489272438418190587263600148770280649306958101930.

Lemma pairing_rejects_the_twist_witness : is_ok (pcEcPairing (w_g1 ++ w_g2) 79000) = false.
Proof.
  assert (forall r, pcEcPairing (w_g1 ++ w_g2) 79000 <> Ok r) as H.
  - apply (pairing_rejects_the_twist (w_g1 ++ w_g2) 79000 0).
    + unfold w_g1, w_g2. input_ok.
    + vm_compute. lia.
    + split; [split; vm_compute; reflexivity|]. vm_compute. intros (E & _). discriminate E.
  - destruct (pcEcPairing (w_g1 ++ w_g2) 79000) as [r|e| |]; [destruct (H r); reflexivity|reflexivity..].
Defined.

(** A point of order two of the curve that the code tests. *)
Definition w_order_two : bytes :=
  be_bytes 32 0x10012309662d489cf5b740c436868bb4a33d6c3d169c82b155222f3c0affcdb7 ++
  be_bytes 32 0x0ebf989f2ffdbacd584fb07a34dc40ccfc41877bd47b19542f612851a00ae075 ++ zeros 64.

(** A pairing of 192 bytes crashes the node: its second point has order two, the
    Miller loop takes the tangent at it, and the inverse of zero is nil. *)
Theorem pairing_panics : RunPrecompile 8 (w_g1 ++ w_order_two) 79000 = Panic.
Proof. vm_compute. reflexivity. Qed.

(** C18: The point evaluation accepts exactly the inputs whose commitment has the
    versioned hash, whose scalars are reduced and whose points decompress, unless
    the difference [C - y G] and the proof are both infinite and [z] is not zero:
    a finite proof is accepted whatever it proves. It never panics. *)
Theorem pcKZG_exact input gas (Hb : bytes_ok input) :
  match pcKZG input gas with
  | Ok (out, rest) => 50000 <= gas /\ kzg_accepts input /\ out = kzg_output /\ rest = gas - 50000
  | Err e => e = OOG /\ gas < 50000 \/ e = Exec /\ ~ kzg_accepts input
  | _ => False
  end.
Proof. by apply pcKZG_spec. Qed.

(** The commitment to the zero polynomial, the value 1 at 5, and the infinite point as a proof. *)
Definition w_inf : bytes := 0xc0 :: zeros 47.
Definition w_kzg : bytes := versioned_hash w_inf ++ be_bytes 32 5 ++ be_bytes 32 1 ++ w_inf ++ w_inf.

Lemma pcKZG_exact_witness : pcKZG w_kzg 50000 = Ok (kzg_output, 0) /\ kzg_accepts w_kzg.
Proof.
  assert (bytes_ok w_kzg) as Hb.
  { unfold w_kzg, w_inf. input_ok. apply Forall_insert; [apply Sum256_ok|unfold is_byte; lia]. }
  pose proof (pcKZG_exact w_kzg 50000 Hb) as H.
  assert (pcKZG w_kzg 50000 = Ok (kzg_output, 0)) as E by (vm_compute; reflexivity). rewrite E in *.
  destruct H as (_ & Ha & _ & _). split; [reflexivity|exact Ha].
Defined.

(** C20: The BLAKE2 contract reads the rounds, the state, the block, the counter and
    the flag, and answers with the compression function written by rows, as the
    standard states it; it charges one unit a round and refuses other sizes and
    flags. *)
Theorem pcBlake2F_correct input gas :
  pcBlake2F input gas =
    if decide (length input = 213%nat) then
      if decide (pc_cost 9 input <= gas) then
        if decide (input !!! 212%nat = 0 \/ input !!! 212%nat = 1) then Ok (blake_value input, gas - pc_cost 9 input)
        else Err Exec
      else Err OOG
    else Err Exec.
Proof. apply pcBlake2F_spec. Qed.

(** C21: The recovery contract answers with the address of the point that the
    signature recovers, on 32 bytes, and with nothing when there is none. *)
Theorem pcEcrecover_correct input gas (Hb : bytes_ok input) :
  pcEcrecover input gas = Err OOG /\ gas < 3000 \/
  3000 <= gas /\ exists out, pcEcrecover input gas = Ok (out, gas - 3000) /\
    ((exists x y, input_recovers input (Some (x, y)) /\ out = point_address x y) \/
     out = [] /\ forall Q, input_recovers input Q -> Q = None).
Proof. by apply pcEcrecover_spec. Qed.

Lemma pcEcrecover_correct_witness : exists out, pcEcrecover abc 3000 = Ok (out, 0) /\ out = [].
Proof.
  assert (bytes_ok abc) as Hb by (unfold abc; input_ok).
  destruct (pcEcrecover_correct abc 3000 Hb) as [[_ H]|(_ & out & E & H)]; [lia|].
  exists out. split; [exact E|]. assert (pcEcrecover abc 3000 = Ok ([], 0)) as E' by (vm_compute; reflexivity).
  rewrite E' in E. injection E as <-. reflexivity.
Defined.
